(** * Ticket manager: ordering, numbering and step cascade

    A shallow embedding of the ticket/step engine of the ticket manager:
    the Express/SQLite gateway of [server.js] and the browser client, in
    its later revision (numbering modes, debounced notes, drag
    reordering).  The earlier client revision [app.js] has the same
    delete, navigation and step code; its number generator, which differs,
    is embedded next to the later one.

    - [Gateway]: the two tables and the eight request handlers.
    - [Client]: the module-level variables of the client and the
      functions that change them.  Every function that calls [fetch]
      takes [online]: [true] when the request is answered (with whatever
      status), [false] when [fetch] rejects and the [catch] branch runs.
      A request that is answered is answered before the next one is sent.
    - [EventLoop]: the client together with the timers armed by
      [setTimeout] and a clock in milliseconds, for the debounced notes.

    JavaScript numbers that the code uses as identifiers, ticket numbers
    and positions are integers here ([Z]); [-1] is kept as the result of
    [findIndex] on a miss.  Where the code adds to a number it has read
    back (a ticket number, an [order_index]) the sum is the one doubles
    give ([JsNumber]).  The columns [created_at] and [updated_at] and the
    DOM are left out, but for two places where the code depends on
    them: [renderTickets] throws on an entry of [tickets] that has no
    colour, and the notes export reads the text areas. *)

From Stdlib Require Import ZArith Lia.
From stdpp Require Import base option list sorting gmap strings.

Local Open Scope Z_scope.
#[local] Set Warnings "-clear-no-such-hyp".

(** ** Entities *)

Module Ticket.
Record t : Type := mk {
  id : Z;
  ticket_number : Z;
  color : string;
  notes : string;
  current_step_id : option Z;      (* [None] is SQL NULL / JS null *)
  order_index : Z
}.

Definition set_ticket_number (n : Z) (x : t) : t :=
  mk (id x) n (color x) (notes x) (current_step_id x) (order_index x).
Definition set_color (c : string) (x : t) : t :=
  mk (id x) (ticket_number x) c (notes x) (current_step_id x) (order_index x).
Definition set_notes (s : string) (x : t) : t :=
  mk (id x) (ticket_number x) (color x) s (current_step_id x) (order_index x).
Definition set_current_step_id (s : option Z) (x : t) : t :=
  mk (id x) (ticket_number x) (color x) (notes x) s (order_index x).
Definition set_order_index (i : Z) (x : t) : t :=
  mk (id x) (ticket_number x) (color x) (notes x) (current_step_id x) i.
End Ticket.

Module Step.
Record t : Type := mk {
  id : Z;
  name : string;
  order_index : Z
}.

Definition set_name (s : string) (x : t) : t := mk (id x) s (order_index x).
Definition set_order_index (i : Z) (x : t) : t := mk (id x) (name x) i.
End Step.

(** Request bodies.  A field that is absent from the JSON body reads as
    [undefined] on the server: [None] here. *)
Module TicketBody.
Record t : Type := mk {
  ticket_number : option Z;
  color : option string;
  notes : option string;
  current_step_id : option (option Z);   (* [Some None] is an explicit null *)
  order_index : option Z
}.
Definition empty : t := mk None None None None None.
End TicketBody.

Module StepBody.
Record t : Type := mk {
  name : option string;
  order_index : option Z
}.
Definition empty : t := mk None None.
End StepBody.

(** ** Arrays the JavaScript way *)

Section JsArray.
Context {A : Type}.

(** [arr.find(p)]: the first element that satisfies [p]. *)
Fixpoint js_find (p : A → bool) (l : list A) : option A :=
  match l with
  | [] => None
  | x :: l' => if p x then Some x else js_find p l'
  end.

(** [arr.findIndex(p)]: the first position, or [-1]. *)
Fixpoint js_findIndex_from (p : A → bool) (l : list A) (i : Z) : Z :=
  match l with
  | [] => -1
  | x :: l' => if p x then i else js_findIndex_from p l' (i + 1)
  end.
Definition js_findIndex (p : A → bool) (l : list A) : Z :=
  js_findIndex_from p l 0.

(** The object returned by [find] is shared with the array: a write to
    it is a write to the first matching element. *)
Fixpoint update_first (p : A → bool) (f : A → A) (l : list A) : list A :=
  match l with
  | [] => []
  | x :: l' => if p x then f x :: l' else x :: update_first p f l'
  end.

(** [arr[i]] for a JS number [i]: [undefined] outside the array. *)
Definition js_nth (l : list A) (i : Z) : option A :=
  if i <? 0 then None else l !! Z.to_nat i.

(** The start position [splice] works with: a negative start counts
    from the end, and the result is clamped to [0, length]. *)
Definition splice_start (l : list A) (start : Z) : nat :=
  let len := Z.of_nat (length l) in
  Z.to_nat (if start <? 0 then Z.max (len + start) 0 else Z.min start len).

(** [const [item] = arr.splice(start, 1)]: the removed element
    ([undefined] when there is none) and the remaining array. *)
Definition splice_take (l : list A) (start : Z) : option A * list A :=
  let k := splice_start l start in
  (l !! k, take k l ++ drop (S k) l).

(** [arr.splice(start, 0, item)]. *)
Definition splice_put (l : list A) (start : Z) (item : A) : list A :=
  let k := splice_start l start in
  take k l ++ item :: drop k l.

(** [arr.forEach((x, i) => ...)] where the body rewrites [x] from [i]. *)
Fixpoint mapi_from (f : Z → A → A) (l : list A) (i : Z) : list A :=
  match l with
  | [] => []
  | x :: l' => f i x :: mapi_from f l' (i + 1)
  end.
Definition mapi (f : Z → A → A) (l : list A) : list A := mapi_from f l 0.
End JsArray.

(** [a || b] on strings: the empty string is falsy. *)
Definition or_string (a : option string) (b : string) : string :=
  match a with
  | Some s => if String.eqb s "" then b else s
  | None => b
  end.

(** [a || null] on an identifier: [undefined], [null] and [0] give null. *)
Definition or_null (a : option Z) : option Z :=
  match a with
  | Some n => if n =? 0 then None else Some n
  | None => None
  end.

(** ** Numbers *)

Module JsNumber.

(** The double nearest to the integer [x], ties to the even
    significand: every integer up to 2^53 in magnitude is a double,
    beyond that the low bits are rounded away.  (Nothing here comes near
    the largest double.) *)
Definition round (x : Z) : Z :=
  let a := Z.abs x in
  if a <=? 2 ^ 53 then x else
  let ulp := 2 ^ (Z.log2 a - 52) in
  let q := a / ulp in
  let r := a mod ulp in
  let q' :=
    if 2 * r <? ulp then q
    else if ulp <? 2 * r then q + 1
    else if Z.even q then q else q + 1 in
  Z.sgn x * (q' * ulp).

(** [a + b] on two numbers that hold integers. *)
Definition add (a b : Z) : Z := round (a + b).

End JsNumber.

(** ** The persistence gateway ([server.js])

    The tables are those of [initDatabase]: ids are AUTOINCREMENT
    primary keys, [tickets.ticket_number] is UNIQUE, and
    [tickets.current_step_id] references [steps(id)] (the SQLite build
    that [better-sqlite3] ships enforces foreign keys).  A statement that
    breaks a constraint throws, and each handler answers 500 from its
    [catch]. *)

Module Gateway.

Record Database : Type := mkDb {
  tickets : list Ticket.t;          (* table [tickets], in rowid order *)
  steps : list Step.t;              (* table [steps], in rowid order *)
  tickets_seq : Z;                  (* AUTOINCREMENT: largest id given so far *)
  steps_seq : Z
}.

Inductive Response (A : Type) : Type :=
| Reply (status : Z) (body : A)
| Failure (status : Z) (error : string).
Arguments Reply {A} status body.
Arguments Failure {A} status error.

Definition status {A} (r : Response A) : Z :=
  match r with Reply s _ => s | Failure s _ => s end.

(** [SELECT MAX(c) FROM t]: NULL on an empty table. *)
Definition sql_max (l : list Z) : option Z :=
  match l with
  | [] => None
  | x :: l' => Some (foldr Z.max x l')
  end.

(** The id an AUTOINCREMENT column gives to the next row. *)
Definition next_rowid (seq : Z) (ids : list Z) : Z :=
  Z.max seq (default 0 (sql_max ids)) + 1.

(** Table constraints of [tickets]: [ticket_number] is UNIQUE and
    [current_step_id] REFERENCES [steps(id)]. *)
Definition unique_number (self : Z) (n : Z) (rows : list Ticket.t) : bool :=
  forallb (λ r, (Ticket.id r =? self) || negb (Ticket.ticket_number r =? n)) rows.

Definition step_exists (s : option Z) (rows : list Step.t) : bool :=
  match s with
  | None => true
  | Some k => existsb (λ r, Step.id r =? k) rows
  end.

Definition ticket_row_ok (r : Ticket.t) (db : Database) : bool :=
  unique_number (Ticket.id r) (Ticket.ticket_number r) (tickets db)
  && step_exists (Ticket.current_step_id r) (steps db).

(** On UPDATE the foreign key is looked at only when the statement
    writes [current_step_id]. *)
Definition ticket_update_ok (body : TicketBody.t) (r : Ticket.t)
    (db : Database) : bool :=
  unique_number (Ticket.id r) (Ticket.ticket_number r) (tickets db)
  && match TicketBody.current_step_id body with
     | Some s => step_exists s (steps db)
     | None => true
     end.

(** [ORDER BY order_index ASC, ticket_number ASC]. *)
Definition ticket_le (a b : Ticket.t) : Prop :=
  Ticket.order_index a < Ticket.order_index b
  ∨ (Ticket.order_index a = Ticket.order_index b
     ∧ Ticket.ticket_number a ≤ Ticket.ticket_number b).

Global Instance ticket_le_dec a b : Decision (ticket_le a b).
Proof. unfold ticket_le. apply _. Defined.

(** [ORDER BY order_index ASC]. *)
Definition step_le (a b : Step.t) : Prop :=
  Step.order_index a ≤ Step.order_index b.

Global Instance step_le_dec a b : Decision (step_le a b).
Proof. unfold step_le. apply _. Defined.

(** GET /api/tickets *)
Definition get_tickets (db : Database) : list Ticket.t :=
  merge_sort ticket_le (tickets db).

(** GET /api/steps *)
Definition get_steps (db : Database) : list Step.t :=
  merge_sort step_le (steps db).

(** POST /api/tickets *)
Definition post_ticket (body : TicketBody.t) (db : Database)
  : Response Ticket.t * Database :=
  let idx :=
    match TicketBody.order_index body with
    | Some n => n
    | None =>
      JsNumber.add (default (-1) (sql_max (Ticket.order_index <$> tickets db))) 1
    end in
  match TicketBody.ticket_number body with
  | None => (Failure 500 "Failed to create ticket", db)   (* NOT NULL *)
  | Some num =>
    let rowid := next_rowid (tickets_seq db) (Ticket.id <$> tickets db) in
    let row :=
      Ticket.mk rowid num
        (or_string (TicketBody.color body) "white")
        (or_string (TicketBody.notes body) "")
        (or_null (mjoin (TicketBody.current_step_id body)))
        idx in
    if ticket_row_ok row db
    then (Reply 201 row,
          mkDb (tickets db ++ [row]) (steps db) rowid (steps_seq db))
    else (Failure 500 "Failed to create ticket", db)
  end.

(** The assignments that PUT /api/tickets/:id collects in [updates]. *)
Definition assign_ticket (body : TicketBody.t) (r : Ticket.t) : Ticket.t :=
  let r := match TicketBody.color body with
           | Some c => Ticket.set_color c r | None => r end in
  let r := match TicketBody.notes body with
           | Some s => Ticket.set_notes s r | None => r end in
  let r := match TicketBody.current_step_id body with
           | Some s => Ticket.set_current_step_id s r | None => r end in
  let r := match TicketBody.ticket_number body with
           | Some n => Ticket.set_ticket_number n r | None => r end in
  match TicketBody.order_index body with
  | Some i => Ticket.set_order_index i r | None => r end.

(** PUT /api/tickets/:id.  The SET clause always holds
    [updated_at = CURRENT_TIMESTAMP], so the statement is well formed
    for every body. *)
Definition put_ticket (id : Z) (body : TicketBody.t) (db : Database)
  : Response (option Ticket.t) * Database :=
  match js_find (λ r, Ticket.id r =? id) (tickets db) with
  | None => (Reply 200 None, db)
  | Some r =>
    let r' := assign_ticket body r in
    if ticket_update_ok body r' db
    then (Reply 200 (Some r'),
          mkDb (update_first (λ r, Ticket.id r =? id) (λ _, r') (tickets db))
               (steps db) (tickets_seq db) (steps_seq db))
    else (Failure 500 "Failed to update ticket", db)
  end.

(** DELETE /api/tickets/:id *)
Definition delete_ticket (id : Z) (db : Database)
  : Response string * Database :=
  let rows := filter (λ r, Ticket.id r ≠ id) (tickets db) in
  if decide (length rows = length (tickets db))
  then (Failure 404 "Ticket not found", db)
  else (Reply 200 "Ticket deleted successfully",
        mkDb rows (steps db) (tickets_seq db) (steps_seq db)).

(** POST /api/steps: [stmt.run(name, order_index || 0)]. *)
Definition post_step (body : StepBody.t) (db : Database)
  : Response Step.t * Database :=
  match StepBody.name body with
  | None => (Failure 500 "Failed to create step", db)     (* NOT NULL *)
  | Some nm =>
    let rowid := next_rowid (steps_seq db) (Step.id <$> steps db) in
    let row := Step.mk rowid nm (default 0 (StepBody.order_index body)) in
    (Reply 201 row,
     mkDb (tickets db) (steps db ++ [row]) (tickets_seq db) rowid)
  end.

Definition assign_step (body : StepBody.t) (r : Step.t) : Step.t :=
  let r := match StepBody.name body with
           | Some s => Step.set_name s r | None => r end in
  match StepBody.order_index body with
  | Some i => Step.set_order_index i r | None => r end.

(** The list [updates] of PUT /api/steps/:id, one entry per field
    present in the body. *)
Definition step_updates (body : StepBody.t) : list string :=
  match StepBody.name body with Some _ => ["name = ?"] | None => [] end
  ++ match StepBody.order_index body with
     | Some _ => ["order_index = ?"] | None => [] end.

(** PUT /api/steps/:id.  With no assignment the statement reads
    [UPDATE steps SET  WHERE id = ?], which [db.prepare] refuses; the
    handler's [catch] answers 500. *)
Definition put_step (id : Z) (body : StepBody.t) (db : Database)
  : Response (option Step.t) * Database :=
  match step_updates body with
  | [] => (Failure 500 "Failed to update step", db)
  | _ :: _ =>
    match js_find (λ r, Step.id r =? id) (steps db) with
    | None => (Reply 200 None, db)
    | Some r =>
      let r' := assign_step body r in
      (Reply 200 (Some r'),
       mkDb (tickets db)
            (update_first (λ r, Step.id r =? id) (λ _, r') (steps db))
            (tickets_seq db) (steps_seq db))
    end
  end.

(** DELETE /api/steps/:id: first the tickets on the step are set to
    NULL, then the step row goes. *)
Definition delete_step (id : Z) (db : Database)
  : Response string * Database :=
  let cleared :=
    (λ r, if decide (Ticket.current_step_id r = Some id)
          then Ticket.set_current_step_id None r else r) <$> tickets db in
  let rows := filter (λ r, Step.id r ≠ id) (steps db) in
  if decide (length rows = length (steps db))
  then (Failure 404 "Step not found",
        mkDb cleared (steps db) (tickets_seq db) (steps_seq db))
  else (Reply 200 "Step deleted successfully",
        mkDb cleared rows (tickets_seq db) (steps_seq db)).

(** GET /api/tickets/:id *)
Definition get_ticket (id : Z) (db : Database) : Response Ticket.t :=
  match js_find (λ r, Ticket.id r =? id) (tickets db) with
  | Some r => Reply 200 r
  | None => Failure 404 "Ticket not found"
  end.

(** GET /api/steps/:id *)
Definition get_step (id : Z) (db : Database) : Response Step.t :=
  match js_find (λ r, Step.id r =? id) (steps db) with
  | Some r => Reply 200 r
  | None => Failure 404 "Step not found"
  end.

End Gateway.

(** ** The client *)

Module Client.

Record AppSettings : Type := mkSettings {
  customNumbering : bool;
  randomTwoDigitNumbers : bool
}.

(** The calls [fetch] is asked to make. *)
Inductive Request : Type :=
| GET_tickets
| GET_steps
| POST_ticket (body : TicketBody.t)
| PUT_ticket (id : Z) (body : TicketBody.t)
| DELETE_ticket (id : Z)
| POST_step (body : StepBody.t)
| PUT_step (id : Z) (body : StepBody.t)
| DELETE_step (id : Z).

Record ChangeEntry : Type := mkChange {
  type : string;
  step : option Step.t;
  description : string
}.

(** The module-level variables of the client, the store behind
    [API_URL], and two logs: the requests handed to [fetch] and the
    messages handed to [showError]. *)
Record World : Type := mkWorld {
  tickets : list Ticket.t;
  steps : list Step.t;
  usedTicketNumbers : gset Z;
  appSettings : AppSettings;
  undoHistory : list (string * Step.t);
  changeLog : list ChangeEntry;
  hasUnsavedChanges : bool;
  db : Gateway.Database;
  sent : list Request;
  notices : list string
}.

Definition set_tickets (v : list Ticket.t) (w : World) : World :=
  mkWorld v (steps w) (usedTicketNumbers w) (appSettings w) (undoHistory w)
          (changeLog w) (hasUnsavedChanges w) (db w) (sent w) (notices w).
Definition set_steps (v : list Step.t) (w : World) : World :=
  mkWorld (tickets w) v (usedTicketNumbers w) (appSettings w) (undoHistory w)
          (changeLog w) (hasUnsavedChanges w) (db w) (sent w) (notices w).
Definition set_used (v : gset Z) (w : World) : World :=
  mkWorld (tickets w) (steps w) v (appSettings w) (undoHistory w)
          (changeLog w) (hasUnsavedChanges w) (db w) (sent w) (notices w).
Definition set_undoHistory (v : list (string * Step.t)) (w : World) : World :=
  mkWorld (tickets w) (steps w) (usedTicketNumbers w) (appSettings w) v
          (changeLog w) (hasUnsavedChanges w) (db w) (sent w) (notices w).
Definition set_changeLog (v : list ChangeEntry) (w : World) : World :=
  mkWorld (tickets w) (steps w) (usedTicketNumbers w) (appSettings w)
          (undoHistory w) v (hasUnsavedChanges w) (db w) (sent w) (notices w).
Definition set_hasUnsavedChanges (v : bool) (w : World) : World :=
  mkWorld (tickets w) (steps w) (usedTicketNumbers w) (appSettings w)
          (undoHistory w) (changeLog w) v (db w) (sent w) (notices w).
Definition set_db (v : Gateway.Database) (w : World) : World :=
  mkWorld (tickets w) (steps w) (usedTicketNumbers w) (appSettings w)
          (undoHistory w) (changeLog w) (hasUnsavedChanges w) v (sent w)
          (notices w).

(** [fetch(...)] is called: the request is on its way. *)
Definition send (r : Request) (w : World) : World :=
  mkWorld (tickets w) (steps w) (usedTicketNumbers w) (appSettings w)
          (undoHistory w) (changeLog w) (hasUnsavedChanges w) (db w)
          (sent w ++ [r]) (notices w).

Definition showError (msg : string) (w : World) : World :=
  mkWorld (tickets w) (steps w) (usedTicketNumbers w) (appSettings w)
          (undoHistory w) (changeLog w) (hasUnsavedChanges w) (db w)
          (sent w) (notices w ++ [msg]).

Definition has_ticket_id (ticketId : Z) (t : Ticket.t) : bool :=
  Ticket.id t =? ticketId.
Definition has_step_id (stepId : Z) (s : Step.t) : bool :=
  Step.id s =? stepId.

(** *** Numbering *)

(** The [do ... while] of the random mode.  [random k] is the value of
    [Math.floor(Math.random() * 90)] at the [k]-th draw of this call;
    [guard] counts the draws made.  The loop leaves by [break] once
    [guard] exceeds 500, so [fuel] = 500 covers every run. *)
Fixpoint drawTicketNumber (used : gset Z) (random : nat → Z)
    (guard : nat) (fuel : nat) : Z :=
  let number := random guard + 10 in
  let guard := S guard in
  if decide (500 < guard)%nat then number
  else if decide (number ∈ used) then
    match fuel with
    | O => number
    | S fuel => drawTicketNumber used random guard fuel
    end
  else number.

(** [usedTicketNumbers.forEach(n => { if (typeof n === 'number' &&
    n > max) max = n; })] starting from [max = 0]; every member of the
    set is a number here. *)
Definition maxUsed (used : gset Z) : Z :=
  set_fold (λ n max, if decide (max < n) then n else max) 0 used.

Definition generateNewTicketNumber (random : nat → Z) (w : World)
  : Z * World :=
  if randomTwoDigitNumbers (appSettings w) then
    let number := drawTicketNumber (usedTicketNumbers w) random 0 500 in
    (number, set_used ({[number]} ∪ usedTicketNumbers w) w)
  else
    let max := maxUsed (usedTicketNumbers w) in
    let sum := JsNumber.add max 1 in
    let next := if sum =? 0 then 1 else sum in             (* max + 1 || 1 *)
    (next, set_used ({[next]} ∪ usedTicketNumbers w) w).

(** The earlier revision ([app.js]) draws without a guard; [fuel]
    bounds the draws the model follows, [None] when it is used up. *)
Fixpoint generateRandomTicketNumber_loop (used : gset Z) (random : nat → Z)
    (k : nat) (fuel : nat) : option Z :=
  match fuel with
  | O => None
  | S fuel =>
    let number := random k + 10 in
    if decide (number ∈ used)
    then generateRandomTicketNumber_loop used random (S k) fuel
    else Some number
  end.

Definition generateRandomTicketNumber (random : nat → Z) (fuel : nat)
    (w : World) : option (Z * World) :=
  number ← generateRandomTicketNumber_loop (usedTicketNumbers w) random 0 fuel;
  Some (number, set_used ({[number]} ∪ usedTicketNumbers w) w).

(** *** Tickets *)

Definition DEFAULT_COLORS : list string := ["pink"; "orange"; "yellow"; "blue"].

Definition pickNextDefaultColor (lastColor : option string) : string :=
  let idx :=
    match lastColor with
    | Some c => js_findIndex (String.eqb c) DEFAULT_COLORS
    | None => -1
    end in
  if idx =? -1 then "pink"
  else default "pink"
         (js_nth DEFAULT_COLORS ((idx + 1) `mod` Z.of_nat (length DEFAULT_COLORS))).

Definition loadTickets (online : bool) (w : World) : World :=
  let w := send GET_tickets w in
  if online then
    let rows := Gateway.get_tickets (db w) in
    set_used (usedTicketNumbers w ∪ list_to_set (Ticket.ticket_number <$> rows))
             (set_tickets rows w)
  else showError "Failed to load tickets. Make sure the server is running." w.

Definition loadSteps (online : bool) (w : World) : World :=
  let w := send GET_steps w in
  if online then set_steps (Gateway.get_steps (db w)) w
  else showError "Failed to load steps. Make sure the server is running." w.

(** An entry of the array [tickets]: a ticket, or the body
    [{ error }] of a 500 answer, which has none of a ticket's fields. *)
Inductive Entry : Type :=
| Row (t : Ticket.t)
| ErrorObject (error : string).

(** [entry.order_index]; [undefined] on the error object. *)
Definition entry_order_index (e : Entry) : option Z :=
  match e with
  | Row t => Some (Ticket.order_index t)
  | ErrorObject _ => None
  end.

(** What [addTicket] leaves behind.  [tickets] holds tickets in every
    world the other functions are followed from; [ErrorPushed w error]
    is the world [w] with the error object [{ error }] pushed onto its
    [tickets]. *)
Inductive Outcome : Type :=
| Settled (w : World)
| ErrorPushed (w : World) (error : string).

(** The array [tickets] of an outcome. *)
Definition entries (o : Outcome) : list Entry :=
  match o with
  | Settled w => Row <$> tickets w
  | ErrorPushed w error => (Row <$> tickets w) ++ [ErrorObject error]
  end.

(** [addTicket].  The answer is not tested for its status: its body is
    pushed onto [tickets], a ticket after 201 and the error object after
    500.  On the error object [renderTickets] throws (it reads
    [ticket.color.startsWith]), inside the [try], so the [catch] shows
    the error message. *)
Definition addTicket (online : bool) (random : nat → Z) (w : World)
  : Outcome :=
  let lastColor := Ticket.color <$> last (tickets w) in
  let baseLast :=
    match lastColor with
    | Some c => if String.prefix "#" c then None else Some c
    | None => None
    end in
  let nextColor := pickNextDefaultColor baseLast in
  let '(number, w) := generateNewTicketNumber random w in
  let ticketData :=
    TicketBody.mk (Some number) (Some nextColor) (Some "")
      (Some (Step.id <$> head (steps w)))
      (Some (Z.of_nat (length (tickets w)))) in
  let w := send (POST_ticket ticketData) w in
  if online then
    match Gateway.post_ticket ticketData (db w) with
    | (Gateway.Reply _ newTicket, db') =>
      Settled (set_tickets (tickets w ++ [newTicket]) (set_db db' w))
    | (Gateway.Failure _ error, db') =>
      ErrorPushed (showError "Failed to add ticket." (set_db db' w)) error
    end
  else Settled (showError "Failed to add ticket." w).

(** [Object.assign(ticket, updates)]. *)
Definition Object_assign (updates : TicketBody.t) (t : Ticket.t) : Ticket.t :=
  Gateway.assign_ticket updates t.

(** [updateTicket]: the local copy is written once [fetch] resolves,
    whatever status the gateway answered. *)
Definition updateTicket (online : bool) (ticketId : Z)
    (updates : TicketBody.t) (w : World) : World :=
  let w := send (PUT_ticket ticketId updates) w in
  if online then
    let w := set_db (Gateway.put_ticket ticketId updates (db w)).2 w in
    set_tickets
      (update_first (has_ticket_id ticketId) (Object_assign updates) (tickets w)) w
  else showError "Failed to update ticket." w.

Definition deleteTicket (online : bool) (ticketId : Z) (w : World) : World :=
  let w := send (DELETE_ticket ticketId) w in
  if online then
    let w := set_db (Gateway.delete_ticket ticketId (db w)).2 w in
    set_tickets (filter (λ t, Ticket.id t ≠ ticketId) (tickets w)) w
  else showError "Failed to delete ticket." w.

Definition changeTicketStep (online : bool) (ticketId : Z)
    (direction : string) (w : World) : World :=
  match js_find (has_ticket_id ticketId) (tickets w) with
  | None => w
  | Some ticket =>
    let len := Z.of_nat (length (steps w)) in
    if len =? 0 then w else
    let currentIndex :=
      js_findIndex
        (λ s, bool_decide (Some (Step.id s) = Ticket.current_step_id ticket))
        (steps w) in
    let currentIndex :=
      if currentIndex =? -1
      then (if String.eqb direction "right" then -1 else len)
      else currentIndex in
    let newIndex :=
      if String.eqb direction "left"
      then (if 0 <? currentIndex then currentIndex - 1 else 0)
      else (if currentIndex <? len - 1 then currentIndex + 1 else len - 1) in
    let newStepId := or_null (Step.id <$> js_nth (steps w) newIndex) in
    let w :=
      set_tickets
        (update_first (has_ticket_id ticketId)
           (Ticket.set_current_step_id newStepId) (tickets w)) w in
    updateTicket online ticketId
      (TicketBody.mk None None None (Some newStepId) None) w
  end.

(** [finish(true)] of [startEditTicketNumber]; [newNum] is the result
    of [parseInt(input.value, 10)], [None] for NaN. *)
Definition finishEditTicketNumber (online : bool) (ticketId : Z)
    (newNum : option Z) (w : World) : World :=
  match newNum with
  | None => showError "Enter a positive number." w
  | Some newNum =>
    if newNum <=? 0 then showError "Enter a positive number." w
    else if decide (newNum ∈ usedTicketNumbers w)
    then showError "That number is already in use." w
    else
      let w :=
        updateTicket online ticketId
          (TicketBody.mk (Some newNum) None None None None) w in
      let w := set_used ({[newNum]} ∪ usedTicketNumbers w) w in
      let w :=
        match js_find (has_ticket_id ticketId) (tickets w) with
        | Some t => set_used (usedTicketNumbers w ∖ {[Ticket.ticket_number t]}) w
        | None => w
        end in
      set_tickets
        (update_first (has_ticket_id ticketId)
           (Ticket.set_ticket_number newNum) (tickets w)) w
  end.

(** [tickets.forEach((t, i) => { t.order_index = i;
    updateTicket(t.id, { order_index: i }); })]: the writes to the
    objects come first, the requests resolve afterwards, in order. *)
Definition persistTicketOrder (online : bool) (w : World) : World :=
  let w := set_tickets (mapi Ticket.set_order_index (tickets w)) w in
  foldl
    (λ w t,
       updateTicket online (Ticket.id t)
         (TicketBody.mk None None None None (Some (Ticket.order_index t))) w)
    w (tickets w).

(** [moveTicketInArray].  [None] when [splice] removed nothing and an
    [undefined] item would be put into the array. *)
Definition moveTicketInArray (online : bool) (fromIdx toIdx : Z) (w : World)
  : option (bool * World) :=
  if (fromIdx =? -1) || (toIdx =? -1) || (fromIdx =? toIdx)
  then Some (false, w)
  else
    match splice_take (tickets w) fromIdx with
    | (None, _) => None
    | (Some item, rest) =>
      let w := set_tickets (splice_put rest toIdx item) w in
      Some (true, persistTicketOrder online w)
    end.

(** *** Steps *)

Definition addStep (online : bool) (w : World) : option World :=
  let stepData :=
    StepBody.mk (Some "") (Some (Z.of_nat (length (steps w)))) in
  let w := send (POST_step stepData) w in
  if online then
    match Gateway.post_step stepData (db w) with
    | (Gateway.Reply _ newStep, db') =>
      let w := set_steps (steps w ++ [newStep]) (set_db db' w) in
      let w :=
        set_changeLog
          (changeLog w ++ [mkChange "added" (Some newStep) "Added new step"]) w in
      Some (set_hasUnsavedChanges true w)
    | (Gateway.Failure _ _, _) => None
    end
  else Some (showError "Failed to add step." w).

Definition updateStep (online : bool) (stepId : Z) (name : string)
    (w : World) : World :=
  let body := StepBody.mk (Some name) None in
  let w := send (PUT_step stepId body) w in
  if online then
    let w := set_db (Gateway.put_step stepId body (db w)).2 w in
    set_steps (update_first (has_step_id stepId) (Step.set_name name) (steps w)) w
  else showError "Failed to update step." w.

(** [updateStepOrder]; a failed request is rethrown to the caller. *)
Definition updateStepOrder (online : bool) (stepId : Z) (order_index : Z)
    (w : World) : World :=
  let body := StepBody.mk None (Some order_index) in
  let w := send (PUT_step stepId body) w in
  if online then
    let w := set_db (Gateway.put_step stepId body (db w)).2 w in
    set_steps
      (update_first (has_step_id stepId) (Step.set_order_index order_index)
         (steps w)) w
  else w.

(** The re-sequencing pass shared by [moveStep] and the drop handler:
    [steps.forEach((s, i) => { s.order_index = i;
    updates.push(updateStepOrder(s.id, i)); }); await Promise.all(updates)],
    then the change ledger. *)
Definition persistStepOrder (online : bool) (w : World) : World :=
  let w := set_steps (mapi Step.set_order_index (steps w)) w in
  let w :=
    foldl (λ w s, updateStepOrder online (Step.id s) (Step.order_index s) w)
          w (steps w) in
  let w :=
    if online || bool_decide (steps w = [])
    then w else showError "Failed to save new step order." w in
  let w := set_hasUnsavedChanges true w in
  set_changeLog (changeLog w ++ [mkChange "reordered" None "Reordered steps"]) w.

(** [moveStep].  [fromIdx] is a position of [steps], so [splice]
    always removes an element; the other branch is never taken. *)
Definition moveStep (online : bool) (stepId : Z) (delta : Z) (w : World)
  : World :=
  let fromIdx := js_findIndex (has_step_id stepId) (steps w) in
  if fromIdx =? -1 then w else
  let toIdx := fromIdx + delta in
  if (toIdx <? 0) || (Z.of_nat (length (steps w)) <=? toIdx) then w else
  match splice_take (steps w) fromIdx with
  | (None, _) => w
  | (Some moved, rest) =>
    persistStepOrder online (set_steps (splice_put rest toIdx moved) w)
  end.

(** The [drop] handler of the step list.  [draggingStepId] is falsy
    ([None] or [0]) when no drag is going on; [after] says whether the
    pointer was below the middle of the target.  As in [moveStep],
    [fromIdx] is a position of [steps] and [splice] removes an element. *)
Definition dropStep (online : bool) (draggingStepId : option Z)
    (targetId : Z) (after : bool) (w : World) : World :=
  match or_null draggingStepId with
  | None => w
  | Some dragging =>
    if targetId =? dragging then w else
    let fromIdx := js_findIndex (has_step_id dragging) (steps w) in
    let toIdx := js_findIndex (has_step_id targetId) (steps w) in
    if (fromIdx =? -1) || (toIdx =? -1) then w else
    let insertIdx := toIdx + (if after then 1 else 0) in
    let insertIdx := if fromIdx <? insertIdx then insertIdx - 1 else insertIdx in
    match splice_take (steps w) fromIdx with
    | (None, _) => w
    | (Some moved, rest) =>
      persistStepOrder online (set_steps (splice_put rest insertIdx moved) w)
    end
  end.

Definition quote : string := String (Ascii.ascii_of_nat 34) EmptyString.

Definition deleteStep (online : bool) (stepId : Z) (skipUndo : bool)
    (w : World) : World :=
  let deletedStep := js_find (has_step_id stepId) (steps w) in
  let w :=
    match deletedStep with
    | Some d =>
      if skipUndo then w else
      let w := set_undoHistory (undoHistory w ++ [("delete", d)]) w in
      let w :=
        set_changeLog
          (changeLog w ++
             [mkChange "deleted" (Some d)
                ("Deleted step: " +:+ quote
                   +:+ or_string (Some (Step.name d)) "Unnamed" +:+ quote)]) w in
      set_hasUnsavedChanges true w
    | None => w
    end in
  let w := send (DELETE_step stepId) w in
  if online then
    let w := set_db (Gateway.delete_step stepId (db w)).2 w in
    let w := set_steps (filter (λ s, Step.id s ≠ stepId) (steps w)) w in
    set_tickets
      ((λ ticket,
          if decide (Ticket.current_step_id ticket = Some stepId)
          then Ticket.set_current_step_id None ticket else ticket)
         <$> tickets w) w
  else showError "Failed to delete step." w.

End Client.

(** ** Debounced notes *)

Module EventLoop.

(** A timer armed by [setTimeout]: its handle, the time it is due, and
    what its callback closes over. *)
Record Timer : Type := mkTimer {
  handle : nat;
  due : Z;
  ticketId : Z;
  text : string
}.

(** The client together with the timers of the browser and a clock in
    milliseconds. *)
Record Loop : Type := mkLoop {
  world : Client.World;
  notesSaveTimers : gmap Z nat;
  timers : list Timer;
  nextHandle : nat;
  now : Z
}.

Definition clearTimeout (h : nat) (pending : list Timer) : list Timer :=
  filter (λ tm, handle tm ≠ h) pending.

Definition updateTicketNotes (ticketId : Z) (text : string) (l : Loop) : Loop :=
  let w := world l in
  let w :=
    Client.set_tickets
      (update_first (Client.has_ticket_id ticketId) (Ticket.set_notes text)
         (Client.tickets w)) w in
  let pending :=
    match notesSaveTimers l !! ticketId with
    | Some h => clearTimeout h (timers l)
    | None => timers l
    end in
  let timer := nextHandle l in
  mkLoop w (<[ticketId := timer]> (notesSaveTimers l))
         (pending ++ [mkTimer timer (now l + 400) ticketId text])
         (S timer) (now l).

(** The callback of a notes timer. *)
Definition fire (online : bool) (l : Loop) (tm : Timer) : Loop :=
  let w :=
    Client.updateTicket online (ticketId tm)
      (TicketBody.mk None None (Some (text tm)) None None) (world l) in
  mkLoop w (delete (ticketId tm) (notesSaveTimers l)) (timers l)
         (nextHandle l) (now l).

(** Time passes until [t]: the timers due by then run, in the order
    they were armed. *)
Definition advance (online : bool) (t : Z) (l : Loop) : Loop :=
  let ready := filter (λ tm, due tm ≤ t) (timers l) in
  let later := filter (λ tm, ¬ due tm ≤ t) (timers l) in
  foldl (fire online)
        (mkLoop (world l) (notesSaveTimers l) later (nextHandle l)
                (Z.max (now l) t))
        ready.


(** The notes requests among a list of requests, for one ticket. *)
Definition notes_calls (ticketId : Z) (rs : list Client.Request)
  : list string :=
  omap (λ r,
          match r with
          | Client.PUT_ticket i body =>
            if i =? ticketId then TicketBody.notes body else None
          | _ => None
          end) rs.

End EventLoop.

(** ** The routes of the gateway *)

Module Server.

(** The route a request of the client reaches, with the status answered
    and the store left behind. *)
Definition serve (r : Client.Request) (db : Gateway.Database)
  : Z * Gateway.Database :=
  match r with
  | Client.GET_tickets => (200, db)
  | Client.GET_steps => (200, db)
  | Client.POST_ticket body =>
    (Gateway.status (Gateway.post_ticket body db).1,
     (Gateway.post_ticket body db).2)
  | Client.PUT_ticket id body =>
    (Gateway.status (Gateway.put_ticket id body db).1,
     (Gateway.put_ticket id body db).2)
  | Client.DELETE_ticket id =>
    (Gateway.status (Gateway.delete_ticket id db).1,
     (Gateway.delete_ticket id db).2)
  | Client.POST_step body =>
    (Gateway.status (Gateway.post_step body db).1,
     (Gateway.post_step body db).2)
  | Client.PUT_step id body =>
    (Gateway.status (Gateway.put_step id body db).1,
     (Gateway.put_step id body db).2)
  | Client.DELETE_step id =>
    (Gateway.status (Gateway.delete_step id db).1,
     (Gateway.delete_step id db).2)
  end.

(** A run of requests, one after the other. *)
Definition serve_all (rs : list Client.Request) (db : Gateway.Database)
  : Gateway.Database :=
  foldl (λ db r, (serve r db).2) db rs.

(** [ORDER BY ticket_number ASC]. *)
Definition number_le (a b : Ticket.t) : Prop :=
  Ticket.ticket_number a ≤ Ticket.ticket_number b.

Global Instance number_le_dec a b : Decision (number_le a b).
Proof. unfold number_le. apply _. Defined.

(** [let idx = 0; for (const row of all) update.run(idx++, row.id)]. *)
Fixpoint number_rows (all : list Ticket.t) (idx : Z) (rows : list Ticket.t)
  : list Ticket.t :=
  match all with
  | [] => rows
  | row :: all' =>
    number_rows all' (idx + 1)
      (update_first (λ r, Ticket.id r =? Ticket.id row)
         (Ticket.set_order_index idx) rows)
  end.

(** The upgrade [initDatabase] makes to a table of tickets created
    before the column [order_index] existed; [hasOrder] tells whether
    the column is there.  The added column holds its default, 0, in
    every row; then the rows are numbered in the order of their ticket
    numbers. *)
Definition initDatabase (hasOrder : bool) (db : Gateway.Database)
  : Gateway.Database :=
  if hasOrder then db else
  let rows := Ticket.set_order_index 0 <$> Gateway.tickets db in
  let all := merge_sort number_le rows in
  Gateway.mkDb (number_rows all 0 rows) (Gateway.steps db)
    (Gateway.tickets_seq db) (Gateway.steps_seq db).

End Server.

(** ** The ticket board: colours, drops and the delete zone *)

Module Board.

(** [changeTicketColor]: the ticket is recoloured at once, then the
    update is sent. *)
Definition changeTicketColor (online : bool) (ticketId : Z) (color : string)
    (w : Client.World) : Client.World :=
  match js_find (Client.has_ticket_id ticketId) (Client.tickets w) with
  | None => w
  | Some _ =>
    Client.updateTicket online ticketId
      (TicketBody.mk None (Some color) None None None)
      (Client.set_tickets
         (update_first (Client.has_ticket_id ticketId) (Ticket.set_color color)
            (Client.tickets w)) w)
  end.

(** The reorder branch of the [mouseup] handler of a ticket drag that
    did not end in the delete zone.  [target] is the ticket row under the
    pointer, with whether the pointer is right of the row's centre;
    [None] when the drop is on empty space.  [None] as a result only as
    in [moveTicketInArray]. *)
Definition dropTicket (online : bool) (draggedTicketId : option Z)
    (target : option (Z * bool)) (w : Client.World) : option Client.World :=
  match or_null draggedTicketId with
  | None => Some w
  | Some dragged =>
    let len := Z.of_nat (length (Client.tickets w)) in
    let toIdx :=
      match target with
      | Some (targetId, _) =>
        js_findIndex (Client.has_ticket_id targetId) (Client.tickets w)
      | None => len - 1
      end in
    let fromIdx := js_findIndex (Client.has_ticket_id dragged) (Client.tickets w) in
    if (fromIdx =? -1) || (toIdx =? -1) then Some w
    else if fromIdx =? toIdx then Some w
    else
      let insertIdx :=
        match target with
        | Some (_, isRight) =>
          let i :=
            if isRight then toIdx + (if fromIdx <? toIdx then 0 else 1)
            else toIdx + (if fromIdx <? toIdx then -1 else 0) in
          Z.max 0 (Z.min (len - 1) i)
        | None => toIdx
        end in
      snd <$> Client.moveTicketInArray online fromIdx insertIdx w
  end.

(** The client with the selection of the bulk mode and the drag in
    progress.  [selectedTickets] is a JavaScript [Set]: each id once, in
    the order of insertion. *)
Record t : Type := mk {
  world : Client.World;
  selectedTickets : list Z;
  isSelectionMode : bool;
  isDragging : bool;
  draggedTicketId : option Z
}.

Definition enterSelectionMode (b : t) : t :=
  mk (world b) (selectedTickets b) true (isDragging b) (draggedTicketId b).

Definition exitSelectionMode (b : t) : t :=
  mk (world b) [] false (isDragging b) (draggedTicketId b).

(** [toggleSelectionModeTicket] for a ticket that is shown. *)
Definition toggleSelectionModeTicket (ticketId : Z) (b : t) : t :=
  let selected :=
    if decide (ticketId ∈ selectedTickets b)
    then filter (λ i, i ≠ ticketId) (selectedTickets b)
    else selectedTickets b ++ [ticketId] in
  let b := mk (world b) selected (isSelectionMode b) (isDragging b)
              (draggedTicketId b) in
  if decide (length selected = 0%nat) then exitSelectionMode b else b.

(** A click on a ticket row outside its inputs and buttons. *)
Definition clickTicket (ticketId : Z) (b : t) : t :=
  toggleSelectionModeTicket ticketId
    (if isSelectionMode b then b else enterSelectionMode b).

(** The deletes of a list of tickets, one awaited after the other;
    [answered id] tells whether the request for [id] is answered. *)
Definition deleteTickets (answered : Z → bool) (ticketIds : list Z)
    (w : Client.World) : Client.World :=
  foldl (λ w id, Client.deleteTicket (answered id) id w) w ticketIds.

(** [handleDeleteZoneClick].  With several tickets selected the deletes
    run from the confirm dialog: [confirmed] tells whether the user
    agrees. *)
Definition handleDeleteZoneClick (answered : Z → bool) (confirmed : bool)
    (b : t) : t :=
  if isSelectionMode b && (1 <? Z.of_nat (length (selectedTickets b))) then
    if confirmed then
      let w := deleteTickets answered (selectedTickets b) (world b) in
      mk w [] false false None
    else b
  else if isSelectionMode b && (Z.of_nat (length (selectedTickets b)) =? 1) then
    match selectedTickets b with
    | ticketId :: _ =>
      mk (Client.deleteTicket (answered ticketId) ticketId (world b))
         [] false false None
    | [] => b
    end
  else
    match (if isDragging b then or_null (draggedTicketId b) else None) with
    | Some ticketToDelete =>
      mk (Client.deleteTicket (answered ticketToDelete) ticketToDelete (world b))
         (selectedTickets b) (isSelectionMode b) false None
    | None => b
    end.

End Board.

(** ** The settings session and its change ledger *)

Module Settings.

(** The [show.bs.modal] handler of the settings dialog. *)
Definition openSettings (w : Client.World) : Client.World :=
  Client.set_changeLog []
    (Client.set_undoHistory [] (Client.set_hasUnsavedChanges false w)).

Inductive CloseAction : Type :=
| Prompt (descriptions : list string)   (* the discard dialog, with its list *)
| Hide.

(** [handleSettingsClose], with the list [showDiscardChangesModal]
    builds. *)
Definition handleSettingsClose (w : Client.World) : CloseAction :=
  if Client.hasUnsavedChanges w
     || (0 <? Z.of_nat (length (Client.changeLog w)))
  then Prompt (Client.description <$> Client.changeLog w)
  else Hide.

(** The Discard button of that dialog. *)
Definition discardChanges (online : bool) (w : Client.World) : Client.World :=
  Client.loadSteps online w.

(** [saveAllSteps].  [inputs] are the step name fields: the step id and
    the trimmed value of each.  The requests are sent for the fields
    whose value differs from the step's name; when one of them is not
    answered the function leaves through its [catch]. *)
Definition saveOne (w : Client.World) (input : Z * string) : Client.World :=
  let '(stepId, stepName) := input in
  match js_find (Client.has_step_id stepId) (Client.steps w) with
  | Some step =>
    if String.eqb (Step.name step) stepName then w
    else
      Client.set_steps
        (update_first (Client.has_step_id stepId) (Step.set_name stepName)
           (Client.steps w))
        (Client.send (Client.PUT_step stepId (StepBody.mk (Some stepName) None)) w)
  | None => w
  end.

Definition saveAllSteps (online : bool) (inputs : list (Z * string))
    (w : Client.World) : Client.World :=
  let w1 := foldl saveOne w inputs in
  let requests := drop (length (Client.sent w)) (Client.sent w1) in
  if online || bool_decide (requests = []) then
    let w2 := Client.set_db (Server.serve_all requests (Client.db w1)) w1 in
    Client.set_hasUnsavedChanges false (Client.set_changeLog [] w2)
  else Client.showError "Failed to save steps." w1.

End Settings.

(** ** Colours *)

Module Colour.

Definition hexDigits : list Ascii.ascii :=
  String.list_ascii_of_string "0123456789abcdef".

(** [x.toString(16)] for an integer between 0 and 255, which is what
    [rgbToHex] calls it on. *)
Definition toString16 (x : Z) : string :=
  let digit d := default (Ascii.ascii_of_nat 48) (hexDigits !! Z.to_nat d) in
  if x <? 16 then String (digit x) EmptyString
  else String (digit (x / 16)) (String (digit (x `mod` 16)) EmptyString).

(** [rgbToHex] on integer channels. *)
Definition rgbToHex (r g b : Z) : string :=
  let r := Z.max 0 (Z.min 255 r) in
  let g := Z.max 0 (Z.min 255 g) in
  let b := Z.max 0 (Z.min 255 b) in
  let pad x :=
    let hex := toString16 x in
    if (String.length hex =? 1)%nat
    then String (Ascii.ascii_of_nat 48) hex else hex in
  "#" +:+ pad r +:+ pad g +:+ pad b.

(** The value of one character of the class [[a-f\d]] under the flag
    [i]; [None] for any other character. *)
Definition hexValue (c : Ascii.ascii) : option Z :=
  let n := Z.of_nat (Ascii.nat_of_ascii c) in
  if (48 <=? n) && (n <=? 57) then Some (n - 48)
  else if (97 <=? n) && (n <=? 102) then Some (n - 87)
  else if (65 <=? n) && (n <=? 70) then Some (n - 55)
  else None.

(** [parseInt(s, 16)] on the two characters of a group of the match. *)
Definition parsePair (c1 c2 : Ascii.ascii) : option Z :=
  h1 ← hexValue c1; h2 ← hexValue c2; Some (16 * h1 + h2).

(** [hexToRgb]: the pattern wants an optional [#] and then exactly six
    hexadecimal digits. *)
Definition hexToRgb (hex : string) : option (Z * Z * Z) :=
  let digits :=
    match hex with
    | String c rest => if Ascii.eqb c (Ascii.ascii_of_nat 35) then rest else hex
    | EmptyString => hex
    end in
  match String.list_ascii_of_string digits with
  | [r1; r2; g1; g2; b1; b2] =>
    r ← parsePair r1 r2; g ← parsePair g1 g2; b ← parsePair b1 b2;
    Some (r, g, b)
  | _ => None
  end.

End Colour.

(** ** Custom colours *)

Module Palette.

Record t : Type := mk {
  world : Client.World;
  customColors : list string;
  currentColorPickerTicketId : option Z
}.

(** [tickets.forEach(ticket => ...)] where the body works on the
    client: the positions of the array are visited in turn and the
    ticket is read when its turn comes. *)
Definition forEachTicket (f : Ticket.t → Client.World → Client.World)
    (w : Client.World) : Client.World :=
  foldl
    (λ w i, match Client.tickets w !! i with Some t => f t w | None => w end)
    w (seq 0 (length (Client.tickets w))).


(** [removeCustomColor]. *)
Definition removeCustomColor (online : bool) (color : string) (p : t) : t :=
  let index := js_findIndex (String.eqb color) (customColors p) in
  if -1 <? index then
    let colors := (splice_take (customColors p) index).2 in
    mk (forEachTicket
          (λ ticket w,
             if String.eqb (Ticket.color ticket) color
             then Board.changeTicketColor online (Ticket.id ticket) "white" w
             else w)
          (world p))
       colors (currentColorPickerTicketId p)
  else p.

(** The action [clearAllCustomColors] hands to the confirm dialog. *)
Definition clearAllCustomColors (online : bool) (p : t) : t :=
  mk (forEachTicket
        (λ ticket w,
           if String.prefix "#" (Ticket.color ticket)
           then Board.changeTicketColor online (Ticket.id ticket) "white" w
           else w)
        (world p))
     [] (currentColorPickerTicketId p).

End Palette.

(** ** Undo of a step deletion *)

Module Undo.

(** The action behind the Undo button of the toast [deleteStep] shows.
    It closes over the deleted step and the position it had.  When the
    request is not answered the action throws and nothing else
    happens. *)
Definition undoStepDeletion (online : bool) (deletedStep : Step.t)
    (deletedIndex : Z) (w : Client.World) : Client.World :=
  let body :=
    StepBody.mk (Some (Step.name deletedStep)) (Some (Z.max 0 deletedIndex)) in
  let w := Client.send (Client.POST_step body) w in
  if online then
    match Gateway.post_step body (Client.db w) with
    | (Gateway.Reply _ _, db') =>
      Client.set_hasUnsavedChanges true
        (Client.loadSteps online (Client.set_db db' w))
    | (Gateway.Failure _ _, _) => w
    end
  else w.

(** The deletion of a step followed by a click on Undo.  The toast
    with the button is shown once the DELETE request was answered, for
    a step that was in the list. *)
Definition deleteThenUndo (online onlineUndo : bool) (stepId : Z)
    (w : Client.World) : Client.World :=
  let w' := Client.deleteStep online stepId false w in
  match js_find (Client.has_step_id stepId) (Client.steps w) with
  | Some deletedStep =>
    if online then
      undoStepDeletion onlineUndo deletedStep
        (js_findIndex (Client.has_step_id stepId) (Client.steps w)) w'
    else w'
  | None => w'
  end.

End Undo.

(** ** Export and import *)

Module Transfer.

(** A row of the notes export. *)
Record NoteItem : Type := mkNote {
  ticket_number : Z;
  step : option string;
  notes : option string
}.

(** An entry of [steps] and of [tickets.items] in a configuration
    file, and the file as [importConfiguration] reads it: [None] where
    the field is missing. *)
Record StepItem : Type := mkStepItem {
  name : option string;
  order_index : option Z
}.

Record Configuration : Type := mkConfiguration {
  steps : option (list StepItem);
  items : option (list (Z * Z));        (* ticket_number, order_index *)
  customColors : option (list string)
}.



(** [new Map(pairs).get(key)]: the last pair with the key counts. *)
Definition map_get {A K} `{EqDecision K} (pairs : list (K * A)) (key : K)
  : option A :=
  snd <$> last (filter (λ kv, kv.1 = key) pairs).

(** The object [updates] that [importNotes] fills for a row. *)
Definition noteUpdates (stepByName : list (string * Z)) (n : NoteItem)
  : TicketBody.t :=
  let stepId :=
    match step n with
    | Some nm => if String.eqb nm "" then None else map_get stepByName nm
    | None => None
    end in
  TicketBody.mk None None (notes n) (Some <$> stepId) None.

(** One turn of the loop of [importNotes]. *)
Definition importNote (online : bool) (stepByName : list (string * Z))
    (w : Client.World) (n : NoteItem) : Client.World :=
  let same_number x := Ticket.ticket_number x =? ticket_number n in
  match js_find same_number (Client.tickets w) with
  | None => w
  | Some t =>
    let updates := noteUpdates stepByName n in
    let write x :=
      let x := match TicketBody.notes updates with
               | Some s => Ticket.set_notes s x | None => x end in
      match TicketBody.current_step_id updates with
      | Some id => Ticket.set_current_step_id id x
      | None => x
      end in
    let w := Client.set_tickets (update_first same_number write (Client.tickets w)) w in
    match TicketBody.notes updates, TicketBody.current_step_id updates with
    | None, None => w
    | _, _ => Client.updateTicket online (Ticket.id t) updates w
    end
  end.

Definition importNotes (online : bool) (rows : list NoteItem)
    (w : Client.World) : Client.World :=
  let stepByName := (λ s, (Step.name s, Step.id s)) <$> Client.steps w in
  foldl (importNote online stepByName) w rows.

(** The raw POST of a step in [importConfiguration], answered. *)
Definition postStep (w : Client.World) (it : StepItem) : Client.World :=
  let body := StepBody.mk (name it) (order_index it) in
  let w := Client.send (Client.POST_step body) w in
  Client.set_db (Gateway.post_step body (Client.db w)).2 w.

(** The loop over [tickets] of [importConfiguration]: the ticket at
    each position is read when its turn comes. *)
Definition reorderTickets (online : bool) (pairs : list (Z * Z))
    (w : Client.World) : Client.World :=
  foldl
    (λ w i,
       match Client.tickets w !! i with
       | Some t =>
         match map_get pairs (Ticket.ticket_number t) with
         | Some idx =>
           Client.updateTicket online (Ticket.id t)
             (TicketBody.mk None None None None (Some idx))
             (Client.set_tickets
                (<[i := Ticket.set_order_index idx t]> (Client.tickets w)) w)
         | None => w
         end
       | None => w
       end)
    w (seq 0 (length (Client.tickets w))).

(** [showSuccess] and [showError] both call [alert]. *)
Definition showSuccess (msg : string) (w : Client.World) : Client.World :=
  Client.showError msg w.

(** [for (const step of steps) await deleteStep(step.id)]: the loop
    runs over the array [steps] held when it starts. *)
Definition deleteAllSteps (online : bool) (w : Client.World) : Client.World :=
  foldl (λ w s, Client.deleteStep online (Step.id s) false w) w (Client.steps w).

(** The replacement of the steps in [importConfiguration].  When the
    gateway cannot be reached the first raw POST throws: the flag tells
    that the rest of the action is not run. *)
Definition replaceSteps (online : bool) (new_steps : list StepItem)
    (w : Client.World) : Client.World * bool :=
  let w := deleteAllSteps online w in
  match new_steps with
  | [] => (Client.loadSteps online w, false)
  | first :: _ =>
    if online
    then (Client.loadSteps online (foldl postStep w new_steps), false)
    else (Client.send
            (Client.POST_step (StepBody.mk (name first) (order_index first))) w,
          true)
  end.

(** [importConfiguration]; [confirmed] tells whether the user agrees in
    the dialog. *)
Definition importConfiguration (online confirmed : bool)
    (settings : Configuration) (p : Palette.t) : Palette.t :=
  match steps settings, items settings with
  | None, None =>
    Palette.mk (Client.showError "Invalid configuration." (Palette.world p))
      (Palette.customColors p) (Palette.currentColorPickerTicketId p)
  | _, _ =>
    if negb confirmed then p else
    let colors := default (Palette.customColors p) (customColors settings) in
    let '(w, thrown) :=
      match steps settings with
      | Some new_steps => replaceSteps online new_steps (Palette.world p)
      | None => (Palette.world p, false)
      end in
    if thrown then Palette.mk w colors (Palette.currentColorPickerTicketId p)
    else
      let w :=
        match items settings with
        | Some pairs => reorderTickets online pairs w
        | None => w
        end in
      let w := Client.loadTickets online w in
      Palette.mk (showSuccess "Settings imported successfully!" w)
        colors (Palette.currentColorPickerTicketId p)
  end.

End Transfer.

(** ** A session: operations one after the other *)

Module Session.

(** The operations a user can start, each with what the environment
    decides: whether the request is answered, what is drawn. *)
Inductive Op : Type :=
| LoadTickets (online : bool)
| LoadSteps (online : bool)
| AddTicket (online : bool) (random : nat → Z)
| DeleteTicket (online : bool) (ticketId : Z)
| ChangeTicketStep (online : bool) (ticketId : Z) (direction : string)
| ChangeTicketColor (online : bool) (ticketId : Z) (color : string)
| EditTicketNumber (online : bool) (ticketId : Z) (newNum : option Z)
| MoveTicket (online : bool) (fromIdx toIdx : Z)
| DropTicket (online : bool) (dragged : option Z) (target : option (Z * bool))
| AddStep (online : bool)
| UpdateStep (online : bool) (stepId : Z) (name : string)
| MoveStep (online : bool) (stepId : Z) (delta : Z)
| DropStep (online : bool) (dragging : option Z) (targetId : Z) (after : bool)
| DeleteStep (online : bool) (stepId : Z) (skipUndo : bool).

(** One operation, settled.  [None] where [tickets] stops being an
    array of tickets: a create that the gateway refuses (see
    [addTicket]) and a move from a position outside the array (see
    [moveTicketInArray]); a session is followed up to there. *)
Definition step (op : Op) (w : Client.World) : option Client.World :=
  match op with
  | LoadTickets online => Some (Client.loadTickets online w)
  | LoadSteps online => Some (Client.loadSteps online w)
  | AddTicket online random =>
    match Client.addTicket online random w with
    | Client.Settled w' => Some w'
    | Client.ErrorPushed _ _ => None
    end
  | DeleteTicket online ticketId => Some (Client.deleteTicket online ticketId w)
  | ChangeTicketStep online ticketId direction =>
    Some (Client.changeTicketStep online ticketId direction w)
  | ChangeTicketColor online ticketId color =>
    Some (Board.changeTicketColor online ticketId color w)
  | EditTicketNumber online ticketId newNum =>
    Some (Client.finishEditTicketNumber online ticketId newNum w)
  | MoveTicket online fromIdx toIdx =>
    snd <$> Client.moveTicketInArray online fromIdx toIdx w
  | DropTicket online dragged target => Board.dropTicket online dragged target w
  | AddStep online => Client.addStep online w
  | UpdateStep online stepId name => Some (Client.updateStep online stepId name w)
  | MoveStep online stepId delta => Some (Client.moveStep online stepId delta w)
  | DropStep online dragging targetId after =>
    Some (Client.dropStep online dragging targetId after w)
  | DeleteStep online stepId skipUndo =>
    Some (Client.deleteStep online stepId skipUndo w)
  end.

Fixpoint run (ops : list Op) (w : Client.World) : option Client.World :=
  match ops with
  | [] => Some w
  | op :: ops' =>
    match step op w with
    | Some w' => run ops' w'
    | None => None
    end
  end.

Definition is_number_edit (op : Op) : bool :=
  match op with EditTicketNumber _ _ _ => true | _ => false end.

(** [moveTicketInArray] called with positions of the caller's choice;
    the board itself calls it from the drop handler only. *)
Definition is_raw_move (op : Op) : bool :=
  match op with MoveTicket _ _ _ => true | _ => false end.

End Session.

(** ** Notions used in the statements *)

(** The values are exactly [0 .. N-1], each once. *)
Definition Dense (l : list Z) : Prop :=
  l ≡ₚ seqZ 0 (Z.of_nat (length l)).

(** [m] is the maximum of a non-empty collection of numbers. *)
Definition is_max (m : Z) (l : list Z) : Prop :=
  m ∈ l ∧ ∀ n, n ∈ l → n ≤ m.

(** Invariant 5 of the data model: every live ticket number is in the
    used-number set. *)
Definition used_covers_live (w : Client.World) : Prop :=
  ∀ t, t ∈ Client.tickets w → Ticket.ticket_number t ∈ Client.usedTicketNumbers w.

(** The condition under which [moveStep] moves: the step is in the
    list and its target position is a position of the list. *)
Definition moveStep_applies (stepId delta : Z) (w : Client.World) : bool :=
  let fromIdx := js_findIndex (Client.has_step_id stepId) (Client.steps w) in
  negb (fromIdx =? -1)
  && (0 <=? fromIdx + delta)
  && (fromIdx + delta <? Z.of_nat (length (Client.steps w))).

(** The condition under which a drop on the step list reorders. *)
Definition dropStep_applies (draggingStepId : option Z) (targetId : Z)
    (w : Client.World) : bool :=
  match or_null draggingStepId with
  | None => false
  | Some dragging =>
    negb (targetId =? dragging)
    && negb (js_findIndex (Client.has_step_id dragging) (Client.steps w) =? -1)
    && negb (js_findIndex (Client.has_step_id targetId) (Client.steps w) =? -1)
  end.

(** Ticket numbers are positive: the generator and the manual edit
    only let positive numbers in. *)
(** The null-out that both the gateway and the client apply. *)
Definition clear_step (stepId : Z) (t : Ticket.t) : Ticket.t :=
  if decide (Ticket.current_step_id t = Some stepId)
  then Ticket.set_current_step_id None t else t.

(** The request [addTicket] sends. *)
Definition addTicket_body (random : nat → Z) (w : Client.World) : TicketBody.t :=
  TicketBody.mk (Some (Client.generateNewTicketNumber random w).1)
    (Some (Client.pickNextDefaultColor
             (match Ticket.color <$> last (Client.tickets w) with
              | Some c => if String.prefix "#" c then None else Some c
              | None => None
              end)))
    (Some "") (Some (Step.id <$> head (Client.steps w)))
    (Some (Z.of_nat (length (Client.tickets w)))).

(** The step id [changeTicketStep] computes for a ticket whose current
    step is [cur]. *)
Definition navTarget (steps : list Step.t) (cur : option Z) (direction : string)
  : option Z :=
  let len := Z.of_nat (length steps) in
  let currentIndex :=
    js_findIndex (λ s, bool_decide (Some (Step.id s) = cur)) steps in
  let currentIndex :=
    if currentIndex =? -1
    then (if String.eqb direction "right" then -1 else len)
    else currentIndex in
  let newIndex :=
    if String.eqb direction "left"
    then (if 0 <? currentIndex then currentIndex - 1 else 0)
    else (if currentIndex <? len - 1 then currentIndex + 1 else len - 1) in
  or_null (Step.id <$> js_nth steps newIndex).

(** ** Identifiers *)

(** Rowids are positive, given once, and never above the AUTOINCREMENT
    counter of their table. *)
Definition ids_ok (seq : Z) (ids : list Z) : Prop :=
  NoDup ids ∧ ∀ i, i ∈ ids → 0 < i ≤ seq.

Definition db_ok (db : Gateway.Database) : Prop :=
  ids_ok (Gateway.tickets_seq db) (Ticket.id <$> Gateway.tickets db)
  ∧ ids_ok (Gateway.steps_seq db) (Step.id <$> Gateway.steps db).

(** What a request can do to the counters: nothing, or raise them. *)
Definition seq_le (db db' : Gateway.Database) : Prop :=
  Gateway.tickets_seq db ≤ Gateway.tickets_seq db'
  ∧ Gateway.steps_seq db ≤ Gateway.steps_seq db'.

(** The client holds tickets and steps that the store has given ids. *)
Definition mirror_ok (w : Client.World) : Prop :=
  db_ok (Client.db w)
  ∧ ids_ok (Gateway.tickets_seq (Client.db w)) (Ticket.id <$> Client.tickets w)
  ∧ ids_ok (Gateway.steps_seq (Client.db w)) (Step.id <$> Client.steps w).

(** The renumbering requests of a re-sequencing pass as the store
    sees them: for each item of [l] in turn, the stored row with the
    item's id is given the item's [order_index]. *)
Definition store_order {A : Type} (key : A → Z) (pos : A → Z)
    (set_pos : Z → A → A) (rows l : list A) : list A :=
  foldl
    (λ rows t, update_first (λ r, key r =? key t) (set_pos (pos t)) rows)
    rows l.

(** ** Sample states *)

Definition sample_steps : list Step.t :=
  [Step.mk 1 "Intake" 0; Step.mk 2 "Review" 1; Step.mk 3 "Done" 2].

Definition sample_tickets : list Ticket.t :=
  [Ticket.mk 1 5 "pink" "" (Some 1) 0;
   Ticket.mk 2 7 "orange" "a" (Some 3) 1;
   Ticket.mk 3 12 "yellow" "" (Some 3) 2].

Definition sample_db : Gateway.Database :=
  Gateway.mkDb sample_tickets sample_steps 3 3.

(** A freshly loaded client in sequential numbering mode. *)
Definition sample_world : Client.World :=
  Client.mkWorld sample_tickets sample_steps {[5; 7; 12]}
    (Client.mkSettings true false) [] [] false sample_db [] [].

(** A client in random numbering mode. *)
Definition sample_world_random : Client.World :=
  Client.mkWorld sample_tickets sample_steps {[5; 7; 12]}
    (Client.mkSettings true true) [] [] false sample_db [] [].

(** Draws 2, 3, 4, ...: the numbers 12, 13, 14, ... *)
Definition sample_draws (k : nat) : Z := Z.of_nat (Nat.min k 80) + 2.

(** Five tickets, numbered 1 to 5, in their order of creation. *)
Definition five_tickets : list Ticket.t :=
  (λ k, Ticket.mk k k "pink" "" None (k - 1)) <$> [1; 2; 3; 4; 5].

Definition five_tickets_world : Client.World :=
  Client.mkWorld five_tickets [] {[1; 2; 3; 4; 5]}
    (Client.mkSettings false false) [] [] false
    (Gateway.mkDb five_tickets [] 5 0) [] [].

(** ** The timers of the notes *)

(** Every pending notes timer is the one [notesSaveTimers] holds for
    its ticket, and handles are not reused. *)
Definition registered (m : gmap Z nat) (next : nat)
    (pending : list EventLoop.Timer) : Prop :=
  NoDup (EventLoop.handle <$> pending)
  ∧ ∀ tm, tm ∈ pending →
      m !! EventLoop.ticketId tm = Some (EventLoop.handle tm)
      ∧ (EventLoop.handle tm < next)%nat.

Definition loop_ok (l : EventLoop.Loop) : Prop :=
  registered (EventLoop.notesSaveTimers l) (EventLoop.nextHandle l)
    (EventLoop.timers l).

(** The pending timers of one ticket. *)
Definition pending_for (ticketId : Z) (l : EventLoop.Loop)
  : list EventLoop.Timer :=
  filter (λ tm, EventLoop.ticketId tm = ticketId) (EventLoop.timers l).

(** A client that has just been loaded and has no timer armed. *)
Definition sample_loop : EventLoop.Loop :=
  EventLoop.mkLoop sample_world ∅ [] 1 0.

(** ** The store and the client side by side *)

(** [ticket_number] is UNIQUE. *)
Definition numbers_unique (rows : list Ticket.t) : Prop :=
  NoDup (Ticket.ticket_number <$> rows).

(** Every step a ticket is on is a step of the list. *)
Definition refs_ok (tickets : list Ticket.t) (steps : list Step.t) : Prop :=
  ∀ t s, t ∈ tickets → Ticket.current_step_id t = Some s →
         s ∈ Step.id <$> steps.

(** What the schema promises of the two tables. *)
Definition store_ok (db : Gateway.Database) : Prop :=
  db_ok db
  ∧ numbers_unique (Gateway.tickets db)
  ∧ refs_ok (Gateway.tickets db) (Gateway.steps db).

(** The client shows the tickets and the steps the store holds. *)
Definition same_ids (w : Client.World) : Prop :=
  Ticket.id <$> Client.tickets w ≡ₚ Ticket.id <$> Gateway.tickets (Client.db w)
  ∧ Step.id <$> Client.steps w ≡ₚ Step.id <$> Gateway.steps (Client.db w).

(** The store is sound, the client shows its rows, and every ticket
    shown is on a step shown. *)
Definition linked (w : Client.World) : Prop :=
  store_ok (Client.db w)
  ∧ same_ids w
  ∧ refs_ok (Client.tickets w) (Client.steps w).

Definition session_ok (w : Client.World) : Prop := mirror_ok w ∧ linked w.

(** ** Numbers through a session *)

(** The used-number set and the settings are as they were, and every
    ticket, shown or stored, carries the number of a ticket that was
    shown, or stored. *)
Definition same_numbers (w w' : Client.World) : Prop :=
  Client.usedTicketNumbers w' = Client.usedTicketNumbers w
  ∧ (∀ t', t' ∈ Client.tickets w' →
       ∃ t, t ∈ Client.tickets w
            ∧ Ticket.ticket_number t' = Ticket.ticket_number t)
  ∧ (∀ r', r' ∈ Gateway.tickets (Client.db w') →
       ∃ r, r ∈ Gateway.tickets (Client.db w)
            ∧ Ticket.ticket_number r' = Ticket.ticket_number r)
  ∧ Client.appSettings w' = Client.appSettings w.

(** Every stored ticket number is in the used-number set. *)
Definition store_covered (w : Client.World) : Prop :=
  ∀ r, r ∈ Gateway.tickets (Client.db w) →
       Ticket.ticket_number r ∈ Client.usedTicketNumbers w.

(** A session of the board without manual number edits, tickets being
    moved by dragging. *)
Definition plain_session (ops : list Session.Op) : Prop :=
  Forall
    (λ op, Session.is_number_edit op = false ∧ Session.is_raw_move op = false)
    ops.

(** ** The selection of the bulk mode *)

(** Each selected ticket is selected once, and the selection mode is on
    exactly when a ticket is selected. *)
Definition selection_ok (b : Board.t) : Prop :=
  NoDup (Board.selectedTickets b)
  ∧ Board.isSelectionMode b = negb (bool_decide (Board.selectedTickets b = [])).

(** The tickets a run of deletes leaves: those that were not asked for,
    and those whose request was not answered. *)
Definition survives (answered : Z → bool) (ticketIds : list Z) (t : Ticket.t)
  : Prop :=
  ¬ (Ticket.id t ∈ ticketIds ∧ answered (Ticket.id t) = true).

Definition sample_board : Board.t :=
  Board.mk sample_world [3; 1] true false None.

(** ** The change ledger of the settings dialog *)

Definition descriptions (w : Client.World) : list string :=
  Client.description <$> Client.changeLog w.

(** Nothing was recorded between [w] and [w']. *)
Definition same_ledger (w w' : Client.World) : Prop :=
  Client.changeLog w' = Client.changeLog w
  ∧ Client.hasUnsavedChanges w' = Client.hasUnsavedChanges w.

(** Nothing recorded in [w] was forgotten in [w']. *)
Definition ledger_grows (w w' : Client.World) : Prop :=
  (∃ more, Client.changeLog w' = Client.changeLog w ++ more)
  ∧ (Client.hasUnsavedChanges w = true → Client.hasUnsavedChanges w' = true).

(** The name field of a step holds something else than the step's name. *)
Definition renamed (steps : list Step.t) (input : Z * string) : bool :=
  match js_find (Client.has_step_id input.1) steps with
  | Some step => negb (String.eqb (Step.name step) input.2)
  | None => false
  end.

Definition rename_request (input : Z * string) : Client.Request :=
  Client.PUT_step input.1 (StepBody.mk (Some input.2) None).

(** The name fields written into a list of steps, one after the other. *)
Definition apply_names (inputs : list (Z * string)) (l : list Step.t)
  : list Step.t :=
  foldl
    (λ l input,
       update_first (Client.has_step_id input.1) (Step.set_name input.2) l)
    l inputs.

(** ** Notes of several tickets *)

(** The handles [notesSaveTimers] holds were given out, and a pending
    timer whose handle it holds for a ticket is a timer of that ticket. *)
Definition handles_ok (l : EventLoop.Loop) : Prop :=
  (∀ i h, EventLoop.notesSaveTimers l !! i = Some h →
          (h < EventLoop.nextHandle l)%nat)
  ∧ ∀ i h tm,
      EventLoop.notesSaveTimers l !! i = Some h →
      tm ∈ EventLoop.timers l → EventLoop.handle tm = h →
      EventLoop.ticketId tm = i.

Definition loop_sound (l : EventLoop.Loop) : Prop := loop_ok l ∧ handles_ok l.

(** Edits to the notes of any tickets: each entry gives the pause since
    the previous event, the ticket and the text typed. *)
Fixpoint typeAll (online : bool) (edits : list (Z * Z * string))
    (l : EventLoop.Loop) : EventLoop.Loop :=
  match edits with
  | [] => l
  | (pause, ticketId, text) :: edits' =>
    typeAll online edits'
      (EventLoop.updateTicketNotes ticketId text
         (EventLoop.advance online (EventLoop.now l + pause) l))
  end.

(** The text [txt] of ticket [id] is on its way: a timer that will send
    it is pending, or it was the last text sent for the ticket and no
    timer of the ticket is pending. *)
Definition notes_kept (id : Z) (txt : string) (l : EventLoop.Loop) : Prop :=
  (∃ tm, tm ∈ EventLoop.timers l ∧ EventLoop.ticketId tm = id
         ∧ EventLoop.text tm = txt
         ∧ EventLoop.due tm ≤ EventLoop.now l + 400)
  ∨ (pending_for id l = []
     ∧ last (EventLoop.notes_calls id (Client.sent (EventLoop.world l)))
       = Some txt).

(** ** Recolouring *)

(** A ticket of colour [color] turned white. *)
Definition whiten (stale : Ticket.t → bool) (t : Ticket.t) : Ticket.t :=
  if stale t then Ticket.set_color "white" t else t.

Definition whiten_request (t : Ticket.t) : Client.Request :=
  Client.PUT_ticket (Ticket.id t)
    (TicketBody.mk None (Some "white") None None None).

Definition sample_palette : Palette.t :=
  Palette.mk
    (Client.set_tickets
       [Ticket.mk 1 5 "#aa00ff" "" (Some 1) 0;
        Ticket.mk 2 7 "orange" "a" (Some 3) 1;
        Ticket.mk 3 12 "#aa00ff" "" (Some 3) 2]
       sample_world)
    ["#00ff00"; "#aa00ff"] None.

(** ** Opening the page *)

(** The client when the page has been opened and nothing is loaded yet. *)
Definition fresh_client (settings : Client.AppSettings)
    (db : Gateway.Database) : Client.World :=
  Client.mkWorld [] [] ∅ settings [] [] false db [] [].

(** [DOMContentLoaded]: the steps are loaded, then the tickets. *)
Definition openPage (online : bool) (settings : Client.AppSettings)
    (db : Gateway.Database) : Client.World :=
  Client.loadTickets online (Client.loadSteps online (fresh_client settings db)).

(** No ticket of the list is on a step. *)
Definition unassigned (l : list Ticket.t) : Prop :=
  ∀ t, t ∈ l → Ticket.current_step_id t = None.

(** What the gateway stores for a step of a configuration file. *)
Definition imported (it : Transfer.StepItem) : option (string * Z) :=
  (λ nm, (nm, default 0 (Transfer.order_index it))) <$> Transfer.name it.

Definition step_fields (s : Step.t) : string * Z :=
  (Step.name s, Step.order_index s).

(** * Facts about the array operations *)

Section JsArrayFacts.
Context {A : Type}.
Implicit Types (l : list A) (p : A → bool).

Lemma js_find_Some p l x :
  js_find p l = Some x → x ∈ l ∧ p x = true.
Proof.
  induction l as [|y l IH]; simpl; [done|].
  destruct (p y) eqn:Hp.
  - intros [= ->]. split; [left | done].
  - intros H. destruct (IH H) as [? ?]. split; [by right | done].
Qed.

Lemma js_find_None p l :
  js_find p l = None → ∀ x, x ∈ l → p x = false.
Proof.
  induction l as [|y l IH]; simpl; intros H x Hx.
  - by apply elem_of_nil in Hx.
  - destruct (p y) eqn:Hp; [done|].
    apply elem_of_cons in Hx as [-> | Hx]; [done | by apply IH].
Qed.

Lemma js_find_elem p l x :
  x ∈ l → p x = true → is_Some (js_find p l).
Proof.
  intros Hx Hp. destruct (js_find p l) eqn:E; [by eexists|].
  rewrite (js_find_None _ _ E x Hx) in Hp. done.
Qed.

Lemma update_first_length p f l :
  length (update_first p f l) = length l.
Proof.
  induction l as [|y l IH]; simpl; [done|].
  destruct (p y); simpl; by rewrite ?IH.
Qed.

(** A write that changes nothing on the elements it can reach leaves
    the array as it was. *)
Lemma update_first_fix p f l :
  (∀ x, x ∈ l → p x = true → f x = x) → update_first p f l = l.
Proof.
  induction l as [|y l IH]; simpl; intros H; [done|].
  destruct (p y) eqn:Hp.
  - rewrite H; [done | left | done].
  - rewrite IH; [done|]. intros x Hx. apply H. by right.
Qed.

Lemma update_first_miss p f l :
  js_find p l = None → update_first p f l = l.
Proof.
  intros H. apply update_first_fix. intros x Hx Hp.
  by rewrite (js_find_None _ _ H x Hx) in Hp.
Qed.

(** Reading back the object that was written through [find]. *)
Lemma js_find_update_first p f l x :
  js_find p l = Some x → p (f x) = true →
  js_find p (update_first p f l) = Some (f x).
Proof.
  induction l as [|y l IH]; simpl; [done|].
  destruct (p y) eqn:Hp.
  - intros [= ->] Hf. simpl. by rewrite Hf.
  - intros H Hf. simpl. rewrite Hp. by apply IH.
Qed.

(** Seen through a function that the write respects, [update_first]
    is invisible. *)
Lemma update_first_fmap {B} (g : A → B) p f l :
  (∀ x, g (f x) = g x) → g <$> update_first p f l = g <$> l.
Proof.
  intros Hg. induction l as [|y l IH]; simpl; [done|].
  destruct (p y); csimpl; rewrite ?Hg, ?IH; done.
Qed.

Lemma update_first_elem p f l y :
  y ∈ update_first p f l → y ∈ l ∨ ∃ x, x ∈ l ∧ p x = true ∧ y = f x.
Proof.
  induction l as [|z l IH]; simpl; [by left|].
  destruct (p z) eqn:Hp.
  - intros [-> | Hy]%elem_of_cons.
    + right. exists z. split; [left | done].
    + left. by right.
  - intros [-> | Hy]%elem_of_cons; [left; left|].
    destruct (IH Hy) as [? | (x & ? & ? & ?)]; [left; by right|].
    right. exists x. split; [by right | done].
Qed.

(** [findIndex] gives [-1] when no element passes, and otherwise the
    first position whose element passes. *)
Lemma js_findIndex_from_spec p l i :
  0 ≤ i →
  (js_findIndex_from p l i = -1 ∧ ∀ x, x ∈ l → p x = false)
  ∨ ∃ (k : nat) x,
      js_findIndex_from p l i = i + Z.of_nat k
      ∧ l !! k = Some x ∧ p x = true
      ∧ ∀ (j : nat) y, (j < k)%nat → l !! j = Some y → p y = false.
Proof.
  revert i. induction l as [|y l IH]; intros i Hi; simpl.
  - left. split; [done|]. intros x Hx. by apply elem_of_nil in Hx.
  - destruct (p y) eqn:Hp.
    + right. exists O, y. repeat split; [lia | done |]. intros; lia.
    + destruct (IH (i + 1)) as [[E H] | (k & x & E & Hk & Hx & Hlt)]; [lia | |].
      * left. split; [done|].
        intros x [-> | Hx]%elem_of_cons; [done | by apply H].
      * right. exists (S k), x. repeat split; [lia | done | done |].
        intros [|j] z Hj; simpl; [by intros [= <-] | intros Hz].
        apply (Hlt j z); [lia | done].
Qed.

Lemma js_findIndex_spec p l :
  (js_findIndex p l = -1 ∧ ∀ x, x ∈ l → p x = false)
  ∨ ∃ (k : nat) x,
      js_findIndex p l = Z.of_nat k
      ∧ l !! k = Some x ∧ p x = true
      ∧ ∀ (j : nat) y, (j < k)%nat → l !! j = Some y → p y = false.
Proof.
  destruct (js_findIndex_from_spec p l 0) as [? | (k & x & E & ?)]; [lia | by left |].
  right. exists k, x. split; [unfold js_findIndex; lia | done].
Qed.
End JsArrayFacts.

Section Renumbering.
Context {A B : Type}.
Variable key : A → B.            (* the id of an item *)
Variable pos : A → Z.            (* its order_index *)
Variable set_pos : Z → A → A.
Hypothesis pos_set_pos : ∀ i x, pos (set_pos i x) = i.
Hypothesis key_set_pos : ∀ i x, key (set_pos i x) = key x.

Lemma mapi_from_length (l : list A) i :
  length (mapi_from set_pos l i) = length l.
Proof. revert i. induction l as [|x l IH]; intros i; simpl; by rewrite ?IH. Qed.

(** After the re-sequencing pass every item carries its position. *)
Lemma mapi_from_pos (l : list A) i :
  pos <$> mapi_from set_pos l i = seqZ i (Z.of_nat (length l)).
Proof.
  revert i. induction l as [|x l IH]; intros i.
  - by rewrite seqZ_nil.
  - cbn [mapi_from length]. rewrite seqZ_cons by lia. csimpl.
    rewrite pos_set_pos, IH. f_equal. f_equal; lia.
Qed.

Lemma mapi_from_key (l : list A) i :
  key <$> mapi_from set_pos l i = key <$> l.
Proof.
  revert i. induction l as [|x l IH]; intros i; csimpl; [done|].
  by rewrite key_set_pos, IH.
Qed.

(** With unique ids an item is determined by its id. *)
Lemma NoDup_key_inj (l : list A) x y :
  NoDup (key <$> l) → x ∈ l → y ∈ l → key x = key y → x = y.
Proof.
  induction l as [|z l IH]; csimpl; intros Hnd Hx Hy E.
  - by apply elem_of_nil in Hx.
  - apply NoDup_cons in Hnd as [Hz Hnd].
    apply elem_of_cons in Hx as [-> | Hx]; apply elem_of_cons in Hy as [-> | Hy].
    + done.
    + exfalso. apply Hz. rewrite E. by apply list_elem_of_fmap_2.
    + exfalso. apply Hz. rewrite <- E. by apply list_elem_of_fmap_2.
    + by apply IH.
Qed.
End Renumbering.

Section SpliceFacts.
Context {A : Type}.
Implicit Types (l : list A).

Lemma splice_start_in_range l start :
  0 ≤ start < Z.of_nat (length l) → splice_start l start = Z.to_nat start.
Proof.
  intros H. unfold splice_start.
  destruct (start <? 0) eqn:E; [apply Z.ltb_lt in E; lia|].
  f_equal. lia.
Qed.

Lemma splice_start_le l start : (splice_start l start ≤ length l)%nat.
Proof.
  unfold splice_start. destruct (start <? 0) eqn:E; [apply Z.ltb_lt in E|]; lia.
Qed.

(** [splice(start, 1)] on a position of the array removes exactly the
    element that is there. *)
Lemma splice_take_in_range l start :
  0 ≤ start < Z.of_nat (length l) →
  ∃ x rest, splice_take l start = (Some x, rest)
            ∧ l !! Z.to_nat start = Some x ∧ l ≡ₚ x :: rest.
Proof.
  intros H. unfold splice_take. rewrite splice_start_in_range by done.
  destruct (lookup_lt_is_Some_2 l (Z.to_nat start)) as [x Hx]; [lia|].
  exists x, (take (Z.to_nat start) l ++ drop (S (Z.to_nat start)) l).
  rewrite Hx. repeat split.
  rewrite <- (take_drop_middle l _ x Hx) at 1.
  symmetry. apply Permutation_middle.
Qed.

Lemma splice_take_Some l start x rest :
  splice_take l start = (Some x, rest) → l ≡ₚ x :: rest.
Proof.
  unfold splice_take. intros [= Hx <-].
  rewrite <- (take_drop_middle l _ x Hx) at 1.
  symmetry. apply Permutation_middle.
Qed.

(** [splice(start, 0, item)] adds the item and nothing else, wherever
    [start] points. *)
Lemma splice_put_perm l start x : splice_put l start x ≡ₚ x :: l.
Proof.
  unfold splice_put. rewrite <- Permutation_middle.
  by rewrite take_drop.
Qed.

Lemma splice_move_perm l from to x rest :
  splice_take l from = (Some x, rest) → splice_put rest to x ≡ₚ l.
Proof.
  intros H. rewrite splice_put_perm. symmetry. by eapply splice_take_Some.
Qed.
End SpliceFacts.




Lemma Dense_NoDup (l : list Z) : Dense l → NoDup l.
Proof. unfold Dense. intros H. rewrite H. apply NoDup_seqZ. Qed.

(** * The client: ordering *)

Section ClientOrder.
Import Client.

Lemma Ticket_set_order_index_id (t : Ticket.t) :
  Ticket.set_order_index (Ticket.order_index t) t = t.
Proof. by destruct t. Qed.

Lemma Step_set_order_index_id (s : Step.t) :
  Step.set_order_index (Step.order_index s) s = s.
Proof. by destruct s. Qed.

Lemma updateTicket_tickets online ticketId updates w :
  tickets (updateTicket online ticketId updates w) =
  if online
  then update_first (has_ticket_id ticketId) (Object_assign updates) (tickets w)
  else tickets w.
Proof. unfold updateTicket. by destruct online. Qed.

Lemma updateTicket_steps online ticketId updates w :
  steps (updateTicket online ticketId updates w) = steps w.
Proof. unfold updateTicket. by destruct online. Qed.

Lemma updateTicket_used online ticketId updates w :
  usedTicketNumbers (updateTicket online ticketId updates w) = usedTicketNumbers w.
Proof. unfold updateTicket. by destruct online. Qed.

Lemma updateTicket_sent online ticketId updates w :
  sent (updateTicket online ticketId updates w) =
  sent w ++ [PUT_ticket ticketId updates].
Proof. unfold updateTicket. by destruct online. Qed.

Lemma updateStepOrder_steps online stepId i w :
  steps (updateStepOrder online stepId i w) =
  if online
  then update_first (has_step_id stepId) (Step.set_order_index i) (steps w)
  else steps w.
Proof. unfold updateStepOrder. by destruct online. Qed.

Lemma updateStepOrder_tickets online stepId i w :
  tickets (updateStepOrder online stepId i w) = tickets w.
Proof. unfold updateStepOrder. by destruct online. Qed.

(** The answers to the renumbering requests write to each object the
    value it already has, as long as ids are unique. *)
Lemma foldl_updateTicket_order online (l' l : list Ticket.t) w :
  NoDup (Ticket.id <$> l') → l ⊆ l' → tickets w = l' →
  tickets
    (foldl
       (λ w t,
          updateTicket online (Ticket.id t)
            (TicketBody.mk None None None None (Some (Ticket.order_index t))) w)
       w l) = l'.
Proof.
  intros Hnd. revert w. induction l as [|t l IH]; intros w Hsub Hw; simpl; [done|].
  apply IH; [set_solver|].
  rewrite updateTicket_tickets. destruct online; [|done].
  rewrite Hw. apply update_first_fix. intros x Hx Hp.
  unfold has_ticket_id in Hp. apply Z.eqb_eq in Hp.
  assert (x = t) as ->.
  { eapply (NoDup_key_inj Ticket.id); [done.. | set_solver | done]. }
  unfold Object_assign, Gateway.assign_ticket. simpl.
  apply Ticket_set_order_index_id.
Qed.

Lemma persistTicketOrder_tickets online w :
  NoDup (Ticket.id <$> tickets w) →
  tickets (persistTicketOrder online w) = mapi Ticket.set_order_index (tickets w).
Proof.
  intros Hnd. unfold persistTicketOrder. simpl.
  apply foldl_updateTicket_order; [|done..].
  unfold mapi. by rewrite (mapi_from_key Ticket.id).
Qed.

Lemma foldl_updateStepOrder online (l' l : list Step.t) w :
  NoDup (Step.id <$> l') → l ⊆ l' → steps w = l' →
  steps
    (foldl (λ w s, updateStepOrder online (Step.id s) (Step.order_index s) w) w l)
  = l'.
Proof.
  intros Hnd. revert w. induction l as [|s l IH]; intros w Hsub Hw; simpl; [done|].
  apply IH; [set_solver|].
  rewrite updateStepOrder_steps. destruct online; [|done].
  rewrite Hw. apply update_first_fix. intros x Hx Hp.
  unfold has_step_id in Hp. apply Z.eqb_eq in Hp.
  assert (x = s) as ->.
  { eapply (NoDup_key_inj Step.id); [done.. | set_solver | done]. }
  apply Step_set_order_index_id.
Qed.

Lemma foldl_updateStepOrder_tickets online (l : list Step.t) w :
  tickets
    (foldl (λ w s, updateStepOrder online (Step.id s) (Step.order_index s) w) w l)
  = tickets w.
Proof.
  revert w. induction l as [|s l IH]; intros w; simpl; [done|].
  by rewrite IH, updateStepOrder_tickets.
Qed.

Lemma persistStepOrder_steps online w :
  NoDup (Step.id <$> steps w) →
  steps (persistStepOrder online w) = mapi Step.set_order_index (steps w).
Proof.
  intros Hnd. unfold persistStepOrder.
  set (w1 := set_steps _ w).
  set (w2 := foldl _ w1 (steps w1)).
  assert (steps w2 = mapi Step.set_order_index (steps w)) as H2.
  { apply foldl_updateStepOrder; [|done..].
    unfold mapi. by rewrite (mapi_from_key Step.id). }
  destruct (online || _); simpl; done.
Qed.

(** *** Moves *)

End ClientOrder.

Section ClientOrderSteps.
Import Client.

Lemma persistStepOrder_positions online w :
  NoDup (Step.id <$> steps w) →
  Step.order_index <$> steps (persistStepOrder online w)
  = seqZ 0 (Z.of_nat (length (steps w)))
  ∧ Step.id <$> steps (persistStepOrder online w) = Step.id <$> steps w.
Proof.
  intros Hnd. rewrite persistStepOrder_steps by done. unfold mapi.
  by rewrite (mapi_from_pos Step.order_index), (mapi_from_key Step.id).
Qed.


End ClientOrderSteps.

(** * The client: numbering *)

Section Numbers.

(** An integer of magnitude up to 2^53 is a double. *)
Lemma round_exact x : - 2 ^ 53 ≤ x ≤ 2 ^ 53 → JsNumber.round x = x.
Proof.
  intros Hx. unfold JsNumber.round.
  destruct (Z.abs x <=? 2 ^ 53) eqn:E; [done|]. apply Z.leb_gt in E. lia.
Qed.

Lemma add_exact a b : - 2 ^ 53 ≤ a + b ≤ 2 ^ 53 → JsNumber.add a b = a + b.
Proof. apply round_exact. Qed.

(** From 2^53 on, adding one can give the number back. *)
Lemma add_one_lost : JsNumber.add (2 ^ 53) 1 = 2 ^ 53.
Proof. vm_compute. reflexivity. Qed.

End Numbers.

Section Numbering.
Import Client.

Lemma drawTicketNumber_spec used random guard fuel :
  (500 ≤ guard + fuel)%nat → (guard ≤ 500)%nat →
  ∃ k, (guard ≤ k ≤ 500)%nat
       ∧ drawTicketNumber used random guard fuel = random k + 10
       ∧ (∀ j, (guard ≤ j < k)%nat → random j + 10 ∈ used)
       ∧ ((k < 500)%nat → random k + 10 ∉ used).
Proof.
  revert guard. induction fuel as [|fuel IH]; intros guard Hfuel Hguard.
  - assert (guard = 500%nat) as -> by lia. simpl.
    exists 500%nat. repeat split; lia.
  - cbn [drawTicketNumber].
    destruct (decide (500 < S guard)%nat) as [Hbreak | Hgo].
    + exists guard. repeat split; lia.
    + destruct (decide (random guard + 10 ∈ used)) as [Hin | Hout].
      * destruct (IH (S guard)) as (k & Hk & E & Hbefore & Hfresh); [lia.. |].
        exists k. repeat split; [lia | lia | done | | done].
        intros j Hj. destruct (decide (j = guard)) as [-> | ?]; [done|].
        apply Hbefore. lia.
      * exists guard. repeat split; [lia | lia | intros; lia | done].
Qed.

(** The loop that folds the used numbers into [max]. *)
Lemma fold_max_spec (l : list Z) :
  let r := foldr (λ n max, if decide (max < n) then n else max) 0 l in
  0 ≤ r ∧ (∀ n, n ∈ l → n ≤ r) ∧ (r = 0 ∨ r ∈ l).
Proof.
  induction l as [|x l (H0 & Hub & Hin)]; simpl.
  - split; [lia|]. split; [|by left]. intros n Hn. by apply elem_of_nil in Hn.
  - destruct (decide (_ < x)) as [Hlt | Hge].
    + split; [lia|]. split; [|right; left].
      intros n [-> | Hn]%elem_of_cons; [lia|]. specialize (Hub n Hn). lia.
    + split; [done|]. split.
      * intros n [-> | Hn]%elem_of_cons; [lia | by apply Hub].
      * destruct Hin as [? | ?]; [by left | right; by right].
Qed.

Lemma maxUsed_empty : maxUsed ∅ = 0.
Proof. unfold maxUsed. by rewrite set_fold_empty. Qed.

Lemma maxUsed_nonneg used : 0 ≤ maxUsed used.
Proof.
  unfold maxUsed, set_fold. simpl.
  by destruct (fold_max_spec (elements used)) as (H0 & _ & _).
Qed.

Lemma maxUsed_is_max used m :
  is_max m (elements used) → 0 ≤ m → maxUsed used = m.
Proof.
  intros [Hm Hub] H0. unfold maxUsed, set_fold. simpl.
  destruct (fold_max_spec (elements used)) as (_ & Hge & Hin).
  specialize (Hge m Hm).
  destruct Hin as [E | Hin]; [lia|]. specialize (Hub _ Hin). lia.
Qed.

Lemma maxUsed_upper used n : n ∈ used → n ≤ maxUsed used.
Proof.
  intros Hn. unfold maxUsed, set_fold. simpl.
  destruct (fold_max_spec (elements used)) as (_ & Hge & _).
  apply Hge. by apply elem_of_elements.
Qed.

(** Whatever the mode, the number handed out is in the set on return. *)
Lemma generateNewTicketNumber_used random w :
  usedTicketNumbers (generateNewTicketNumber random w).2
  = {[(generateNewTicketNumber random w).1]} ∪ usedTicketNumbers w.
Proof.
  unfold generateNewTicketNumber.
  by destruct (randomTwoDigitNumbers (appSettings w)).
Qed.

Lemma generateNewTicketNumber_rest random w :
  let w' := (generateNewTicketNumber random w).2 in
  tickets w' = tickets w ∧ steps w' = steps w ∧ db w' = db w
  ∧ sent w' = sent w.
Proof.
  unfold generateNewTicketNumber.
  by destruct (randomTwoDigitNumbers (appSettings w)).
Qed.

(** In sequential mode, below 2^53, the next number is one past the
    largest used one. *)
Lemma sequential_number random w :
  randomTwoDigitNumbers (appSettings w) = false →
  maxUsed (usedTicketNumbers w) < 2 ^ 53 →
  (generateNewTicketNumber random w).1 = maxUsed (usedTicketNumbers w) + 1.
Proof.
  intros Hmode Hb. unfold generateNewTicketNumber. rewrite Hmode. cbv zeta.
  cbn [fst].
  pose proof (maxUsed_nonneg (usedTicketNumbers w)) as H0.
  rewrite add_exact by lia.
  destruct (maxUsed (usedTicketNumbers w) + 1 =? 0) eqn:E;
    [apply Z.eqb_eq in E; lia|done].
Qed.

Lemma sequential_number_fresh random w :
  randomTwoDigitNumbers (appSettings w) = false →
  maxUsed (usedTicketNumbers w) < 2 ^ 53 →
  ((generateNewTicketNumber random w).1 ∉ usedTicketNumbers w)
  ∧ 0 < (generateNewTicketNumber random w).1.
Proof.
  intros Hmode Hb. rewrite sequential_number by done.
  pose proof (maxUsed_nonneg (usedTicketNumbers w)) as H0.
  split; [|lia]. intros Hin. apply maxUsed_upper in Hin. lia.
Qed.

(** The earlier revision: when the unguarded loop ends, it ends on a
    fresh number, which goes into the set. *)
Lemma generateRandomTicketNumber_fresh random fuel w n w' :
  generateRandomTicketNumber random fuel w = Some (n, w') →
  (n ∉ usedTicketNumbers w)
  ∧ usedTicketNumbers w' = {[n]} ∪ usedTicketNumbers w.
Proof.
  unfold generateRandomTicketNumber.
  destruct (generateRandomTicketNumber_loop _ _ _ _) as [m|] eqn:E; [|done].
  simpl. intros [= <- <-]. split; [|done].
  revert E. generalize 0%nat. induction fuel as [|fuel IH]; intros k; simpl; [done|].
  destruct (decide (random k + 10 ∈ usedTicketNumbers w)); [apply IH|].
  by intros [= <-].
Qed.
(** The earlier revision again: when every number it can draw is in
    use, the loop has not ended after any number of draws. *)
Lemma generateRandomTicketNumber_exhausted random fuel w :
  (∀ k, random k + 10 ∈ usedTicketNumbers w) →
  generateRandomTicketNumber random fuel w = None.
Proof.
  intros Hused. unfold generateRandomTicketNumber.
  assert (∀ k, generateRandomTicketNumber_loop (usedTicketNumbers w) random k fuel
               = None) as ->; [|done].
  induction fuel as [|fuel IH]; intros k; simpl; [done|].
  destruct (decide (random k + 10 ∈ usedTicketNumbers w)) as [_ | Hout];
    [apply IH|].
  destruct (Hout (Hused k)).
Qed.
End Numbering.

(** * The gateway *)

Section GatewayFacts.
Import Gateway.

Lemma foldr_max_spec x (l : list Z) :
  is_max (foldr Z.max x l) (x :: l).
Proof.
  induction l as [|y l [Hin Hub]]; simpl.
  - split; [left|]. intros n [-> | Hn]%elem_of_cons; [lia|].
    by apply elem_of_nil in Hn.
  - split.
    + destruct (Z.max_spec y (foldr Z.max x l)) as [[_ ->] | [_ ->]].
      * apply elem_of_cons in Hin as [E | Hin]; [rewrite E; left|].
        right; by right.
      * right; left.
    + intros n Hn.
      assert (n = y ∨ n ∈ x :: l) as [-> | Hn']; [|lia|].
      { apply elem_of_cons in Hn as [-> | Hn]; [right; left|].
        apply elem_of_cons in Hn as [-> | Hn]; [by left | right; by right]. }
      specialize (Hub n Hn'). lia.
Qed.

Lemma is_max_unique m m' (l : list Z) : is_max m l → is_max m' l → m = m'.
Proof. intros [H1 H2] [H3 H4]. specialize (H2 _ H3). specialize (H4 _ H1). lia. Qed.

(** [SELECT MAX(...)] is the maximum. *)
Lemma sql_max_is_max m (l : list Z) : is_max m l → sql_max l = Some m.
Proof.
  destruct l as [|x l]; intros H.
  - destruct H as [H _]. by apply elem_of_nil in H.
  - simpl. f_equal. eapply is_max_unique; [apply foldr_max_spec | done].
Qed.

Lemma unique_number_fresh self n (rows : list Ticket.t) :
  n ∉ Ticket.ticket_number <$> rows → unique_number self n rows = true.
Proof.
  intros Hn. unfold unique_number. apply forallb_forall. intros r Hr.
  apply list_elem_of_In in Hr.
  destruct (Ticket.ticket_number r =? n) eqn:E; [|by rewrite orb_true_r].
  apply Z.eqb_eq in E. exfalso. apply Hn. rewrite <- E.
  by apply list_elem_of_fmap_2.
Qed.

(** A create request within the table constraints is answered 201
    with the row the handler built. *)
Lemma post_ticket_accepts body db n :
  TicketBody.ticket_number body = Some n →
  n ∉ Ticket.ticket_number <$> tickets db →
  step_exists (or_null (mjoin (TicketBody.current_step_id body))) (steps db) = true →
  ∃ row,
    post_ticket body db
    = (Reply 201 row,
       mkDb (tickets db ++ [row]) (steps db) (Ticket.id row) (steps_seq db))
    ∧ Ticket.ticket_number row = n
    ∧ Ticket.order_index row
      = match TicketBody.order_index body with
        | Some i => i
        | None =>
          JsNumber.add
            (default (-1) (sql_max (Ticket.order_index <$> tickets db))) 1
        end.
Proof.
  intros Hn Hfresh Hstep. unfold post_ticket. rewrite Hn.
  unfold ticket_row_ok. cbn [Ticket.id Ticket.ticket_number Ticket.current_step_id].
  rewrite unique_number_fresh, Hstep by done. cbn [andb].
  eexists (Ticket.mk _ _ _ _ _ _). split; [reflexivity|]. done.
Qed.

Lemma delete_step_tickets id db :
  tickets (delete_step id db).2
  = (λ r, if decide (Ticket.current_step_id r = Some id)
          then Ticket.set_current_step_id None r else r) <$> tickets db.
Proof. unfold delete_step. by destruct (decide _). Qed.

Lemma delete_step_steps id db :
  steps (delete_step id db).2 = filter (λ r, Step.id r ≠ id) (steps db).
Proof.
  unfold delete_step.
  destruct (decide _) as [E | ?]; [|done]. simpl.
  symmetry. assert (∀ l : list Step.t,
    length (filter (λ r, Step.id r ≠ id) l) = length l →
    filter (λ r, Step.id r ≠ id) l = l) as H; [|by apply H].
  clear. induction l as [|x l IH]; [done|].
  rewrite filter_cons. destruct (decide _); simpl.
  - intros [= E]. by rewrite IH.
  - intros E. pose proof (length_filter (λ r, Step.id r ≠ id) l). lia.
Qed.
End GatewayFacts.


(** * Step deletion and its cascade *)

Section StepDeletion.
Import Client.

Lemma clear_step_cleared stepId t :
  Ticket.current_step_id (clear_step stepId t) ≠ Some stepId.
Proof. unfold clear_step. by destruct (decide _). Qed.

(** What a step deletion that reaches the gateway leaves behind. *)
Lemma deleteStep_online stepId skipUndo w :
  let w' := deleteStep true stepId skipUndo w in
  tickets w' = clear_step stepId <$> tickets w
  ∧ steps w' = filter (λ s, Step.id s ≠ stepId) (steps w)
  ∧ db w' = (Gateway.delete_step stepId (db w)).2
  ∧ usedTicketNumbers w' = usedTicketNumbers w.
Proof.
  unfold deleteStep. destruct (js_find _ _); [destruct skipUndo|]; done.
Qed.

(** Without the network nothing is deleted. *)
Lemma deleteStep_offline stepId skipUndo w :
  let w' := deleteStep false stepId skipUndo w in
  tickets w' = tickets w ∧ steps w' = steps w ∧ db w' = db w.
Proof.
  unfold deleteStep. destruct (js_find _ _); [destruct skipUndo|]; done.
Qed.
End StepDeletion.

(** * Creating and deleting *)

Section CreateDelete.
Import Client.

(** [addTicket] in terms of the gateway's answer. *)
Lemma addTicket_unfold online random w :
  addTicket online random w =
  let w1 := send (POST_ticket (addTicket_body random w))
                 (generateNewTicketNumber random w).2 in
  if online then
    match Gateway.post_ticket (addTicket_body random w) (db w) with
    | (Gateway.Reply _ newTicket, db') =>
      Settled (set_tickets (tickets w ++ [newTicket]) (set_db db' w1))
    | (Gateway.Failure _ error, db') =>
      ErrorPushed (showError "Failed to add ticket." (set_db db' w1)) error
    end
  else Settled (showError "Failed to add ticket." w1).
Proof.
  unfold addTicket, addTicket_body.
  destruct (generateNewTicketNumber_rest random w) as (Ht & Hs & Hdb & _).
  destruct (generateNewTicketNumber random w) as [number w1] eqn:E.
  simpl in *. rewrite Ht, Hs, Hdb. done.
Qed.

(** The gateway stores what it is sent, or refuses. *)
Lemma post_ticket_reply body db st row db' :
  Gateway.post_ticket body db = (Gateway.Reply st row, db') →
  Some (Ticket.ticket_number row) = TicketBody.ticket_number body
  ∧ (∀ i, TicketBody.order_index body = Some i → Ticket.order_index row = i)
  ∧ Gateway.tickets db' = Gateway.tickets db ++ [row].
Proof.
  unfold Gateway.post_ticket.
  destruct (TicketBody.ticket_number body) as [n|]; [|done].
  destruct (Gateway.ticket_row_ok _ _); [|done].
  intros [= <- <- <-]. simpl. split; [done|]. split; [|done].
  by intros i ->.
Qed.

(** A ticket that the gateway accepts goes to the end of the array,
    with the array's length as [order_index] and the generated number,
    which is in the used-number set by then. *)
Lemma post_ticket_refuses body db st error db' :
  Gateway.post_ticket body db = (Gateway.Failure st error, db') →
  st = 500 ∧ error = "Failed to create ticket" ∧ db' = db.
Proof.
  unfold Gateway.post_ticket.
  destruct (TicketBody.ticket_number body) as [n|]; [|by intros [= <- <- <-]].
  destruct (Gateway.ticket_row_ok _ _); [done|]. by intros [= <- <- <-].
Qed.

Lemma addTicket_appends online random w w' :
  addTicket online random w = Settled w' →
  usedTicketNumbers w'
  = {[(generateNewTicketNumber random w).1]} ∪ usedTicketNumbers w
  ∧ (tickets w' = tickets w
     ∨ ∃ t, tickets w' = tickets w ++ [t]
            ∧ Ticket.order_index t = Z.of_nat (length (tickets w))
            ∧ Ticket.ticket_number t = (generateNewTicketNumber random w).1).
Proof.
  rewrite addTicket_unfold. cbv zeta.
  pose proof (generateNewTicketNumber_used random w) as Hu.
  destruct online.
  - destruct (Gateway.post_ticket _ _) as [[st row | ? ?] db'] eqn:E; [|done].
    intros [= <-]. simpl. split; [done|]. right. exists row.
    apply post_ticket_reply in E as (Hn & Ho & _).
    split; [done|]. split; [by apply Ho|]. simpl in Hn. congruence.
  - intros [= <-]. simpl. split; [done | left].
    apply generateNewTicketNumber_rest.
Qed.

(** A create that the gateway refuses: the store is as it was, the
    number drawn is in the used-number set all the same, the failure
    message is shown, and [tickets] holds the tickets it held, followed
    by the error object. *)
Lemma addTicket_refused online random w w' error :
  addTicket online random w = ErrorPushed w' error →
  online = true
  ∧ Gateway.status (Gateway.post_ticket (addTicket_body random w) (db w)).1 = 500
  ∧ error = "Failed to create ticket"
  ∧ tickets w' = tickets w ∧ steps w' = steps w ∧ db w' = db w
  ∧ usedTicketNumbers w'
    = {[(generateNewTicketNumber random w).1]} ∪ usedTicketNumbers w
  ∧ notices w' = notices w ++ ["Failed to add ticket."].
Proof.
  rewrite addTicket_unfold. cbv zeta.
  pose proof (generateNewTicketNumber_used random w) as Hu.
  destruct (generateNewTicketNumber_rest random w) as (Ht & Hs & _ & _).
  destruct online; [|done].
  destruct (Gateway.post_ticket _ _) as [[st row | st e] db'] eqn:E; [done|].
  intros [= <- <-]. apply post_ticket_refuses in E as (-> & -> & ->).
  cbn [tickets steps db usedTicketNumbers notices showError set_db send Gateway.status fst].
  split; [done|]. split; [done|]. split; [done|]. split; [exact Ht|].
  split; [exact Hs|]. split; [done|]. split; [exact Hu|].
  f_equal. unfold generateNewTicketNumber.
  by destruct (randomTwoDigitNumbers (appSettings w)).
Qed.

(** The create succeeds whenever the number is new to the store and
    the first step of the client is a step of the store. *)
Lemma addTicket_accepted online random w :
  (generateNewTicketNumber random w).1
    ∉ Ticket.ticket_number <$> Gateway.tickets (db w) →
  Gateway.step_exists (or_null (Step.id <$> head (steps w)))
    (Gateway.steps (db w)) = true →
  ∃ w', addTicket online random w = Settled w'.
Proof.
  intros Hfresh Hstep. rewrite addTicket_unfold. cbv zeta.
  destruct online; [|by eexists].
  destruct (post_ticket_accepts (addTicket_body random w) (db w)
              (generateNewTicketNumber random w).1) as (row & -> & _);
    [done.. |]. by eexists.
Qed.

(** A new step always goes to the end of the array, with the array's
    length as [order_index]. *)
Lemma addStep_appends online w :
  ∃ w', addStep online w = Some w'
        ∧ (steps w' = steps w
           ∨ ∃ s, steps w' = steps w ++ [s]
                  ∧ Step.order_index s = Z.of_nat (length (steps w))).
Proof.
  unfold addStep. destruct online; simpl.
  - eexists. split; [done|]. right. eexists. by split.
  - eexists. split; [done | by left].
Qed.

Lemma deleteTicket_tickets online ticketId w :
  tickets (deleteTicket online ticketId w)
  = if online then filter (λ t, Ticket.id t ≠ ticketId) (tickets w)
    else tickets w.
Proof. unfold deleteTicket. by destruct online. Qed.

Lemma deleteTicket_used online ticketId w :
  usedTicketNumbers (deleteTicket online ticketId w) = usedTicketNumbers w.
Proof. unfold deleteTicket. by destruct online. Qed.

Lemma deleteStep_steps online stepId skipUndo w :
  steps (deleteStep online stepId skipUndo w)
  = if online then filter (λ s, Step.id s ≠ stepId) (steps w) else steps w.
Proof.
  destruct online.
  - apply deleteStep_online.
  - apply deleteStep_offline.
Qed.
End CreateDelete.

(** * Editing a ticket number *)

Section NumberEdit.
Import Client.

(** The state a rejected edit leaves: the state before, with the
    message shown. *)
Lemma finishEditTicketNumber_rejects online ticketId newNum w :
  match newNum with
  | None => True
  | Some n => n ≤ 0 ∨ n ∈ usedTicketNumbers w
  end →
  ∃ msg, finishEditTicketNumber online ticketId newNum w = showError msg w.
Proof.
  unfold finishEditTicketNumber. destruct newNum as [n|]; [|by eexists].
  destruct (n <=? 0) eqn:E; [by eexists|]. apply Z.leb_gt in E.
  intros [? | Hin]; [lia|].
  destruct (decide (n ∈ usedTicketNumbers w)); [by eexists | done].
Qed.

(** No assignment touches the id of a ticket. *)
Lemma has_ticket_id_assign ticketId updates t :
  has_ticket_id ticketId (Object_assign updates t) = has_ticket_id ticketId t.
Proof.
  unfold has_ticket_id, Object_assign, Gateway.assign_ticket.
  destruct updates as [[?|] [?|] [?|] [?|] [?|]]; done.
Qed.

Lemma js_find_assign ticketId updates t (l : list Ticket.t) :
  js_find (has_ticket_id ticketId) l = Some t →
  js_find (has_ticket_id ticketId)
    (update_first (has_ticket_id ticketId) (Object_assign updates) l)
  = Some (Object_assign updates t).
Proof.
  intros H. apply js_find_update_first; [done|].
  rewrite has_ticket_id_assign. by apply js_find_Some in H as [_ H].
Qed.

Lemma Object_assign_number n t :
  Object_assign (TicketBody.mk (Some n) None None None None) t
  = Ticket.set_ticket_number n t.
Proof. done. Qed.

(** An accepted edit that reaches the gateway: [updateTicket] has
    already written the new number to the ticket when the old number is
    looked up, so it is the new number that leaves the set. *)
Lemma finishEditTicketNumber_online ticketId n t w :
  0 < n → n ∉ usedTicketNumbers w →
  js_find (has_ticket_id ticketId) (tickets w) = Some t →
  let w' := finishEditTicketNumber true ticketId (Some n) w in
  usedTicketNumbers w' = usedTicketNumbers w
  ∧ js_find (has_ticket_id ticketId) (tickets w')
    = Some (Ticket.set_ticket_number n t)
  ∧ sent w' = sent w ++ [PUT_ticket ticketId (TicketBody.mk (Some n) None None None None)].
Proof.
  intros Hpos Hfresh Hfind. unfold finishEditTicketNumber.
  destruct (n <=? 0) eqn:E; [apply Z.leb_le in E; lia|].
  destruct (decide (n ∈ usedTicketNumbers w)); [done|].
  set (body := TicketBody.mk (Some n) None None None None).
  set (w1 := updateTicket true ticketId body w).
  assert (js_find (has_ticket_id ticketId) (tickets w1)
          = Some (Ticket.set_ticket_number n t)) as Hfind1.
  { subst w1. rewrite updateTicket_tickets.
    by rewrite (js_find_assign _ _ t). }
  cbn [tickets set_used]. rewrite Hfind1. cbn [tickets set_used set_tickets usedTicketNumbers].
  assert (usedTicketNumbers w1 = usedTicketNumbers w) as Hu
    by apply updateTicket_used.
  rewrite Hu. split; [set_solver|]. split.
  - rewrite (js_find_update_first _ _ _ (Ticket.set_ticket_number n t)); [done.. |].
    by apply js_find_Some in Hfind1 as [_ Hfind1].
  - cbn [sent set_tickets set_used]. subst w1. by rewrite updateTicket_sent.
Qed.

(** The same edit while the gateway cannot be reached: the ticket
    still carries its old number when it is looked up. *)
Lemma finishEditTicketNumber_offline ticketId n t w :
  0 < n → n ∉ usedTicketNumbers w →
  js_find (has_ticket_id ticketId) (tickets w) = Some t →
  let w' := finishEditTicketNumber false ticketId (Some n) w in
  usedTicketNumbers w'
  = ({[n]} ∪ usedTicketNumbers w) ∖ {[Ticket.ticket_number t]}
  ∧ js_find (has_ticket_id ticketId) (tickets w')
    = Some (Ticket.set_ticket_number n t).
Proof.
  intros Hpos Hfresh Hfind. unfold finishEditTicketNumber.
  destruct (n <=? 0) eqn:E; [apply Z.leb_le in E; lia|].
  destruct (decide (n ∈ usedTicketNumbers w)); [done|].
  cbn. rewrite Hfind. cbn. split; [done|].
  apply js_find_update_first; [done|]. by apply js_find_Some in Hfind as [_ Hfind].
Qed.
End NumberEdit.

(** * The used-number set and the live numbers *)

Section UsedNumbers.
Import Client.

Lemma loadTickets_covers online w :
  used_covers_live w → used_covers_live (loadTickets online w).
Proof.
  unfold used_covers_live, loadTickets. destruct online; simpl; [|done].
  intros _ t Ht. apply elem_of_union_r, elem_of_list_to_set.
  by apply list_elem_of_fmap_2.
Qed.

Lemma addTicket_covers online random w w' :
  addTicket online random w = Settled w' →
  used_covers_live w → used_covers_live w'.
Proof.
  intros [Hu Ht]%addTicket_appends Hcov t Hin. rewrite Hu.
  destruct Ht as [Ht | (t' & Ht & _ & Hn)]; rewrite Ht in Hin.
  - apply elem_of_union_r. by apply Hcov.
  - apply elem_of_app in Hin as [Hin | Hin].
    + apply elem_of_union_r. by apply Hcov.
    + apply list_elem_of_singleton in Hin as ->. rewrite Hn.
      apply elem_of_union_l. by apply elem_of_singleton.
Qed.

Lemma deleteTicket_covers online ticketId w :
  used_covers_live w → used_covers_live (deleteTicket online ticketId w).
Proof.
  unfold used_covers_live. intros Hcov t.
  rewrite deleteTicket_tickets, deleteTicket_used.
  destruct online; [|by apply Hcov].
  intros [_ Hin]%list_elem_of_filter. by apply Hcov.
Qed.
End UsedNumbers.

(** * Step navigation *)

Section Navigation.
Import Client.

(** The ticket is written at once, and the answer of the gateway
    writes the same value again. *)
Lemma changeTicketStep_ticket online ticketId direction w ticket :
  js_find (has_ticket_id ticketId) (tickets w) = Some ticket →
  steps w ≠ [] →
  js_find (has_ticket_id ticketId)
    (tickets (changeTicketStep online ticketId direction w))
  = Some (Ticket.set_current_step_id
            (navTarget (steps w) (Ticket.current_step_id ticket) direction)
            ticket).
Proof.
  intros Hfind Hne. unfold changeTicketStep. rewrite Hfind.
  destruct (Z.of_nat (length (steps w)) =? 0) eqn:E.
  { apply Z.eqb_eq in E. destruct (steps w); [done | simpl in E; lia]. }
  fold (navTarget (steps w) (Ticket.current_step_id ticket) direction).
  set (target := navTarget _ _ _).
  assert (js_find (has_ticket_id ticketId)
            (update_first (has_ticket_id ticketId)
               (Ticket.set_current_step_id target) (tickets w))
          = Some (Ticket.set_current_step_id target ticket)) as H1.
  { apply js_find_update_first; [done|]. by apply js_find_Some in Hfind as [_ Hfind]. }
  rewrite updateTicket_tickets. destruct online; [|done].
  cbn [tickets set_tickets].
  by rewrite (js_find_assign _ _ _ _ H1).
Qed.

Lemma js_nth_of_nat {A} (l : list A) (k : nat) : js_nth l (Z.of_nat k) = l !! k.
Proof.
  unfold js_nth. destruct (Z.of_nat k <? 0) eqn:E; [apply Z.ltb_lt in E; lia|].
  by rewrite Nat2Z.id.
Qed.

Lemma or_null_id (s : option Step.t) :
  (∀ x, s = Some x → Step.id x ≠ 0) → or_null (Step.id <$> s) = Step.id <$> s.
Proof.
  destruct s as [x|]; [|done]. intros H. simpl.
  destruct (Step.id x =? 0) eqn:E; [|done].
  apply Z.eqb_eq in E. by destruct (H x).
Qed.

(** A ticket that is on none of the steps starts at the first step
    going right and at the last step going left. *)
Lemma navTarget_unassigned (steps : list Step.t) cur :
  steps ≠ [] → Forall (λ s, Step.id s ≠ 0) steps →
  (∀ s, s ∈ steps → Some (Step.id s) ≠ cur) →
  navTarget steps cur "right" = Step.id <$> head steps
  ∧ navTarget steps cur "left" = Step.id <$> last steps.
Proof.
  intros Hne Hid Hnone. unfold navTarget.
  destruct (js_findIndex_spec (λ s, bool_decide (Some (Step.id s) = cur)) steps)
    as [[-> _] | (k & x & _ & Hk & Hx & _)]; cycle 1.
  { apply bool_decide_eq_true in Hx. destruct (Hnone x); [|done].
    by eapply list_elem_of_lookup_2. }
  assert (0 < Z.of_nat (length steps)) as Hlen.
  { destruct steps; [done | simpl; lia]. }
  cbn [Z.eqb Pos.eqb String.eqb Ascii.eqb Bool.eqb].
  split.
  - replace (-1 <? Z.of_nat (length steps) - 1) with true
      by (symmetry; apply Z.ltb_lt; lia).
    change (-1 + 1) with (Z.of_nat 0). rewrite js_nth_of_nat, <- head_lookup.
    apply or_null_id. intros x Hx.
    eapply (proj1 (Forall_forall _ _) Hid). by apply head_Some_elem_of.
  - replace (0 <? Z.of_nat (length steps)) with true
      by (symmetry; apply Z.ltb_lt; lia).
    replace (Z.of_nat (length steps) - 1)
      with (Z.of_nat (pred (length steps))) by lia.
    rewrite js_nth_of_nat, <- last_lookup.
    apply or_null_id. intros x Hx.
    eapply (proj1 (Forall_forall _ _) Hid). by apply last_Some_elem_of.
Qed.

(** A ticket on the step at position [i] moves one position, and stays
    where it is at either end. *)
Lemma navTarget_assigned (steps : list Step.t) (i : nat) s :
  NoDup (Step.id <$> steps) → Forall (λ s, Step.id s ≠ 0) steps →
  steps !! i = Some s →
  navTarget steps (Some (Step.id s)) "right"
  = Step.id <$> steps !! Nat.min (S i) (pred (length steps))
  ∧ navTarget steps (Some (Step.id s)) "left" = Step.id <$> steps !! pred i.
Proof.
  intros Hnd Hid Hi. unfold navTarget.
  pose proof (lookup_lt_Some _ _ _ Hi) as Hlt.
  destruct (js_findIndex_spec
              (λ s', bool_decide (Some (Step.id s') = Some (Step.id s))) steps)
    as [[_ Hall] | (k & x & -> & Hk & Hx & _)].
  { specialize (Hall s (list_elem_of_lookup_2 _ _ _ Hi)).
    apply bool_decide_eq_false in Hall. done. }
  apply bool_decide_eq_true in Hx. injection Hx as Hx.
  assert (k = i) as ->.
  { eapply NoDup_lookup; [exact Hnd | |].
    - rewrite list_lookup_fmap, Hk. simpl. by rewrite Hx.
    - by rewrite list_lookup_fmap, Hi. }
  destruct (Z.of_nat i =? -1) eqn:E; [apply Z.eqb_eq in E; lia|].
  cbn [String.eqb Ascii.eqb Bool.eqb].
  assert (∀ j, (j < length steps)%nat →
               or_null (Step.id <$> steps !! j) = Step.id <$> steps !! j) as Hnull.
  { intros j Hj. apply or_null_id. intros y Hy.
    eapply (proj1 (Forall_forall _ _) Hid). by eapply list_elem_of_lookup_2. }
  split.
  - destruct (Z.of_nat i <? Z.of_nat (length steps) - 1) eqn:E1.
    + apply Z.ltb_lt in E1.
      replace (Z.of_nat i + 1) with (Z.of_nat (S i)) by lia.
      rewrite js_nth_of_nat, Nat.min_l by lia. apply Hnull. lia.
    + apply Z.ltb_ge in E1.
      replace (Z.of_nat (length steps) - 1)
        with (Z.of_nat (pred (length steps))) by lia.
      rewrite js_nth_of_nat, Nat.min_r by lia. apply Hnull. lia.
  - destruct (0 <? Z.of_nat i) eqn:E1.
    + apply Z.ltb_lt in E1.
      replace (Z.of_nat i - 1) with (Z.of_nat (pred i)) by lia.
      rewrite js_nth_of_nat. apply Hnull. lia.
    + apply Z.ltb_ge in E1. assert (i = 0%nat) as -> by lia.
      change 0 with (Z.of_nat 0). rewrite js_nth_of_nat. apply Hnull. lia.
Qed.
End Navigation.

(** * Debounced notes *)

Section Debounce.
Import EventLoop.

Lemma registered_perm m next (ts ts' : list Timer) :
  ts ≡ₚ ts' → registered m next ts → registered m next ts'.
Proof.
  intros Hp [Hnd Hreg]. split.
  - by rewrite <- Hp.
  - intros tm Htm. apply Hreg. by rewrite Hp.
Qed.

(** Two pending timers of one ticket are the same timer. *)
Lemma registered_unique m next (ts : list Timer) tm1 tm2 :
  registered m next ts → tm1 ∈ ts → tm2 ∈ ts →
  ticketId tm1 = ticketId tm2 → tm1 = tm2.
Proof.
  intros [Hnd Hreg] H1 H2 E.
  apply (NoDup_key_inj handle ts); [done.. |].
  destruct (Hreg _ H1) as [E1 _]. destruct (Hreg _ H2) as [E2 _].
  rewrite E in E1. congruence.
Qed.

(** When a timer has run, its ticket has no entry left and the other
    timers keep theirs. *)
Lemma fire_registered m next (ts1 ts2 : list Timer) tm :
  registered m next (ts1 ++ tm :: ts2) →
  registered (delete (ticketId tm) m) next (ts1 ++ ts2).
Proof.
  intros H. apply (registered_perm _ _ _ (tm :: (ts1 ++ ts2))) in H;
    [|by rewrite Permutation_middle].
  pose proof H as [Hnd Hreg]. csimpl in Hnd. apply NoDup_cons in Hnd as [Hout Hnd].
  split; [done|]. intros tm' Htm'.
  destruct (Hreg tm') as [E Hlt]; [by right|]. split; [|done].
  rewrite lookup_delete_ne; [done|]. intros Eid.
  assert (tm = tm') as <-.
  { eapply registered_unique; [exact H | left | by right | done]. }
  apply Hout. by apply list_elem_of_fmap_2.
Qed.

Lemma foldl_fire_fields online (ts : list Timer) l :
  timers (foldl (fire online) l ts) = timers l
  ∧ nextHandle (foldl (fire online) l ts) = nextHandle l
  ∧ now (foldl (fire online) l ts) = now l.
Proof.
  revert l. induction ts as [|tm ts IH]; intros l; simpl; [done|].
  destruct (IH (fire online l tm)) as (-> & -> & ->). done.
Qed.

Lemma foldl_fire_registered online (ts : list Timer) l :
  registered (notesSaveTimers l) (nextHandle l) (timers l ++ ts) →
  loop_ok (foldl (fire online) l ts).
Proof.
  revert l. induction ts as [|tm ts IH]; intros l H; simpl.
  - by rewrite app_nil_r in H.
  - apply IH. simpl. by apply fire_registered.
Qed.

(** Time passing keeps the timers in order. *)
Lemma advance_ok online t l : loop_ok l → loop_ok (advance online t l).
Proof.
  intros H. unfold advance. apply foldl_fire_registered. simpl.
  eapply registered_perm; [|exact H].
  rewrite (Permutation_app_comm (filter _ _)).
  symmetry. apply filter_app_complement.
Qed.

Lemma advance_fields online t l :
  timers (advance online t l) = filter (λ tm, ¬ due tm ≤ t) (timers l)
  ∧ nextHandle (advance online t l) = nextHandle l
  ∧ now (advance online t l) = Z.max (now l) t.
Proof. unfold advance. by destruct (foldl_fire_fields online
  (filter (λ tm, due tm ≤ t) (timers l))
  (mkLoop (world l) (notesSaveTimers l)
     (filter (λ tm, ¬ due tm ≤ t) (timers l)) (nextHandle l)
     (Z.max (now l) t))) as (-> & -> & ->). Qed.

(** An edit keeps the timers in order: the timer it cancels is the one
    that was registered for the ticket, the timer it arms is new. *)
Lemma updateTicketNotes_ok id txt l :
  loop_ok l → loop_ok (updateTicketNotes id txt l).
Proof.
  intros [Hnd Hreg]. unfold loop_ok, updateTicketNotes. simpl.
  set (pending := match notesSaveTimers l !! id with
                  | Some h => clearTimeout h (timers l)
                  | None => timers l
                  end).
  assert (∀ tm, tm ∈ pending → tm ∈ timers l ∧ ticketId tm ≠ id) as Hpend.
  { intros tm Htm. unfold pending in Htm.
    destruct (notesSaveTimers l !! id) as [h|] eqn:E.
    - apply list_elem_of_filter in Htm as [Hh Htm]. split; [done|].
      intros Eid. destruct (Hreg tm Htm) as [E' _]. congruence.
    - split; [done|]. intros Eid. destruct (Hreg tm Htm) as [E' _]. congruence. }
  assert (NoDup (handle <$> pending)) as Hnd'.
  { unfold pending. destruct (notesSaveTimers l !! id); [|done].
    eapply sublist_NoDup; [exact Hnd|].
    apply fmap_sublist, sublist_filter. }
  split.
  - rewrite fmap_app. apply NoDup_app. split; [done|]. split.
    + intros h Hh [->|Hn]%elem_of_cons; [|by apply elem_of_nil in Hn].
      apply list_elem_of_fmap in Hh as (tm & E & Htm).
      destruct (Hpend tm Htm) as [Htm' _]. destruct (Hreg tm Htm') as [_ Hlt].
      simpl in E. lia.
    + apply NoDup_singleton.
  - intros tm [Htm | Htm]%elem_of_app.
    + destruct (Hpend tm Htm) as [Htm' Hne]. destruct (Hreg tm Htm') as [E Hlt].
      split; [|lia]. by rewrite lookup_insert_ne.
    + apply list_elem_of_singleton in Htm as ->. simpl.
      split; [by rewrite lookup_insert_eq | lia].
Qed.
Lemma notes_calls_app id rs1 rs2 :
  notes_calls id (rs1 ++ rs2) = notes_calls id rs1 ++ notes_calls id rs2.
Proof. apply omap_app. Qed.


Lemma filter_none {A} (P : A → Prop) `{∀ x, Decision (P x)} (l : list A) :
  (∀ y, y ∈ l → ¬ P y) → filter P l = [].
Proof.
  induction l as [|z l IH]; intros Hall; [done|].
  rewrite filter_cons. destruct (decide (P z)) as [HPz | _].
  - destruct (Hall z); [left | done].
  - apply IH. intros y Hy. apply Hall. by right.
Qed.

Lemma filter_unique {A} (P : A → Prop) `{∀ x, Decision (P x)} (l : list A) x :
  NoDup l → x ∈ l → P x → (∀ y, y ∈ l → P y → y = x) → filter P l = [x].
Proof.
  induction l as [|z l IH]; intros Hnd Hx HP Hall.
  - by apply elem_of_nil in Hx.
  - apply NoDup_cons in Hnd as [Hz Hnd]. rewrite filter_cons.
    destruct (decide (P z)) as [HPz | HPz].
    + assert (z = x) as -> by (apply Hall; [left | done]).
      f_equal. apply filter_none. intros y Hy HPy.
      assert (y = x) as -> by (apply Hall; [by right | done]). done.
    + apply elem_of_cons in Hx as [-> | Hx]; [done|].
      apply IH; [done.. |]. intros y Hy. apply Hall. by right.
Qed.

(** The notes requests that running the timers [ts] sends for one
    ticket: the texts of its timers. *)
Lemma foldl_fire_calls online id (ts : list Timer) l :
  notes_calls id (Client.sent (world (foldl (fire online) l ts)))
  = notes_calls id (Client.sent (world l))
    ++ (text <$> filter (λ tm, ticketId tm = id) ts).
Proof.
  revert l. induction ts as [|tm ts IH]; intros l; simpl.
  - by rewrite app_nil_r.
  - rewrite IH. simpl. rewrite updateTicket_sent, notes_calls_app, <- app_assoc.
    f_equal. rewrite filter_cons. simpl.
    destruct (decide (ticketId tm = id)) as [-> | Hne].
    + by rewrite Z.eqb_refl.
    + destruct (ticketId tm =? id) eqn:E; [apply Z.eqb_eq in E; done | done].
Qed.

Lemma advance_calls online id t l :
  notes_calls id (Client.sent (world (advance online t l)))
  = notes_calls id (Client.sent (world l))
    ++ (text <$> filter (λ tm, ticketId tm = id)
                   (filter (λ tm, due tm ≤ t) (timers l))).
Proof. unfold advance. by rewrite foldl_fire_calls. Qed.

(** Right after an edit the ticket has its timer, due in 400 ms and
    carrying the text just typed; nothing has been sent. *)
Lemma updateTicketNotes_armed id txt l :
  let l' := updateTicketNotes id txt l in
  mkTimer (nextHandle l) (now l' + 400) id txt ∈ timers l'
  ∧ now l' = now l
  ∧ Client.sent (world l') = Client.sent (world l).
Proof.
  unfold updateTicketNotes. simpl. split; [|done].
  apply elem_of_app. right. left.
Qed.


(** While a ticket's timer is not due, time passing sends nothing for
    that ticket and leaves the timer pending. *)
Lemma advance_quiet online id t l tm :
  loop_ok l → tm ∈ timers l → ticketId tm = id → t < due tm →
  tm ∈ timers (advance online t l)
  ∧ notes_calls id (Client.sent (world (advance online t l)))
    = notes_calls id (Client.sent (world l)).
Proof.
  intros Hok Htm Hid Hdue. split.
  - destruct (advance_fields online t l) as (-> & _).
    apply list_elem_of_filter. split; [lia | done].
  - rewrite advance_calls.
    replace (filter _ (filter _ (timers l))) with (@nil Timer);
      [by rewrite app_nil_r|].
    symmetry. apply filter_none.
    intros tm' [Hdue' Htm']%list_elem_of_filter Hid'.
    assert (tm' = tm) as -> by (eapply registered_unique; [exact Hok | done.. | congruence]).
    lia.
Qed.

(** When the timer of a ticket is due, time passing sends its text,
    once, and no timer of the ticket is left. *)
Lemma advance_due online id t l tm :
  loop_ok l → tm ∈ timers l → ticketId tm = id → due tm ≤ t →
  notes_calls id (Client.sent (world (advance online t l)))
  = notes_calls id (Client.sent (world l)) ++ [text tm]
  ∧ pending_for id (advance online t l) = [].
Proof.
  intros Hok Htm Hid Hdue.
  assert (∀ tm', tm' ∈ timers l → ticketId tm' = id → tm' = tm) as Huniq.
  { intros tm' Htm' Hid'. eapply registered_unique; [exact Hok | done.. | congruence]. }
  split.
  - rewrite advance_calls. f_equal.
    rewrite (filter_unique _ _ tm); [done | | | done |].
    + apply NoDup_filter. destruct Hok as [Hnd _]. by apply NoDup_fmap_1 in Hnd.
    + by apply list_elem_of_filter.
    + intros tm' [_ Htm']%list_elem_of_filter Hid'. by apply Huniq.
  - unfold pending_for. destruct (advance_fields online t l) as (-> & _).
    apply filter_none.
    intros tm' [Hdue' Htm']%list_elem_of_filter Hid'.
    rewrite (Huniq tm' Htm' Hid') in Hdue'. done.
Qed.


End Debounce.

(** * Identifiers in the store and in the client *)

Section Identifiers.

Lemma ids_ok_mono seq seq' ids : ids_ok seq ids → seq ≤ seq' → ids_ok seq' ids.
Proof. intros [Hnd Hb] Hle. split; [done|]. intros i Hi. specialize (Hb i Hi). lia. Qed.

Lemma ids_ok_perm seq ids ids' : ids ≡ₚ ids' → ids_ok seq ids → ids_ok seq ids'.
Proof.
  intros Hp [Hnd Hb]. split; [by rewrite <- Hp|].
  intros i Hi. apply Hb. by rewrite Hp.
Qed.

Lemma ids_ok_sublist seq ids ids' :
  ids' `sublist_of` ids → ids_ok seq ids → ids_ok seq ids'.
Proof.
  intros Hs [Hnd Hb]. split; [by eapply sublist_NoDup|].
  intros i Hi. apply Hb. by eapply elem_of_sublist.
Qed.

Lemma ids_ok_snoc seq ids n :
  ids_ok seq ids → seq < n → 0 < n → ids_ok n (ids ++ [n]).
Proof.
  intros [Hnd Hb] Hlt Hpos. split.
  - apply NoDup_app. split; [done|]. split; [|apply NoDup_singleton].
    intros i Hi [-> | Hn]%elem_of_cons; [|by apply elem_of_nil in Hn].
    specialize (Hb _ Hi). lia.
  - intros i [Hi | Hi]%elem_of_app.
    + specialize (Hb _ Hi). lia.
    + apply list_elem_of_singleton in Hi as ->. lia.
Qed.

Lemma ids_ok_nonzero seq ids : ids_ok seq ids → Forall (λ i, i ≠ 0) ids.
Proof. intros [_ Hb]. apply Forall_forall. intros i Hi. specialize (Hb i Hi). lia. Qed.

(** AUTOINCREMENT gives a positive id above the counter. *)
Lemma next_rowid_fresh seq ids :
  ids_ok seq ids →
  seq < Gateway.next_rowid seq ids ∧ 0 < Gateway.next_rowid seq ids.
Proof.
  intros [_ Hb]. unfold Gateway.next_rowid.
  destruct ids as [|x ids]; simpl; [lia|].
  specialize (Hb x). destruct Hb; [left | lia].
Qed.

Lemma assign_ticket_id body r :
  Ticket.id (Gateway.assign_ticket body r) = Ticket.id r.
Proof.
  unfold Gateway.assign_ticket.
  destruct body as [[?|] [?|] [?|] [?|] [?|]]; done.
Qed.

Lemma assign_step_id body r : Step.id (Gateway.assign_step body r) = Step.id r.
Proof. unfold Gateway.assign_step. destruct body as [[?|] [?|]]; done. Qed.

(** Overwriting the row found by id with a row of the same id. *)
Lemma update_first_same_key {A} (key : A → Z) (k : Z) (r' : A) (l : list A) r :
  js_find (λ x, key x =? k) l = Some r → key r' = key r →
  key <$> update_first (λ x, key x =? k) (λ _, r') l = key <$> l.
Proof.
  intros Hf Hk. induction l as [|y l IH]; simpl in *; [done|].
  destruct (key y =? k) eqn:E; csimpl.
  - injection Hf as ->. by rewrite Hk.
  - by rewrite IH.
Qed.

(** Every handler of the gateway keeps the ids in order. *)
Lemma post_ticket_ok body db : db_ok db → db_ok (Gateway.post_ticket body db).2.
Proof.
  intros [Ht Hs]. unfold Gateway.post_ticket.
  destruct (TicketBody.ticket_number body); [|done].
  destruct (Gateway.ticket_row_ok _ _); [|done].
  destruct (next_rowid_fresh _ _ Ht) as [Hlt Hpos].
  split; simpl; [|done]. rewrite fmap_app.
  by apply (ids_ok_snoc (Gateway.tickets_seq db)).
Qed.

Lemma put_ticket_ok id body db : db_ok db → db_ok (Gateway.put_ticket id body db).2.
Proof.
  intros [Ht Hs]. unfold Gateway.put_ticket.
  destruct (js_find _ _) as [r|] eqn:Hf; [|done].
  destruct (Gateway.ticket_update_ok _ _ _); [|done].
  split; simpl; [|done].
  rewrite (update_first_same_key Ticket.id id _ _ r); [done.. |].
  apply assign_ticket_id.
Qed.

Lemma delete_ticket_ok id db : db_ok db → db_ok (Gateway.delete_ticket id db).2.
Proof.
  intros [Ht Hs]. unfold Gateway.delete_ticket.
  destruct (decide _); [done|]. split; simpl; [|done].
  eapply ids_ok_sublist; [|exact Ht]. apply fmap_sublist, sublist_filter.
Qed.

Lemma post_step_ok body db : db_ok db → db_ok (Gateway.post_step body db).2.
Proof.
  intros [Ht Hs]. unfold Gateway.post_step.
  destruct (StepBody.name body); [|done].
  destruct (next_rowid_fresh _ _ Hs) as [Hlt Hpos].
  split; simpl; [done|]. rewrite fmap_app.
  by apply (ids_ok_snoc (Gateway.steps_seq db)).
Qed.

Lemma put_step_ok id body db : db_ok db → db_ok (Gateway.put_step id body db).2.
Proof.
  intros [Ht Hs]. unfold Gateway.put_step.
  destruct (Gateway.step_updates body); [done|].
  destruct (js_find _ _) as [r|] eqn:Hf; [|done].
  split; simpl; [done|].
  rewrite (update_first_same_key Step.id id _ _ r); [done.. |].
  apply assign_step_id.
Qed.

Lemma clear_step_id stepId t : Ticket.id (clear_step stepId t) = Ticket.id t.
Proof. unfold clear_step. by destruct (decide _). Qed.

Lemma clear_step_ids stepId (l : list Ticket.t) :
  Ticket.id <$> (clear_step stepId <$> l) = Ticket.id <$> l.
Proof.
  rewrite <- list_fmap_compose. apply list_fmap_ext.
  intros _ t _. apply clear_step_id.
Qed.

Lemma delete_step_ok id db : db_ok db → db_ok (Gateway.delete_step id db).2.
Proof.
  intros [Ht Hs]. split.
  - rewrite delete_step_tickets. fold (clear_step id). rewrite clear_step_ids.
    unfold Gateway.delete_step. by destruct (decide _).
  - rewrite delete_step_steps.
    assert (Gateway.steps_seq (Gateway.delete_step id db).2 = Gateway.steps_seq db)
      as -> by (unfold Gateway.delete_step; by destruct (decide _)).
    eapply ids_ok_sublist; [|exact Hs]. apply fmap_sublist, sublist_filter.
Qed.
Lemma ids_ok_sub seq ids ids' : ids' ⊆+ ids → ids_ok seq ids → ids_ok seq ids'.
Proof.
  intros Hs [Hnd Hb]. split.
  - apply submseteq_Permutation in Hs as [k Hk]. rewrite Hk in Hnd.
    by apply NoDup_app in Hnd as [? _].
  - intros i Hi. apply Hb. by eapply elem_of_submseteq.
Qed.

Lemma post_ticket_seq body db : seq_le db (Gateway.post_ticket body db).2.
Proof.
  unfold seq_le, Gateway.post_ticket.
  destruct (TicketBody.ticket_number body); [|simpl; lia].
  destruct (Gateway.ticket_row_ok _ _); simpl; [|lia].
  unfold Gateway.next_rowid. lia.
Qed.

Lemma put_ticket_seq id body db : seq_le db (Gateway.put_ticket id body db).2.
Proof.
  unfold seq_le, Gateway.put_ticket.
  destruct (js_find _ _); [|simpl; lia].
  destruct (Gateway.ticket_update_ok _ _ _); simpl; lia.
Qed.

Lemma delete_ticket_seq id db : seq_le db (Gateway.delete_ticket id db).2.
Proof. unfold seq_le, Gateway.delete_ticket. destruct (decide _); simpl; lia. Qed.

Lemma post_step_seq body db : seq_le db (Gateway.post_step body db).2.
Proof.
  unfold seq_le, Gateway.post_step.
  destruct (StepBody.name body); simpl; [|lia].
  unfold Gateway.next_rowid. lia.
Qed.

Lemma put_step_seq id body db : seq_le db (Gateway.put_step id body db).2.
Proof.
  unfold seq_le, Gateway.put_step.
  destruct (Gateway.step_updates body); [simpl; lia|].
  destruct (js_find _ _); simpl; lia.
Qed.

Lemma delete_step_seq id db : seq_le db (Gateway.delete_step id db).2.
Proof. unfold seq_le, Gateway.delete_step. destruct (decide _); simpl; lia. Qed.

(** The client stays in order when the store answers a request and the
    client keeps, drops or reorders the items it holds. *)
Lemma mirror_ok_step w w' :
  mirror_ok w →
  db_ok (Client.db w') → seq_le (Client.db w) (Client.db w') →
  Ticket.id <$> Client.tickets w' ⊆+ Ticket.id <$> Client.tickets w →
  Step.id <$> Client.steps w' ⊆+ Step.id <$> Client.steps w →
  mirror_ok w'.
Proof.
  intros (_ & Ht & Hs) Hdb [Hts Hss] Hsubt Hsubs. split; [done|]. split.
  - eapply ids_ok_mono; [|exact Hts]. by eapply ids_ok_sub.
  - eapply ids_ok_mono; [|exact Hss]. by eapply ids_ok_sub.
Qed.

Lemma seq_le_refl db : seq_le db db.
Proof. unfold seq_le. lia. Qed.

Lemma Object_assign_ids updates p (l : list Ticket.t) :
  Ticket.id <$> update_first p (Client.Object_assign updates) l = Ticket.id <$> l.
Proof. apply update_first_fmap. intros x. apply assign_ticket_id. Qed.

Lemma updateTicket_ok online ticketId updates w :
  mirror_ok w → mirror_ok (Client.updateTicket online ticketId updates w).
Proof.
  intros H. pose proof H as (Hdb & _). unfold Client.updateTicket.
  destruct online; simpl.
  - eapply mirror_ok_step; [exact H | simpl..].
    + by apply put_ticket_ok.
    + apply put_ticket_seq.
    + by rewrite Object_assign_ids.
    + done.
  - eapply mirror_ok_step; [exact H | simpl; done || apply seq_le_refl ..].
Qed.

Lemma loadTickets_ok online w :
  mirror_ok w → mirror_ok (Client.loadTickets online w).
Proof.
  intros H. pose proof H as ([Hdbt Hdbs] & Ht & Hs). unfold Client.loadTickets.
  destruct online; simpl; [|done].
  split; [done|]. split; [|done]. simpl.
  eapply ids_ok_perm; [|exact Hdbt].
  unfold Gateway.get_tickets. by rewrite merge_sort_Permutation.
Qed.

Lemma loadSteps_ok online w :
  mirror_ok w → mirror_ok (Client.loadSteps online w).
Proof.
  intros H. pose proof H as ([Hdbt Hdbs] & Ht & Hs). unfold Client.loadSteps.
  destruct online; simpl; [|done].
  split; [done|]. split; [done|]. simpl.
  eapply ids_ok_perm; [|exact Hdbs].
  unfold Gateway.get_steps. by rewrite merge_sort_Permutation.
Qed.

Lemma deleteTicket_ok online ticketId w :
  mirror_ok w → mirror_ok (Client.deleteTicket online ticketId w).
Proof.
  intros H. pose proof H as (Hdb & _). unfold Client.deleteTicket.
  destruct online; simpl; [|done].
  eapply mirror_ok_step; [exact H | simpl..].
  - by apply delete_ticket_ok.
  - apply delete_ticket_seq.
  - apply sublist_submseteq, fmap_sublist, sublist_filter.
  - done.
Qed.

Lemma deleteStep_ok online stepId skipUndo w :
  mirror_ok w → mirror_ok (Client.deleteStep online stepId skipUndo w).
Proof.
  intros H. pose proof H as (Hdb & _). destruct online.
  - destruct (deleteStep_online stepId skipUndo w) as (Ht & Hs & Hd & _).
    eapply mirror_ok_step; [exact H | ..].
    + rewrite Hd. by apply delete_step_ok.
    + rewrite Hd. apply delete_step_seq.
    + by rewrite Ht, clear_step_ids.
    + rewrite Hs. apply sublist_submseteq, fmap_sublist, sublist_filter.
  - destruct (deleteStep_offline stepId skipUndo w) as (Ht & Hs & Hd).
    eapply mirror_ok_step; [exact H | ..]; rewrite ?Hd, ?Ht, ?Hs;
      done || apply seq_le_refl.
Qed.
Lemma post_ticket_reply_id body db st row db' :
  db_ok db →
  Gateway.post_ticket body db = (Gateway.Reply st row, db') →
  Gateway.tickets db' = Gateway.tickets db ++ [row]
  ∧ Gateway.tickets_seq db' = Ticket.id row
  ∧ Gateway.steps_seq db' = Gateway.steps_seq db
  ∧ Gateway.tickets_seq db < Ticket.id row ∧ 0 < Ticket.id row.
Proof.
  intros [Ht _]. unfold Gateway.post_ticket.
  destruct (TicketBody.ticket_number body); [|done].
  destruct (Gateway.ticket_row_ok _ _); [|done].
  intros [= <- <- <-]. simpl.
  destruct (next_rowid_fresh _ _ Ht). done.
Qed.

Lemma addTicket_ok online random w w' :
  Client.addTicket online random w = Client.Settled w' → mirror_ok w → mirror_ok w'.
Proof.
  rewrite addTicket_unfold. cbv zeta. intros E H.
  pose proof H as (Hdb & Ht & Hs).
  destruct (generateNewTicketNumber_rest random w) as (Hgt & Hgs & Hgd & _).
  destruct online.
  - destruct (Gateway.post_ticket _ _) as [[st row | ? ?] db'] eqn:Ep; [|done].
    injection E as <-.
    pose proof (post_ticket_ok (addTicket_body random w) (Client.db w) Hdb) as Hdb'.
    rewrite Ep in Hdb'. simpl in Hdb'.
    destruct (post_ticket_reply_id _ _ _ _ _ Hdb Ep) as (_ & Hseq & Hsseq & Hlt & Hpos).
    split; [done|]. split; simpl.
    + rewrite Hseq, fmap_app. by apply (ids_ok_snoc (Gateway.tickets_seq (Client.db w))).
    + by rewrite Hsseq, Hgs.
  - injection E as <-.
    eapply mirror_ok_step; [exact H | simpl; rewrite ?Hgd, ?Hgt, ?Hgs; done || apply seq_le_refl ..].
Qed.

Lemma addStep_ok online w w' :
  Client.addStep online w = Some w' → mirror_ok w → mirror_ok w'.
Proof.
  unfold Client.addStep. intros E H. pose proof H as ([Hdbt Hdbs] & Ht & Hs).
  destruct online; simpl in E; injection E as <-; [|done].
  destruct (next_rowid_fresh _ _ Hdbs) as [Hlt Hpos].
  split; [|split]; simpl.
  - split; simpl; [done|]. rewrite fmap_app.
    by apply (ids_ok_snoc (Gateway.steps_seq (Client.db w))).
  - done.
  - rewrite fmap_app. by apply (ids_ok_snoc (Gateway.steps_seq (Client.db w))).
Qed.

(** Replacing the client's tickets by the same tickets in another
    order, or with other field values. *)
Lemma set_tickets_ok (l : list Ticket.t) w :
  Ticket.id <$> l ⊆+ Ticket.id <$> Client.tickets w →
  mirror_ok w → mirror_ok (Client.set_tickets l w).
Proof.
  intros Hsub H. eapply mirror_ok_step; [exact H | simpl..];
    [by destruct H | apply seq_le_refl | done | done].
Qed.

Lemma set_steps_ok (l : list Step.t) w :
  Step.id <$> l ⊆+ Step.id <$> Client.steps w →
  mirror_ok w → mirror_ok (Client.set_steps l w).
Proof.
  intros Hsub H. eapply mirror_ok_step; [exact H | simpl..];
    [by destruct H | apply seq_le_refl | done | done].
Qed.

Lemma changeTicketStep_ok online ticketId direction w :
  mirror_ok w → mirror_ok (Client.changeTicketStep online ticketId direction w).
Proof.
  intros H. unfold Client.changeTicketStep.
  destruct (js_find _ _); [|done].
  destruct (_ =? 0); [done|].
  apply updateTicket_ok, set_tickets_ok; [|done].
  by rewrite update_first_fmap.
Qed.

Lemma finishEditTicketNumber_ok online ticketId newNum w :
  mirror_ok w → mirror_ok (Client.finishEditTicketNumber online ticketId newNum w).
Proof.
  intros H. unfold Client.finishEditTicketNumber.
  destruct newNum as [n|]; [|done].
  destruct (n <=? 0); [done|].
  destruct (decide _); [done|].
  pose proof (updateTicket_ok online ticketId
                (TicketBody.mk (Some n) None None None None) w H) as H1.
  set (w1 := Client.updateTicket _ _ _ w) in *.
  apply set_tickets_ok.
  - simpl. destruct (js_find _ _); simpl; by rewrite update_first_fmap.
  - destruct (js_find _ _); simpl; exact H1.
Qed.

Lemma foldl_ok {A} (step : Client.World → A → Client.World) (l : list A) w :
  (∀ w x, mirror_ok w → mirror_ok (step w x)) →
  mirror_ok w → mirror_ok (foldl step w l).
Proof.
  intros Hstep. revert w. induction l as [|x l IH]; intros w H; simpl; [done|].
  by apply IH, Hstep.
Qed.

Lemma persistTicketOrder_ok online w :
  mirror_ok w → mirror_ok (Client.persistTicketOrder online w).
Proof.
  intros H. unfold Client.persistTicketOrder.
  apply foldl_ok; [intros; by apply updateTicket_ok|].
  apply set_tickets_ok; [|done].
  unfold mapi. by rewrite (mapi_from_key Ticket.id).
Qed.

Lemma moveTicketInArray_ok online fromIdx toIdx w b w' :
  Client.moveTicketInArray online fromIdx toIdx w = Some (b, w') →
  mirror_ok w → mirror_ok w'.
Proof.
  unfold Client.moveTicketInArray. intros E H.
  destruct (_ || _); [by injection E as <- <-|].
  destruct (splice_take _ _) as [[item|] rest] eqn:Es; [|done].
  injection E as <- <-.
  apply persistTicketOrder_ok, set_tickets_ok; [|done].
  apply Permutation_submseteq. by rewrite (splice_move_perm _ _ _ _ _ Es).
Qed.

Lemma updateStepOrder_ok online stepId i w :
  mirror_ok w → mirror_ok (Client.updateStepOrder online stepId i w).
Proof.
  intros H. pose proof H as (Hdb & _). unfold Client.updateStepOrder.
  destruct online; simpl; [|done].
  eapply mirror_ok_step; [exact H | simpl..].
  - by apply put_step_ok.
  - apply put_step_seq.
  - done.
  - by rewrite update_first_fmap.
Qed.

Lemma updateStep_ok online stepId name w :
  mirror_ok w → mirror_ok (Client.updateStep online stepId name w).
Proof.
  intros H. pose proof H as (Hdb & _). unfold Client.updateStep.
  destruct online; simpl; [|done].
  eapply mirror_ok_step; [exact H | simpl..].
  - by apply put_step_ok.
  - apply put_step_seq.
  - done.
  - by rewrite update_first_fmap.
Qed.

Lemma persistStepOrder_ok online w :
  mirror_ok w → mirror_ok (Client.persistStepOrder online w).
Proof.
  intros H. unfold Client.persistStepOrder.
  set (w2 := foldl _ _ _).
  assert (mirror_ok w2) as H2.
  { apply foldl_ok; [intros; by apply updateStepOrder_ok|].
    apply set_steps_ok; [|done].
    unfold mapi. by rewrite (mapi_from_key Step.id). }
  by destruct (online || _).
Qed.

Lemma moveStep_ok online stepId delta w :
  mirror_ok w → mirror_ok (Client.moveStep online stepId delta w).
Proof.
  intros H. unfold Client.moveStep.
  destruct (_ =? -1); [done|]. destruct (_ || _); [done|].
  destruct (splice_take _ _) as [[moved|] rest] eqn:Es; [|done].
  apply persistStepOrder_ok, set_steps_ok; [|done].
  apply Permutation_submseteq. by rewrite (splice_move_perm _ _ _ _ _ Es).
Qed.

Lemma dropStep_ok online draggingStepId targetId after w :
  mirror_ok w → mirror_ok (Client.dropStep online draggingStepId targetId after w).
Proof.
  intros H. unfold Client.dropStep.
  destruct (or_null _); [|done]. destruct (_ =? _); [done|].
  destruct (_ || _); [done|].
  destruct (splice_take _ _) as [[moved|] rest] eqn:Es; [|done].
  apply persistStepOrder_ok, set_steps_ok; [|done].
  apply Permutation_submseteq. by rewrite (splice_move_perm _ _ _ _ _ Es).
Qed.

(** Unique and non-zero ids in the client's arrays follow. *)
Lemma mirror_ok_ids w :
  mirror_ok w →
  NoDup (Ticket.id <$> Client.tickets w)
  ∧ NoDup (Step.id <$> Client.steps w)
  ∧ Forall (λ s, Step.id s ≠ 0) (Client.steps w).
Proof.
  intros (_ & [Hnt _] & Hs). split; [done|]. split; [by destruct Hs|].
  destruct Hs as [_ Hb]. apply Forall_forall. intros s Hin.
  specialize (Hb (Step.id s) (list_elem_of_fmap_2 _ _ _ Hin)). lia.
Qed.
(** The sample client is what loading from the sample store gives,
    and it is in order. *)
Lemma sample_world_loaded :
  let w :=
    Client.loadTickets true
      (Client.loadSteps true
         (Client.mkWorld [] [] ∅ (Client.mkSettings true false) [] [] false
            sample_db [] [])) in
  Client.tickets w = Client.tickets sample_world
  ∧ Client.steps w = Client.steps sample_world
  ∧ Client.usedTicketNumbers w = Client.usedTicketNumbers sample_world
  ∧ Client.db w = Client.db sample_world.
Proof.
  cbv zeta. split; [reflexivity|]. split; [reflexivity|]. split; [|reflexivity].
  simpl. set_solver.
Qed.

Lemma sample_world_ok : mirror_ok sample_world.
Proof.
  assert (ids_ok 3 [1; 2; 3]) as H.
  { split.
    - apply (bool_decide_unpack _). vm_compute. reflexivity.
    - intros i Hi. repeat (apply elem_of_cons in Hi as [-> | Hi]; [lia|]).
      by apply elem_of_nil in Hi. }
  split; [split|split]; exact H.
Qed.
End Identifiers.

(** * The stored order after a move *)

Section StoredOrder.

(** With unique keys, the element that carries the key after a write
    through [find] is the written one. *)
Lemma update_first_hit {A} (key : A → Z) (k : Z) (f : A → A) (l : list A) r :
  NoDup (key <$> l) → (∀ x, key (f x) = key x) →
  r ∈ update_first (λ x, key x =? k) f l → key r = k →
  ∃ x, x ∈ l ∧ r = f x.
Proof.
  intros Hnd Hkey. induction l as [|y l IH]; simpl; intros Hr Hk.
  - by apply elem_of_nil in Hr.
  - csimpl in Hnd. apply NoDup_cons in Hnd as [Hy Hnd].
    destruct (key y =? k) eqn:E.
    + apply Z.eqb_eq in E. apply elem_of_cons in Hr as [-> | Hr].
      * exists y. split; [left | done].
      * destruct Hy. rewrite E, <- Hk. by apply list_elem_of_fmap_2.
    + apply Z.eqb_neq in E. apply elem_of_cons in Hr as [-> | Hr]; [done|].
      destruct (IH Hnd Hr Hk) as (x & Hx & ->). exists x. split; [by right | done].
Qed.

(** An element with another key is not touched. *)
Lemma update_first_other {A} (key : A → Z) (k : Z) (f : A → A) (l : list A) r :
  (∀ x, key (f x) = key x) →
  r ∈ update_first (λ x, key x =? k) f l → key r ≠ k → r ∈ l.
Proof.
  intros Hkey. induction l as [|y l IH]; simpl; intros Hr Hk; [done|].
  destruct (key y =? k) eqn:E.
  - apply Z.eqb_eq in E. apply elem_of_cons in Hr as [-> | Hr]; [|by right].
    rewrite Hkey in Hk. done.
  - apply elem_of_cons in Hr as [-> | Hr]; [left | right; by apply IH].
Qed.

Lemma update_first_const {A} (p : A → bool) (f : A → A) (l : list A) r :
  js_find p l = Some r → update_first p (λ _, f r) l = update_first p f l.
Proof.
  induction l as [|y l IH]; simpl; [done|].
  destruct (p y); [by intros [= ->] | intros H; by rewrite IH].
Qed.

(** A request that only renumbers a ticket is never refused once the
    stored numbers are unique, and writes the row with that id. *)
Lemma put_ticket_order_index id i db :
  NoDup (Ticket.ticket_number <$> Gateway.tickets db) →
  Gateway.tickets
    (Gateway.put_ticket id (TicketBody.mk None None None None (Some i)) db).2
  = update_first (λ r, Ticket.id r =? id) (Ticket.set_order_index i)
      (Gateway.tickets db).
Proof.
  intros Hnd. unfold Gateway.put_ticket.
  destruct (js_find _ _) as [r|] eqn:Hf.
  - cbv zeta.
    change (Gateway.assign_ticket _ r) with (Ticket.set_order_index i r).
    assert (Gateway.ticket_update_ok
              (TicketBody.mk None None None None (Some i))
              (Ticket.set_order_index i r) db = true) as ->.
    { unfold Gateway.ticket_update_ok. simpl. rewrite andb_true_r.
      unfold Gateway.unique_number. apply forallb_forall. intros x Hx.
      apply list_elem_of_In in Hx.
      destruct (Ticket.ticket_number x =? Ticket.ticket_number r) eqn:E;
        [|by rewrite orb_true_r].
      apply Z.eqb_eq in E. apply js_find_Some in Hf as [Hr _].
      rewrite (NoDup_key_inj Ticket.ticket_number _ x r Hnd Hx Hr E).
      by rewrite Z.eqb_refl. }
    simpl. by apply (update_first_const _ (Ticket.set_order_index i)).
  - simpl. symmetry. by apply update_first_miss.
Qed.

Section StoreOrderFacts.
Context {A : Type} (key : A → Z) (pos : A → Z) (set_pos : Z → A → A).
Hypothesis pos_set_pos : ∀ i x, pos (set_pos i x) = i.
Hypothesis key_set_pos : ∀ i x, key (set_pos i x) = key x.

Lemma store_order_keys rows l :
  key <$> store_order key pos set_pos rows l = key <$> rows.
Proof.
  revert rows. induction l as [|t l IH]; intros rows; simpl; [done|].
  rewrite IH. by apply update_first_fmap.
Qed.

Lemma store_order_other rows l r :
  r ∈ store_order key pos set_pos rows l → key r ∉ key <$> l → r ∈ rows.
Proof.
  revert rows. induction l as [|t l IH]; intros rows; simpl; [done|].
  intros Hr Hout. apply not_elem_of_cons in Hout as [Hne Hout].
  apply IH in Hr; [|done].
  by apply (update_first_other key) in Hr.
Qed.

(** After the renumbering requests, the stored row of each renumbered
    item carries that item's [order_index]. *)
Lemma store_order_agrees rows l t r :
  NoDup (key <$> rows) → NoDup (key <$> l) →
  t ∈ l → r ∈ store_order key pos set_pos rows l → key r = key t →
  pos r = pos t.
Proof.
  revert rows. induction l as [|t' l IH]; intros rows Hrows Hl Ht Hr Hid.
  - by apply elem_of_nil in Ht.
  - csimpl in Hl. apply NoDup_cons in Hl as [Hout Hl]. simpl in Hr.
    apply elem_of_cons in Ht as [-> | Ht].
    + apply store_order_other in Hr; [|by rewrite Hid].
      apply (update_first_hit key) in Hr as (x & _ & ->); done.
    + eapply IH; [| done | done | exact Hr | done].
      by rewrite update_first_fmap.
Qed.

(** An item at position [i] after the re-sequencing pass has
    [order_index] [i]. *)
Lemma mapi_lookup_pos (l : list A) (i : nat) t :
  mapi set_pos l !! i = Some t → pos t = Z.of_nat i.
Proof.
  intros Hi.
  assert ((pos <$> mapi set_pos l) !! i = Some (pos t)) as H
    by by rewrite list_lookup_fmap, Hi.
  unfold mapi in H. rewrite (mapi_from_pos pos set_pos pos_set_pos) in H.
  apply lookup_seqZ in H. lia.
Qed.
End StoreOrderFacts.

Lemma foldl_updateTicket_db (l : list Ticket.t) w :
  NoDup (Ticket.ticket_number <$> Gateway.tickets (Client.db w)) →
  Gateway.tickets
    (Client.db
       (foldl
          (λ w t,
             Client.updateTicket true (Ticket.id t)
               (TicketBody.mk None None None None (Some (Ticket.order_index t))) w)
          w l))
  = store_order Ticket.id Ticket.order_index Ticket.set_order_index
      (Gateway.tickets (Client.db w)) l.
Proof.
  revert w. induction l as [|t l IH]; intros w Hnd; simpl; [done|].
  rewrite IH; simpl; rewrite put_ticket_order_index by done; [done|].
  by rewrite update_first_fmap.
Qed.

Lemma put_step_order_index id i db :
  Gateway.steps (Gateway.put_step id (StepBody.mk None (Some i)) db).2
  = update_first (λ r, Step.id r =? id) (Step.set_order_index i)
      (Gateway.steps db).
Proof.
  unfold Gateway.put_step. simpl.
  destruct (js_find _ _) as [r|] eqn:Hf; simpl.
  - by apply (update_first_const _ (Step.set_order_index i)).
  - symmetry. by apply update_first_miss.
Qed.

Lemma foldl_updateStepOrder_db (l : list Step.t) w :
  Gateway.steps
    (Client.db
       (foldl
          (λ w s, Client.updateStepOrder true (Step.id s) (Step.order_index s) w)
          w l))
  = store_order Step.id Step.order_index Step.set_order_index
      (Gateway.steps (Client.db w)) l.
Proof.
  revert w. induction l as [|t l IH]; intros w; simpl; [done|].
  rewrite IH. simpl. by rewrite put_step_order_index.
Qed.

(** After a ticket drag has settled, the stored row of every ticket
    the client holds carries the ticket's position. *)
Lemma moveTicketInArray_stored fromIdx toIdx w w' :
  NoDup (Ticket.id <$> Gateway.tickets (Client.db w)) →
  NoDup (Ticket.ticket_number <$> Gateway.tickets (Client.db w)) →
  NoDup (Ticket.id <$> Client.tickets w) →
  Client.moveTicketInArray true fromIdx toIdx w = Some (true, w') →
  ∀ (i : nat) t r,
    Client.tickets w' !! i = Some t →
    r ∈ Gateway.tickets (Client.db w') → Ticket.id r = Ticket.id t →
    Ticket.order_index r = Z.of_nat i.
Proof.
  intros Hrows Hnum Hids. unfold Client.moveTicketInArray.
  destruct (_ || _); [done|].
  destruct (splice_take _ _) as [[item|] rest] eqn:Es; [|done].
  intros [= <-] i t r Hi Hr Hid.
  set (w1 := Client.set_tickets (splice_put rest toIdx item) w) in *.
  assert (NoDup (Ticket.id <$> Client.tickets w1)) as Hids1.
  { simpl. by rewrite (splice_move_perm _ _ _ _ _ Es). }
  rewrite persistTicketOrder_tickets in Hi by done.
  unfold Client.persistTicketOrder in Hr.
  rewrite foldl_updateTicket_db in Hr by done. simpl in Hr.
  rewrite <- (mapi_lookup_pos Ticket.order_index Ticket.set_order_index
                (λ _ _, eq_refl) _ i t Hi).
  eapply (store_order_agrees Ticket.id Ticket.order_index Ticket.set_order_index);
    [done | done | exact Hrows | | by eapply list_elem_of_lookup_2 | exact Hr | done].
  unfold mapi. by rewrite (mapi_from_key Ticket.id).
Qed.

(** The same for a step move. *)
Lemma persistStepOrder_stored w :
  NoDup (Step.id <$> Gateway.steps (Client.db w)) →
  NoDup (Step.id <$> Client.steps w) →
  ∀ (i : nat) s r,
    Client.steps (Client.persistStepOrder true w) !! i = Some s →
    r ∈ Gateway.steps (Client.db (Client.persistStepOrder true w)) →
    Step.id r = Step.id s →
    Step.order_index r = Z.of_nat i.
Proof.
  intros Hrows Hids i s r Hi Hr Hid.
  rewrite persistStepOrder_steps in Hi by done.
  unfold Client.persistStepOrder in Hr. simpl in Hr.
  rewrite foldl_updateStepOrder_db in Hr. simpl in Hr.
  rewrite <- (mapi_lookup_pos Step.order_index Step.set_order_index
                (λ _ _, eq_refl) _ i s Hi).
  eapply (store_order_agrees Step.id Step.order_index Step.set_order_index);
    [done | done | exact Hrows | | by eapply list_elem_of_lookup_2 | exact Hr | done].
  unfold mapi. by rewrite (mapi_from_key Step.id).
Qed.
(** A step move that takes place is a reordering of the array
    followed by the re-sequencing pass. *)
Lemma moveStep_unfold online stepId delta w :
  moveStep_applies stepId delta w = true →
  ∃ l1, l1 ≡ₚ Client.steps w
        ∧ Client.moveStep online stepId delta w
          = Client.persistStepOrder online (Client.set_steps l1 w).
Proof.
  unfold moveStep_applies, Client.moveStep. cbv zeta.
  destruct (js_findIndex_spec (Client.has_step_id stepId) (Client.steps w))
    as [[-> _] | (k & x & -> & Hk & _)]; [done|].
  destruct (Z.of_nat k =? -1) eqn:E1; [done|]. cbn [negb andb].
  intros [H1 H2]%andb_true_iff. apply Z.leb_le in H1. apply Z.ltb_lt in H2.
  destruct (Z.of_nat k + delta <? 0) eqn:E3; [apply Z.ltb_lt in E3; lia|].
  destruct (Z.of_nat (length (Client.steps w)) <=? Z.of_nat k + delta) eqn:E5;
    [apply Z.leb_le in E5; lia|].
  cbn [orb]. apply lookup_lt_Some in Hk.
  destruct (splice_take_in_range (Client.steps w) (Z.of_nat k))
    as (moved & rest & Es & _ & Hperm); [lia|]. rewrite Es.
  eexists. split; [|done]. by eapply splice_move_perm.
Qed.

Lemma dropStep_unfold online draggingStepId targetId after w :
  dropStep_applies draggingStepId targetId w = true →
  ∃ l1, l1 ≡ₚ Client.steps w
        ∧ Client.dropStep online draggingStepId targetId after w
          = Client.persistStepOrder online (Client.set_steps l1 w).
Proof.
  unfold dropStep_applies, Client.dropStep. cbv zeta.
  destruct (or_null draggingStepId) as [dragging|]; [|done].
  destruct (targetId =? dragging); [done|]. cbn [negb andb].
  destruct (js_findIndex_spec (Client.has_step_id dragging) (Client.steps w))
    as [[-> _] | (k & x & -> & Hk & _)]; [done|].
  destruct (Z.of_nat k =? -1) eqn:E1; [done|]. cbn [negb andb orb].
  destruct (js_findIndex (Client.has_step_id targetId) (Client.steps w) =? -1);
    [done|]. intros _.
  apply lookup_lt_Some in Hk.
  destruct (splice_take_in_range (Client.steps w) (Z.of_nat k))
    as (moved & rest & Es & _ & Hperm); [lia|]. rewrite Es.
  eexists. split; [|done]. by eapply splice_move_perm.
Qed.

Lemma moveStep_stored stepId delta w :
  NoDup (Step.id <$> Gateway.steps (Client.db w)) →
  NoDup (Step.id <$> Client.steps w) →
  moveStep_applies stepId delta w = true →
  ∀ (i : nat) s r,
    Client.steps (Client.moveStep true stepId delta w) !! i = Some s →
    r ∈ Gateway.steps (Client.db (Client.moveStep true stepId delta w)) →
    Step.id r = Step.id s →
    Step.order_index r = Z.of_nat i.
Proof.
  intros Hrows Hids Happ.
  destruct (moveStep_unfold true stepId delta w Happ) as (l1 & Hp & ->).
  apply persistStepOrder_stored; simpl; [done | by rewrite Hp].
Qed.

Lemma dropStep_stored draggingStepId targetId after w :
  NoDup (Step.id <$> Gateway.steps (Client.db w)) →
  NoDup (Step.id <$> Client.steps w) →
  dropStep_applies draggingStepId targetId w = true →
  ∀ (i : nat) s r,
    Client.steps (Client.dropStep true draggingStepId targetId after w) !! i
    = Some s →
    r ∈ Gateway.steps
          (Client.db (Client.dropStep true draggingStepId targetId after w)) →
    Step.id r = Step.id s →
    Step.order_index r = Z.of_nat i.
Proof.
  intros Hrows Hids Happ.
  destruct (dropStep_unfold true draggingStepId targetId after w Happ)
    as (l1 & Hp & ->).
  apply persistStepOrder_stored; simpl; [done | by rewrite Hp].
Qed.
End StoredOrder.

(** * Two scenarios *)

(** Steps Intake, Review, Done; a ticket on Intake goes right twice and
    is on Done; Done is deleted: the ticket is on no step and the steps
    left are Intake and Review with [order_index] 0 and 1. *)
Example scenario_advance_then_delete_step :
  let w1 := Client.changeTicketStep true 1 "right" sample_world in
  let w2 := Client.changeTicketStep true 1 "right" w1 in
  let w3 := Client.deleteStep true 3 false w2 in
  Ticket.current_step_id <$> js_find (Client.has_ticket_id 1) (Client.tickets w2)
  = Some (Some 3)
  ∧ Ticket.current_step_id <$> js_find (Client.has_ticket_id 1) (Client.tickets w3)
    = Some None
  ∧ (λ s, (Step.name s, Step.order_index s)) <$> Client.steps w3
    = [("Intake", 0); ("Review", 1)]
  ∧ Ticket.current_step_id <$> Gateway.tickets (Client.db w3) = [None; None; None].
Proof. cbv zeta. repeat split; reflexivity. Qed.

(** Five tickets; the one at position 3 is dragged to position 0: the
    order is 3, 0, 1, 2, 4 in the original positions, and [order_index]
    is 0 to 4 in the new order, in the client and in the store. *)
Example scenario_drag_ticket :
  ∃ w', Client.moveTicketInArray true 3 0 five_tickets_world = Some (true, w')
        ∧ Ticket.id <$> Client.tickets w' = [4; 1; 2; 3; 5]
        ∧ Ticket.order_index <$> Client.tickets w' = [0; 1; 2; 3; 4]
        ∧ (λ r, (Ticket.id r, Ticket.order_index r))
            <$> Gateway.get_tickets (Client.db w')
          = [(4, 0); (1, 1); (2, 2); (3, 3); (5, 4)].
Proof. eexists. split; [vm_compute; reflexivity|]. repeat split; reflexivity. Qed.

(** * The properties of the specification *)

(** ** Ordering *)


(** A create that the gateway refuses leaves the error object in the
    array.  After the number of ticket 1 has been edited to 13 the
    used-number set is still 5, 7, 12 (see C3 below), the next number is
    13 again, the gateway answers 500, and [tickets] holds three tickets
    and an entry without [order_index]. *)
Lemma create_refused_after_number_edit :
  let w := Client.finishEditTicketNumber true 1 (Some 13) sample_world in
  Client.entry_order_index <$> Client.entries (Client.addTicket true sample_draws w)
  = [Some 0; Some 1; Some 2; None].
Proof. vm_compute. reflexivity. Qed.



(** ** Step deletion *)

(** C2. Deleting a step [S] sets [current_step_id] to null on every
    ticket that was on [S], in the client's tickets and in the stored
    rows, leaves the other tickets as they were, and leaves no step with
    id [S] in the client's steps nor in the store. *)
Theorem deleteStep_cascade (stepId : Z) (skipUndo : bool) (w : Client.World) :
  let w' := Client.deleteStep true stepId skipUndo w in
  (∀ i t, Client.tickets w !! i = Some t →
     Client.tickets w' !! i
     = Some (if decide (Ticket.current_step_id t = Some stepId)
             then Ticket.set_current_step_id None t else t))
  ∧ (∀ i r, Gateway.tickets (Client.db w) !! i = Some r →
       Gateway.tickets (Client.db w') !! i
       = Some (if decide (Ticket.current_step_id r = Some stepId)
               then Ticket.set_current_step_id None r else r))
  ∧ (∀ t, t ∈ Client.tickets w' → Ticket.current_step_id t ≠ Some stepId)
  ∧ (∀ r, r ∈ Gateway.tickets (Client.db w') →
       Ticket.current_step_id r ≠ Some stepId)
  ∧ (∀ s, s ∈ Client.steps w' → Step.id s ≠ stepId)
  ∧ (∀ s, s ∈ Gateway.steps (Client.db w') → Step.id s ≠ stepId).
Proof.
  intros w'. destruct (deleteStep_online stepId skipUndo w) as (Ht & Hs & Hdb & _).
  fold w' in Ht, Hs, Hdb.
  repeat split.
  - intros i t Hi. rewrite Ht, list_lookup_fmap, Hi. done.
  - intros i r Hi. rewrite Hdb, delete_step_tickets, list_lookup_fmap, Hi. done.
  - intros t. rewrite Ht. intros (t0 & -> & _)%list_elem_of_fmap.
    apply clear_step_cleared.
  - intros r. rewrite Hdb, delete_step_tickets.
    intros (r0 & -> & _)%list_elem_of_fmap. apply (clear_step_cleared stepId r0).
  - intros s. rewrite Hs. intros [? _]%list_elem_of_filter. done.
  - intros s. rewrite Hdb, delete_step_steps.
    intros [? _]%list_elem_of_filter. done.
Qed.

(** ** Ticket numbers *)

(** C3. The first half holds: an edit to a number that is not a
    positive integer, or that is in the used-number set, changes nothing
    and sends nothing.  The second half fails on the path where the
    update reaches the gateway.  Ticket 1 carries number 5 and the used
    numbers are 5, 7 and 12; after the accepted edit of ticket 1 to 8 one
    request has been sent, the ticket carries 8, and the used-number set
    still holds 5 and does not hold 8. *)
Theorem edit_number_keeps_old_drops_new :
  let w' := Client.finishEditTicketNumber true 1 (Some 8) sample_world in
  Ticket.ticket_number <$> js_find (Client.has_ticket_id 1) (Client.tickets sample_world)
  = Some 5
  ∧ (8 ∉ Client.usedTicketNumbers sample_world)
  ∧ Ticket.ticket_number <$> js_find (Client.has_ticket_id 1) (Client.tickets w')
    = Some 8
  ∧ Client.sent w'
    = [Client.PUT_ticket 1 (TicketBody.mk (Some 8) None None None None)]
  ∧ 5 ∈ Client.usedTicketNumbers w'
  ∧ (8 ∉ Client.usedTicketNumbers w')
  ∧ (∀ online ticketId newNum,
       match newNum with
       | None => True
       | Some n => n ≤ 0 ∨ n ∈ Client.usedTicketNumbers sample_world
       end →
       ∃ msg, Client.finishEditTicketNumber online ticketId newNum sample_world
              = Client.showError msg sample_world).
Proof.
  intros w'.
  assert (8 ∉ Client.usedTicketNumbers sample_world) as Hfresh.
  { simpl. set_solver. }
  destruct (finishEditTicketNumber_online 1 8
              (Ticket.mk 1 5 "pink" "" (Some 1) 0) sample_world)
    as (Hu & Hf & Hs); [lia | done | done |].
  fold w' in Hu, Hf, Hs.
  split; [done|]. split; [done|]. split; [by rewrite Hf|].
  split; [by rewrite Hs|]. rewrite Hu.
  split; [simpl; set_solver|]. split; [done|].
  intros online ticketId newNum. apply finishEditTicketNumber_rejects.
Qed.

(** C4. Loading, creating and deleting keep every live ticket number
    in the used-number set (the three lemmas above); editing a number
    does not.  Ticket 2 carries number 7; the used numbers 5, 7 and 12
    cover the live numbers.  After the accepted edit of ticket 2 to 9 the
    ticket carries 9, which is not in the set. *)
Theorem edit_number_breaks_used_cover :
  let w' := Client.finishEditTicketNumber true 2 (Some 9) sample_world in
  used_covers_live sample_world
  ∧ Ticket.ticket_number <$> js_find (Client.has_ticket_id 2) (Client.tickets w')
    = Some 9
  ∧ (9 ∉ Client.usedTicketNumbers w')
  ∧ ¬ used_covers_live w'.
Proof.
  intros w'.
  assert (9 ∉ Client.usedTicketNumbers sample_world) as Hfresh.
  { simpl. set_solver. }
  destruct (finishEditTicketNumber_online 2 9
              (Ticket.mk 2 7 "orange" "a" (Some 3) 1) sample_world)
    as (Hu & Hf & _); [lia | done | done |].
  fold w' in Hu, Hf.
  assert (9 ∉ Client.usedTicketNumbers w') as Hout by by rewrite Hu.
  split.
  { intros t Ht. simpl in Ht. simpl.
    repeat (apply elem_of_cons in Ht as [-> | Ht]; [simpl; set_solver|]).
    by apply elem_of_nil in Ht. }
  split; [by rewrite Hf|]. split; [done|].
  intros Hcov. apply Hout.
  apply js_find_Some in Hf as [Hin _].
  apply (Hcov _ Hin).
Qed.

(** ** Notes *)



(** ** Step navigation *)

(** C6. With a non-empty step sequence (ids unique and non-zero, as
    the gateway gives them) and a ticket of the client: a ticket on no
    step goes to the first step on "right" and to the last on "left"; a
    ticket on the first step stays there on "left"; a ticket on the last
    step stays there on "right"; a ticket on the step at position [i]
    otherwise goes to position [i+1] or [i-1]. *)
Theorem changeTicketStep_navigation
    (online : bool) (ticketId : Z) (w : Client.World) (ticket : Ticket.t) :
  js_find (Client.has_ticket_id ticketId) (Client.tickets w) = Some ticket →
  Client.steps w ≠ [] →
  NoDup (Step.id <$> Client.steps w) →
  Forall (λ s, Step.id s ≠ 0) (Client.steps w) →
  let stepAfter direction :=
    Ticket.current_step_id
      <$> js_find (Client.has_ticket_id ticketId)
            (Client.tickets (Client.changeTicketStep online ticketId direction w)) in
  let firstStep := Step.id <$> head (Client.steps w) in
  let lastStep := Step.id <$> last (Client.steps w) in
  (Ticket.current_step_id ticket = None →
     stepAfter "right" = Some firstStep ∧ stepAfter "left" = Some lastStep)
  ∧ (Ticket.current_step_id ticket = firstStep →
       stepAfter "left" = Some firstStep)
  ∧ (Ticket.current_step_id ticket = lastStep →
       stepAfter "right" = Some lastStep)
  ∧ (∀ (i : nat) s,
       Client.steps w !! i = Some s →
       Ticket.current_step_id ticket = Some (Step.id s) →
       stepAfter "right"
       = Some (Step.id <$> Client.steps w
                 !! Nat.min (S i) (pred (length (Client.steps w))))
       ∧ stepAfter "left" = Some (Step.id <$> Client.steps w !! pred i)).
Proof.
  intros Hfind Hne Hnd Hid stepAfter firstStep lastStep.
  assert (∀ direction,
            stepAfter direction
            = Some (navTarget (Client.steps w) (Ticket.current_step_id ticket)
                      direction)) as Hafter.
  { intros direction. unfold stepAfter.
    by rewrite (changeTicketStep_ticket _ _ _ _ ticket). }
  assert (∀ (i : nat) s,
            Client.steps w !! i = Some s →
            Ticket.current_step_id ticket = Some (Step.id s) →
            stepAfter "right"
            = Some (Step.id <$> Client.steps w
                      !! Nat.min (S i) (pred (length (Client.steps w))))
            ∧ stepAfter "left" = Some (Step.id <$> Client.steps w !! pred i))
    as Hpos.
  { intros i s Hi Hcur. rewrite !Hafter, Hcur.
    destruct (navTarget_assigned (Client.steps w) i s) as [-> ->]; done. }
  split; [|split; [|split]].
  - intros Hcur. rewrite !Hafter, Hcur.
    destruct (navTarget_unassigned (Client.steps w) None) as [-> ->]; done.
  - intros Hcur. unfold firstStep in *.
    destruct (head (Client.steps w)) as [s|] eqn:Hh.
    + rewrite head_lookup in Hh. destruct (Hpos 0%nat s Hh Hcur) as [_ ->].
      simpl. by rewrite Hh.
    + apply head_None in Hh. done.
  - intros Hcur. unfold lastStep in *.
    destruct (last (Client.steps w)) as [s|] eqn:Hl.
    + rewrite last_lookup in Hl. destruct (Hpos _ s Hl Hcur) as [-> _].
      rewrite Nat.min_r by lia. by rewrite Hl.
    + apply last_None in Hl. done.
  - exact Hpos.
Qed.

Lemma changeTicketStep_navigation_witness :
  Ticket.current_step_id
    <$> js_find (Client.has_ticket_id 1)
          (Client.tickets (Client.changeTicketStep true 1 "left" sample_world))
  = Some (Some 1)
  ∧ Ticket.current_step_id
      <$> js_find (Client.has_ticket_id 1)
            (Client.tickets (Client.changeTicketStep true 1 "right" sample_world))
    = Some (Some 2)
  ∧ Ticket.current_step_id
      <$> js_find (Client.has_ticket_id 3)
            (Client.tickets (Client.changeTicketStep true 3 "right" sample_world))
    = Some (Some 3).
Proof.
  assert (Client.steps sample_world ≠ []) as Hne by done.
  assert (NoDup (Step.id <$> Client.steps sample_world)) as Hnd.
  { apply (bool_decide_unpack _). vm_compute. reflexivity. }
  assert (Forall (λ s, Step.id s ≠ 0) (Client.steps sample_world)) as Hid.
  { repeat constructor; simpl; lia. }
  destruct (changeTicketStep_navigation true 1 sample_world
              (Ticket.mk 1 5 "pink" "" (Some 1) 0) eq_refl Hne Hnd Hid)
    as (_ & Hfirst & _ & Hpos).
  destruct (changeTicketStep_navigation true 3 sample_world
              (Ticket.mk 3 12 "yellow" "" (Some 3) 2) eq_refl Hne Hnd Hid)
    as (_ & _ & Hlast & _).
  split; [exact (Hfirst eq_refl)|].
  split; [exact (proj1 (Hpos 0%nat (Step.mk 1 "Intake" 0) eq_refl eq_refl))|].
  exact (Hlast eq_refl).
Defined.

(** ** Numbering *)

(** C7. In random mode, with draws in [0, 90): the number is in
    [10, 99]; it is the first draw not in the used-number set among the
    first 500 draws, and the 501st draw whatever it is when those 500 all
    collide; it is in the used-number set on return. *)
Theorem random_ticket_number (random : nat → Z) (w : Client.World) :
  (∀ k, 0 ≤ random k < 90) →
  Client.randomTwoDigitNumbers (Client.appSettings w) = true →
  let number := (Client.generateNewTicketNumber random w).1 in
  let w' := (Client.generateNewTicketNumber random w).2 in
  10 ≤ number ≤ 99
  ∧ (∃ k, (k ≤ 500)%nat
          ∧ number = random k + 10
          ∧ (∀ j, (j < k)%nat → random j + 10 ∈ Client.usedTicketNumbers w)
          ∧ ((k < 500)%nat → number ∉ Client.usedTicketNumbers w))
  ∧ number ∈ Client.usedTicketNumbers w'
  ∧ Client.usedTicketNumbers w' = {[number]} ∪ Client.usedTicketNumbers w.
Proof.
  intros Hrange Hmode number w'.
  pose proof (generateNewTicketNumber_used random w) as Hu.
  fold number w' in Hu.
  assert (number = Client.drawTicketNumber (Client.usedTicketNumbers w) random 0 500)
    as Hn.
  { unfold number, Client.generateNewTicketNumber. by rewrite Hmode. }
  destruct (drawTicketNumber_spec (Client.usedTicketNumbers w) random 0 500)
    as (k & Hk & E & Hbefore & Hfresh); [lia.. |].
  rewrite <- Hn in E.
  split; [specialize (Hrange k); lia|]. split.
  - exists k. split; [lia|]. split; [done|]. split.
    + intros j Hj. apply Hbefore. lia.
    + intros Hlt. rewrite E. by apply Hfresh.
  - split; [|done]. rewrite Hu. apply elem_of_union_l. by apply elem_of_singleton.
Qed.

Lemma random_ticket_number_witness :
  (Client.generateNewTicketNumber sample_draws sample_world_random).1 = 13
  ∧ 13 ∈ Client.usedTicketNumbers
          (Client.generateNewTicketNumber sample_draws sample_world_random).2.
Proof.
  assert (∀ k, 0 ≤ sample_draws k < 90) as Hrange.
  { intros k. unfold sample_draws. lia. }
  destruct (random_ticket_number sample_draws sample_world_random Hrange eq_refl)
    as (_ & _ & Hin & _).
  assert ((Client.generateNewTicketNumber sample_draws sample_world_random).1 = 13)
    as E by (vm_compute; reflexivity).
  split; [exact E|]. rewrite E in Hin. exact Hin.
Defined.

(** When every two-digit number is taken the guard ends the loop and
    the number handed out is one that is already in use. *)
Lemma random_exhaustion_returns_used_number :
  let used : gset Z := list_to_set (seqZ 10 90) in
  Client.drawTicketNumber used (λ _, 0) 0 500 = 10 ∧ 10 ∈ used.
Proof.
  split; [vm_compute; reflexivity|].
  apply elem_of_list_to_set, elem_of_seqZ. lia.
Qed.

(** C8 as stated fails in two ways.  The search for the maximum starts
    from 0, so a set without a positive number gives 1, not its maximum
    plus one; and the sum is taken on doubles, so a set whose maximum is
    2^53 gives 2^53 again. *)
Lemma sequential_number_is_not_max_plus_one :
  (Client.generateNewTicketNumber sample_draws
     (Client.set_used {[-5]} sample_world)).1 = 1
  ∧ (Client.generateNewTicketNumber sample_draws
       (Client.set_used {[2 ^ 53]} sample_world)).1 = 2 ^ 53
  ∧ ¬ (∀ (random : nat → Z) (w : Client.World) (m : Z),
         Client.randomTwoDigitNumbers (Client.appSettings w) = false →
         m ∈ Client.usedTicketNumbers w →
         (∀ n, n ∈ Client.usedTicketNumbers w → n ≤ m) →
         (Client.generateNewTicketNumber random w).1 = m + 1).
Proof.
  assert (∀ x, Client.maxUsed {[x]} = if decide (0 < x) then x else 0) as Hone.
  { intros x. unfold Client.maxUsed. by rewrite set_fold_singleton. }
  assert (∀ x,
            (Client.generateNewTicketNumber sample_draws
               (Client.set_used {[x]} sample_world)).1
            = let sum := JsNumber.add (if decide (0 < x) then x else 0) 1 in
              if sum =? 0 then 1 else sum) as Hgen.
  { intros x. unfold Client.generateNewTicketNumber. simpl. by rewrite Hone. }
  split; [|split].
  - rewrite Hgen. vm_compute. reflexivity.
  - rewrite Hgen. vm_compute. reflexivity.
  - intros H.
    specialize (H sample_draws (Client.set_used {[-5]} sample_world) (-5) eq_refl).
    rewrite Hgen in H. simpl in H.
    assert (1 = -5 + 1) as E; [|lia].
    apply H; set_solver.
Qed.

(** C8, amended.  In sequential mode the number is 1 when the
    used-number set is empty or holds no positive number; it is one more
    than the maximum of the set when that maximum is positive and below
    2^53. *)
Theorem sequential_ticket_number (random : nat → Z) (w : Client.World) :
  Client.randomTwoDigitNumbers (Client.appSettings w) = false →
  let number := (Client.generateNewTicketNumber random w).1 in
  (Client.usedTicketNumbers w = ∅ → number = 1)
  ∧ ((∀ n, n ∈ Client.usedTicketNumbers w → n ≤ 0) → number = 1)
  ∧ (∀ m, m ∈ Client.usedTicketNumbers w →
          (∀ n, n ∈ Client.usedTicketNumbers w → n ≤ m) →
          0 < m < 2 ^ 53 →
          number = m + 1).
Proof.
  intros Hmode number.
  assert (∀ m, Client.maxUsed (Client.usedTicketNumbers w) = m → 0 ≤ m < 2 ^ 53 →
               number = m + 1) as Hnum.
  { intros m Hm Hb. unfold number. rewrite sequential_number by (done || lia).
    by rewrite Hm. }
  assert ((∀ n, n ∈ Client.usedTicketNumbers w → n ≤ 0) → number = 1) as Hlow.
  { intros Hneg. apply (Hnum 0); [|lia].
    unfold Client.maxUsed, set_fold. simpl.
    destruct (fold_max_spec (elements (Client.usedTicketNumbers w)))
      as (H0 & _ & [E|Hin]); [done|].
    apply elem_of_elements, Hneg in Hin. lia. }
  split; [|split].
  - intros E. apply Hlow. intros n Hn. rewrite E in Hn. set_solver.
  - exact Hlow.
  - intros m Hm Hub Hb. apply Hnum; [|lia].
    apply maxUsed_is_max; [|lia].
    split; [by apply elem_of_elements|].
    intros n Hn. apply Hub. by apply elem_of_elements.
Qed.

Lemma sequential_ticket_number_witness :
  Client.usedTicketNumbers sample_world = {[5; 7; 12]}
  ∧ (Client.generateNewTicketNumber sample_draws sample_world).1 = 12 + 1.
Proof.
  split; [reflexivity|].
  apply (proj2 (proj2 (sequential_ticket_number sample_draws sample_world eq_refl))).
  - simpl. set_unfold. lia.
  - intros n Hn. simpl in Hn. set_unfold in Hn. lia.
  - lia.
Defined.

(** ** Requests to the gateway *)

(** C9, as stated, fails for steps: on a store whose steps have
    [order_index] 0, 1, 2 a create request without [order_index] is
    given 0, not 3. *)
Lemma post_step_without_order_index_not_appended :
  ¬ (∀ (body : StepBody.t) (db db' : Gateway.Database) (row : Step.t) (m : Z),
       StepBody.order_index body = None →
       Gateway.post_step body db = (Gateway.Reply 201 row, db') →
       is_max m (Step.order_index <$> Gateway.steps db) →
       Step.order_index row = m + 1).
Proof.
  intros H.
  specialize (H (StepBody.mk (Some "Later") None) sample_db _ _ 2
                eq_refl eq_refl).
  simpl in H. assert (0 = 2 + 1) as E; [|lia].
  apply H. split.
  - right; right; left.
  - intros n Hn. simpl in Hn.
    repeat (apply elem_of_cons in Hn as [-> | Hn]; [lia|]).
    by apply elem_of_nil in Hn.
Qed.

(** Nor is it the maximum plus one for a ticket once the maximum has
    reached 2^53: the handler adds on doubles, and the new row gets the
    maximum again. *)
Lemma post_ticket_order_index_not_past_2_53 :
  let db := Gateway.mkDb [Ticket.mk 1 5 "pink" "" None (2 ^ 53)] [] 1 0 in
  ∃ row db',
    Gateway.post_ticket (TicketBody.mk (Some 6) None None None None) db
    = (Gateway.Reply 201 row, db')
    ∧ Ticket.order_index row = 2 ^ 53.
Proof. eexists _, _. split; [vm_compute; reflexivity|]. reflexivity. Qed.

(** C9, amended.  A ticket created without [order_index] is stored
    after the last one: maximum existing [order_index] plus one when
    that maximum lies in the range where doubles hold every integer
    (from -2^53 to below 2^53), and 0 in an empty table.  A step created
    without [order_index] is stored with [order_index] 0. *)
Theorem create_without_order_index
    (tb : TicketBody.t) (sb : StepBody.t) (db : Gateway.Database)
    (n : Z) (nm : string) :
  TicketBody.order_index tb = None →
  TicketBody.ticket_number tb = Some n →
  n ∉ Ticket.ticket_number <$> Gateway.tickets db →
  Gateway.step_exists (or_null (mjoin (TicketBody.current_step_id tb)))
    (Gateway.steps db) = true →
  StepBody.order_index sb = None →
  StepBody.name sb = Some nm →
  (∃ row db',
     Gateway.post_ticket tb db = (Gateway.Reply 201 row, db')
     ∧ Gateway.tickets db' = Gateway.tickets db ++ [row]
     ∧ (Gateway.tickets db = [] → Ticket.order_index row = 0)
     ∧ (∀ m, is_max m (Ticket.order_index <$> Gateway.tickets db) →
             - 2 ^ 53 ≤ m < 2 ^ 53 →
             Ticket.order_index row = m + 1))
  ∧ (∃ row db',
       Gateway.post_step sb db = (Gateway.Reply 201 row, db')
       ∧ Gateway.steps db' = Gateway.steps db ++ [row]
       ∧ Step.order_index row = 0).
Proof.
  intros Hidx Hn Hfresh Hstep Hsidx Hname. split.
  - destruct (post_ticket_accepts tb db n Hn Hfresh Hstep) as (row & -> & _ & Ho).
    rewrite Hidx in Ho. eexists _, _. split; [done|]. split; [done|]. split.
    + intros E. rewrite Ho, E. done.
    + intros m Hm Hb. rewrite Ho, (sql_max_is_max m) by done.
      apply add_exact. simpl. lia.
  - unfold Gateway.post_step. rewrite Hname, Hsidx.
    eexists _, _. split; [done|]. done.
Qed.

Lemma create_without_order_index_witness :
  ∃ trow srow db1 db2,
    Gateway.post_ticket (TicketBody.mk (Some 13) None None None None) sample_db
    = (Gateway.Reply 201 trow, db1)
    ∧ Ticket.order_index trow = 3
    ∧ Gateway.post_step (StepBody.mk (Some "Later") None) sample_db
      = (Gateway.Reply 201 srow, db2)
    ∧ Step.order_index srow = 0.
Proof.
  destruct (create_without_order_index
              (TicketBody.mk (Some 13) None None None None)
              (StepBody.mk (Some "Later") None) sample_db 13 "Later")
    as [(trow & db1 & Ht & _ & _ & Hmax) (srow & db2 & Hs & _ & Ho)].
  - reflexivity.
  - reflexivity.
  - vm_compute. intros H.
    repeat (apply elem_of_cons in H as [H | H]; [discriminate H|]).
    by apply elem_of_nil in H.
  - reflexivity.
  - reflexivity.
  - reflexivity.
  - exists trow, srow, db1, db2. split; [exact Ht|]. split; [|split; [exact Hs | exact Ho]].
    apply (Hmax 2); [|lia]. split.
    + right; right; left.
    + intros k Hk. simpl in Hk.
      repeat (apply elem_of_cons in Hk as [-> | Hk]; [lia|]).
      by apply elem_of_nil in Hk.
Defined.

(** C10. A step update whose body has neither [name] nor [order_index]
    is answered 500 and leaves the store as it was: the SET clause of the
    generated statement is empty.  With either field alone the request is
    answered 200. *)
Theorem put_step_without_fields_fails (id : Z) (db : Gateway.Database) :
  Gateway.step_updates (StepBody.mk None None) = []
  ∧ Gateway.put_step id (StepBody.mk None None) db
    = (Gateway.Failure 500 "Failed to update step", db)
  ∧ (∀ nm, Gateway.status (Gateway.put_step id (StepBody.mk (Some nm) None) db).1 = 200)
  ∧ (∀ i, Gateway.status (Gateway.put_step id (StepBody.mk None (Some i)) db).1 = 200).
Proof.
  split; [done|]. split; [done|].
  split; intros x; unfold Gateway.put_step; simpl;
    by destruct (js_find _ _).
Qed.

(** * Further properties of the code *)

(** ** The store under any run of requests *)

Section StoreFacts.
Import Gateway.

Lemma unique_number_spec self n (rows : list Ticket.t) :
  unique_number self n rows = true
  ↔ ∀ r, r ∈ rows → Ticket.id r = self ∨ Ticket.ticket_number r ≠ n.
Proof.
  unfold unique_number. rewrite forallb_forall. split.
  - intros H r Hr. apply list_elem_of_In, H in Hr.
    apply orb_true_iff in Hr as [Hr|Hr]; [left; lia|right].
    apply negb_true_iff in Hr. lia.
  - intros H r Hr. apply list_elem_of_In, H in Hr as [Hr|Hr].
    + apply orb_true_iff. left. lia.
    + apply orb_true_iff. right. apply negb_true_iff. lia.
Qed.

Lemma step_exists_spec s (rows : list Step.t) :
  step_exists s rows = true
  ↔ ∀ k, s = Some k → k ∈ Step.id <$> rows.
Proof.
  destruct s as [k|]; simpl.
  - rewrite existsb_exists. split.
    + intros (r & Hr & E) k' [= <-]. apply list_elem_of_fmap.
      exists r. split; [lia|by apply list_elem_of_In].
    + intros H. pose proof (H k eq_refl) as (r & E & Hr)%list_elem_of_fmap.
      exists r. split; [by apply list_elem_of_In|lia].
  - split; [intros _ k [=]|done].
Qed.

Lemma assign_ticket_step body r :
  Ticket.current_step_id (assign_ticket body r)
  = default (Ticket.current_step_id r) (TicketBody.current_step_id body).
Proof.
  unfold assign_ticket.
  destruct body as [n c nt s o], r; simpl.
  by destruct n, c, nt, s, o.
Qed.

Lemma NoDup_update_first {A} (key num : A → Z) (k : Z) (r' : A) (l : list A) r :
  NoDup (key <$> l) → NoDup (num <$> l) →
  js_find (λ x, key x =? k) l = Some r → key r' = k →
  (∀ x, x ∈ l → key x = k ∨ num x ≠ num r') →
  NoDup (num <$> update_first (λ x, key x =? k) (λ _, r') l).
Proof.
  intros Hk Hn Hf Hr' H.
  induction l as [|x l IH]; simpl in *; [constructor|].
  apply NoDup_cons in Hk as [Hx Hk]. apply NoDup_cons in Hn as [Hxn Hn].
  destruct (key x =? k) eqn:E.
  - simpl. apply NoDup_cons. split; [|done].
    intros (y & Ey & Hy)%list_elem_of_fmap.
    destruct (H y) as [Hyk|Hyn]; [by right| |by apply Hyn].
    apply Hx, list_elem_of_fmap. exists y. split; [lia|done].
  - simpl. apply NoDup_cons. split.
    + intros (y & Ey & Hy)%list_elem_of_fmap.
      apply update_first_elem in Hy as [Hy|(z & Hz & _ & ->)].
      * apply Hxn, list_elem_of_fmap. by exists y.
      * destruct (H x) as [?|?]; [by left|lia|congruence].
    + apply IH; try done. intros y Hy. apply H. by right.
Qed.

Lemma store_ok_post_ticket body db :
  store_ok db → store_ok (post_ticket body db).2.
Proof.
  intros (Hdb & Hn & Hr). split; [by apply post_ticket_ok|].
  unfold post_ticket.
  destruct (TicketBody.ticket_number body) as [num|]; [|done].
  cbv zeta. destruct (ticket_row_ok _ db) eqn:E; [|done].
  apply andb_true_iff in E as [Eu Es]. cbn [fst snd tickets steps ] in *.
  cbn [Ticket.id Ticket.ticket_number Ticket.current_step_id] in *.
  rewrite unique_number_spec in Eu. rewrite step_exists_spec in Es.
  destruct Hdb as [Ht _].
  pose proof (next_rowid_fresh _ _ Ht) as [Hfresh _].
  split.
  - unfold numbers_unique. cbn [tickets]. rewrite fmap_app. simpl.
    apply NoDup_app. split; [done|]. split; [|apply NoDup_singleton].
    intros n (r & -> & Hin)%list_elem_of_fmap Hnum%list_elem_of_singleton.
    destruct (Eu r Hin) as [Hid|Hne]; [|done].
    destruct Ht as [_ Hb].
    assert (Ticket.id r ∈ Ticket.id <$> tickets db) as Hi
      by (apply list_elem_of_fmap; by exists r).
    apply Hb in Hi. lia.
  - intros t s. cbn [tickets steps]. rewrite elem_of_app, list_elem_of_singleton.
    intros [Hin | ->]; [by apply Hr|]. simpl. apply Es.
Qed.

Lemma store_ok_put_ticket id body db :
  store_ok db → store_ok (put_ticket id body db).2.
Proof.
  intros (Hdb & Hn & Hr). split; [by apply put_ticket_ok|].
  unfold put_ticket.
  destruct (js_find _ (tickets db)) as [r|] eqn:Hf; [|done].
  cbv zeta. destruct (ticket_update_ok _ _ db) eqn:E; [|done].
  apply andb_true_iff in E as [Eu Es]. cbn [fst snd tickets steps].
  rewrite unique_number_spec in Eu. rewrite assign_ticket_id in Eu.
  pose proof Hf as [Hrin Hrid]%js_find_Some.
  destruct Hdb as [[Hnd _] _].
  split.
  - unfold numbers_unique.
    eapply (NoDup_update_first Ticket.id Ticket.ticket_number); try done.
    + rewrite assign_ticket_id. lia.
    + intros x Hx. destruct (Eu x Hx) as [?|?]; [left; lia|by right].
  - intros t s Hin Hs.
    apply update_first_elem in Hin as [Hin|(x & Hx & Hpx & ->)]; [by eapply Hr|].
    rewrite assign_ticket_step in Hs.
    destruct (TicketBody.current_step_id body) as [s'|]; simpl in Hs.
    + subst s'. by apply step_exists_spec with (k := s) in Es.
    + exact (Hr r s Hrin Hs).
Qed.

Lemma store_ok_delete_ticket id db :
  store_ok db → store_ok (delete_ticket id db).2.
Proof.
  intros (Hdb & Hn & Hr). split; [by apply delete_ticket_ok|].
  unfold delete_ticket. destruct (decide _); [done|]. cbn [snd tickets steps].
  split.
  - unfold numbers_unique. eapply sublist_NoDup; [apply Hn|].
    apply fmap_sublist, sublist_filter.
  - intros t s [_ Hin]%list_elem_of_filter. by apply Hr.
Qed.

Lemma store_ok_post_step body db :
  store_ok db → store_ok (post_step body db).2.
Proof.
  intros (Hdb & Hn & Hr). split; [by apply post_step_ok|].
  unfold post_step. destruct (StepBody.name body); [|done].
  cbn [snd tickets steps]. split; [done|].
  intros t k Hin Hs. rewrite fmap_app, elem_of_app. left. by eapply Hr.
Qed.

Lemma put_step_ids id body db :
  Step.id <$> steps (put_step id body db).2 = Step.id <$> steps db.
Proof.
  unfold put_step. destruct (step_updates body); [done|].
  destruct (js_find _ (steps db)) as [r|] eqn:Hf; [|done].
  cbn [snd steps]. eapply update_first_same_key; [done|apply assign_step_id].
Qed.

Lemma put_step_tickets id body db :
  tickets (put_step id body db).2 = tickets db.
Proof.
  unfold put_step. destruct (step_updates body); [done|].
  by destruct (js_find _ (steps db)).
Qed.

Lemma store_ok_put_step id body db :
  store_ok db → store_ok (put_step id body db).2.
Proof.
  intros (Hdb & Hn & Hr). split; [by apply put_step_ok|].
  rewrite put_step_tickets. split; [done|].
  intros t s Hin Hs. rewrite put_step_ids. by eapply Hr.
Qed.

Lemma store_ok_delete_step id db :
  store_ok db → store_ok (delete_step id db).2.
Proof.
  intros (Hdb & Hn & Hr). split; [by apply delete_step_ok|].
  rewrite delete_step_tickets, delete_step_steps. split.
  - unfold numbers_unique. rewrite <- list_fmap_compose.
    erewrite list_fmap_ext; [apply Hn|]. intros _ r _. simpl.
    by destruct (decide _), r.
  - intros t s (r & -> & Hin)%list_elem_of_fmap Hs.
    destruct (decide (Ticket.current_step_id r = Some id)) as [E|E].
    + by destruct r.
    + specialize (Hr r s Hin Hs).
      apply list_elem_of_fmap in Hr as (st & -> & Hst).
      apply list_elem_of_fmap. exists st. split; [done|].
      apply list_elem_of_filter. split; [congruence|done].
Qed.

Lemma store_ok_serve r db : store_ok db → store_ok (Server.serve r db).2.
Proof.
  destruct r; simpl; auto using store_ok_post_ticket, store_ok_put_ticket,
    store_ok_delete_ticket, store_ok_post_step, store_ok_put_step,
    store_ok_delete_step.
Qed.

End StoreFacts.

Section StoreRuns.
Import Gateway.

Lemma db_ok_serve r db : db_ok db → db_ok (Server.serve r db).2.
Proof.
  destruct r; simpl; auto using post_ticket_ok, put_ticket_ok,
    delete_ticket_ok, post_step_ok, put_step_ok, delete_step_ok.
Qed.

Lemma seq_le_serve r db : seq_le db (Server.serve r db).2.
Proof.
  destruct r; simpl; auto using seq_le_refl, post_ticket_seq, put_ticket_seq,
    delete_ticket_seq, post_step_seq, put_step_seq, delete_step_seq.
Qed.

Lemma seq_le_trans db1 db2 db3 : seq_le db1 db2 → seq_le db2 db3 → seq_le db1 db3.
Proof. unfold seq_le. lia. Qed.

Lemma serve_all_ok rs db :
  db_ok db → db_ok (Server.serve_all rs db) ∧ seq_le db (Server.serve_all rs db).
Proof.
  revert db. induction rs as [|r rs IH]; intros db Hdb; simpl.
  - split; [done|apply seq_le_refl].
  - destruct (IH (Server.serve r db).2) as [H1 H2]; [by apply db_ok_serve|].
    split; [done|]. eapply seq_le_trans; [apply seq_le_serve|done].
Qed.

Lemma serve_all_store_ok rs db : store_ok db → store_ok (Server.serve_all rs db).
Proof.
  revert db. induction rs as [|r rs IH]; intros db Hdb; simpl; [done|].
  by apply IH, store_ok_serve.
Qed.

Lemma assign_ticket_number body r :
  Ticket.ticket_number (assign_ticket body r)
  = default (Ticket.ticket_number r) (TicketBody.ticket_number body).
Proof.
  unfold assign_ticket.
  destruct body as [n c nt s o], r; simpl.
  by destruct n, c, nt, s, o.
Qed.

Lemma js_find_snoc_fresh {A} (key : A → Z) (l : list A) x :
  key x ∉ key <$> l →
  js_find (λ r, key r =? key x) (l ++ [x]) = Some x.
Proof.
  induction l as [|y l IH]; simpl; intros H.
  - by rewrite Z.eqb_refl.
  - apply not_elem_of_cons in H as [H1 H2].
    destruct (key y =? key x) eqn:E; [lia|]. by apply IH.
Qed.

Lemma js_find_filter_out {A} (key : A → Z) (l : list A) k :
  js_find (λ r, key r =? k) (filter (λ r, key r ≠ k) l) = None.
Proof.
  induction l as [|y l IH]; [done|].
  rewrite filter_cons. destruct (decide (key y ≠ k)) as [E|E]; [|done].
  simpl. destruct (key y =? k) eqn:E'; [lia|done].
Qed.

Lemma filter_length_lt {A} (P : A → Prop) `{∀ x, Decision (P x)} (l : list A) x :
  x ∈ l → ¬ P x → length (filter P l) ≠ length l.
Proof.
  intros Hx Hn.
  assert (length (filter P l) < length l)%nat; [|lia].
  induction l as [|y l IH]; [by apply elem_of_nil in Hx|].
  rewrite filter_cons. apply elem_of_cons in Hx as [<-|Hx].
  - rewrite decide_False by done. pose proof (length_filter P l). simpl. lia.
  - specialize (IH Hx). destruct (decide (P y)); simpl; lia.
Qed.

Lemma filter_all {A} (P : A → Prop) `{∀ x, Decision (P x)} (l : list A) :
  (∀ x, x ∈ l → P x) → filter P l = l.
Proof.
  induction l as [|y l IH]; [done|]. intros Hl.
  rewrite filter_cons, decide_True by (apply Hl; by left).
  f_equal. apply IH. intros x Hx. apply Hl. by right.
Qed.

Lemma sample_db_ok : store_ok sample_db.
Proof.
  split; [apply sample_world_ok|]. split.
  - apply (bool_decide_unpack _). vm_compute. reflexivity.
  - intros t s Hin Hs. unfold sample_db, sample_tickets in Hin. simpl in Hin.
    repeat (apply elem_of_cons in Hin as [->|Hin]);
      [..|by apply elem_of_nil in Hin];
      simpl in Hs; injection Hs as <-; simpl; set_solver.
Qed.

End StoreRuns.

(** X1. Whatever requests the gateway serves, in whatever order, the
    store keeps what its schema declares: ids are positive, given once
    and not above the AUTOINCREMENT counter of their table, no two
    tickets carry the same number, and the step of every ticket is a
    row of the step table. *)
Theorem store_sound_under_requests (rs : list Client.Request) db :
  store_ok db → store_ok (Server.serve_all rs db).
Proof.
  revert db. induction rs as [|r rs IH]; intros db Hdb; simpl; [done|].
  apply IH. clear IH.
  destruct r; simpl; auto using store_ok_post_ticket, store_ok_put_ticket,
    store_ok_delete_ticket, store_ok_post_step, store_ok_put_step,
    store_ok_delete_step.
Qed.

Lemma store_sound_under_requests_witness :
  store_ok
    (Server.serve_all
       [Client.POST_ticket (TicketBody.mk (Some 7) None None None None);
        Client.DELETE_step 3;
        Client.PUT_ticket 1 (TicketBody.mk (Some 12) None None (Some (Some 9)) None);
        Client.POST_step (StepBody.mk (Some "Archive") None);
        Client.DELETE_ticket 2]
       sample_db).
Proof. apply (store_sound_under_requests _ sample_db), sample_db_ok. Defined.

(** X2. A ticket number that a stored ticket carries is refused for
    every other ticket: creating a ticket with it, and setting it on
    another stored ticket, are both answered with status 500 and leave
    the store as it was. *)
Theorem duplicate_number_refused db r body :
  db_ok db →
  r ∈ Gateway.tickets db →
  TicketBody.ticket_number body = Some (Ticket.ticket_number r) →
  Gateway.post_ticket body db
  = (Gateway.Failure 500 "Failed to create ticket", db)
  ∧ ∀ id, id ≠ Ticket.id r → id ∈ Ticket.id <$> Gateway.tickets db →
      Gateway.put_ticket id body db
      = (Gateway.Failure 500 "Failed to update ticket", db).
Proof.
  intros [Ht _] Hr Hb. split.
  - unfold Gateway.post_ticket. rewrite Hb. cbv zeta.
    destruct (Gateway.ticket_row_ok _ db) eqn:E; [|done].
    apply andb_true_iff in E as [Eu _].
    rewrite unique_number_spec in Eu. destruct (Eu r Hr) as [Hid|Hne]; [|done].
    simpl in Hid. pose proof (next_rowid_fresh _ _ Ht) as [Hfresh _].
    destruct Ht as [_ Hbound].
    assert (Ticket.id r ∈ Ticket.id <$> Gateway.tickets db) as Hi
      by (apply list_elem_of_fmap; by exists r).
    apply Hbound in Hi. lia.
  - intros id Hne (x & -> & Hx)%list_elem_of_fmap.
    unfold Gateway.put_ticket.
    destruct (js_find _ (Gateway.tickets db)) as [r0|] eqn:Hf.
    + cbv zeta. destruct (Gateway.ticket_update_ok _ _ db) eqn:E; [|done].
      apply andb_true_iff in E as [Eu _].
      rewrite unique_number_spec in Eu. rewrite assign_ticket_id in Eu.
      rewrite assign_ticket_number, Hb in Eu. simpl in Eu.
      apply js_find_Some in Hf as [_ Hid].
      destruct (Eu r Hr) as [Hid'|Hne']; [|done]. lia.
    + eapply js_find_None in Hf; [|exact Hx]. simpl in Hf. lia.
Qed.

Lemma duplicate_number_refused_witness :
  Gateway.post_ticket (TicketBody.mk (Some 7) None None None None) sample_db
  = (Gateway.Failure 500 "Failed to create ticket", sample_db)
  ∧ Gateway.put_ticket 3 (TicketBody.mk (Some 7) None None None None) sample_db
    = (Gateway.Failure 500 "Failed to update ticket", sample_db).
Proof.
  assert (db_ok sample_db) as Hdb by apply sample_world_ok.
  assert (Ticket.mk 2 7 "orange" "a" (Some 3) 1 ∈ Gateway.tickets sample_db)
    as Hr by (simpl; unfold sample_tickets; set_solver).
  destruct (duplicate_number_refused sample_db _
              (TicketBody.mk (Some 7) None None None None) Hdb Hr eq_refl)
    as [Hpost Hput].
  split; [exact Hpost|]. apply Hput; [simpl; lia|].
  simpl. unfold sample_tickets. set_solver.
Defined.

(** X3. What is created can be read back, and what is deleted cannot:
    the row a POST answers with is the row GET returns for its id;
    after DELETE of that id, answered 200, GET answers 404.  For tickets
    and for steps. *)
Theorem create_read_delete db :
  db_ok db →
  (∀ body st row db',
     Gateway.post_ticket body db = (Gateway.Reply st row, db') →
     st = 201
     ∧ Gateway.get_ticket (Ticket.id row) db' = Gateway.Reply 200 row
     ∧ Gateway.status (Gateway.delete_ticket (Ticket.id row) db').1 = 200
     ∧ Gateway.get_ticket (Ticket.id row)
         (Gateway.delete_ticket (Ticket.id row) db').2
       = Gateway.Failure 404 "Ticket not found")
  ∧ (∀ body st row db',
       Gateway.post_step body db = (Gateway.Reply st row, db') →
       st = 201
       ∧ Gateway.get_step (Step.id row) db' = Gateway.Reply 200 row
       ∧ Gateway.status (Gateway.delete_step (Step.id row) db').1 = 200
       ∧ Gateway.get_step (Step.id row)
           (Gateway.delete_step (Step.id row) db').2
         = Gateway.Failure 404 "Step not found").
Proof.
  intros [Ht Hs]. split.
  - intros body st row db' Hp.
    unfold Gateway.post_ticket in Hp.
    destruct (TicketBody.ticket_number body) as [num|]; [|done].
    cbv zeta in Hp. destruct (Gateway.ticket_row_ok _ db); [|done].
    injection Hp as <- <- <-.
    pose proof (next_rowid_fresh _ _ Ht) as [Hfresh _].
    set (row := Ticket.mk _ _ _ _ _ _).
    assert (Ticket.id row ∉ Ticket.id <$> Gateway.tickets db) as Hnew.
    { intros Hi. apply Ht in Hi. simpl in Hi. lia. }
    split; [done|]. split.
    { unfold Gateway.get_ticket. cbn [Gateway.tickets].
      by rewrite (js_find_snoc_fresh Ticket.id). }
    unfold Gateway.delete_ticket. cbn [Gateway.tickets].
    destruct (decide _) as [E|E].
    { exfalso. revert E. apply (filter_length_lt _ _ row); [set_solver|].
      intros H. by apply H. }
    split; [done|]. unfold Gateway.get_ticket. cbn [snd Gateway.tickets].
    by rewrite (js_find_filter_out Ticket.id).
  - intros body st row db' Hp.
    unfold Gateway.post_step in Hp.
    destruct (StepBody.name body) as [nm|]; [|done].
    cbv zeta in Hp. injection Hp as <- <- <-.
    pose proof (next_rowid_fresh _ _ Hs) as [Hfresh _].
    set (row := Step.mk _ _ _).
    assert (Step.id row ∉ Step.id <$> Gateway.steps db) as Hnew.
    { intros Hi. apply Hs in Hi. simpl in Hi. lia. }
    split; [done|]. split.
    { unfold Gateway.get_step. cbn [Gateway.steps].
      by rewrite (js_find_snoc_fresh Step.id). }
    unfold Gateway.delete_step. cbn [Gateway.steps].
    destruct (decide _) as [E|E].
    { exfalso. revert E. apply (filter_length_lt _ _ row); [set_solver|].
      intros H. by apply H. }
    split; [done|]. unfold Gateway.get_step. cbn [snd Gateway.steps].
    by rewrite (js_find_filter_out Step.id).
Qed.

Lemma create_read_delete_witness :
  let post :=
    Gateway.post_ticket (TicketBody.mk (Some 20) None None None None) sample_db in
  Gateway.get_ticket 4 post.2
  = Gateway.Reply 200 (Ticket.mk 4 20 "white" "" None 3)
  ∧ Gateway.get_ticket 4 (Gateway.delete_ticket 4 post.2).2
    = Gateway.Failure 404 "Ticket not found".
Proof.
  assert (db_ok sample_db) as Hdb by apply sample_world_ok.
  destruct (create_read_delete sample_db Hdb) as [Hticket _].
  destruct (Hticket (TicketBody.mk (Some 20) None None None None) 201
              (Ticket.mk 4 20 "white" "" None 3)
              (Gateway.mkDb (sample_tickets ++ [Ticket.mk 4 20 "white" "" None 3])
                 sample_steps 4 3) eq_refl)
    as (_ & Hget & _ & Hgone).
  split; [exact Hget|exact Hgone].
Defined.

(** X4. An id that no row has: GET answers 404; DELETE answers 404 and
    changes nothing, also for a step, since no ticket is on a step that
    is not stored; PUT answers 200 with an empty body, not 404, and
    changes nothing. *)
Theorem missing_id_answers db id :
  store_ok db →
  (id ∉ Ticket.id <$> Gateway.tickets db →
   Gateway.get_ticket id db = Gateway.Failure 404 "Ticket not found"
   ∧ Gateway.delete_ticket id db = (Gateway.Failure 404 "Ticket not found", db)
   ∧ ∀ body, Gateway.put_ticket id body db = (Gateway.Reply 200 None, db))
  ∧ (id ∉ Step.id <$> Gateway.steps db →
     Gateway.get_step id db = Gateway.Failure 404 "Step not found"
     ∧ Gateway.delete_step id db = (Gateway.Failure 404 "Step not found", db)
     ∧ ∀ body, Gateway.step_updates body ≠ [] →
         Gateway.put_step id body db = (Gateway.Reply 200 None, db)).
Proof.
  intros (_ & _ & Hrefs). split; intros Hid.
  - assert (js_find (λ r, Ticket.id r =? id) (Gateway.tickets db) = None) as Hf.
    { destruct (js_find _ _) as [r|] eqn:E; [|done].
      apply js_find_Some in E as [Hr E]. exfalso. apply Hid.
      apply list_elem_of_fmap. exists r. split; [lia|done]. }
    split; [unfold Gateway.get_ticket; by rewrite Hf|]. split.
    + unfold Gateway.delete_ticket.
      rewrite filter_all; [by rewrite decide_True|].
      intros x Hx E. apply Hid, list_elem_of_fmap. by exists x.
    + intros body. unfold Gateway.put_ticket. by rewrite Hf.
  - assert (js_find (λ r, Step.id r =? id) (Gateway.steps db) = None) as Hf.
    { destruct (js_find _ _) as [r|] eqn:E; [|done].
      apply js_find_Some in E as [Hr E]. exfalso. apply Hid.
      apply list_elem_of_fmap. exists r. split; [lia|done]. }
    split; [unfold Gateway.get_step; by rewrite Hf|]. split.
    + unfold Gateway.delete_step.
      rewrite filter_all; [rewrite decide_True by done|].
      * f_equal. destruct db as [ts ss tq sq]. simpl in *. f_equal.
        rewrite <- (list_fmap_id ts) at 2. apply list_fmap_ext.
        intros _ r Hr%list_elem_of_lookup_2.
        destruct (decide _) as [E|]; [|done].
        exfalso. apply Hid. by eapply Hrefs.
      * intros x Hx E. apply Hid, list_elem_of_fmap. by exists x.
    + intros body Hb. unfold Gateway.put_step.
      destruct (Gateway.step_updates body); [done|]. by rewrite Hf.
Qed.

Lemma missing_id_answers_witness :
  Gateway.delete_step 9 sample_db
  = (Gateway.Failure 404 "Step not found", sample_db)
  ∧ Gateway.put_ticket 9 TicketBody.empty sample_db
    = (Gateway.Reply 200 None, sample_db).
Proof.
  destruct (missing_id_answers sample_db 9 sample_db_ok) as [Ht Hs].
  split.
  - apply Hs. simpl. unfold sample_steps. set_solver.
  - apply Ht. simpl. unfold sample_tickets. set_solver.
Defined.

(** X5. An id is given once: whatever requests are served after a row
    was created, also the deletion of that row, every row created later
    gets a larger id.  For tickets and for steps. *)
Theorem id_never_given_twice db (rs : list Client.Request) :
  db_ok db →
  (∀ body st row db1 body' st' row' db2,
     Gateway.post_ticket body db = (Gateway.Reply st row, db1) →
     Gateway.post_ticket body' (Server.serve_all rs db1)
     = (Gateway.Reply st' row', db2) →
     Ticket.id row < Ticket.id row')
  ∧ (∀ body st row db1 body' st' row' db2,
       Gateway.post_step body db = (Gateway.Reply st row, db1) →
       Gateway.post_step body' (Server.serve_all rs db1)
       = (Gateway.Reply st' row', db2) →
       Step.id row < Step.id row').
Proof.
  intros Hdb. split.
  - intros body st row db1 body' st' row' db2 H1 H2.
    pose proof (post_ticket_ok body db Hdb) as Hdb1. rewrite H1 in Hdb1.
    simpl in Hdb1.
    destruct (post_ticket_reply_id _ _ _ _ _ Hdb H1) as (_ & Hseq & _).
    destruct (serve_all_ok rs db1 Hdb1) as [Hdb2 [Hle _]].
    destruct (post_ticket_reply_id _ _ _ _ _ Hdb2 H2) as (_ & _ & _ & Hlt & _).
    lia.
  - intros body st row db1 body' st' row' db2 H1 H2.
    pose proof (post_step_ok body db Hdb) as Hdb1. rewrite H1 in Hdb1.
    simpl in Hdb1.
    destruct (serve_all_ok rs db1 Hdb1) as [[_ Hs2] [_ Hle]].
    unfold Gateway.post_step in H1, H2.
    destruct (StepBody.name body); [|done].
    destruct (StepBody.name body'); [|done].
    injection H1 as <- <- <-. injection H2 as <- <- <-.
    pose proof (next_rowid_fresh _ _ Hs2) as [Hfresh _].
    simpl in *. lia.
Qed.

Lemma id_never_given_twice_witness :
  ∃ row' db2,
    Gateway.post_ticket (TicketBody.mk (Some 31) None None None None)
      (Server.serve_all [Client.DELETE_ticket 4]
         (Gateway.post_ticket (TicketBody.mk (Some 30) None None None None)
            sample_db).2)
    = (Gateway.Reply 201 row', db2)
    ∧ 4 < Ticket.id row'.
Proof.
  assert (db_ok sample_db) as Hdb by apply sample_world_ok.
  destruct (id_never_given_twice sample_db [Client.DELETE_ticket 4] Hdb)
    as [Hticket _].
  eexists (Ticket.mk _ _ _ _ _ _), _. split; [reflexivity|].
  apply (Hticket (TicketBody.mk (Some 30) None None None None) 201
           (Ticket.mk 4 30 "white" "" None 3) _
           (TicketBody.mk (Some 31) None None None None) 201 _ _
           eq_refl eq_refl).
Defined.

(** ** The client and the store under any session *)

Section Linked.
Import Client.

Lemma filter_length_eq {A} (P : A → Prop) `{∀ x, Decision (P x)} (l : list A) :
  length (filter P l) = length l → filter P l = l.
Proof.
  intros E. apply filter_all. intros x Hx.
  destruct (decide (P x)) as [|Hn]; [done|].
  by destruct (filter_length_lt P l x Hx Hn).
Qed.

Lemma filter_key_fmap {A} (key : A → Z) (k : Z) (l : list A) :
  key <$> filter (λ x, key x ≠ k) l = filter (λ i, i ≠ k) (key <$> l).
Proof.
  induction l as [|y l IH]; [done|]. csimpl.
  rewrite !filter_cons. destruct (decide (key y ≠ k)); csimpl; by rewrite IH.
Qed.

Lemma delete_ticket_tickets id db :
  Gateway.tickets (Gateway.delete_ticket id db).2
  = filter (λ r, Ticket.id r ≠ id) (Gateway.tickets db).
Proof.
  unfold Gateway.delete_ticket. destruct (decide _) as [E|E]; [|done].
  simpl. symmetry. by apply filter_length_eq.
Qed.

Lemma delete_ticket_steps id db :
  Gateway.steps (Gateway.delete_ticket id db).2 = Gateway.steps db.
Proof. unfold Gateway.delete_ticket. by destruct (decide _). Qed.

Lemma put_ticket_ids id body db :
  Ticket.id <$> Gateway.tickets (Gateway.put_ticket id body db).2
  = Ticket.id <$> Gateway.tickets db.
Proof.
  unfold Gateway.put_ticket.
  destruct (js_find _ (Gateway.tickets db)) as [r|] eqn:Hf; [|done].
  cbv zeta. destruct (Gateway.ticket_update_ok _ _ db); [|done].
  cbn [snd Gateway.tickets].
  eapply update_first_same_key; [done|apply assign_ticket_id].
Qed.

Lemma put_ticket_steps id body db :
  Gateway.steps (Gateway.put_ticket id body db).2 = Gateway.steps db.
Proof.
  unfold Gateway.put_ticket.
  destruct (js_find _ (Gateway.tickets db)) as [r|]; [|done].
  cbv zeta. by destruct (Gateway.ticket_update_ok _ _ db).
Qed.

Lemma refs_ok_steps (ts : list Ticket.t) (ss ss' : list Step.t) :
  (∀ i, i ∈ Step.id <$> ss → i ∈ Step.id <$> ss') →
  refs_ok ts ss → refs_ok ts ss'.
Proof. intros H Hr t s Ht Hs. by eapply H, Hr. Qed.

Lemma refs_ok_tickets (ts ts' : list Ticket.t) (ss : list Step.t) :
  (∀ t', t' ∈ ts' →
     Ticket.current_step_id t' = None
     ∨ (∃ s, Ticket.current_step_id t' = Some s ∧ s ∈ Step.id <$> ss)
     ∨ ∃ t, t ∈ ts ∧ Ticket.current_step_id t' = Ticket.current_step_id t) →
  refs_ok ts ss → refs_ok ts' ss.
Proof.
  intros H Hr t' s Ht' Hs.
  destruct (H t' Ht') as [E|[(s' & E & Hs')|(t & Ht & E)]]; [congruence| |].
  - congruence.
  - rewrite E in Hs. by eapply Hr.
Qed.

Lemma refs_ok_update_first p f (ts : list Ticket.t) (ss : list Step.t) :
  (∀ t, Ticket.current_step_id (f t) = Ticket.current_step_id t) →
  refs_ok ts ss → refs_ok (update_first p f ts) ss.
Proof.
  intros Hf. apply refs_ok_tickets. intros t' Ht'. right. right.
  apply update_first_elem in Ht' as [Ht'|(x & Hx & _ & ->)]; [by exists t'|].
  exists x. by rewrite Hf.
Qed.

Lemma mapi_from_elem {A} (f : Z → A → A) (l : list A) i y :
  y ∈ mapi_from f l i → ∃ j x, x ∈ l ∧ y = f j x.
Proof.
  revert i. induction l as [|x l IH]; intros i; simpl.
  - by intros ?%elem_of_nil.
  - intros [->|Hy]%elem_of_cons.
    + exists i, x. split; [by left|done].
    + destruct (IH _ Hy) as (j & z & Hz & ->). exists j, z. split; [by right|done].
Qed.

Lemma linked_ext w w' :
  tickets w' = tickets w → steps w' = steps w → db w' = db w →
  linked w → linked w'.
Proof. unfold linked, same_ids. by intros -> -> ->. Qed.

Lemma linked_set_tickets (l : list Ticket.t) w :
  Ticket.id <$> l ≡ₚ Ticket.id <$> tickets w →
  refs_ok l (steps w) →
  linked w → linked (set_tickets l w).
Proof.
  intros Hp Hr (Hs & [Ht Hst] & _). split; [done|]. split; [|done].
  split; [|done]. simpl. by rewrite Hp.
Qed.

Lemma linked_set_steps (l : list Step.t) w :
  Step.id <$> l ≡ₚ Step.id <$> steps w →
  linked w → linked (set_steps l w).
Proof.
  intros Hp (Hs & [Ht Hst] & Hr). split; [done|]. split.
  - split; [done|]. simpl. by rewrite Hp.
  - simpl. eapply refs_ok_steps; [|done]. intros i. by rewrite Hp.
Qed.

Lemma linked_updateTicket online ticketId updates w :
  (∀ s, TicketBody.current_step_id updates = Some (Some s) →
        s ∈ Step.id <$> steps w) →
  linked w → linked (updateTicket online ticketId updates w).
Proof.
  intros Hu H. unfold updateTicket. destruct online; [|done].
  destruct H as (Hs & [Ht Hst] & Hr). split; [|split; [split|]]; simpl.
  - by apply store_ok_put_ticket.
  - by rewrite Object_assign_ids, put_ticket_ids.
  - by rewrite put_ticket_steps.
  - revert Hr. apply refs_ok_tickets. intros t' Ht'.
    apply update_first_elem in Ht' as [Ht'|(x & Hx & _ & ->)];
      [right; right; by exists t'|].
    unfold Object_assign. rewrite assign_ticket_step.
    destruct (TicketBody.current_step_id updates) as [[s|]|] eqn:E; simpl.
    + right. left. exists s. split; [done|]. by apply Hu.
    + by left.
    + right. right. by exists x.
Qed.

Lemma linked_put_step stepId body (l : list Step.t) w :
  Step.id <$> l = Step.id <$> steps w →
  linked w →
  linked (set_steps l (set_db (Gateway.put_step stepId body (db w)).2 w)).
Proof.
  intros Hl (Hs & [Ht Hst] & Hr). split; [|split; [split|]]; simpl.
  - by apply store_ok_put_step.
  - by rewrite put_step_tickets.
  - by rewrite put_step_ids, Hl.
  - eapply refs_ok_steps; [|done]. intros i. by rewrite Hl.
Qed.

Lemma linked_updateStepOrder online stepId i w :
  linked w → linked (updateStepOrder online stepId i w).
Proof.
  intros H. unfold updateStepOrder. destruct online; [|done].
  apply (linked_put_step _ _ _ (send _ w)); [|done].
  simpl. by rewrite update_first_fmap.
Qed.

Lemma linked_updateStep online stepId name w :
  linked w → linked (updateStep online stepId name w).
Proof.
  intros H. unfold updateStep. destruct online; [|done].
  apply (linked_put_step _ _ _ (send _ w)); [|done].
  simpl. by rewrite update_first_fmap.
Qed.

Lemma linked_loadTickets online w : linked w → linked (loadTickets online w).
Proof.
  intros H. unfold loadTickets. destruct online; [|done].
  destruct H as (Hs & [Ht Hst] & Hr). split; [done|]. split; [split|]; simpl.
  - unfold Gateway.get_tickets. by rewrite merge_sort_Permutation.
  - done.
  - intros t s Hin Hcs. rewrite Hst.
    destruct Hs as (_ & _ & Hrefs). apply (Hrefs t s); [|done].
    unfold Gateway.get_tickets in Hin. by rewrite merge_sort_Permutation in Hin.
Qed.

Lemma linked_loadSteps online w : linked w → linked (loadSteps online w).
Proof.
  intros H. unfold loadSteps. destruct online; [|done].
  apply (linked_set_steps _ (send _ w)); [|done]. simpl.
  destruct H as (_ & [_ Hst] & _). rewrite Hst.
  unfold Gateway.get_steps. by rewrite merge_sort_Permutation.
Qed.

Lemma post_ticket_steps body db :
  Gateway.steps (Gateway.post_ticket body db).2 = Gateway.steps db.
Proof.
  unfold Gateway.post_ticket.
  destruct (TicketBody.ticket_number body); [|done].
  cbv zeta. by destruct (Gateway.ticket_row_ok _ db).
Qed.

Lemma linked_addTicket online random w w' :
  addTicket online random w = Settled w' → linked w → linked w'.
Proof.
  rewrite addTicket_unfold. cbv zeta. intros E H.
  destruct (generateNewTicketNumber_rest random w) as (Et & Est & Edb & _).
  destruct online.
  - destruct (Gateway.post_ticket _ _) as [[st row|] db'] eqn:Ep; [|done].
    injection E as <-.
    destruct H as (Hs & [Ht Hst] & Hr).
    pose proof (store_ok_post_ticket (addTicket_body random w) (db w) Hs) as Hs'.
    pose proof (post_ticket_steps (addTicket_body random w) (db w)) as Esteps.
    rewrite Ep in Hs', Esteps. simpl in Hs', Esteps.
    destruct (post_ticket_reply _ _ _ _ _ Ep) as (_ & _ & Etk).
    split; [done|]. split; [split|]; simpl.
    + by rewrite Etk, !fmap_app, Ht.
    + by rewrite Est, Esteps.
    + rewrite Est. intros t s [Hin| ->%list_elem_of_singleton]%elem_of_app Hcs.
      * by eapply Hr.
      * rewrite Hst, <- Esteps. destruct Hs' as (_ & _ & Hrefs).
        apply (Hrefs row s); [|done]. rewrite Etk. apply elem_of_app.
        right. by left.
  - injection E as <-. revert H. apply linked_ext; simpl; congruence.
Qed.

Lemma linked_deleteTicket online ticketId w :
  linked w → linked (deleteTicket online ticketId w).
Proof.
  intros H. unfold deleteTicket. destruct online; [|done].
  destruct H as (Hs & [Ht Hst] & Hr). split; [|split; [split|]]; simpl.
  - by apply store_ok_delete_ticket.
  - by rewrite delete_ticket_tickets, !filter_key_fmap, Ht.
  - by rewrite delete_ticket_steps.
  - intros t s [_ Hin]%list_elem_of_filter. by apply Hr.
Qed.

Lemma linked_addStep online w w' :
  addStep online w = Some w' → linked w → linked w'.
Proof.
  unfold addStep. intros E H. destruct online.
  - simpl in E. injection E as <-.
    destruct H as (Hs & [Ht Hst] & Hr).
    pose proof (store_ok_post_step
                  (StepBody.mk (Some "") (Some (Z.of_nat (length (steps w)))))
                  (db w) Hs) as Hs'.
    split; [exact Hs'|]. split; [split|]; simpl.
    + done.
    + by rewrite !fmap_app, Hst.
    + eapply refs_ok_steps; [|done]. intros i Hi. rewrite fmap_app.
      apply elem_of_app. by left.
  - by injection E as <-.
Qed.

Lemma linked_deleteStep online stepId skipUndo w :
  linked w → linked (deleteStep online stepId skipUndo w).
Proof.
  intros H. unfold deleteStep.
  set (w1 := match js_find _ _ with Some _ => _ | None => _ end).
  assert (tickets w1 = tickets w ∧ steps w1 = steps w ∧ db w1 = db w)
    as (Et & Est & Edb).
  { subst w1. destruct (js_find _ _); [|done]. by destruct skipUndo. }
  assert (linked w1) as H1 by (revert H; by apply linked_ext).
  clearbody w1. destruct online; [|done].
  destruct H1 as (Hs & [Ht Hst] & Hr). split; [|split; [split|]]; simpl.
  - by apply store_ok_delete_step.
  - rewrite delete_step_tickets.
    pose proof (clear_step_ids stepId) as Hc. unfold clear_step in Hc.
    by rewrite !Hc.
  - by rewrite delete_step_steps, !filter_key_fmap, Hst.
  - intros t s (r & -> & Hin)%list_elem_of_fmap Hcs.
    destruct (decide (Ticket.current_step_id r = Some stepId)) as [E|E].
    + by destruct r.
    + specialize (Hr r s Hin Hcs). rewrite filter_key_fmap.
      apply list_elem_of_filter. split; [congruence|done].
Qed.

Lemma linked_foldl {A} (f : World → A → World) (l : list A) w :
  (∀ w x, linked w → linked (f w x)) → linked w → linked (foldl f w l).
Proof.
  intros Hf. revert w. induction l as [|x l IH]; intros w H; simpl; [done|].
  by apply IH, Hf.
Qed.

Lemma linked_persistTicketOrder online w :
  linked w → linked (persistTicketOrder online w).
Proof.
  intros H. unfold persistTicketOrder.
  apply linked_foldl; [intros; by apply linked_updateTicket|].
  apply linked_set_tickets; [|..|done].
  - unfold mapi. by rewrite (mapi_from_key Ticket.id).
  - destruct H as (_ & _ & Hr). revert Hr. apply refs_ok_tickets.
    intros t' (j & x & Hx & ->)%mapi_from_elem. right. right. by exists x.
Qed.

Lemma linked_moveTicketInArray online fromIdx toIdx w b w' :
  moveTicketInArray online fromIdx toIdx w = Some (b, w') →
  linked w → linked w'.
Proof.
  unfold moveTicketInArray. intros E H.
  destruct (_ || _); [by injection E as <- <-|].
  destruct (splice_take _ _) as [[item|] rest] eqn:Es; [|done].
  injection E as <- <-.
  pose proof (splice_move_perm _ _ toIdx _ _ Es) as Hp.
  apply linked_persistTicketOrder, linked_set_tickets; [..|done].
  - by rewrite Hp.
  - destruct H as (_ & _ & Hr). intros t s Ht. apply Hr. by rewrite <- Hp.
Qed.

Lemma linked_persistStepOrder online w :
  linked w → linked (persistStepOrder online w).
Proof.
  intros H. unfold persistStepOrder.
  set (w2 := foldl _ _ _).
  assert (linked w2) as H2.
  { apply linked_foldl; [intros; by apply linked_updateStepOrder|].
    apply linked_set_steps; [|done].
    unfold mapi. by rewrite (mapi_from_key Step.id). }
  by destruct (online || _).
Qed.

Lemma linked_moveStep online stepId delta w :
  linked w → linked (moveStep online stepId delta w).
Proof.
  intros H. unfold moveStep.
  destruct (_ =? -1); [done|]. destruct (_ || _); [done|].
  destruct (splice_take _ _) as [[moved|] rest] eqn:Es; [|done].
  apply linked_persistStepOrder, linked_set_steps; [|done].
  by rewrite (splice_move_perm _ _ _ _ _ Es).
Qed.

Lemma linked_dropStep online draggingStepId targetId after w :
  linked w → linked (dropStep online draggingStepId targetId after w).
Proof.
  intros H. unfold dropStep.
  destruct (or_null _); [|done]. destruct (_ =? _); [done|].
  destruct (_ || _); [done|].
  destruct (splice_take _ _) as [[moved|] rest] eqn:Es; [|done].
  apply linked_persistStepOrder, linked_set_steps; [|done].
  by rewrite (splice_move_perm _ _ _ _ _ Es).
Qed.

Lemma linked_changeTicketStep online ticketId direction w :
  linked w → linked (changeTicketStep online ticketId direction w).
Proof.
  intros H. unfold changeTicketStep.
  destruct (js_find _ _) as [ticket|]; [|done].
  destruct (_ =? 0); [done|]. cbv zeta.
  set (newIndex := if String.eqb direction "left" then _ else _).
  assert (∀ s, or_null (Step.id <$> js_nth (steps w) newIndex) = Some s →
               s ∈ Step.id <$> steps w) as Hnew.
  { intros s. unfold js_nth. destruct (newIndex <? 0); [done|].
    destruct (steps w !! Z.to_nat newIndex) as [st|] eqn:El; [|done].
    simpl. destruct (Step.id st =? 0); [done|]. intros [= <-].
    apply list_elem_of_fmap. exists st. split; [done|].
    by eapply list_elem_of_lookup_2. }
  apply linked_updateTicket.
  - simpl. intros s [= E]. by apply Hnew.
  - apply linked_set_tickets; [by rewrite update_first_fmap| |done].
    destruct H as (_ & _ & Hr). revert Hr. apply refs_ok_tickets.
    intros t' Ht'.
    apply update_first_elem in Ht' as [Ht'|(x & Hx & _ & ->)];
      [right; right; by exists t'|].
    destruct (or_null _) as [s|] eqn:E; [|left; by destruct x].
    right. left. exists s. split; [by destruct x|by apply Hnew].
Qed.

Lemma linked_changeTicketColor online ticketId color w :
  linked w → linked (Board.changeTicketColor online ticketId color w).
Proof.
  intros H. unfold Board.changeTicketColor.
  destruct (js_find _ _); [|done].
  apply linked_updateTicket; [done|].
  apply linked_set_tickets; [by rewrite update_first_fmap| |done].
  destruct H as (_ & _ & Hr). revert Hr. apply refs_ok_update_first.
  by intros [].
Qed.

Lemma linked_finishEditTicketNumber online ticketId newNum w :
  linked w → linked (finishEditTicketNumber online ticketId newNum w).
Proof.
  intros H. unfold finishEditTicketNumber.
  destruct newNum as [n|]; [|done].
  destruct (n <=? 0); [done|]. destruct (decide _); [done|].
  cbv zeta.
  set (w1 := updateTicket _ _ _ _).
  assert (linked w1) as H1 by (by apply linked_updateTicket).
  clearbody w1.
  set (w2 := match js_find _ _ with Some _ => _ | None => _ end).
  assert (linked w2) as H2.
  { subst w2. by destruct (js_find _ _). }
  assert (tickets w2 = tickets w1) as Et.
  { subst w2. by destruct (js_find _ _). }
  clearbody w2.
  apply linked_set_tickets; [by rewrite update_first_fmap| |done].
  destruct H2 as (_ & _ & Hr). revert Hr. apply refs_ok_update_first.
  by intros [].
Qed.

Lemma linked_dropTicket online dragged target w w' :
  Board.dropTicket online dragged target w = Some w' → linked w → linked w'.
Proof.
  unfold Board.dropTicket. intros E H.
  destruct (or_null dragged); [|by injection E as <-].
  cbv zeta in E.
  destruct (_ || _); [by injection E as <-|].
  destruct (_ =? _); [by injection E as <-|].
  destruct (moveTicketInArray _ _ _ _) as [[b w1]|] eqn:Em; [|done].
  injection E as <-. by eapply linked_moveTicketInArray.
Qed.

Lemma changeTicketColor_ok online ticketId color w :
  mirror_ok w → mirror_ok (Board.changeTicketColor online ticketId color w).
Proof.
  intros H. unfold Board.changeTicketColor.
  destruct (js_find _ _); [|done].
  apply updateTicket_ok, set_tickets_ok; [|done].
  by rewrite update_first_fmap.
Qed.

Lemma dropTicket_ok online dragged target w w' :
  Board.dropTicket online dragged target w = Some w' → mirror_ok w → mirror_ok w'.
Proof.
  unfold Board.dropTicket. intros E H.
  destruct (or_null dragged); [|by injection E as <-].
  cbv zeta in E.
  destruct (_ || _); [by injection E as <-|].
  destruct (_ =? _); [by injection E as <-|].
  destruct (moveTicketInArray _ _ _ _) as [[b w1]|] eqn:Em; [|done].
  injection E as <-. by eapply moveTicketInArray_ok.
Qed.

Lemma session_ok_step op w w' :
  Session.step op w = Some w' → session_ok w → session_ok w'.
Proof.
  intros E [Hm Hl]. destruct op; simpl in E.
  - injection E as <-. split; [by apply loadTickets_ok|by apply linked_loadTickets].
  - injection E as <-. split; [by apply loadSteps_ok|by apply linked_loadSteps].
  - destruct (Client.addTicket online random w) as [w1|] eqn:Ea; [|done].
    injection E as <-.
    split; [by eapply addTicket_ok|by eapply linked_addTicket].
  - injection E as <-.
    split; [by apply deleteTicket_ok|by apply linked_deleteTicket].
  - injection E as <-.
    split; [by apply changeTicketStep_ok|by apply linked_changeTicketStep].
  - injection E as <-.
    split; [by apply changeTicketColor_ok|by apply linked_changeTicketColor].
  - injection E as <-.
    split; [by apply finishEditTicketNumber_ok
           |by apply linked_finishEditTicketNumber].
  - destruct (moveTicketInArray _ _ _ _) as [[b w1]|] eqn:Em; [|done].
    injection E as <-.
    split; [by eapply moveTicketInArray_ok|by eapply linked_moveTicketInArray].
  - split; [by eapply dropTicket_ok|by eapply linked_dropTicket].
  - split; [by eapply addStep_ok|by eapply linked_addStep].
  - injection E as <-. split; [by apply updateStep_ok|by apply linked_updateStep].
  - injection E as <-. split; [by apply moveStep_ok|by apply linked_moveStep].
  - injection E as <-. split; [by apply dropStep_ok|by apply linked_dropStep].
  - injection E as <-. split; [by apply deleteStep_ok|by apply linked_deleteStep].
Qed.

(** The first step the client shows is a step of the store. *)
Lemma first_step_stored w :
  linked w →
  Gateway.step_exists (or_null (Step.id <$> head (steps w)))
    (Gateway.steps (db w)) = true.
Proof.
  intros (_ & [_ Hs] & _). destruct (steps w) as [|s l] eqn:E; [done|].
  simpl. destruct (Step.id s =? 0); [done|]. simpl.
  assert (Step.id s ∈ Step.id <$> Gateway.steps (db w)) as Hin.
  { rewrite <- Hs. rewrite fmap_cons. by left. }
  apply list_elem_of_fmap in Hin as (r & Er & Hr).
  apply existsb_exists. exists r. split; [by apply list_elem_of_In|].
  apply Z.eqb_eq. congruence.
Qed.

(** From a state in step with the store, a create is refused only for
    a number that is already stored. *)
Lemma addTicket_refused_stored online random w w' error :
  linked w → addTicket online random w = ErrorPushed w' error →
  (generateNewTicketNumber random w).1
    ∈ Ticket.ticket_number <$> Gateway.tickets (db w).
Proof.
  intros Hl E.
  destruct (decide ((generateNewTicketNumber random w).1
                      ∈ Ticket.ticket_number <$> Gateway.tickets (db w)))
    as [Hin|Hout]; [done|].
  destruct (addTicket_accepted online random w Hout (first_step_stored w Hl))
    as [w1 E1]. congruence.
Qed.

Lemma sample_world_session_ok : session_ok sample_world.
Proof.
  split; [apply sample_world_ok|]. split; [apply sample_db_ok|]. split; [done|].
  destruct sample_db_ok as (_ & _ & H). exact H.
Qed.

End Linked.

(** X6. Through any session of the board and the step list (loads,
    creates, deletes, step changes, colour changes, number edits, drags
    and drops, step renames, moves and deletes; each request answered or
    not) in which [tickets] stays an array of tickets, that is, every
    create is accepted by the gateway and every move starts from a
    position of the array, the client and the store stay sound and in
    step: ids are unique and positive on both sides, the store holds no
    two tickets with one number, the client shows exactly the tickets
    and the steps the store holds, and every ticket, shown or stored, is
    on no step or on a step that is there.  From a state so reached a
    create either keeps all this, or is refused by the gateway, which
    happens only for a number that is already stored: the store is then
    as it was, and [tickets] holds the tickets it held followed by the
    error object of the answer. *)
Theorem session_keeps_client_and_store_in_step ops w w' :
  session_ok w → Session.run ops w = Some w' →
  session_ok w'
  ∧ ∀ online random,
      match Client.addTicket online random w' with
      | Client.Settled w'' => session_ok w''
      | Client.ErrorPushed w'' error =>
        online = true
        ∧ (Client.generateNewTicketNumber random w').1
            ∈ Ticket.ticket_number <$> Gateway.tickets (Client.db w')
        ∧ Client.db w'' = Client.db w'
        ∧ Client.steps w'' = Client.steps w'
        ∧ Client.entries (Client.ErrorPushed w'' error)
          = (Client.Row <$> Client.tickets w')
              ++ [Client.ErrorObject "Failed to create ticket"]
      end.
Proof.
  intros Hok E.
  assert (session_ok w') as Hok'.
  { revert w Hok E. induction ops as [|op ops IH]; intros w Hok E; simpl in E.
    - by injection E as <-.
    - destruct (Session.step op w) as [w1|] eqn:E1; [|done].
      apply (IH w1); [|done]. by eapply session_ok_step. }
  split; [exact Hok'|]. intros online random.
  destruct (Client.addTicket online random w') as [w''|w'' error] eqn:Ea.
  - apply (session_ok_step (Session.AddTicket online random) w'); [|done].
    simpl. by rewrite Ea.
  - pose proof (addTicket_refused_stored _ _ _ _ _ (proj2 Hok') Ea) as Hin.
    apply addTicket_refused in Ea as (-> & _ & -> & Et & Es & Ed & _).
    split; [done|]. split; [done|]. split; [done|]. split; [done|].
    cbn [Client.entries]. by rewrite Et.
Qed.

Lemma session_keeps_client_and_store_in_step_witness :
  let ops :=
    [Session.AddTicket true sample_draws;
     Session.ChangeTicketStep true 4 "right";
     Session.DeleteStep true 2 false;
     Session.DropTicket true (Some 4) (Some (1, false));
     Session.DeleteTicket true 2;
     Session.AddStep true;
     Session.LoadTickets true;
     Session.EditTicketNumber true 1 (Some 14)] in
  from_option
    (λ w',
       session_ok w'
       ∧ match Client.addTicket true sample_draws w' with
         | Client.Settled _ => False
         | Client.ErrorPushed w'' error =>
           Client.entries (Client.ErrorPushed w'' error)
           = (Client.Row <$> Client.tickets w')
               ++ [Client.ErrorObject "Failed to create ticket"]
         end)
    False (Session.run ops sample_world).
Proof.
  intros ops.
  destruct (Session.run ops sample_world) as [w'|] eqn:E; simpl.
  - destruct (session_keeps_client_and_store_in_step ops sample_world w'
                sample_world_session_ok E) as [Hok Hadd].
    split; [exact Hok|]. specialize (Hadd true sample_draws).
    destruct (Client.addTicket true sample_draws w') as [w''|w'' error] eqn:Ea.
    + assert (from_option
                (λ w', match Client.addTicket true sample_draws w' with
                       | Client.Settled _ => False
                       | Client.ErrorPushed _ _ => True
                       end) False (Session.run ops sample_world)) as H
        by (vm_compute; exact I).
      rewrite E in H. simpl in H. by rewrite Ea in H.
    + by destruct Hadd as (_ & _ & _ & _ & He).
  - assert (Client.tickets <$> Session.run ops sample_world ≠ None) as H
      by (vm_compute; discriminate).
    rewrite E in H. exact (H eq_refl).
Defined.

(** ** Ticket numbers through a session *)

Section NumbersInSessions.
Import Client.

Lemma same_numbers_refl w : same_numbers w w.
Proof.
  split; [done|]. split; [intros t Ht; by exists t|].
  split; [intros r Hr; by exists r|done].
Qed.

Lemma same_numbers_trans w1 w2 w3 :
  same_numbers w1 w2 → same_numbers w2 w3 → same_numbers w1 w3.
Proof.
  intros (E1 & H1 & S1 & A1) (E2 & H2 & S2 & A2).
  split; [congruence|]. split; [|split; [|congruence]].
  - intros t3 (t2 & Ht2 & E)%H2. destruct (H1 t2 Ht2) as (t1 & Ht1 & E').
    exists t1. split; [done|congruence].
  - intros r3 (r2 & Hr2 & E)%S2. destruct (S1 r2 Hr2) as (r1 & Hr1 & E').
    exists r1. split; [done|congruence].
Qed.

Lemma same_numbers_ext w w' :
  tickets w' = tickets w → usedTicketNumbers w' = usedTicketNumbers w →
  Gateway.tickets (db w') = Gateway.tickets (db w) →
  appSettings w' = appSettings w →
  same_numbers w w'.
Proof.
  intros Et Eu Ed Ea. split; [done|]. rewrite Et, Ed.
  split; [intros t Ht; by exists t|]. split; [intros r Hr; by exists r|done].
Qed.

Lemma same_numbers_covers w w' :
  same_numbers w w' → used_covers_live w → store_covered w →
  used_covers_live w' ∧ store_covered w'
  ∧ usedTicketNumbers w' = usedTicketNumbers w
  ∧ appSettings w' = appSettings w.
Proof.
  intros (Eu & H & S & Ea) Hc Hs. split; [|split; [|done]].
  - intros t' (t & Ht & E)%H. rewrite Eu, E. by apply Hc.
  - intros r' (r & Hr & E)%S. rewrite Eu, E. by apply Hs.
Qed.

Lemma same_numbers_set_tickets (l : list Ticket.t) w :
  (∀ t', t' ∈ l →
     ∃ t, t ∈ tickets w ∧ Ticket.ticket_number t' = Ticket.ticket_number t) →
  same_numbers w (set_tickets l w).
Proof.
  intros H. split; [done|]. split; [exact H|].
  split; [intros r Hr; by exists r|done].
Qed.

Lemma same_numbers_update_first p f w :
  (∀ t, Ticket.ticket_number (f t) = Ticket.ticket_number t) →
  same_numbers w (set_tickets (update_first p f (tickets w)) w).
Proof.
  intros Hf. apply same_numbers_set_tickets. intros t' Ht'.
  apply update_first_elem in Ht' as [Ht'|(x & Hx & _ & ->)]; [by exists t'|].
  exists x. by rewrite Hf.
Qed.

(** An update that does not name a ticket number leaves the stored
    numbers as they are, accepted or not. *)
Lemma put_ticket_numbers id body db r' :
  TicketBody.ticket_number body = None →
  r' ∈ Gateway.tickets (Gateway.put_ticket id body db).2 →
  ∃ r, r ∈ Gateway.tickets db
       ∧ Ticket.ticket_number r' = Ticket.ticket_number r.
Proof.
  intros Hb. unfold Gateway.put_ticket.
  destruct (js_find _ (Gateway.tickets db)) as [r0|] eqn:Hf; [|by exists r'].
  cbv zeta. destruct (Gateway.ticket_update_ok _ _ db); [|by exists r'].
  cbn [snd Gateway.tickets].
  intros [H|(x & Hx & _ & ->)]%update_first_elem; [by exists r'|].
  exists r0. split; [by apply js_find_Some in Hf as [? _]|].
  by rewrite assign_ticket_number, Hb.
Qed.

Lemma same_numbers_updateTicket online ticketId updates w :
  TicketBody.ticket_number updates = None →
  same_numbers w (updateTicket online ticketId updates w).
Proof.
  intros Hu. unfold updateTicket. destruct online; [|by apply same_numbers_ext].
  split; [done|]. cbn [tickets db appSettings set_tickets set_db send].
  split; [|split; [|done]].
  - intros t' Ht'.
    apply update_first_elem in Ht' as [Ht'|(x & Hx & _ & ->)]; [by exists t'|].
    exists x. split; [done|].
    unfold Object_assign. by rewrite assign_ticket_number, Hu.
  - intros r'. by apply put_ticket_numbers.
Qed.

Lemma same_numbers_foldl {A} (f : World → A → World) (l : list A) w :
  (∀ w x, same_numbers w (f w x)) → same_numbers w (foldl f w l).
Proof.
  intros Hf. revert w. induction l as [|x l IH]; intros w; simpl.
  - apply same_numbers_refl.
  - eapply same_numbers_trans; [apply Hf|apply IH].
Qed.

Lemma same_numbers_persistTicketOrder online w :
  same_numbers w (persistTicketOrder online w).
Proof.
  unfold persistTicketOrder.
  eapply same_numbers_trans; [|apply same_numbers_foldl].
  - apply same_numbers_set_tickets.
    intros t' (j & x & Hx & ->)%mapi_from_elem. by exists x.
  - intros w1 x. by apply same_numbers_updateTicket.
Qed.

Lemma same_numbers_moveTicketInArray online fromIdx toIdx w b w' :
  moveTicketInArray online fromIdx toIdx w = Some (b, w') → same_numbers w w'.
Proof.
  unfold moveTicketInArray. intros E.
  destruct (_ || _); [injection E as <- <-; apply same_numbers_refl|].
  destruct (splice_take _ _) as [[item|] rest] eqn:Es; [|done].
  injection E as <- <-.
  pose proof (splice_move_perm _ _ toIdx _ _ Es) as Hp.
  eapply same_numbers_trans; [|apply same_numbers_persistTicketOrder].
  apply same_numbers_set_tickets. intros t' Ht'. exists t'.
  split; [by rewrite <- Hp|done].
Qed.

Lemma same_numbers_dropTicket online dragged target w w' :
  Board.dropTicket online dragged target w = Some w' → same_numbers w w'.
Proof.
  unfold Board.dropTicket. intros E.
  destruct (or_null dragged); [|injection E as <-; apply same_numbers_refl].
  cbv zeta in E.
  destruct (_ || _); [injection E as <-; apply same_numbers_refl|].
  destruct (_ =? _); [injection E as <-; apply same_numbers_refl|].
  destruct (moveTicketInArray _ _ _ _) as [[b w1]|] eqn:Em; [|done].
  injection E as <-. by eapply same_numbers_moveTicketInArray.
Qed.

(** A drop never leaves the array: the positions it moves between are
    those of tickets it found. *)
Lemma dropTicket_settles online dragged target w :
  ∃ w', Board.dropTicket online dragged target w = Some w'.
Proof.
  unfold Board.dropTicket.
  destruct (or_null dragged) as [d|]; [|by eexists]. cbv zeta.
  destruct (js_findIndex_spec (has_ticket_id d) (tickets w))
    as [[-> _]|(k & x & -> & Hk & _)].
  { rewrite Z.eqb_refl. by eexists. }
  destruct (_ || _); [by eexists|]. destruct (_ =? _) eqn:Ene; [by eexists|].
  unfold moveTicketInArray.
  destruct (_ || _); [by eexists|].
  apply lookup_lt_Some in Hk.
  destruct (splice_take_in_range (tickets w) (Z.of_nat k)) as (y & rest & -> & _);
    [lia|]. by eexists.
Qed.

Lemma same_numbers_changeTicketStep online ticketId direction w :
  same_numbers w (changeTicketStep online ticketId direction w).
Proof.
  unfold changeTicketStep.
  destruct (js_find _ _); [|apply same_numbers_refl].
  destruct (_ =? 0); [apply same_numbers_refl|]. cbv zeta.
  eapply same_numbers_trans; [|by apply same_numbers_updateTicket].
  apply same_numbers_update_first. by intros [].
Qed.

Lemma same_numbers_changeTicketColor online ticketId color w :
  same_numbers w (Board.changeTicketColor online ticketId color w).
Proof.
  unfold Board.changeTicketColor.
  destruct (js_find _ _); [|apply same_numbers_refl].
  eapply same_numbers_trans; [|by apply same_numbers_updateTicket].
  apply same_numbers_update_first. by intros [].
Qed.

Lemma same_numbers_deleteTicket online ticketId w :
  same_numbers w (deleteTicket online ticketId w).
Proof.
  unfold deleteTicket. destruct online; [|by apply same_numbers_ext].
  split; [done|]. cbn [tickets db appSettings set_tickets set_db send].
  split; [|split; [|done]].
  - intros t' [_ Ht']%list_elem_of_filter. by exists t'.
  - intros r'. rewrite delete_ticket_tickets.
    intros [_ Hr']%list_elem_of_filter. by exists r'.
Qed.

Lemma same_numbers_deleteStep online stepId skipUndo w :
  same_numbers w (deleteStep online stepId skipUndo w).
Proof.
  unfold deleteStep.
  set (w1 := match js_find _ _ with Some _ => _ | None => _ end).
  assert (tickets w1 = tickets w ∧ usedTicketNumbers w1 = usedTicketNumbers w
          ∧ db w1 = db w ∧ appSettings w1 = appSettings w)
    as (Et & Eu & Ed & Ea).
  { subst w1. destruct (js_find _ _); [|done]. by destruct skipUndo. }
  clearbody w1. destruct online; [|apply same_numbers_ext; simpl; congruence].
  split; [done|]. cbn [tickets db appSettings set_tickets set_steps set_db send].
  rewrite Et, Ed. split; [|split; [|done]].
  - intros t' (r & -> & Hr)%list_elem_of_fmap. exists r. split; [done|].
    by destruct (decide _), r.
  - intros r'. rewrite delete_step_tickets.
    intros (r & -> & Hr)%list_elem_of_fmap. exists r. split; [done|].
    by destruct (decide _), r.
Qed.

Lemma same_numbers_updateStepOrder online stepId i w :
  same_numbers w (updateStepOrder online stepId i w).
Proof.
  unfold updateStepOrder. destruct online; [|by apply same_numbers_ext].
  apply same_numbers_ext; [done..| |done]. simpl. apply put_step_tickets.
Qed.

Lemma same_numbers_persistStepOrder online w :
  same_numbers w (persistStepOrder online w).
Proof.
  unfold persistStepOrder.
  set (w2 := foldl _ _ _).
  assert (same_numbers w w2) as H2.
  { eapply same_numbers_trans; [|apply same_numbers_foldl].
    - by apply same_numbers_ext.
    - intros. apply same_numbers_updateStepOrder. }
  eapply same_numbers_trans; [exact H2|].
  apply same_numbers_ext; by destruct (online || _).
Qed.

Lemma same_numbers_moveStep online stepId delta w :
  same_numbers w (moveStep online stepId delta w).
Proof.
  unfold moveStep.
  destruct (_ =? -1); [apply same_numbers_refl|].
  destruct (_ || _); [apply same_numbers_refl|].
  destruct (splice_take _ _) as [[moved|] rest]; [|apply same_numbers_refl].
  eapply same_numbers_trans; [|apply same_numbers_persistStepOrder].
  by apply same_numbers_ext.
Qed.

Lemma same_numbers_dropStep online draggingStepId targetId after w :
  same_numbers w (dropStep online draggingStepId targetId after w).
Proof.
  unfold dropStep.
  destruct (or_null _); [|apply same_numbers_refl].
  destruct (_ =? _); [apply same_numbers_refl|].
  destruct (_ || _); [apply same_numbers_refl|].
  destruct (splice_take _ _) as [[moved|] rest]; [|apply same_numbers_refl].
  eapply same_numbers_trans; [|apply same_numbers_persistStepOrder].
  by apply same_numbers_ext.
Qed.

Lemma maxUsed_least used b :
  0 ≤ b → (∀ n, n ∈ used → n ≤ b) → maxUsed used ≤ b.
Proof.
  intros H0 Hb. unfold maxUsed, set_fold. simpl.
  destruct (fold_max_spec (elements used)) as (_ & _ & [->|Hin]); [done|].
  apply Hb. by apply elem_of_elements.
Qed.

(** What a create leaves in the store. *)
Lemma addTicket_stored online random w w' r :
  addTicket online random w = Settled w' →
  r ∈ Gateway.tickets (db w') →
  r ∈ Gateway.tickets (db w)
  ∨ Ticket.ticket_number r = (generateNewTicketNumber random w).1.
Proof.
  rewrite addTicket_unfold. cbv zeta. destruct online.
  - destruct (Gateway.post_ticket _ _) as [[st row | ? ?] db'] eqn:E; [|done].
    intros [= <-]. cbn [db set_tickets set_db].
    apply post_ticket_reply in E as (Hn & _ & ->).
    intros [Hr| ->%list_elem_of_singleton]%elem_of_app; [by left|right].
    simpl in Hn. congruence.
  - intros [= <-]. cbn [db showError send].
    destruct (generateNewTicketNumber_rest random w) as (_ & _ & -> & _).
    by left.
Qed.

Lemma addTicket_settings online random w w' :
  addTicket online random w = Settled w' → appSettings w' = appSettings w.
Proof.
  assert (appSettings (generateNewTicketNumber random w).2 = appSettings w) as Ea.
  { unfold generateNewTicketNumber.
    by destruct (randomTwoDigitNumbers (appSettings w)). }
  rewrite addTicket_unfold. cbv zeta. destruct online.
  - destruct (Gateway.post_ticket _ _) as [[st row | ? ?] db']; [|done].
    by intros [= <-].
  - by intros [= <-].
Qed.

(** One operation of a session without number edits. *)
Lemma numbers_step op w w' :
  Session.is_number_edit op = false →
  Session.step op w = Some w' → used_covers_live w → store_covered w →
  used_covers_live w' ∧ store_covered w'
  ∧ usedTicketNumbers w ⊆ usedTicketNumbers w'
  ∧ appSettings w' = appSettings w
  ∧ (randomTwoDigitNumbers (appSettings w) = false →
     maxUsed (usedTicketNumbers w) < 2 ^ 53 →
     maxUsed (usedTicketNumbers w') ≤ maxUsed (usedTicketNumbers w) + 1).
Proof.
  intros Hop E Hc Hs.
  assert (same_numbers w w' →
          used_covers_live w' ∧ store_covered w'
          ∧ usedTicketNumbers w ⊆ usedTicketNumbers w'
          ∧ appSettings w' = appSettings w
          ∧ (randomTwoDigitNumbers (appSettings w) = false →
             maxUsed (usedTicketNumbers w) < 2 ^ 53 →
             maxUsed (usedTicketNumbers w') ≤ maxUsed (usedTicketNumbers w) + 1))
    as Hsame.
  { intros Hn. destruct (same_numbers_covers _ _ Hn Hc Hs) as (? & ? & Eu & ?).
    split; [done|]. split; [done|]. split; [by rewrite Eu|]. split; [done|].
    intros _ _. rewrite Eu. lia. }
  destruct op; simpl in E; try done.
  - injection E as <-. destruct online.
    + split; [by apply loadTickets_covers|].
      unfold loadTickets.
      cbn [tickets db appSettings usedTicketNumbers set_used set_tickets send].
      split; [|split; [set_solver|split; [done|]]].
      * intros r Hr. apply elem_of_union_l. by apply Hs.
      * intros _ _.
        pose proof (maxUsed_nonneg (usedTicketNumbers w)) as H0.
        apply maxUsed_least; [lia|].
        intros n [Hn|Hn]%elem_of_union.
        -- apply maxUsed_upper in Hn. lia.
        -- apply elem_of_list_to_set, list_elem_of_fmap in Hn as (r & -> & Hr).
           unfold Gateway.get_tickets in Hr.
           rewrite merge_sort_Permutation in Hr.
           apply Hs, maxUsed_upper in Hr. lia.
    + apply Hsame. by apply same_numbers_ext.
  - injection E as <-. apply Hsame.
    unfold loadSteps. by destruct online; apply same_numbers_ext.
  - destruct (addTicket online random w) as [w1|] eqn:Ea; [|done].
    injection E as <-.
    destruct (addTicket_appends _ _ _ _ Ea) as [Eu _].
    split; [by eapply addTicket_covers|].
    split; [|split; [rewrite Eu; set_solver|split; [by eapply addTicket_settings|]]].
    + intros r Hr. rewrite Eu.
      destruct (addTicket_stored _ _ _ _ _ Ea Hr) as [Hold| ->].
      * apply elem_of_union_r. by apply Hs.
      * apply elem_of_union_l. by apply elem_of_singleton.
    + intros Hseq Hb. rewrite Eu, sequential_number by done.
      pose proof (maxUsed_nonneg (usedTicketNumbers w)) as H0.
      apply maxUsed_least; [lia|].
      intros n [->%elem_of_singleton|Hn%maxUsed_upper]%elem_of_union; lia.
  - injection E as <-. apply Hsame, same_numbers_deleteTicket.
  - injection E as <-. apply Hsame, same_numbers_changeTicketStep.
  - injection E as <-. apply Hsame, same_numbers_changeTicketColor.
  - destruct (moveTicketInArray _ _ _ _) as [[b w1]|] eqn:Em; [|done].
    injection E as <-. apply Hsame.
    by eapply same_numbers_moveTicketInArray.
  - apply Hsame. by eapply same_numbers_dropTicket.
  - apply Hsame. unfold addStep in E.
    destruct online; simpl in E; injection E as <-; by apply same_numbers_ext.
  - injection E as <-. apply Hsame.
    unfold updateStep. destruct online; [|by apply same_numbers_ext].
    apply same_numbers_ext; [done..| |done]. simpl. apply put_step_tickets.
  - injection E as <-. apply Hsame, same_numbers_moveStep.
  - injection E as <-. apply Hsame, same_numbers_dropStep.
  - injection E as <-. apply Hsame, same_numbers_deleteStep.
Qed.

(** In sequential mode, below 2^53, with the stored numbers in the
    used-number set, no operation of a plain session leaves the array
    of tickets: in particular every create is accepted. *)
Lemma plain_step_settles op w :
  linked w → store_covered w →
  randomTwoDigitNumbers (appSettings w) = false →
  maxUsed (usedTicketNumbers w) < 2 ^ 53 →
  Session.is_number_edit op = false → Session.is_raw_move op = false →
  ∃ w', Session.step op w = Some w'.
Proof.
  intros Hl Hs Hseq Hb Hedit Hraw. destruct op; simpl; try done; try by eexists.
  - destruct (addTicket_accepted online random w) as [w' ->]; [| |by eexists].
    + rewrite sequential_number by done.
      intros (r & E & Hr)%list_elem_of_fmap.
      apply Hs, maxUsed_upper in Hr. lia.
    + by apply first_step_stored.
  - apply dropTicket_settles.
  - destruct (addStep_appends online w) as (w' & -> & _). by eexists.
Qed.

Lemma sample_world_covers : used_covers_live sample_world.
Proof.
  intros t Ht. unfold sample_world, sample_tickets in Ht. simpl in Ht.
  repeat (apply elem_of_cons in Ht as [->|Ht]);
    [..|by apply elem_of_nil in Ht]; simpl; set_solver.
Qed.

Lemma sample_world_store_covered : store_covered sample_world.
Proof. exact sample_world_covers. Qed.

(** Once the page has loaded, the stored numbers are in the set. *)
Lemma openPage_store_covered settings store :
  store_covered (openPage true settings store).
Proof.
  intros r Hr. unfold openPage, loadTickets in *.
  cbn [tickets db usedTicketNumbers set_used set_tickets set_steps send
       loadSteps fresh_client] in *.
  apply elem_of_union_r, elem_of_list_to_set, list_elem_of_fmap_2.
  unfold Gateway.get_tickets. by rewrite merge_sort_Permutation.
Qed.

End NumbersInSessions.

(** X7. Sequential numbering does not collide.  From a state in which
    client and store are in step and the used-number set holds the
    numbers shown and stored, through any session of the board without
    manual number edits (tickets moved by dragging), in sequential mode
    and as long as the numbers stay below 2^53: no operation leaves the
    array of tickets, the used-number set only grows and keeps holding
    the numbers shown and stored (so the number of a deleted ticket
    stays taken), the next number generated is larger than every number
    in the set, shown or stored, and the next create is accepted. *)
Theorem numbers_stay_taken ops w :
  session_ok w → used_covers_live w → store_covered w →
  Client.randomTwoDigitNumbers (Client.appSettings w) = false →
  plain_session ops →
  Client.maxUsed (Client.usedTicketNumbers w) + Z.of_nat (length ops) < 2 ^ 53 →
  ∃ w', Session.run ops w = Some w'
        ∧ used_covers_live w' ∧ store_covered w'
        ∧ Client.usedTicketNumbers w ⊆ Client.usedTicketNumbers w'
        ∧ ∀ online random,
            let number := (Client.generateNewTicketNumber random w').1 in
            (∀ n, n ∈ Client.usedTicketNumbers w' → n < number)
            ∧ (∀ t, t ∈ Client.tickets w' → Ticket.ticket_number t < number)
            ∧ (∀ r, r ∈ Gateway.tickets (Client.db w') →
                    Ticket.ticket_number r < number)
            ∧ ∃ w'', Client.addTicket online random w' = Client.Settled w''.
Proof.
  intros Hok Hc Hs Hseq Hops. revert w Hok Hc Hs Hseq.
  induction Hops as [|op ops [Hedit Hraw] Hops IH]; intros w Hok Hc Hs Hseq Hb.
  - exists w. split; [done|]. split; [done|]. split; [done|]. split; [done|].
    intros online random number. subst number.
    simpl in Hb. rewrite sequential_number by (done || lia).
    assert (∀ n, n ∈ Client.usedTicketNumbers w →
                 n < Client.maxUsed (Client.usedTicketNumbers w) + 1) as Hlt.
    { intros n Hn%maxUsed_upper. lia. }
    split; [exact Hlt|]. split; [intros t Ht; by apply Hlt, Hc|].
    split; [intros r Hr; by apply Hlt, Hs|].
    apply addTicket_accepted; [|apply first_step_stored, Hok].
    rewrite sequential_number by (done || lia).
    intros (r & E & Hr)%list_elem_of_fmap. apply Hs, Hlt in Hr. lia.
  - cbn [length] in Hb.
    destruct (plain_step_settles op w) as [w1 E1]; [apply Hok|done|done|lia|done..|].
    destruct (numbers_step op w w1 Hedit E1 Hc Hs) as (Hc1 & Hs1 & Hsub & Ea & Hmax).
    destruct (IH w1) as (w' & E & Hc' & Hs' & Hsub' & Hnext).
    + by eapply session_ok_step.
    + done.
    + done.
    + by rewrite Ea.
    + specialize (Hmax Hseq). lia.
    + exists w'. split; [simpl; by rewrite E1|]. split; [done|]. split; [done|].
      split; [set_solver|done].
Qed.

Lemma numbers_stay_taken_witness :
  let ops :=
    [Session.DeleteTicket true 3;
     Session.AddTicket true sample_draws;
     Session.ChangeTicketStep true 1 "right";
     Session.LoadTickets true] in
  ∃ w', Session.run ops sample_world = Some w'
        ∧ (∀ n, n ∈ Client.usedTicketNumbers sample_world →
                n < (Client.generateNewTicketNumber sample_draws w').1)
        ∧ ∃ w'', Client.addTicket true sample_draws w' = Client.Settled w''.
Proof.
  intros ops.
  assert (Client.maxUsed (Client.usedTicketNumbers sample_world) = 12) as Emax.
  { apply maxUsed_is_max; [|lia]. split.
    - apply elem_of_elements. simpl. set_solver.
    - intros n Hn%elem_of_elements. simpl in Hn. set_unfold in Hn. lia. }
  destruct (numbers_stay_taken ops sample_world sample_world_session_ok
              sample_world_covers sample_world_store_covered eq_refl)
    as (w' & E & _ & _ & Hsub & Hnext).
  - repeat constructor.
  - rewrite Emax. simpl. lia.
  - exists w'. split; [exact E|].
    destruct (Hnext true sample_draws) as (Hlt & _ & _ & Hadd).
    split; [|exact Hadd]. intros n Hn. apply Hlt. by apply Hsub.
Defined.

(** ** A reload after a reorder *)

#[local] Instance ticket_le_trans : Transitive Gateway.ticket_le.
Proof. intros a b c. unfold Gateway.ticket_le. lia. Qed.

#[local] Instance ticket_le_total : Total Gateway.ticket_le.
Proof. intros a b. unfold Gateway.ticket_le. lia. Qed.

#[local] Instance step_le_trans : Transitive Gateway.step_le.
Proof. intros a b c. unfold Gateway.step_le. lia. Qed.

#[local] Instance step_le_total : Total Gateway.step_le.
Proof. intros a b. unfold Gateway.step_le. lia. Qed.

Section ReloadOrder.
Context {A : Type} (key pos : A → Z) (R : relation A).
Context `{∀ x y, Decision (R x y)} `{!Transitive R, !Total R}.
Hypothesis R_pos : ∀ a b, R a b → pos a ≤ pos b.
Hypothesis pos_R : ∀ a b, pos a < pos b → R a b.

Lemma StronglySorted_lookup (l : list A) :
  (∀ (i j : nat) x y, (i < j)%nat → l !! i = Some x → l !! j = Some y → R x y) →
  StronglySorted R l.
Proof.
  induction l as [|x l IH]; intros Hl; constructor.
  - apply IH. intros i j a b Hij Ha Hb. by apply (Hl (S i) (S j) a b); [lia|..].
  - apply Forall_forall. intros y [j Hj]%list_elem_of_lookup_1.
    by apply (Hl 0%nat (S j) x y); [lia|..].
Qed.

(** Rows that carry the positions of the items of [l] come back from
    the sort in the order of [l]. *)
Lemma reload_in_order (l rows : list A) :
  key <$> rows ≡ₚ key <$> l →
  (∀ (i : nat) t r,
     l !! i = Some t → r ∈ rows → key r = key t → pos r = Z.of_nat i) →
  key <$> merge_sort R rows = key <$> l.
Proof.
  intros Hp Hpos. symmetry in Hp.
  apply Permutation_map_inv in Hp as (rows' & Ek & Hrows).
  assert (∀ (i : nat) r, rows' !! i = Some r → pos r = Z.of_nat i) as Hpos'.
  { intros i r Hr.
    assert ((key <$> l) !! i = Some (key r)) as Hl.
    { rewrite Ek. change (map key rows') with (key <$> rows').
      by rewrite list_lookup_fmap, Hr. }
    rewrite list_lookup_fmap in Hl.
    destruct (l !! i) as [t|] eqn:Et; [|done]. injection Hl as Hl.
    apply (Hpos i t r); [done| |done].
    rewrite Hrows. by eapply list_elem_of_lookup_2. }
  assert (merge_sort R rows = rows') as ->; [|by rewrite Ek].
  apply StronglySorted_unique_strong with (R := R).
  - intros x1 x2 Hx1 Hx2 H12 H21.
    rewrite merge_sort_Permutation, Hrows in Hx1.
    apply list_elem_of_lookup_1 in Hx1 as [i Hi].
    apply list_elem_of_lookup_1 in Hx2 as [j Hj].
    pose proof (Hpos' _ _ Hi). pose proof (Hpos' _ _ Hj).
    apply R_pos in H12, H21. assert (i = j) as -> by lia. congruence.
  - by apply StronglySorted_merge_sort.
  - apply StronglySorted_lookup. intros i j x y Hij Hx Hy.
    apply pos_R. rewrite (Hpos' _ _ Hx), (Hpos' _ _ Hy). lia.
  - by rewrite merge_sort_Permutation.
Qed.

End ReloadOrder.

Lemma get_tickets_in_order (l : list Ticket.t) db :
  Ticket.id <$> Gateway.tickets db ≡ₚ Ticket.id <$> l →
  (∀ (i : nat) t r,
     l !! i = Some t → r ∈ Gateway.tickets db → Ticket.id r = Ticket.id t →
     Ticket.order_index r = Z.of_nat i) →
  Ticket.id <$> Gateway.get_tickets db = Ticket.id <$> l.
Proof.
  apply (reload_in_order Ticket.id Ticket.order_index Gateway.ticket_le);
    unfold Gateway.ticket_le; intros; lia.
Qed.

Lemma get_steps_in_order (l : list Step.t) db :
  Step.id <$> Gateway.steps db ≡ₚ Step.id <$> l →
  (∀ (i : nat) t r,
     l !! i = Some t → r ∈ Gateway.steps db → Step.id r = Step.id t →
     Step.order_index r = Z.of_nat i) →
  Step.id <$> Gateway.get_steps db = Step.id <$> l.
Proof.
  apply (reload_in_order Step.id Step.order_index Gateway.step_le);
    unfold Gateway.step_le; intros; lia.
Qed.

(** X8. A new order survives a reload: after a ticket drag, a step move
    by one, or a step drop, whose requests were answered, loading the
    tickets (the steps) again from the gateway shows them in the order
    the client had given them. *)
Theorem order_survives_reload w :
  session_ok w →
  (∀ fromIdx toIdx w',
     Client.moveTicketInArray true fromIdx toIdx w = Some (true, w') →
     Ticket.id <$> Client.tickets (Client.loadTickets true w')
     = Ticket.id <$> Client.tickets w')
  ∧ (∀ stepId delta,
       moveStep_applies stepId delta w = true →
       let w' := Client.moveStep true stepId delta w in
       Step.id <$> Client.steps (Client.loadSteps true w')
       = Step.id <$> Client.steps w')
  ∧ (∀ draggingStepId targetId after,
       dropStep_applies draggingStepId targetId w = true →
       let w' := Client.dropStep true draggingStepId targetId after w in
       Step.id <$> Client.steps (Client.loadSteps true w')
       = Step.id <$> Client.steps w').
Proof.
  intros [Hm Hl].
  pose proof Hm as ([[Hti _] [Hsi _]] & [Hci _] & [Hcs _]).
  pose proof Hl as ((_ & Hnum & _) & _ & _).
  split; [|split].
  - intros fromIdx toIdx w' E.
    pose proof (linked_moveTicketInArray _ _ _ _ _ _ E Hl) as (_ & [Hids _] & _).
    unfold Client.loadTickets. cbn [Client.tickets Client.set_used
      Client.set_tickets Client.send Client.db].
    apply get_tickets_in_order; [by symmetry|].
    by apply (moveTicketInArray_stored fromIdx toIdx w w').
  - intros stepId delta Ha w'.
    pose proof (linked_moveStep true stepId delta w Hl) as (_ & [_ Hids] & _).
    unfold Client.loadSteps. cbn [Client.steps Client.set_steps Client.send
      Client.db].
    apply get_steps_in_order; [by symmetry|].
    by apply moveStep_stored.
  - intros draggingStepId targetId after Ha w'.
    pose proof (linked_dropStep true draggingStepId targetId after w Hl)
      as (_ & [_ Hids] & _).
    unfold Client.loadSteps. cbn [Client.steps Client.set_steps Client.send
      Client.db].
    apply get_steps_in_order; [by symmetry|].
    by apply dropStep_stored.
Qed.

Lemma order_survives_reload_witness :
  Step.id <$> Client.steps
                (Client.loadSteps true (Client.moveStep true 1 1 sample_world))
  = Step.id <$> Client.steps (Client.moveStep true 1 1 sample_world).
Proof.
  destruct (order_survives_reload sample_world sample_world_session_ok)
    as (_ & Hmove & _).
  apply (Hmove 1 1). reflexivity.
Defined.

(** ** Where a dragged item lands *)

Section Placement.
Context {A : Type} (key : A → Z).

Lemma js_findIndex_key (l : list A) k :
  k ∈ key <$> l →
  ∃ (i : nat) x,
    js_findIndex (λ y, key y =? k) l = Z.of_nat i ∧ l !! i = Some x ∧ key x = k.
Proof.
  intros (y & -> & Hy)%list_elem_of_fmap.
  destruct (js_findIndex_spec (λ z, key z =? key y) l)
    as [[_ Hn]|(i & x & E & Hi & Hx & _)].
  - specialize (Hn y Hy). simpl in Hn. lia.
  - exists i, x. split; [done|]. split; [done|lia].
Qed.

Lemma splice_take_at (l : list A) (i : nat) x :
  l !! i = Some x →
  splice_take l (Z.of_nat i) = (Some x, take i l ++ drop (S i) l).
Proof.
  intros Hi. pose proof (lookup_lt_Some _ _ _ Hi).
  unfold splice_take. rewrite splice_start_in_range by lia.
  by rewrite Nat2Z.id, Hi.
Qed.

Lemma splice_put_at (l : list A) (j : nat) x :
  (j ≤ length l)%nat →
  splice_put l (Z.of_nat j) x = take j l ++ x :: drop j l.
Proof.
  intros Hj. unfold splice_put, splice_start.
  destruct (Z.of_nat j <? 0) eqn:E; [apply Z.ltb_lt in E; lia|].
  by rewrite Z.min_l, Nat2Z.id by lia.
Qed.

Lemma remove_at_keys (l : list A) (i : nat) x :
  NoDup (key <$> l) → l !! i = Some x →
  key <$> (take i l ++ drop (S i) l) = filter (λ k, k ≠ key x) (key <$> l).
Proof.
  intros Hnd Hi.
  assert (l = take i l ++ x :: drop (S i) l) as El
    by (symmetry; by apply take_drop_middle).
  set (l1 := take i l) in *. set (l2 := drop (S i) l) in *.
  clearbody l1 l2. subst l. clear Hi.
  rewrite !fmap_app, fmap_cons in *.
  apply NoDup_app in Hnd as (_ & Hdisj & [Hx _]%NoDup_cons).
  rewrite filter_app, filter_cons, decide_False by (intros H; by apply H).
  rewrite !filter_all; [done|..].
  - intros k Hk ->. done.
  - intros k Hk ->. by apply (Hdisj (key x)); [|left].
Qed.

Lemma rest_target (l : list A) (i j : nat) x tg :
  l !! i = Some x → l !! j = Some tg → i ≠ j →
  (take i l ++ drop (S i) l) !! (if decide (i < j)%nat then pred j else j)
  = Some tg.
Proof.
  intros Hi Hj Hne. pose proof (lookup_lt_Some _ _ _ Hi).
  destruct (decide (i < j)%nat).
  - rewrite lookup_app_r; rewrite length_take; [|lia].
    rewrite lookup_drop. rewrite <- Hj. f_equal. lia.
  - rewrite lookup_app_l by (rewrite length_take; lia).
    rewrite lookup_take_lt by lia. done.
Qed.

Lemma place_next_to (l : list A) (i j : nat) x tg (after : bool) :
  NoDup (key <$> l) → l !! i = Some x → l !! j = Some tg → i ≠ j →
  ∃ (t : nat) l1 l2,
    t = (if decide (i < j)%nat then pred j else j)
    ∧ filter (λ k, k ≠ key x) (key <$> l) = l1 ++ key tg :: l2
    ∧ (S t ≤ length (take i l ++ drop (S i) l))%nat
    ∧ key <$> (take (if after then S t else t) (take i l ++ drop (S i) l)
               ++ x :: drop (if after then S t else t)
                         (take i l ++ drop (S i) l))
      = if after then l1 ++ key tg :: key x :: l2
        else l1 ++ key x :: key tg :: l2.
Proof.
  intros Hnd Hi Hj Hne.
  pose proof (rest_target l i j x tg Hi Hj Hne) as Ht.
  rewrite <- (remove_at_keys l i x Hnd Hi).
  set (rest := take i l ++ drop (S i) l) in *.
  set (t := if decide (i < j)%nat then pred j else j) in *.
  exists t, (key <$> take t rest), (key <$> drop (S t) rest).
  split; [done|]. split; [|split].
  - rewrite <- (take_drop_middle rest t tg Ht) at 1.
    by rewrite fmap_app, fmap_cons.
  - apply lookup_lt_Some in Ht. lia.
  - destruct after.
    + rewrite (take_S_r rest t tg Ht).
      rewrite !fmap_app, fmap_cons, <- app_assoc. done.
    + rewrite (drop_S rest tg t Ht). by rewrite fmap_app, !fmap_cons.
Qed.

Lemma js_findIndex_at (l : list A) (i : nat) x :
  NoDup (key <$> l) → l !! i = Some x →
  js_findIndex (λ y, key y =? key x) l = Z.of_nat i.
Proof.
  intros Hnd Hi.
  destruct (js_findIndex_key l (key x)) as (i' & x' & -> & Hi' & Hx').
  { apply list_elem_of_fmap. exists x. split; [done|].
    by eapply list_elem_of_lookup_2. }
  f_equal. apply (NoDup_lookup _ _ _ (key x) Hnd).
  - by rewrite list_lookup_fmap, Hi', <- Hx'.
  - by rewrite list_lookup_fmap, Hi.
Qed.

Lemma reinsert_same (l : list A) (i : nat) x :
  l !! i = Some x →
  take i (take i l ++ drop (S i) l) ++ x :: drop i (take i l ++ drop (S i) l)
  = l.
Proof.
  intros Hi. pose proof (lookup_lt_Some _ _ _ Hi).
  rewrite take_app_length', drop_app_length' by (rewrite length_take; lia).
  by apply take_drop_middle.
Qed.

Lemma reinsert_perm (l : list A) (i j : nat) x :
  l !! i = Some x →
  take j (take i l ++ drop (S i) l) ++ x :: drop j (take i l ++ drop (S i) l)
  ≡ₚ l.
Proof.
  intros Hi. rewrite <- Permutation_middle, take_drop.
  rewrite <- (take_drop_middle l i x Hi) at 3. apply Permutation_middle.
Qed.

Lemma swap_down (s1 s2 : list A) a b :
  take (S (length s1))
    (take (length s1) (s1 ++ a :: b :: s2)
     ++ drop (S (length s1)) (s1 ++ a :: b :: s2))
  ++ a :: drop (S (length s1))
            (take (length s1) (s1 ++ a :: b :: s2)
             ++ drop (S (length s1)) (s1 ++ a :: b :: s2))
  = s1 ++ b :: a :: s2.
Proof.
  induction s1 as [|y s1 IH]; simpl; [by rewrite drop_0|].
  f_equal. exact IH.
Qed.

Lemma swap_up (s1 s2 : list A) a b :
  take (length s1)
    (take (S (length s1)) (s1 ++ a :: b :: s2)
     ++ drop (S (S (length s1))) (s1 ++ a :: b :: s2))
  ++ b :: drop (length s1)
            (take (S (length s1)) (s1 ++ a :: b :: s2)
             ++ drop (S (S (length s1))) (s1 ++ a :: b :: s2))
  = s1 ++ b :: a :: s2.
Proof.
  induction s1 as [|y s1 IH]; simpl; [by rewrite ?take_0, ?drop_0|].
  f_equal. exact IH.
Qed.

End Placement.

(** X9. A step dropped on another step of the list lands right next to
    it: immediately after the target when the pointer is below the
    target's middle, immediately before it otherwise; the other steps
    keep their order.  Whether the requests are answered or not. *)
Theorem dropStep_lands_next_to_target online dragging targetId after w :
  NoDup (Step.id <$> Client.steps w) →
  dragging ≠ 0 →
  dragging ∈ Step.id <$> Client.steps w →
  targetId ∈ Step.id <$> Client.steps w →
  targetId ≠ dragging →
  ∃ l1 l2,
    filter (λ k, k ≠ dragging) (Step.id <$> Client.steps w)
    = l1 ++ targetId :: l2
    ∧ Step.id <$> Client.steps
                    (Client.dropStep online (Some dragging) targetId after w)
      = if after then l1 ++ targetId :: dragging :: l2
        else l1 ++ dragging :: targetId :: l2.
Proof.
  intros Hnd H0 Hd Ht Hne.
  destruct (js_findIndex_key Step.id _ _ Hd) as (i & x & Ei & Hi & Hx).
  destruct (js_findIndex_key Step.id _ _ Ht) as (j & tg & Ej & Hj & Htg).
  assert (i ≠ j) as Hij by (intros ->; congruence).
  destruct (place_next_to Step.id _ i j x tg after Hnd Hi Hj Hij)
    as (t & l1 & l2 & Et & Hf & Hlen & Hres).
  exists l1, l2. rewrite Hx, Htg in *. split; [done|].
  unfold Client.dropStep, or_null, Client.has_step_id.
  rewrite (proj2 (Z.eqb_neq dragging 0)) by done.
  rewrite (proj2 (Z.eqb_neq targetId dragging)) by done.
  rewrite Ei, Ej. cbv zeta.
  destruct (Z.of_nat i =? -1) eqn:E1; [lia|].
  destruct (Z.of_nat j =? -1) eqn:E2; [lia|]. cbn [orb].
  rewrite (splice_take_at _ _ _ Hi).
  set (insertIdx := if _ <? _ then _ else _).
  assert (insertIdx = Z.of_nat (if after then S t else t)) as ->.
  { subst insertIdx t.
    destruct after, (decide (i < j)%nat); destruct (_ <? _) eqn:E; lia. }
  rewrite splice_put_at by (destruct after; lia).
  pose proof (reinsert_perm (Client.steps w) i (if after then S t else t) x Hi)
    as Hp.
  match goal with
  | |- context [Client.persistStepOrder online ?w1] =>
    destruct (persistStepOrder_positions online w1) as [_ ->]
  end; [simpl; by rewrite Hp|exact Hres].
Qed.

Lemma dropStep_lands_next_to_target_witness :
  ∃ l1 l2,
    filter (λ k, k ≠ 3) (Step.id <$> Client.steps sample_world) = l1 ++ 1 :: l2
    ∧ Step.id <$> Client.steps (Client.dropStep true (Some 3) 1 false sample_world)
      = l1 ++ 3 :: 1 :: l2.
Proof.
  assert (NoDup (Step.id <$> Client.steps sample_world)) as Hnd.
  { apply (bool_decide_unpack _). vm_compute. reflexivity. }
  apply (dropStep_lands_next_to_target true 3 1 false sample_world Hnd);
    [lia|simpl; set_solver|simpl; set_solver|lia].
Defined.

(** X10. A ticket dragged onto another ticket lands right next to it:
    immediately after the target when the pointer is right of the
    target's centre, immediately before it otherwise; dropped on empty
    space it goes to the end.  The other tickets keep their order.
    Whether the requests are answered or not. *)
Theorem dropTicket_lands_next_to_target online dragged w :
  NoDup (Ticket.id <$> Client.tickets w) →
  dragged ≠ 0 →
  dragged ∈ Ticket.id <$> Client.tickets w →
  (∀ targetId isRight,
     targetId ∈ Ticket.id <$> Client.tickets w → targetId ≠ dragged →
     ∃ w' l1 l2,
       Board.dropTicket online (Some dragged) (Some (targetId, isRight)) w
       = Some w'
       ∧ filter (λ k, k ≠ dragged) (Ticket.id <$> Client.tickets w)
         = l1 ++ targetId :: l2
       ∧ Ticket.id <$> Client.tickets w'
         = if isRight then l1 ++ targetId :: dragged :: l2
           else l1 ++ dragged :: targetId :: l2)
  ∧ ∃ w', Board.dropTicket online (Some dragged) None w = Some w'
          ∧ Ticket.id <$> Client.tickets w'
            = filter (λ k, k ≠ dragged) (Ticket.id <$> Client.tickets w)
              ++ [dragged].
Proof.
  intros Hnd H0 Hd.
  destruct (js_findIndex_key Ticket.id _ _ Hd) as (i & x & Ei & Hi & Hx).
  pose proof (lookup_lt_Some _ _ _ Hi) as Hilt.
  assert (length (take i (Client.tickets w) ++ drop (S i) (Client.tickets w))
          = pred (length (Client.tickets w))) as Hlrest.
  { rewrite length_app, length_take, length_drop. lia. }
  assert (∀ (ins : nat),
            (ins ≤ pred (length (Client.tickets w)))%nat →
            ∃ w', (snd <$> Client.moveTicketInArray online (Z.of_nat i)
                             (Z.of_nat ins) w) = Some w'
                  ∧ Ticket.id <$> Client.tickets w'
                    = Ticket.id <$>
                        (take ins (take i (Client.tickets w)
                                   ++ drop (S i) (Client.tickets w))
                         ++ x :: drop ins (take i (Client.tickets w)
                                           ++ drop (S i) (Client.tickets w))))
    as Hmove.
  { intros ins Hins. unfold Client.moveTicketInArray.
    destruct (Z.of_nat i =? -1) eqn:E1; [lia|].
    destruct (Z.of_nat ins =? -1) eqn:E2; [lia|]. cbn [orb].
    destruct (Z.of_nat i =? Z.of_nat ins) eqn:E3.
    - assert (ins = i) as -> by lia. exists w. split; [done|].
      by rewrite reinsert_same.
    - rewrite (splice_take_at _ _ _ Hi), splice_put_at by lia.
      match goal with |- context [Some (true, ?w1)] => exists w1 end.
      split; [done|].
      rewrite persistTicketOrder_tickets; simpl.
      + unfold mapi. by rewrite (mapi_from_key Ticket.id).
      + by rewrite reinsert_perm. }
  split.
  - intros targetId isRight Ht Hne.
    destruct (js_findIndex_key Ticket.id _ _ Ht) as (j & tg & Ej & Hj & Htg).
    assert (i ≠ j) as Hij by (intros ->; congruence).
    destruct (place_next_to Ticket.id _ i j x tg isRight Hnd Hi Hj Hij)
      as (t & l1 & l2 & Et & Hf & Hlen & Hres).
    rewrite Hx, Htg in *. rewrite Hlrest in Hlen.
    destruct (Hmove (if isRight then S t else t)) as (w' & Ew' & Hids);
      [destruct isRight; lia|].
    exists w', l1, l2. split; [|split; [done|by rewrite Hids]].
    unfold Board.dropTicket, or_null, Client.has_ticket_id.
    rewrite (proj2 (Z.eqb_neq dragged 0)) by done.
    rewrite Ei, Ej. cbv zeta.
    destruct (Z.of_nat i =? -1) eqn:E1; [lia|].
    destruct (Z.of_nat j =? -1) eqn:E2; [lia|]. cbn [orb].
    destruct (Z.of_nat i =? Z.of_nat j) eqn:E3; [lia|].
    rewrite <- Ew'. do 2 f_equal.
    subst t. destruct isRight, (decide (i < j)%nat);
      destruct (Z.of_nat i <? Z.of_nat j) eqn:E; lia.
  - destruct (Hmove (pred (length (Client.tickets w)))) as (w' & Ew' & Hids);
      [lia|].
    exists w'. split.
    + unfold Board.dropTicket, or_null, Client.has_ticket_id.
      rewrite (proj2 (Z.eqb_neq dragged 0)) by done.
      rewrite Ei. cbv zeta.
      destruct (Z.of_nat i =? -1) eqn:E1; [lia|].
      destruct (Z.of_nat (length (Client.tickets w)) - 1 =? -1) eqn:E2; [lia|].
      cbn [orb].
      replace (Z.of_nat (length (Client.tickets w)) - 1)
        with (Z.of_nat (pred (length (Client.tickets w)))) by lia.
      destruct (Z.of_nat i =? Z.of_nat (pred (length (Client.tickets w))))
        eqn:E3; [|done].
      apply Z.eqb_eq in E3.
      assert (pred (length (Client.tickets w)) = i) as Epi by lia.
      rewrite Epi in Ew'. unfold Client.moveTicketInArray in Ew'.
      rewrite Z.eqb_refl, !orb_true_r in Ew'. done.
    + rewrite Hids, <- Hlrest, firstn_all, skipn_all, fmap_app. simpl.
      by rewrite (remove_at_keys Ticket.id _ i x Hnd Hi), Hx.
Qed.

Lemma dropTicket_lands_next_to_target_witness :
  ∃ w' l1 l2,
    Board.dropTicket true (Some 1) (Some (3, true)) sample_world = Some w'
    ∧ filter (λ k, k ≠ 1) (Ticket.id <$> Client.tickets sample_world)
      = l1 ++ 3 :: l2
    ∧ Ticket.id <$> Client.tickets w' = l1 ++ 3 :: 1 :: l2.
Proof.
  assert (NoDup (Ticket.id <$> Client.tickets sample_world)) as Hnd.
  { apply (bool_decide_unpack _). vm_compute. reflexivity. }
  destruct (dropTicket_lands_next_to_target true 1 sample_world Hnd)
    as [Hdrop _]; [lia|simpl; set_solver|].
  apply (Hdrop 3 true); [simpl; set_solver|lia].
Defined.

(** X11. The up and down buttons of a step: moving a step down, or the
    step below it up, swaps the two and leaves the other steps where
    they are; moving the first step up or the last step down changes
    nothing and sends nothing. *)
Theorem moveStep_swaps_neighbours online w :
  NoDup (Step.id <$> Client.steps w) →
  (∀ l1 a b l2,
     Step.id <$> Client.steps w = l1 ++ a :: b :: l2 →
     Step.id <$> Client.steps (Client.moveStep online a 1 w)
     = l1 ++ b :: a :: l2
     ∧ Step.id <$> Client.steps (Client.moveStep online b (-1) w)
       = l1 ++ b :: a :: l2)
  ∧ (∀ a l, Step.id <$> Client.steps w = a :: l →
            Client.moveStep online a (-1) w = w)
  ∧ (∀ l a, Step.id <$> Client.steps w = l ++ [a] →
            Client.moveStep online a 1 w = w).
Proof.
  intros Hnd. split; [|split].
  - intros l1 a b l2 E.
    apply fmap_app_inv in E as (s1 & k & -> & E & Es). symmetry in E.
    apply fmap_cons_inv in E as (sa & k' & -> & E & ->). symmetry in E.
    apply fmap_cons_inv in E as (sb & s2 & -> & -> & ->).
    assert (Client.steps w !! length s1 = Some sa) as Ha
      by (rewrite Es; apply list_lookup_middle; done).
    assert (Client.steps w !! S (length s1) = Some sb) as Hb.
    { rewrite Es, (cons_middle sa), app_assoc.
      apply list_lookup_middle. rewrite length_app. simpl. lia. }
    assert (length (Client.steps w) = (length s1 + 2 + length s2)%nat) as Hlen.
    { rewrite Es, length_app. simpl. lia. }
    assert (Step.id <$> s1 ++ sb :: sa :: s2 ≡ₚ Step.id <$> Client.steps w)
      as Hp.
    { rewrite Es, !fmap_app, !fmap_cons. f_equiv. apply Permutation_swap. }
    split.
    + unfold Client.moveStep, Client.has_step_id.
      rewrite (js_findIndex_at Step.id _ _ sa Hnd Ha).
      destruct (Z.of_nat (length s1) =? -1) eqn:E1; [lia|]. cbv zeta.
      destruct (Z.of_nat (length s1) + 1 <? 0) eqn:E2; [lia|].
      destruct (Z.of_nat (length (Client.steps w)) <=? Z.of_nat (length s1) + 1)
        eqn:E3; [lia|]. cbn [orb].
      rewrite (splice_take_at _ _ _ Ha).
      replace (Z.of_nat (length s1) + 1) with (Z.of_nat (S (length s1))) by lia.
      rewrite splice_put_at
        by (rewrite length_app, length_take, length_drop; lia).
      rewrite Es, swap_down.
      match goal with
      | |- context [Client.persistStepOrder online ?w1] =>
        destruct (persistStepOrder_positions online w1) as [_ ->]
      end; [simpl; by rewrite Hp|simpl; by rewrite fmap_app].
    + unfold Client.moveStep, Client.has_step_id.
      rewrite (js_findIndex_at Step.id _ _ sb Hnd Hb).
      destruct (Z.of_nat (S (length s1)) =? -1) eqn:E1;
        [apply Z.eqb_eq in E1; lia|]. cbv zeta.
      destruct (Z.of_nat (S (length s1)) + -1 <? 0) eqn:E2;
        [apply Z.ltb_lt in E2; lia|].
      destruct (Z.of_nat (length (Client.steps w))
                <=? Z.of_nat (S (length s1)) + -1) eqn:E3;
        [apply Z.leb_le in E3; lia|]. cbn [orb].
      rewrite (splice_take_at _ _ _ Hb).
      replace (Z.of_nat (S (length s1)) + -1) with (Z.of_nat (length s1)) by lia.
      rewrite splice_put_at
        by (rewrite length_app, length_take, length_drop; lia).
      rewrite Es, swap_up.
      match goal with
      | |- context [Client.persistStepOrder online ?w1] =>
        destruct (persistStepOrder_positions online w1) as [_ ->]
      end; [simpl; by rewrite Hp|simpl; by rewrite fmap_app].
  - intros a l E.
    apply fmap_cons_inv in E as (sa & s & -> & -> & Es).
    unfold Client.moveStep, Client.has_step_id.
    rewrite (js_findIndex_at Step.id _ 0 sa Hnd) by (by rewrite Es).
    done.
  - intros l a E.
    apply fmap_app_inv in E as (s1 & k & -> & E & Es). symmetry in E.
    apply fmap_cons_inv in E as (sa & k' & -> & E & ->). symmetry in E.
    apply fmap_nil_inv in E as ->.
    unfold Client.moveStep, Client.has_step_id.
    rewrite (js_findIndex_at Step.id _ (length s1) sa Hnd)
      by (rewrite Es; by apply list_lookup_middle).
    destruct (Z.of_nat (length s1) =? -1) eqn:E1; [done|]. cbv zeta.
    destruct (Z.of_nat (length (Client.steps w)) <=? Z.of_nat (length s1) + 1)
      eqn:E3; [by rewrite orb_true_r|].
    apply Z.leb_gt in E3. rewrite Es, length_app in E3. simpl in E3. lia.
Qed.

Lemma moveStep_swaps_neighbours_witness :
  Step.id <$> Client.steps (Client.moveStep true 2 1 sample_world) = [1; 3; 2]
  ∧ Client.moveStep true 3 1 sample_world = sample_world.
Proof.
  assert (NoDup (Step.id <$> Client.steps sample_world)) as Hnd.
  { apply (bool_decide_unpack _). vm_compute. reflexivity. }
  destruct (moveStep_swaps_neighbours true sample_world Hnd)
    as (Hswap & _ & Hlast).
  split.
  - apply (Hswap [1] 2 3 []). reflexivity.
  - apply (Hlast [1; 2] 3). reflexivity.
Defined.

(** ** The delete zone and the selection *)

Section Selection.
Import Client.

#[local] Instance survives_dec answered ticketIds t :
  Decision (survives answered ticketIds t).
Proof. unfold survives. apply _. Defined.

Lemma deleteTickets_tickets answered ticketIds w :
  tickets (Board.deleteTickets answered ticketIds w)
  = filter (survives answered ticketIds) (tickets w).
Proof.
  unfold Board.deleteTickets. revert w.
  induction ticketIds as [|i ids IH]; intros w; simpl.
  - symmetry. apply filter_all. intros t _ [[]%elem_of_nil _].
  - rewrite IH, deleteTicket_tickets. destruct (answered i) eqn:Ea.
    + rewrite list_filter_filter. apply list_filter_iff. intros t.
      unfold survives. rewrite elem_of_cons. split.
      * intros [Hs Hne] [[E|Hin] Ht]; [by apply Hne|by apply Hs].
      * intros Hs. split.
        -- intros [Hin Ht]. apply Hs. split; [by right|done].
        -- intros E. apply Hs. split; [by left|by rewrite E].
    + apply list_filter_iff. intros t. unfold survives. rewrite elem_of_cons.
      split.
      * intros Hs [[E|Hin] Ht]; [rewrite E in Ht; congruence|by apply Hs].
      * intros Hs [Hin Ht]. apply Hs. split; [by right|done].
Qed.

Lemma deleteTickets_stored answered ticketIds w :
  Gateway.tickets (db (Board.deleteTickets answered ticketIds w))
  = filter (survives answered ticketIds) (Gateway.tickets (db w)).
Proof.
  unfold Board.deleteTickets. revert w.
  induction ticketIds as [|i ids IH]; intros w; simpl.
  - symmetry. apply filter_all. intros t _ [[]%elem_of_nil _].
  - rewrite IH. unfold deleteTicket. destruct (answered i) eqn:Ea; simpl.
    + rewrite delete_ticket_tickets, list_filter_filter.
      apply list_filter_iff. intros t.
      unfold survives. rewrite elem_of_cons. split.
      * intros [Hs Hne] [[E|Hin] Ht]; [by apply Hne|by apply Hs].
      * intros Hs. split.
        -- intros [Hin Ht]. apply Hs. split; [by right|done].
        -- intros E. apply Hs. split; [by left|by rewrite E].
    + apply list_filter_iff. intros t. unfold survives. rewrite elem_of_cons.
      split.
      * intros Hs [[E|Hin] Ht]; [rewrite E in Ht; congruence|by apply Hs].
      * intros Hs [Hin Ht]. apply Hs. split; [by right|done].
Qed.

Lemma deleteTickets_used answered ticketIds w :
  usedTicketNumbers (Board.deleteTickets answered ticketIds w)
  = usedTicketNumbers w.
Proof.
  unfold Board.deleteTickets. revert w.
  induction ticketIds as [|i ids IH]; intros w; simpl; [done|].
  by rewrite IH, deleteTicket_used.
Qed.

Lemma deleteTickets_steps answered ticketIds w :
  steps (Board.deleteTickets answered ticketIds w) = steps w.
Proof.
  unfold Board.deleteTickets. revert w.
  induction ticketIds as [|i ids IH]; intros w; simpl; [done|].
  rewrite IH. unfold deleteTicket. by destruct (answered i).
Qed.

Lemma deleteTickets_sent answered ticketIds w :
  sent (Board.deleteTickets answered ticketIds w)
  = sent w ++ (DELETE_ticket <$> ticketIds).
Proof.
  unfold Board.deleteTickets. revert w.
  induction ticketIds as [|i ids IH]; intros w; simpl;
    [by rewrite app_nil_r|].
  rewrite IH. unfold deleteTicket.
  destruct (answered i); simpl; by rewrite <- app_assoc.
Qed.

Lemma handleDeleteZoneClick_selection answered b :
  Board.isSelectionMode b = true → Board.selectedTickets b ≠ [] →
  Board.handleDeleteZoneClick answered true b
  = Board.mk (Board.deleteTickets answered (Board.selectedTickets b)
                (Board.world b))
      [] false false None.
Proof.
  intros Hm Hs. unfold Board.handleDeleteZoneClick. rewrite Hm. cbn [andb].
  destruct (Board.selectedTickets b) as [|i [|j l]] eqn:E; [done|done|].
  assert ((1 <? Z.of_nat (length (i :: j :: l))) = true) as ->; [|done].
  apply Z.ltb_lt. simpl. lia.
Qed.

Lemma clickTicket_selected ticketId b :
  Board.selectedTickets (Board.clickTicket ticketId b)
  = (if decide (ticketId ∈ Board.selectedTickets b)
     then filter (λ i, i ≠ ticketId) (Board.selectedTickets b)
     else Board.selectedTickets b ++ [ticketId])
  ∧ Board.isSelectionMode (Board.clickTicket ticketId b)
    = negb (bool_decide
              (Board.selectedTickets (Board.clickTicket ticketId b) = []))
  ∧ Board.world (Board.clickTicket ticketId b) = Board.world b.
Proof.
  unfold Board.clickTicket, Board.toggleSelectionModeTicket.
  assert (Board.selectedTickets
            (if Board.isSelectionMode b then b else Board.enterSelectionMode b)
          = Board.selectedTickets b) as -> by (by destruct (Board.isSelectionMode b)).
  set (selected := if decide (ticketId ∈ _) then _ else _).
  destruct (decide (length selected = 0%nat)) as [E|E]; simpl.
  - apply nil_length_inv in E. rewrite E. split; [done|].
    split; [done|]. by destruct (Board.isSelectionMode b).
  - split; [done|]. split; [|by destruct (Board.isSelectionMode b)].
    rewrite bool_decide_eq_false_2 by (intros E'; by rewrite E' in E).
    destruct (Board.isSelectionMode b) eqn:Em; [exact Em|done].
Qed.

Lemma clickTicket_ok ticketId b :
  NoDup (Board.selectedTickets b) → selection_ok (Board.clickTicket ticketId b).
Proof.
  intros Hnd. destruct (clickTicket_selected ticketId b) as (Es & Em & _).
  split; [|done]. rewrite Es. destruct (decide _) as [Hin|Hin].
  - by apply NoDup_filter.
  - apply NoDup_app. split; [done|]. split; [|apply NoDup_singleton].
    intros i Hi ->%list_elem_of_singleton. done.
Qed.

End Selection.

(** X12. The delete zone in selection mode: of the selected tickets,
    exactly those whose delete request is answered leave the board and
    the store, the rest of the board keeps its order, one request per
    selected ticket is sent in the order of selection, no number leaves
    the used-number set, and afterwards nothing is selected and the
    selection mode is off.  With more than one ticket selected,
    dismissing the confirmation changes nothing. *)
Theorem delete_zone_removes_selected answered b :
  Board.isSelectionMode b = true → Board.selectedTickets b ≠ [] →
  let b' := Board.handleDeleteZoneClick answered true b in
  Client.tickets (Board.world b')
  = filter (survives answered (Board.selectedTickets b))
      (Client.tickets (Board.world b))
  ∧ Gateway.tickets (Client.db (Board.world b'))
    = filter (survives answered (Board.selectedTickets b))
        (Gateway.tickets (Client.db (Board.world b)))
  ∧ Client.sent (Board.world b')
    = Client.sent (Board.world b)
      ++ (Client.DELETE_ticket <$> Board.selectedTickets b)
  ∧ Client.usedTicketNumbers (Board.world b')
    = Client.usedTicketNumbers (Board.world b)
  ∧ Board.selectedTickets b' = [] ∧ Board.isSelectionMode b' = false
  ∧ ((1 < length (Board.selectedTickets b))%nat →
     Board.handleDeleteZoneClick answered false b = b).
Proof.
  intros Hm Hs b'. subst b'. rewrite handleDeleteZoneClick_selection by done.
  cbn [Board.world Board.selectedTickets Board.isSelectionMode].
  rewrite deleteTickets_tickets, deleteTickets_stored, deleteTickets_sent,
    deleteTickets_used.
  repeat (split; [done|]).
  intros Hlen. unfold Board.handleDeleteZoneClick. rewrite Hm. cbn [andb].
  assert ((1 <? Z.of_nat (length (Board.selectedTickets b))) = true) as ->;
    [|done].
  apply Z.ltb_lt. lia.
Qed.

Lemma delete_zone_removes_selected_witness :
  let b' := Board.handleDeleteZoneClick (λ id, bool_decide (id = 3)) true
              sample_board in
  Ticket.id <$> Client.tickets (Board.world b') = [1; 2]
  ∧ Client.usedTicketNumbers (Board.world b') = {[5; 7; 12]}.
Proof.
  destruct (delete_zone_removes_selected (λ id, bool_decide (id = 3))
              sample_board eq_refl)
    as (Ht & _ & _ & Hu & _); [done|].
  split; [|exact Hu].
  cbv zeta in Ht. rewrite Ht. vm_compute. reflexivity.
Defined.

(** X13. Clicks on ticket rows: each click toggles the clicked ticket
    in the selection and leaves the other tickets as they were, the
    board is not touched, no ticket is selected twice, and after any
    run of clicks the selection mode is on exactly when a ticket is
    selected. *)
Theorem selection_follows_clicks b :
  NoDup (Board.selectedTickets b) →
  (∀ id,
     (id ∈ Board.selectedTickets (Board.clickTicket id b)
      ↔ id ∉ Board.selectedTickets b)
     ∧ (∀ id', id' ≠ id →
          id' ∈ Board.selectedTickets (Board.clickTicket id b)
          ↔ id' ∈ Board.selectedTickets b)
     ∧ Board.world (Board.clickTicket id b) = Board.world b)
  ∧ ∀ clicks, clicks ≠ [] →
      selection_ok (foldl (λ b id, Board.clickTicket id b) b clicks).
Proof.
  intros Hnd. split.
  - intros id. destruct (clickTicket_selected id b) as (-> & _ & Ew).
    destruct (decide (id ∈ Board.selectedTickets b)) as [Hin|Hin].
    + split; [|split; [|done]].
      * rewrite list_elem_of_filter. naive_solver.
      * intros id' Hne. rewrite list_elem_of_filter. naive_solver.
    + split; [|split; [|done]].
      * rewrite elem_of_app, list_elem_of_singleton. naive_solver.
      * intros id' Hne. rewrite elem_of_app, list_elem_of_singleton.
        naive_solver.
  - intros clicks. revert b Hnd.
    induction clicks as [|id clicks IH]; intros b Hnd Hne; [done|]. simpl.
    pose proof (clickTicket_ok id b Hnd) as Hok.
    destruct clicks as [|id' clicks]; [exact Hok|].
    apply IH; [apply Hok|done].
Qed.

Lemma selection_follows_clicks_witness :
  selection_ok (foldl (λ b id, Board.clickTicket id b) sample_board [3; 2; 1])
  ∧ Board.isSelectionMode
      (foldl (λ b id, Board.clickTicket id b) sample_board [3; 1]) = false.
Proof.
  assert (NoDup (Board.selectedTickets sample_board)) as Hnd.
  { apply (bool_decide_unpack _). vm_compute. reflexivity. }
  destruct (selection_follows_clicks sample_board Hnd) as [_ Hclicks].
  split; [by apply Hclicks|].
  destruct (Hclicks [3; 1]) as [_ ->]; [done|]. reflexivity.
Defined.

(** ** The change ledger *)

Section Ledger.
Import Client.

Lemma same_ledger_refl w : same_ledger w w.
Proof. by split. Qed.

Lemma same_ledger_trans w1 w2 w3 :
  same_ledger w1 w2 → same_ledger w2 w3 → same_ledger w1 w3.
Proof. intros [E1 F1] [E2 F2]. split; congruence. Qed.

Lemma same_ledger_foldl {A} (f : World → A → World) (l : list A) w :
  (∀ w x, same_ledger w (f w x)) → same_ledger w (foldl f w l).
Proof.
  intros Hf. revert w. induction l as [|x l IH]; intros w; simpl.
  - apply same_ledger_refl.
  - eapply same_ledger_trans; [apply Hf|apply IH].
Qed.

Lemma same_ledger_updateTicket online ticketId updates w :
  same_ledger w (updateTicket online ticketId updates w).
Proof. unfold updateTicket. by destruct online. Qed.

Lemma same_ledger_updateStepOrder online stepId i w :
  same_ledger w (updateStepOrder online stepId i w).
Proof. unfold updateStepOrder. by destruct online. Qed.

Lemma same_ledger_persistTicketOrder online w :
  same_ledger w (persistTicketOrder online w).
Proof.
  unfold persistTicketOrder.
  eapply same_ledger_trans; [|apply same_ledger_foldl].
  - by split.
  - intros. apply same_ledger_updateTicket.
Qed.

Lemma same_ledger_moveTicketInArray online fromIdx toIdx w b w' :
  moveTicketInArray online fromIdx toIdx w = Some (b, w') → same_ledger w w'.
Proof.
  unfold moveTicketInArray. intros E.
  destruct (_ || _); [by injection E as <- <-|].
  destruct (splice_take _ _) as [[item|] rest]; [|done].
  injection E as <- <-.
  eapply same_ledger_trans; [|apply same_ledger_persistTicketOrder]. by split.
Qed.

Lemma persistStepOrder_ledger online w :
  changeLog (persistStepOrder online w)
  = changeLog w ++ [mkChange "reordered" None "Reordered steps"]
  ∧ hasUnsavedChanges (persistStepOrder online w) = true.
Proof.
  unfold persistStepOrder.
  set (w2 := foldl _ _ _).
  assert (same_ledger w w2) as [E _].
  { eapply same_ledger_trans; [|apply same_ledger_foldl].
    - by split.
    - intros. apply same_ledger_updateStepOrder. }
  split; [|done]. cbn [changeLog set_changeLog set_hasUnsavedChanges].
  f_equal. rewrite <- E. by destruct (online || _).
Qed.

Lemma moveStep_ledger online stepId delta w :
  moveStep_applies stepId delta w = true →
  changeLog (moveStep online stepId delta w)
  = changeLog w ++ [mkChange "reordered" None "Reordered steps"]
  ∧ hasUnsavedChanges (moveStep online stepId delta w) = true.
Proof.
  intros Ha. destruct (moveStep_unfold online stepId delta w Ha) as (l1 & _ & ->).
  apply (persistStepOrder_ledger online (set_steps l1 w)).
Qed.

Lemma dropStep_ledger online draggingStepId targetId after w :
  dropStep_applies draggingStepId targetId w = true →
  changeLog (dropStep online draggingStepId targetId after w)
  = changeLog w ++ [mkChange "reordered" None "Reordered steps"]
  ∧ hasUnsavedChanges (dropStep online draggingStepId targetId after w) = true.
Proof.
  intros Ha.
  destruct (dropStep_unfold online draggingStepId targetId after w Ha)
    as (l1 & _ & ->).
  apply (persistStepOrder_ledger online (set_steps l1 w)).
Qed.

Lemma same_ledger_grows w w' : same_ledger w w' → ledger_grows w w'.
Proof.
  intros [E F]. split; [exists []; by rewrite app_nil_r|]. by rewrite F.
Qed.

Lemma ledger_grows_trans w1 w2 w3 :
  ledger_grows w1 w2 → ledger_grows w2 w3 → ledger_grows w1 w3.
Proof.
  intros [[m1 E1] F1] [[m2 E2] F2]. split; [|auto].
  exists (m1 ++ m2). by rewrite E2, E1, app_assoc.
Qed.

Lemma ledger_grows_logged w w' :
  (∃ more, changeLog w' = changeLog w ++ more) → hasUnsavedChanges w' = true →
  ledger_grows w w'.
Proof. by split. Qed.

Lemma ledger_grows_step op w w' :
  Session.step op w = Some w' → ledger_grows w w'.
Proof.
  intros E. destruct op; simpl in E.
  - injection E as <-. apply same_ledger_grows. unfold loadTickets.
    by destruct online.
  - injection E as <-. apply same_ledger_grows. unfold loadSteps.
    by destruct online.
  - apply same_ledger_grows. rewrite addTicket_unfold in E. cbv zeta in E.
    assert (same_ledger w (generateNewTicketNumber random w).2) as Hg.
    { unfold generateNewTicketNumber. by destruct (randomTwoDigitNumbers _). }
    destruct online.
    + destruct (Gateway.post_ticket _ _) as [[st row|] db']; [|done].
      by injection E as <-.
    + by injection E as <-.
  - injection E as <-. apply same_ledger_grows. unfold deleteTicket.
    by destruct online.
  - injection E as <-. apply same_ledger_grows. unfold changeTicketStep.
    destruct (js_find _ _); [|done]. destruct (_ =? 0); [done|].
    eapply same_ledger_trans; [|apply same_ledger_updateTicket]. by split.
  - injection E as <-. apply same_ledger_grows. unfold Board.changeTicketColor.
    destruct (js_find _ _); [|done].
    eapply same_ledger_trans; [|apply same_ledger_updateTicket]. by split.
  - injection E as <-. apply same_ledger_grows. unfold finishEditTicketNumber.
    destruct newNum as [n|]; [|done]. destruct (n <=? 0); [done|].
    destruct (decide _); [done|]. cbv zeta.
    pose proof (same_ledger_updateTicket online ticketId
                  (TicketBody.mk (Some n) None None None None) w) as [E F].
    set (w1 := updateTicket _ _ _ _) in *. clearbody w1.
    split; simpl; by destruct (js_find _ _).
  - destruct (moveTicketInArray _ _ _ _) as [[b w1]|] eqn:Em; [|done].
    injection E as <-. apply same_ledger_grows.
    by eapply same_ledger_moveTicketInArray.
  - apply same_ledger_grows. unfold Board.dropTicket in E.
    destruct (or_null dragged); [|by injection E as <-]. cbv zeta in E.
    destruct (_ || _); [by injection E as <-|].
    destruct (_ =? _); [by injection E as <-|].
    destruct (moveTicketInArray _ _ _ _) as [[b w1]|] eqn:Em; [|done].
    injection E as <-. by eapply same_ledger_moveTicketInArray.
  - unfold addStep in E. destruct online; simpl in E; injection E as <-.
    + apply ledger_grows_logged; [|done]. by eexists.
    + by apply same_ledger_grows.
  - injection E as <-. apply same_ledger_grows. unfold updateStep.
    by destruct online.
  - injection E as <-.
    destruct (moveStep_applies stepId delta w) eqn:Ha.
    + destruct (moveStep_ledger online _ _ _ Ha) as [El Ef].
      apply ledger_grows_logged; [by eexists|done].
    + apply same_ledger_grows. unfold moveStep_applies, moveStep in *.
      destruct (js_findIndex _ _ =? -1); [apply same_ledger_refl|].
      cbn [negb andb] in Ha. cbv zeta.
      set (toIdx := _ + delta) in *.
      destruct (toIdx <? 0) eqn:E1; [apply same_ledger_refl|].
      destruct (Z.of_nat (length (steps w)) <=? toIdx) eqn:E2;
        [apply same_ledger_refl|].
      exfalso. apply Z.ltb_ge in E1. apply Z.leb_gt in E2.
      apply andb_false_iff in Ha as [Ha|Ha];
        [apply Z.leb_gt in Ha|apply Z.ltb_ge in Ha]; lia.
  - injection E as <-.
    destruct (dropStep_applies dragging targetId w) eqn:Ha.
    + destruct (dropStep_ledger online _ _ after _ Ha) as [El Ef].
      apply ledger_grows_logged; [by eexists|done].
    + apply same_ledger_grows. unfold dropStep_applies, dropStep in *.
      destruct (or_null dragging) as [d|]; [|apply same_ledger_refl].
      destruct (targetId =? d); [apply same_ledger_refl|].
      cbn [negb andb] in Ha. cbv zeta.
      destruct (js_findIndex (has_step_id d) _ =? -1);
        [apply same_ledger_refl|].
      cbn [negb andb orb] in *.
      destruct (js_findIndex (has_step_id targetId) _ =? -1);
        [apply same_ledger_refl|done].
  - injection E as <-. unfold deleteStep.
    destruct (js_find _ _) as [d|]; [destruct skipUndo|].
    + apply same_ledger_grows. by destruct online.
    + apply ledger_grows_logged; destruct online; simpl; by try eexists.
    + apply same_ledger_grows. by destruct online.
Qed.

End Ledger.

(** X14. No operation of the board or of the step list clears the
    change ledger: once closing the settings dialog would ask before
    discarding, it keeps asking through any further session, and the
    list of changes it shows is only ever extended. *)
Theorem ledger_survives_session ops w w' ds :
  Session.run ops w = Some w' →
  Settings.handleSettingsClose w = Settings.Prompt ds →
  ∃ more, Settings.handleSettingsClose w' = Settings.Prompt (ds ++ more).
Proof.
  intros E Hp.
  assert (ledger_grows w w') as [[more El] Hf].
  { clear Hp. revert w E. induction ops as [|op ops IH]; intros w E; simpl in E.
    - injection E as <-. apply same_ledger_grows, same_ledger_refl.
    - destruct (Session.step op w) as [w1|] eqn:E1; [|done].
      eapply ledger_grows_trans; [by eapply ledger_grows_step|by apply IH]. }
  unfold Settings.handleSettingsClose in *.
  exists (Client.description <$> more).
  destruct (Client.hasUnsavedChanges w) eqn:Ef.
  - rewrite Hf by done. injection Hp as <-. cbn [orb].
    by rewrite El, fmap_app.
  - cbn [orb] in Hp.
    destruct (0 <? Z.of_nat (length (Client.changeLog w))) eqn:E0; [|done].
    injection Hp as <-. apply Z.ltb_lt in E0.
    assert ((0 <? Z.of_nat (length (Client.changeLog w'))) = true) as ->.
    { apply Z.ltb_lt. rewrite El, length_app. lia. }
    rewrite orb_true_r. by rewrite El, fmap_app.
Qed.

Lemma ledger_survives_session_witness :
  ∃ more,
    Settings.handleSettingsClose
      (Client.deleteTicket true 1
         (Client.loadSteps true (Client.moveStep true 1 1 sample_world)))
    = Settings.Prompt (["Reordered steps"] ++ more).
Proof.
  apply (ledger_survives_session
           [Session.LoadSteps true; Session.DeleteTicket true 1]
           (Client.moveStep true 1 1 sample_world)); reflexivity.
Defined.

(** X15. What the ledger of the settings dialog records.  Opening the
    dialog empties it.  A step that was added (request answered), a
    move or a drop that takes place, and the deletion of a listed step
    each add one entry, so closing asks first; the deletion is recorded
    before the request is sent, so a deletion that failed is listed
    although the step is still there.  A rename sent when a name field
    loses focus is not recorded, and neither is a step that could not be
    added. *)
Theorem what_the_ledger_records w :
  Settings.handleSettingsClose (Settings.openSettings w) = Settings.Hide
  ∧ (∀ w', Client.addStep true w = Some w' →
           Settings.handleSettingsClose w'
           = Settings.Prompt (descriptions w ++ ["Added new step"]))
  ∧ (∀ w', Client.addStep false w = Some w' →
           Settings.handleSettingsClose w' = Settings.handleSettingsClose w)
  ∧ (∀ online stepId delta,
       moveStep_applies stepId delta w = true →
       Settings.handleSettingsClose (Client.moveStep online stepId delta w)
       = Settings.Prompt (descriptions w ++ ["Reordered steps"]))
  ∧ (∀ online dragging targetId after,
       dropStep_applies dragging targetId w = true →
       Settings.handleSettingsClose
         (Client.dropStep online dragging targetId after w)
       = Settings.Prompt (descriptions w ++ ["Reordered steps"]))
  ∧ (∀ online stepId d,
       js_find (Client.has_step_id stepId) (Client.steps w) = Some d →
       Settings.handleSettingsClose (Client.deleteStep online stepId false w)
       = Settings.Prompt
           (descriptions w
            ++ ["Deleted step: " +:+ Client.quote
                  +:+ or_string (Some (Step.name d)) "Unnamed" +:+ Client.quote])
       ∧ Client.steps (Client.deleteStep false stepId false w) = Client.steps w)
  ∧ (∀ online stepId name,
       Settings.handleSettingsClose (Client.updateStep online stepId name w)
       = Settings.handleSettingsClose w).
Proof.
  split; [done|]. split; [|split; [|split; [|split; [|split]]]].
  - intros w' E. unfold Client.addStep in E. simpl in E. injection E as <-.
    unfold Settings.handleSettingsClose, descriptions. simpl.
    by rewrite fmap_app.
  - intros w' E. unfold Client.addStep in E. simpl in E. by injection E as <-.
  - intros online stepId delta Ha.
    destruct (moveStep_ledger online _ _ _ Ha) as [El Ef].
    unfold Settings.handleSettingsClose, descriptions.
    by rewrite Ef, El, fmap_app.
  - intros online dragging targetId after Ha.
    destruct (dropStep_ledger online _ _ after _ Ha) as [El Ef].
    unfold Settings.handleSettingsClose, descriptions.
    by rewrite Ef, El, fmap_app.
  - intros online stepId d Hd. split.
    + unfold Client.deleteStep. rewrite Hd.
      unfold Settings.handleSettingsClose, descriptions.
      destruct online; simpl; by rewrite fmap_app.
    + unfold Client.deleteStep. by rewrite Hd.
  - intros online stepId name. unfold Client.updateStep. by destruct online.
Qed.

Lemma what_the_ledger_records_witness :
  Settings.handleSettingsClose (Client.deleteStep false 2 false sample_world)
  = Settings.Prompt ["Deleted step: " +:+ Client.quote +:+ "Review" +:+ Client.quote]
  ∧ Client.steps (Client.deleteStep false 2 false sample_world) = sample_steps.
Proof.
  destruct (what_the_ledger_records sample_world)
    as (_ & _ & _ & _ & _ & Hdel & _).
  apply (Hdel false 2 (Step.mk 2 "Review" 1)). reflexivity.
Defined.

(** X16. The Discard button reloads the steps from the store and
    brings nothing back.  After a session since the settings dialog was
    opened (one in which [tickets] stayed an array of tickets), Discard
    leaves the store and the tickets as they are and shows the steps the
    store serves; these are the steps that were shown, id for id, so a
    step that was added stays and a step that was deleted stays deleted.
    What the client held and the store did not is replaced by what the
    store holds: the order after a move whose requests were not
    answered, a name kept after a save that failed. *)
Theorem discard_reverts_nothing ops w0 w :
  session_ok w0 →
  Session.run ops (Settings.openSettings w0) = Some w →
  Client.steps (Settings.discardChanges true w) = Gateway.get_steps (Client.db w)
  ∧ Client.steps (Settings.discardChanges true w) ≡ₚ Gateway.steps (Client.db w)
  ∧ Step.id <$> Client.steps (Settings.discardChanges true w)
    ≡ₚ Step.id <$> Client.steps w
  ∧ Client.db (Settings.discardChanges true w) = Client.db w
  ∧ Client.tickets (Settings.discardChanges true w) = Client.tickets w.
Proof.
  intros H0 E.
  assert (session_ok (Settings.openSettings w0)) as H1.
  { destruct H0 as [Hm Hl]. split; [exact Hm|exact Hl]. }
  assert (session_ok w) as [_ (_ & [_ Hs] & _)].
  { revert E H1. generalize (Settings.openSettings w0). clear.
    induction ops as [|op ops IH]; intros w1 E H1; simpl in E.
    - by injection E as <-.
    - destruct (Session.step op w1) as [w2|] eqn:E2; [|done].
      apply (IH w2); [done|]. by eapply session_ok_step. }
  split; [done|]. unfold Settings.discardChanges, Client.loadSteps. simpl.
  unfold Gateway.get_steps. split; [apply merge_sort_Permutation|].
  split; [|done]. by rewrite Hs, merge_sort_Permutation.
Qed.

Lemma discard_reverts_nothing_witness :
  let ops :=
    [Session.AddStep true; Session.DeleteStep true 1 false;
     Session.MoveStep false 3 (-1)] in
  from_option
    (λ w, Step.id <$> Client.steps w = [3; 2; 4]
          ∧ Step.id <$> Client.steps (Settings.discardChanges true w) = [2; 3; 4]
          ∧ Step.id <$> Client.steps (Settings.discardChanges true w)
            ≡ₚ Step.id <$> Client.steps w)
    False (Session.run ops (Settings.openSettings sample_world)).
Proof.
  intros ops.
  assert ((λ w, (Step.id <$> Client.steps w,
                 Step.id <$> Client.steps (Settings.discardChanges true w)))
            <$> Session.run ops (Settings.openSettings sample_world)
          = Some ([3; 2; 4], [2; 3; 4])) as Hrun by (vm_compute; reflexivity).
  destruct (Session.run ops (Settings.openSettings sample_world)) as [w|] eqn:E;
    [|discriminate Hrun].
  simpl in Hrun. injection Hrun as H1 H2.
  destruct (discard_reverts_nothing ops sample_world w
              sample_world_session_ok E) as (_ & _ & Hp & _).
  split; [exact H1|]. split; [exact H2|exact Hp].
Defined.

(** ** Saving the step names *)

Section Saving.
Import Client.

Lemma js_find_update_first_other (l : list Step.t) k k' f :
  k ≠ k' → (∀ x, Step.id (f x) = Step.id x) →
  js_find (has_step_id k') (update_first (has_step_id k) f l)
  = js_find (has_step_id k') l.
Proof.
  intros Hne Hf. unfold has_step_id.
  induction l as [|x l IH]; simpl; [done|].
  destruct (Step.id x =? k) eqn:Ek; simpl.
  - rewrite Hf. destruct (Step.id x =? k') eqn:Ek'; [lia|done].
  - destruct (Step.id x =? k'); [done|exact IH].
Qed.

Lemma renamed_other l input input' :
  input.1 ≠ input'.1 →
  renamed (update_first (has_step_id input.1) (Step.set_name input.2) l) input'
  = renamed l input'.
Proof.
  intros Hne. unfold renamed.
  by rewrite js_find_update_first_other; [|done|intros []].
Qed.

Lemma update_first_found_fix {A} (p : A → bool) f (l : list A) x :
  js_find p l = Some x → f x = x → update_first p f l = l.
Proof.
  intros Hf Hx. induction l as [|y l IH]; [done|]. simpl in *.
  destruct (p y); [injection Hf as ->; by rewrite Hx|].
  by rewrite IH.
Qed.

Lemma saveOne_fields w input :
  sent (Settings.saveOne w input)
  = sent w ++ (if renamed (steps w) input then [rename_request input] else [])
  ∧ steps (Settings.saveOne w input)
    = update_first (has_step_id input.1) (Step.set_name input.2) (steps w)
  ∧ tickets (Settings.saveOne w input) = tickets w
  ∧ db (Settings.saveOne w input) = db w
  ∧ changeLog (Settings.saveOne w input) = changeLog w
  ∧ hasUnsavedChanges (Settings.saveOne w input) = hasUnsavedChanges w
  ∧ notices (Settings.saveOne w input) = notices w.
Proof.
  destruct input as [stepId stepName]. unfold Settings.saveOne, renamed.
  cbn [fst snd].
  destruct (js_find _ _) as [step|] eqn:Ef.
  - destruct (String.eqb (Step.name step) stepName) eqn:En; simpl.
    + rewrite app_nil_r. repeat split.
      symmetry. apply (update_first_found_fix _ _ _ step Ef).
      apply String.eqb_eq in En. subst stepName. by destruct step.
    + done.
  - simpl. rewrite app_nil_r. repeat split.
    symmetry. by apply update_first_miss.
Qed.

Lemma filter_ext_in {A} (P Q : A → Prop) `{∀ x, Decision (P x)}
    `{∀ x, Decision (Q x)} (l : list A) :
  (∀ x, x ∈ l → P x ↔ Q x) → filter P l = filter Q l.
Proof.
  induction l as [|y l IH]; intros Hl; [done|].
  rewrite !filter_cons.
  assert (P y ↔ Q y) as Hy by (apply Hl; by left).
  rewrite IH by (intros x Hx; apply Hl; by right).
  destruct (decide (P y)), (decide (Q y)); naive_solver.
Qed.

Lemma foldl_saveOne inputs w :
  NoDup inputs.*1 →
  let w1 := foldl Settings.saveOne w inputs in
  sent w1
  = sent w ++ (rename_request
                 <$> filter (λ i, renamed (steps w) i = true) inputs)
  ∧ steps w1 = apply_names inputs (steps w)
  ∧ tickets w1 = tickets w ∧ db w1 = db w
  ∧ changeLog w1 = changeLog w
  ∧ hasUnsavedChanges w1 = hasUnsavedChanges w
  ∧ notices w1 = notices w.
Proof.
  revert w. induction inputs as [|input inputs IH]; intros w Hnd; simpl.
  - by rewrite app_nil_r.
  - apply NoDup_cons in Hnd as [Hin Hnd].
    destruct (saveOne_fields w input) as (Es & Est & Et & Edb & El & Ef & En).
    destruct (IH (Settings.saveOne w input) Hnd)
      as (Es' & Est' & Et' & Edb' & El' & Ef' & En').
    rewrite Es', Est', Et', Edb', El', Ef', En', Es, Est.
    repeat split; try done.
    rewrite <- app_assoc. f_equal.
    rewrite filter_cons.
    assert (filter
              (λ i, renamed
                      (update_first (has_step_id input.1)
                         (Step.set_name input.2) (steps w)) i = true) inputs
            = filter (λ i, renamed (steps w) i = true) inputs) as ->.
    { apply filter_ext_in. intros i Hi.
      rewrite renamed_other; [done|].
      intros E. apply Hin. rewrite E. apply list_elem_of_fmap. by exists i. }
    destruct (renamed (steps w) input) eqn:Er.
    + by rewrite decide_True.
    + by rewrite decide_False.
Qed.

Lemma apply_names_ids inputs (l : list Step.t) :
  Step.id <$> apply_names inputs l = Step.id <$> l.
Proof.
  unfold apply_names. revert l.
  induction inputs as [|input inputs IH]; intros l; simpl; [done|].
  rewrite IH. by apply update_first_fmap; intros [].
Qed.

Lemma apply_names_spec inputs (l : list Step.t) :
  NoDup inputs.*1 → NoDup (Step.id <$> l) →
  (∀ s, s ∈ apply_names inputs l → Step.id s ∉ inputs.*1 → s ∈ l)
  ∧ (∀ id name s,
       (id, name) ∈ inputs → s ∈ apply_names inputs l → Step.id s = id →
       Step.name s = name).
Proof.
  unfold apply_names. revert l.
  induction inputs as [|[i n] inputs IH]; intros l Hni Hnl.
  - split; [done|]. by intros id name s ?%elem_of_nil.
  - rewrite fmap_cons in Hni. apply NoDup_cons in Hni as [Hi Hni].
    rewrite fmap_cons. cbn [foldl fst snd] in *.
    set (l1 := update_first (has_step_id i) (Step.set_name n) l).
    assert (NoDup (Step.id <$> l1)) as Hnl1.
    { subst l1. by rewrite update_first_fmap; [|intros []]. }
    destruct (IH l1 Hni Hnl1) as [Hout Hin]. split.
    + intros s Hs Hnot. apply not_elem_of_cons in Hnot as [Hne Hnot].
      apply (update_first_other Step.id i (Step.set_name n));
        [by intros []| |done].
      by apply Hout.
    + intros id name s [[= -> ->]|Hmem]%elem_of_cons Hs Hid.
      * specialize (Hout s Hs). rewrite Hid in Hout. specialize (Hout Hi).
        destruct (update_first_hit Step.id i (Step.set_name n) l s)
          as (x & _ & ->); [done|by intros []|done|done|by destruct x].
      * by eapply Hin.
Qed.

Lemma put_step_name id name db :
  Gateway.steps (Gateway.put_step id (StepBody.mk (Some name) None) db).2
  = update_first (has_step_id id) (Step.set_name name) (Gateway.steps db).
Proof.
  unfold Gateway.put_step. simpl.
  destruct (js_find _ (Gateway.steps db)) as [r|] eqn:Hf; simpl.
  - by apply update_first_const.
  - symmetry. by apply update_first_miss.
Qed.

Lemma serve_renames inputs db :
  Gateway.steps (Server.serve_all (rename_request <$> inputs) db)
  = apply_names inputs (Gateway.steps db)
  ∧ Gateway.tickets (Server.serve_all (rename_request <$> inputs) db)
    = Gateway.tickets db.
Proof.
  unfold apply_names. revert db.
  induction inputs as [|[i n] inputs IH]; intros db; [done|].
  rewrite fmap_cons.
  change (Server.serve_all (rename_request (i, n) :: (rename_request <$> inputs)) db)
    with (Server.serve_all (rename_request <$> inputs)
            (Gateway.put_step i (StepBody.mk (Some n) None) db).2).
  destruct (IH (Gateway.put_step i (StepBody.mk (Some n) None) db).2)
    as [-> ->].
  by rewrite put_step_name, put_step_tickets.
Qed.

End Saving.

(** X17. Save in the settings dialog.  With one name field per step:
    one PUT is sent for each field whose value differs from the step's
    name, in the order of the fields, and nothing else; when the
    requests are answered every step with a field carries the value of
    its field, in the client and (for the renamed ones) in the store,
    and closing the dialog no longer asks.  When nothing was renamed the
    ledger is emptied even if the gateway cannot be reached; when a
    rename cannot be sent the ledger and the store stay as they were and
    an error is shown, but the client keeps the new names. *)
Theorem save_sends_the_renames inputs w :
  NoDup inputs.*1 →
  NoDup (Step.id <$> Client.steps w) →
  NoDup (Step.id <$> Gateway.steps (Client.db w)) →
  let changed := filter (λ i, renamed (Client.steps w) i = true) inputs in
  let w' := Settings.saveAllSteps true inputs w in
  let w'' := Settings.saveAllSteps false inputs w in
  Client.sent w' = Client.sent w ++ (rename_request <$> changed)
  ∧ Settings.handleSettingsClose w' = Settings.Hide
  ∧ (∀ id name s,
       (id, name) ∈ inputs → s ∈ Client.steps w' → Step.id s = id →
       Step.name s = name)
  ∧ (∀ id name r,
       (id, name) ∈ changed → r ∈ Gateway.steps (Client.db w') →
       Step.id r = id → Step.name r = name)
  ∧ Client.steps w'' = Client.steps w'
  ∧ Client.sent w'' = Client.sent w'
  ∧ (changed = [] → Settings.handleSettingsClose w'' = Settings.Hide)
  ∧ (changed ≠ [] →
     Settings.handleSettingsClose w'' = Settings.handleSettingsClose w
     ∧ Client.db w'' = Client.db w
     ∧ Client.notices w'' = Client.notices w ++ ["Failed to save steps."]).
Proof.
  intros Hni Hns Hnd changed w' w''.
  destruct (foldl_saveOne inputs w Hni) as (Es & Est & Et & Edb & El & Ef & En).
  fold changed in Es.
  set (w1 := foldl Settings.saveOne w inputs) in *.
  assert (drop (length (Client.sent w)) (Client.sent w1)
          = rename_request <$> changed) as Ereq.
  { by rewrite Es, drop_app_length. }
  assert (NoDup changed.*1) as Hnc.
  { eapply sublist_NoDup; [exact Hni|]. apply fmap_sublist, sublist_filter. }
  subst w' w''. unfold Settings.saveAllSteps. fold w1. rewrite Ereq.
  cbn [orb]. split; [exact Es|]. split; [done|]. split; [|split].
  - cbn [Client.steps Client.set_hasUnsavedChanges Client.set_changeLog
         Client.set_db]. rewrite Est.
    by apply apply_names_spec.
  - cbn [Client.db Client.set_hasUnsavedChanges Client.set_changeLog
         Client.set_db].
    destruct (serve_renames changed (Client.db w1)) as [-> _]. rewrite Edb.
    by apply apply_names_spec.
  - destruct (bool_decide (rename_request <$> changed = [])) eqn:Eb.
    + apply bool_decide_eq_true in Eb. apply fmap_nil_inv in Eb.
      repeat split; done.
    + apply bool_decide_eq_false in Eb.
      repeat split; try done.
      * intros Ec. rewrite Ec in Eb. by destruct Eb.
      * unfold Settings.handleSettingsClose. simpl. by rewrite El, Ef.
      * simpl. by rewrite En.
Qed.

Lemma save_sends_the_renames_witness :
  Client.sent
    (Settings.saveAllSteps true [(1, "Intake"); (2, "Check"); (3, "Done")]
       sample_world)
  = [Client.PUT_step 2 (StepBody.mk (Some "Check") None)]
  ∧ Settings.handleSettingsClose
      (Settings.saveAllSteps true [(1, "Intake"); (2, "Check"); (3, "Done")]
         sample_world)
    = Settings.Hide.
Proof.
  assert (NoDup [(1, "Intake"); (2, "Check"); (3, "Done")].*1) as Hni.
  { apply (bool_decide_unpack _). vm_compute. reflexivity. }
  assert (NoDup (Step.id <$> Client.steps sample_world)) as Hns.
  { apply (bool_decide_unpack _). vm_compute. reflexivity. }
  assert (NoDup (Step.id <$> Gateway.steps (Client.db sample_world))) as Hnd.
  { apply (bool_decide_unpack _). vm_compute. reflexivity. }
  destruct (save_sends_the_renames _ sample_world Hni Hns Hnd)
    as (Hsent & Hhide & _).
  split; [|exact Hhide]. rewrite Hsent. reflexivity.
Defined.

(** ** Notes of several tickets *)

Section NotesOfAll.
Import EventLoop.

Lemma foldl_fire_map online (ts : list Timer) l i h :
  notesSaveTimers (foldl (fire online) l ts) !! i = Some h →
  notesSaveTimers l !! i = Some h.
Proof.
  revert l. induction ts as [|tm ts IH]; intros l; simpl; [done|].
  intros H%IH. simpl in H. by apply lookup_delete_Some in H as [_ H].
Qed.

Lemma advance_sound online t l : loop_sound l → loop_sound (advance online t l).
Proof.
  intros [Hok [Hlt Hown]]. split; [by apply advance_ok|].
  destruct (advance_fields online t l) as (Et & En & _).
  unfold handles_ok. rewrite Et, En. split.
  - intros i h H%foldl_fire_map. by eapply Hlt.
  - intros i h tm H%foldl_fire_map [_ Htm]%list_elem_of_filter Hh.
    by eapply Hown.
Qed.

Lemma updateTicketNotes_pending id txt l tm :
  tm ∈ timers (updateTicketNotes id txt l) →
  tm = mkTimer (nextHandle l) (now l + 400) id txt ∨ tm ∈ timers l.
Proof.
  unfold updateTicketNotes. simpl.
  intros [Htm| ->%list_elem_of_singleton]%elem_of_app; [right|by left].
  destruct (notesSaveTimers l !! id); [|done].
  by apply list_elem_of_filter in Htm as [_ ?].
Qed.

Lemma updateTicketNotes_sound id txt l :
  loop_sound l → loop_sound (updateTicketNotes id txt l).
Proof.
  intros [Hok [Hlt Hown]]. split; [by apply updateTicketNotes_ok|].
  destruct Hok as [_ Hreg]. split.
  - intros i h. unfold updateTicketNotes. simpl.
    intros [[_ <-]|[_ H]]%lookup_insert_Some; [lia|].
    apply Hlt in H. lia.
  - intros i h tm Hm Htm Hh.
    apply updateTicketNotes_pending in Htm as [->|Htm].
    + simpl in *. subst h. unfold updateTicketNotes in Hm. simpl in Hm.
      apply lookup_insert_Some in Hm as [[-> _]|[_ Hm]]; [done|].
      apply Hlt in Hm. lia.
    + unfold updateTicketNotes in Hm. simpl in Hm.
      apply lookup_insert_Some in Hm as [[<- <-]|[_ Hm]].
      * destruct (Hreg tm Htm) as [_ Hlt']. lia.
      * by eapply Hown.
Qed.

Lemma typeAll_sound online edits l : loop_sound l → loop_sound (typeAll online edits l).
Proof.
  revert l. induction edits as [|[[pause id] txt] edits IH]; intros l H; [done|].
  simpl. by apply IH, updateTicketNotes_sound, advance_sound.
Qed.

Lemma typeAll_app online edits1 edits2 l :
  typeAll online (edits1 ++ edits2) l
  = typeAll online edits2 (typeAll online edits1 l).
Proof.
  revert l. induction edits1 as [|[[pause id] txt] edits1 IH]; intros l; [done|].
  simpl. by rewrite IH.
Qed.

Lemma advance_kept online t id txt l :
  loop_ok l → notes_kept id txt l → notes_kept id txt (advance online t l).
Proof.
  intros Hok [(tm & Htm & Hid & Htxt & Hdue)|[Hnone Hlast]].
  - destruct (decide (due tm ≤ t)) as [Hd|Hd].
    + destruct (advance_due online id t l tm Hok Htm Hid Hd) as [Ec Ep].
      right. split; [done|]. by rewrite Ec, last_snoc, Htxt.
    + destruct (advance_quiet online id t l tm Hok Htm Hid) as [Htm' _]; [lia|].
      left. exists tm. repeat split; try done.
      destruct (advance_fields online t l) as (_ & _ & ->). lia.
  - right. split.
    + unfold pending_for in *.
      destruct (advance_fields online t l) as (-> & _).
      apply filter_none. intros tm [_ Htm]%list_elem_of_filter Hid.
      assert (tm ∈ filter (λ tm, ticketId tm = id) (timers l)) as Hin
        by by apply list_elem_of_filter.
      rewrite Hnone in Hin. by apply elem_of_nil in Hin.
    + rewrite advance_calls.
      replace (filter _ (filter _ (timers l))) with (@nil Timer);
        [by rewrite app_nil_r|].
      symmetry. apply filter_none.
      intros tm [_ Htm]%list_elem_of_filter Hid.
      assert (tm ∈ filter (λ tm, ticketId tm = id) (timers l)) as Hin
        by by apply list_elem_of_filter.
      unfold pending_for in Hnone. rewrite Hnone in Hin.
      by apply elem_of_nil in Hin.
Qed.

Lemma updateTicketNotes_kept_other id' txt' id txt l :
  id' ≠ id → loop_sound l →
  notes_kept id txt l → notes_kept id txt (updateTicketNotes id' txt' l).
Proof.
  intros Hne [[_ Hreg] [_ Hown]] [(tm & Htm & Hid & Htxt & Hdue)|[Hnone Hlast]].
  - left. exists tm. repeat split; try done.
    unfold updateTicketNotes. simpl. apply elem_of_app. left.
    destruct (notesSaveTimers l !! id') as [h|] eqn:Em; [|done].
    apply list_elem_of_filter. split; [|done].
    intros Hh. pose proof (Hown id' h tm Em Htm Hh). congruence.
  - right. split; [|done].
    unfold pending_for in *. apply filter_none. intros tm Htm Hid.
    apply updateTicketNotes_pending in Htm as [->|Htm]; [simpl in Hid; congruence|].
    assert (tm ∈ filter (λ tm, ticketId tm = id) (timers l)) as Hin
      by by apply list_elem_of_filter.
    rewrite Hnone in Hin. by apply elem_of_nil in Hin.
Qed.

Lemma typeAll_kept online edits id txt l :
  Forall (λ e, e.1.2 ≠ id) edits →
  loop_sound l → notes_kept id txt l → notes_kept id txt (typeAll online edits l).
Proof.
  revert l. induction edits as [|[[pause id'] txt'] edits IH];
    intros l Hothers Hs Hk; [done|].
  apply Forall_cons in Hothers as [Hne Hothers]. simpl in Hne. simpl.
  apply IH; [done|by apply updateTicketNotes_sound, advance_sound|].
  apply updateTicketNotes_kept_other; [done|by apply advance_sound|].
  apply advance_kept; [by destruct Hs|done].
Qed.

Lemma sample_loop_sound : loop_sound sample_loop.
Proof.
  split; [split; [apply NoDup_nil_2|by intros tm ?%elem_of_nil]|].
  split; [by intros i h ?|by intros i h tm ? ?%elem_of_nil].
Qed.

End NotesOfAll.

(** X18. No edit of the notes is lost, and tickets do not disturb each
    other: whatever edits are made to the notes of whatever tickets, at
    whatever pace, once 400 ms have passed without an edit the last
    notes request sent for a ticket carries the last text typed for that
    ticket, and no timer of the ticket is pending. *)
Theorem last_notes_text_is_sent online before pause id txt after l :
  loop_sound l →
  Forall (λ e, e.1.2 ≠ id) after →
  let typed := typeAll online (before ++ (pause, id, txt) :: after) l in
  ∀ t, EventLoop.now typed + 400 ≤ t →
    let settled := EventLoop.advance online t typed in
    last (EventLoop.notes_calls id (Client.sent (EventLoop.world settled)))
    = Some txt
    ∧ pending_for id settled = [].
Proof.
  intros Hs Hafter typed t Ht settled. subst settled typed.
  rewrite typeAll_app in *. cbn [typeAll] in *.
  set (l0 := typeAll online before l) in *.
  assert (loop_sound l0) as Hs0 by by apply typeAll_sound.
  set (l1 := EventLoop.advance online (EventLoop.now l0 + pause) l0) in *.
  assert (loop_sound l1) as Hs1 by by apply advance_sound.
  set (l2 := EventLoop.updateTicketNotes id txt l1) in *.
  assert (loop_sound l2) as Hs2 by by apply updateTicketNotes_sound.
  assert (notes_kept id txt l2) as Hk2.
  { left. destruct (updateTicketNotes_armed id txt l1) as (Harmed & _).
    eexists. split; [exact Harmed|]. simpl. repeat split; try done. }
  pose proof (typeAll_kept online after id txt l2 Hafter Hs2 Hk2) as Hk.
  pose proof (typeAll_sound online after l2 Hs2) as [Hok _].
  set (l3 := typeAll online after l2) in *.
  destruct Hk as [(tm & Htm & Hid & Htxt & Hdue)|[Hnone Hlast]].
  - destruct (advance_due online id t l3 tm Hok Htm Hid) as [Ec Ep]; [lia|].
    split; [|done]. by rewrite Ec, last_snoc, Htxt.
  - pose proof (advance_kept online t id txt l3 Hok (or_intror (conj Hnone Hlast)))
      as [(tm & Htm & Hid & _)|[Hn Hl]]; [|done].
    exfalso.
    destruct (advance_fields online t l3) as (Et & _). rewrite Et in Htm.
    apply list_elem_of_filter in Htm as [_ Htm].
    assert (tm ∈ pending_for id l3) as Hin by by apply list_elem_of_filter.
    rewrite Hnone in Hin. by apply elem_of_nil in Hin.
Qed.

Lemma last_notes_text_is_sent_witness :
  let typed :=
    typeAll true [(0, 1, "a"); (100, 2, "x"); (100, 1, "ab"); (450, 2, "xy")]
      sample_loop in
  last (EventLoop.notes_calls 1
          (Client.sent
             (EventLoop.world
                (EventLoop.advance true (EventLoop.now typed + 400) typed))))
  = Some "ab".
Proof.
  apply (last_notes_text_is_sent true [(0, 1, "a"); (100, 2, "x")] 100 1 "ab"
           [(450, 2, "xy")] sample_loop sample_loop_sound).
  - repeat constructor; simpl; lia.
  - apply Z.le_refl.
Defined.

(** ** Colours *)

Section ColourFacts.
Import Colour.

Lemma hexValue_range c h : hexValue c = Some h → 0 ≤ h ≤ 15.
Proof.
  unfold hexValue. cbv zeta. set (n := Z.of_nat _).
  destruct ((48 <=? n) && (n <=? 57)) eqn:E1.
  { apply andb_true_iff in E1 as [?%Z.leb_le ?%Z.leb_le]. intros [= <-]. lia. }
  destruct ((97 <=? n) && (n <=? 102)) eqn:E2.
  { apply andb_true_iff in E2 as [?%Z.leb_le ?%Z.leb_le]. intros [= <-]. lia. }
  destruct ((65 <=? n) && (n <=? 70)) eqn:E3; [|done].
  apply andb_true_iff in E3 as [?%Z.leb_le ?%Z.leb_le]. intros [= <-]. lia.
Qed.

Lemma parsePair_range c1 c2 x : parsePair c1 c2 = Some x → 0 ≤ x ≤ 255.
Proof.
  unfold parsePair.
  destruct (hexValue c1) as [h1|] eqn:E1; [|done].
  destruct (hexValue c2) as [h2|] eqn:E2; [|done].
  intros [= <-]. apply hexValue_range in E1, E2. lia.
Qed.

Lemma pad_parses x :
  0 ≤ x ≤ 255 →
  ∃ c1 c2,
    (if (String.length (toString16 x) =? 1)%nat
     then String (Ascii.ascii_of_nat 48) (toString16 x) else toString16 x)
    = String c1 (String c2 EmptyString)
    ∧ parsePair c1 c2 = Some x.
Proof.
  intros Hx.
  assert (forallb
            (λ x,
               match (if (String.length (toString16 x) =? 1)%nat
                      then String (Ascii.ascii_of_nat 48) (toString16 x)
                      else toString16 x) with
               | String c1 (String c2 EmptyString) =>
                 bool_decide (parsePair c1 c2 = Some x)
               | _ => false
               end) (seqZ 0 256) = true) as Hall by (vm_compute; reflexivity).
  rewrite forallb_forall in Hall. specialize (Hall x).
  destruct (if (String.length (toString16 x) =? 1)%nat then _ else _)
    as [|c1 [|c2 [|]]];
    try (discriminate Hall; apply list_elem_of_In, elem_of_seqZ; lia).
  exists c1, c2. split; [done|].
  eapply bool_decide_eq_true_1, Hall, list_elem_of_In, elem_of_seqZ. lia.
Qed.

End ColourFacts.

(** X19. The colour picker's conversions agree: the hex string that
    [rgbToHex] builds from three integer channels is read back by
    [hexToRgb] as the same channels, clamped to 0..255; and whatever
    [hexToRgb] reads from a string, channels between 0 and 255, is what
    it reads from the string [rgbToHex] builds from them. *)
Theorem hex_round_trip r g b :
  Colour.hexToRgb (Colour.rgbToHex r g b)
  = Some (Z.max 0 (Z.min 255 r), Z.max 0 (Z.min 255 g), Z.max 0 (Z.min 255 b))
  ∧ ∀ hex r' g' b',
      Colour.hexToRgb hex = Some (r', g', b') →
      (0 ≤ r' ≤ 255 ∧ 0 ≤ g' ≤ 255 ∧ 0 ≤ b' ≤ 255)
      ∧ Colour.hexToRgb (Colour.rgbToHex r' g' b') = Some (r', g', b').
Proof.
  assert (∀ r g b,
            Colour.hexToRgb (Colour.rgbToHex r g b)
            = Some (Z.max 0 (Z.min 255 r), Z.max 0 (Z.min 255 g),
                    Z.max 0 (Z.min 255 b))) as Hrt.
  { clear. intros r g b. unfold Colour.rgbToHex. cbv zeta.
    destruct (pad_parses (Z.max 0 (Z.min 255 r))) as (r1 & r2 & -> & Hr); [lia|].
    destruct (pad_parses (Z.max 0 (Z.min 255 g))) as (g1 & g2 & -> & Hg); [lia|].
    destruct (pad_parses (Z.max 0 (Z.min 255 b))) as (b1 & b2 & -> & Hb); [lia|].
    unfold Colour.hexToRgb. simpl. by rewrite Hr, Hg, Hb. }
  split; [apply Hrt|].
  intros hex r' g' b' Hh.
  assert (0 ≤ r' ≤ 255 ∧ 0 ≤ g' ≤ 255 ∧ 0 ≤ b' ≤ 255) as Hrange.
  { unfold Colour.hexToRgb in Hh. cbv zeta in Hh.
    destruct (String.list_ascii_of_string _)
      as [|r1 [|r2 [|g1 [|g2 [|b1 [|b2 [|]]]]]]]; try done.
    destruct (Colour.parsePair r1 r2) as [x|] eqn:Er; [|done].
    destruct (Colour.parsePair g1 g2) as [y|] eqn:Eg; [|done].
    destruct (Colour.parsePair b1 b2) as [z|] eqn:Eb; [|done].
    simpl in Hh. injection Hh as <- <- <-.
    apply parsePair_range in Er, Eg, Eb. done. }
  split; [done|]. rewrite Hrt. repeat f_equal; lia.
Qed.

Lemma hex_round_trip_witness :
  Colour.hexToRgb (Colour.rgbToHex 12 171 255) = Some (12, 171, 255).
Proof.
  destruct (hex_round_trip 0 0 0) as [_ Hback].
  apply (Hback "#0CABff" 12 171 255). reflexivity.
Defined.

Section NewTicketColour.
Import Client.

Lemma pickNextDefaultColor_spec lastColor :
  pickNextDefaultColor lastColor ∈ DEFAULT_COLORS
  ∧ (∀ c, lastColor = Some c → pickNextDefaultColor lastColor ≠ c)
  ∧ (lastColor = Some "pink" → pickNextDefaultColor lastColor = "orange")
  ∧ (lastColor = Some "orange" → pickNextDefaultColor lastColor = "yellow")
  ∧ (lastColor = Some "yellow" → pickNextDefaultColor lastColor = "blue")
  ∧ (lastColor = Some "blue" → pickNextDefaultColor lastColor = "pink")
  ∧ (lastColor = None → pickNextDefaultColor lastColor = "pink").
Proof.
  unfold pickNextDefaultColor, DEFAULT_COLORS.
  destruct lastColor as [c|]; [|by repeat split; try done; set_solver].
  unfold js_findIndex. simpl.
  destruct (String.eqb c "pink") eqn:E1.
  { apply String.eqb_eq in E1 as ->. repeat split; try done; [set_solver|].
    by intros c [= <-]. }
  destruct (String.eqb c "orange") eqn:E2.
  { apply String.eqb_eq in E2 as ->. repeat split; try done; [set_solver|].
    by intros c [= <-]. }
  destruct (String.eqb c "yellow") eqn:E3.
  { apply String.eqb_eq in E3 as ->. repeat split; try done; [set_solver|].
    by intros c [= <-]. }
  destruct (String.eqb c "blue") eqn:E4.
  { apply String.eqb_eq in E4 as ->. repeat split; try done; [set_solver|].
    by intros c [= <-]. }
  simpl. apply String.eqb_neq in E1, E2, E3, E4.
  repeat split; try (by intros [= ->]); [set_solver|].
  intros c' [= <-]. congruence.
Qed.

Lemma post_ticket_reply_color body db st row db' :
  Gateway.post_ticket body db = (Gateway.Reply st row, db') →
  Ticket.color row = or_string (TicketBody.color body) "white".
Proof.
  unfold Gateway.post_ticket.
  destruct (TicketBody.ticket_number body); [|done]. cbv zeta.
  destruct (Gateway.ticket_row_ok _ db); [|done]. by intros [= _ <- _].
Qed.

End NewTicketColour.

(** X20. The colour of a new ticket: it is one of the four default
    colours, it is never the colour of the ticket before it, and it
    follows the last ticket's colour in the cycle pink, orange, yellow,
    blue; after a ticket with a custom hex colour, or on an empty board,
    it is pink. *)
Theorem new_ticket_colour online random w w' t :
  Client.addTicket online random w = Client.Settled w' →
  Client.tickets w' = Client.tickets w ++ [t] →
  Ticket.color t ∈ Client.DEFAULT_COLORS
  ∧ (∀ t0, last (Client.tickets w) = Some t0 → Ticket.color t ≠ Ticket.color t0)
  ∧ (∀ t0, last (Client.tickets w) = Some t0 →
       (Ticket.color t0 = "pink" → Ticket.color t = "orange")
       ∧ (Ticket.color t0 = "orange" → Ticket.color t = "yellow")
       ∧ (Ticket.color t0 = "yellow" → Ticket.color t = "blue")
       ∧ (Ticket.color t0 = "blue" → Ticket.color t = "pink")
       ∧ (String.prefix "#" (Ticket.color t0) = true → Ticket.color t = "pink"))
  ∧ (Client.tickets w = [] → Ticket.color t = "pink").
Proof.
  intros E Ht. rewrite addTicket_unfold in E. cbv zeta in E.
  destruct (generateNewTicketNumber_rest random w) as (Et & _).
  destruct online; cycle 1.
  { injection E as <-. simpl in Ht. rewrite Et in Ht.
    apply (f_equal length) in Ht. rewrite length_app in Ht. simpl in Ht. lia. }
  destruct (Gateway.post_ticket _ _) as [[st row|] db'] eqn:Ep; [|done].
  injection E as <-. simpl in Ht. apply app_inv_head in Ht. injection Ht as ->.
  pose proof (post_ticket_reply_color _ _ _ _ _ Ep) as Ec.
  unfold addTicket_body in Ec. cbn [TicketBody.color] in Ec.
  set (baseLast := match Ticket.color <$> last (Client.tickets w) with
                   | Some c => if String.prefix "#" c then None else Some c
                   | None => None
                   end) in *.
  destruct (pickNextDefaultColor_spec baseLast)
    as (Hin & Hne & Hp & Ho & Hy & Hb & Hn).
  assert (Ticket.color t = Client.pickNextDefaultColor baseLast) as Ect.
  { rewrite Ec. unfold or_string.
    destruct (String.eqb _ "") eqn:E0; [|done].
    apply String.eqb_eq in E0. rewrite E0 in Hin.
    unfold Client.DEFAULT_COLORS in Hin. set_solver. }
  rewrite Ect. split; [done|]. split; [|split].
  - intros t0 Hl. subst baseLast. rewrite Hl in *. simpl in *.
    destruct (String.prefix "#" (Ticket.color t0)) eqn:Epre.
    + rewrite Hn by done. intros E. rewrite <- E in Epre. done.
    + by apply Hne.
  - intros t0 Hl. subst baseLast. rewrite Hl in *. simpl in *.
    destruct (String.prefix "#" (Ticket.color t0)) eqn:Epre.
    + rewrite Hn by done.
      repeat split; try done; intros E; by rewrite E in Epre.
    + repeat split; try done; intros E; rewrite E in *; auto.
  - intros E. subst baseLast. rewrite E in *. simpl in *. by apply Hn.
Qed.

Lemma new_ticket_colour_witness :
  match Client.addTicket true sample_draws sample_world with
  | Client.Settled w' =>
    ∀ t, Client.tickets w' = Client.tickets sample_world ++ [t] →
         Ticket.color t = "blue"
  | Client.ErrorPushed _ _ => False
  end.
Proof.
  destruct (Client.addTicket true sample_draws sample_world) as [w'|w' e] eqn:E.
  - intros t Ht.
    destruct (new_ticket_colour true sample_draws sample_world w' t E Ht)
      as (_ & _ & Hcycle & _).
    by apply (Hcycle (Ticket.mk 3 12 "yellow" "" (Some 3) 2)).
  - assert (match Client.addTicket true sample_draws sample_world with
            | Client.Settled _ => True
            | Client.ErrorPushed _ _ => False
            end) as H by (vm_compute; exact I).
    rewrite E in H. exact H.
Defined.

(** ** Custom colours *)

Section CustomColours.
Import Client.

Lemma js_find_at {A} (key : A → Z) (l : list A) (k : nat) x :
  NoDup (key <$> l) → l !! k = Some x →
  js_find (λ y, key y =? key x) l = Some x.
Proof.
  revert k. induction l as [|y l IH]; intros k Hnd Hk; [done|].
  rewrite fmap_cons in Hnd. apply NoDup_cons in Hnd as [Hy Hnd]. simpl.
  destruct k as [|k]; simpl in Hk.
  - injection Hk as ->. by rewrite Z.eqb_refl.
  - destruct (key y =? key x) eqn:E; [|by eapply IH].
    exfalso. apply Hy. apply list_elem_of_fmap. exists x.
    split; [lia|by eapply list_elem_of_lookup_2].
Qed.

Lemma update_first_at {A} (key : A → Z) (f : A → A) (l : list A) (k : nat) x :
  NoDup (key <$> l) → l !! k = Some x →
  update_first (λ y, key y =? key x) f l = <[k := f x]> l.
Proof.
  revert k. induction l as [|y l IH]; intros k Hnd Hk; [done|].
  rewrite fmap_cons in Hnd. apply NoDup_cons in Hnd as [Hy Hnd]. simpl.
  destruct k as [|k]; simpl in Hk.
  - injection Hk as ->. by rewrite Z.eqb_refl.
  - destruct (key y =? key x) eqn:E; [|simpl; f_equal; by eapply IH].
    exfalso. apply Hy. apply list_elem_of_fmap. exists x.
    split; [lia|by eapply list_elem_of_lookup_2].
Qed.

Lemma update_first_twice {A} (p : A → bool) (f g : A → A) (l : list A) :
  (∀ x, p (f x) = p x) →
  update_first p g (update_first p f l) = update_first p (g ∘ f) l.
Proof.
  intros Hp. induction l as [|y l IH]; [done|]. simpl.
  destruct (p y) eqn:E; simpl.
  - by rewrite Hp, E.
  - by rewrite E, IH.
Qed.

Lemma update_first_ext {A} (p : A → bool) (f g : A → A) (l : list A) :
  (∀ x, f x = g x) → update_first p f l = update_first p g l.
Proof.
  intros Hfg. induction l as [|y l IH]; [done|]. simpl.
  destruct (p y); by rewrite ?Hfg, ?IH.
Qed.

Lemma changeTicketColor_found online ticketId color w t :
  js_find (has_ticket_id ticketId) (tickets w) = Some t →
  tickets (Board.changeTicketColor online ticketId color w)
  = update_first (has_ticket_id ticketId) (λ _, Ticket.set_color color t)
      (tickets w)
  ∧ sent (Board.changeTicketColor online ticketId color w)
    = sent w ++ [PUT_ticket ticketId
                   (TicketBody.mk None (Some color) None None None)]
  ∧ steps (Board.changeTicketColor online ticketId color w) = steps w
  ∧ usedTicketNumbers (Board.changeTicketColor online ticketId color w)
    = usedTicketNumbers w.
Proof.
  intros Hf. unfold Board.changeTicketColor. rewrite Hf.
  rewrite updateTicket_tickets, updateTicket_sent, updateTicket_steps,
    updateTicket_used.
  split; [|done]. cbn [tickets set_tickets].
  rewrite (update_first_const _ (Ticket.set_color color) _ _ Hf).
  destruct online; [|done].
  rewrite update_first_twice by (by intros []).
  apply update_first_ext. by intros [].
Qed.

Lemma forEachTicket_map (f : Ticket.t → World → World)
    (g : Ticket.t → Ticket.t) (r : Ticket.t → list Request) w :
  (∀ t, Ticket.id (g t) = Ticket.id t) →
  (∀ t w, js_find (has_ticket_id (Ticket.id t)) (tickets w) = Some t →
          tickets (f t w)
          = update_first (has_ticket_id (Ticket.id t)) (λ _, g t) (tickets w)
          ∧ sent (f t w) = sent w ++ r t
          ∧ steps (f t w) = steps w
          ∧ usedTicketNumbers (f t w) = usedTicketNumbers w) →
  NoDup (Ticket.id <$> tickets w) →
  tickets (Palette.forEachTicket f w) = g <$> tickets w
  ∧ sent (Palette.forEachTicket f w) = sent w ++ mjoin (r <$> tickets w)
  ∧ steps (Palette.forEachTicket f w) = steps w
  ∧ usedTicketNumbers (Palette.forEachTicket f w) = usedTicketNumbers w.
Proof.
  intros Hg Hf Hnd. unfold Palette.forEachTicket.
  set (l := tickets w) in *.
  assert (∀ n k w',
            (k + n = length l)%nat →
            tickets w' = (g <$> take k l) ++ drop k l →
            sent w' = sent w ++ mjoin (r <$> take k l) →
            steps w' = steps w →
            usedTicketNumbers w' = usedTicketNumbers w →
            let w2 :=
              foldl
                (λ w i, match tickets w !! i with
                        | Some t => f t w
                        | None => w
                        end) w' (seq k n) in
            tickets w2 = g <$> l
            ∧ sent w2 = sent w ++ mjoin (r <$> l)
            ∧ steps w2 = steps w
            ∧ usedTicketNumbers w2 = usedTicketNumbers w) as Hloop.
  { induction n as [|n IH]; intros k w' Hk Ht Hs Hst Hu.
    - simpl. rewrite Nat.add_0_r in Hk. subst k.
      rewrite firstn_all, skipn_all, app_nil_r in Ht.
      rewrite firstn_all in Hs. done.
    - cbn [seq foldl].
      destruct (lookup_lt_is_Some_2 l k) as [t Hkt]; [lia|].
      assert (tickets w' !! k = Some t) as Hk'.
      { rewrite Ht, lookup_app_r; rewrite length_fmap, length_take; [|lia].
        replace (k - k `min` length l)%nat with 0%nat by lia.
        rewrite lookup_drop. by rewrite Nat.add_0_r. }
      rewrite Hk'.
      assert (Ticket.id <$> tickets w' = Ticket.id <$> l) as Hids.
      { rewrite Ht, fmap_app, <- list_fmap_compose.
        rewrite (list_fmap_ext (Ticket.id ∘ g) Ticket.id (take k l))
          by (intros; apply Hg).
        by rewrite <- fmap_app, take_drop. }
      assert (NoDup (Ticket.id <$> tickets w')) as Hnd' by by rewrite Hids.
      destruct (Hf t w') as (Et & Es & Est & Eu).
      { apply (js_find_at Ticket.id _ k); done. }
      apply IH; [lia| | |congruence|congruence].
      + rewrite Et. unfold has_ticket_id.
        rewrite (update_first_at Ticket.id _ _ k t Hnd' Hk').
        rewrite Ht, insert_app_r_alt; rewrite length_fmap, length_take; [|lia].
        replace (k - k `min` length l)%nat with 0%nat by lia.
        rewrite (drop_S l t k Hkt). simpl.
        rewrite (take_S_r l k t Hkt), fmap_app, <- app_assoc. done.
      + rewrite Es, Hs, (take_S_r l k t Hkt), fmap_app, join_app. simpl.
        by rewrite app_nil_r, app_assoc. }
  apply (Hloop (length l) 0%nat w); try done.
  simpl. by rewrite app_nil_r.
Qed.

End CustomColours.

Section CustomColourRemoval.
Import Client.

Lemma join_requests (stale : Ticket.t → bool) (l : list Ticket.t) :
  mjoin ((λ t, if stale t then [whiten_request t] else []) <$> l)
  = whiten_request <$> filter (λ t, stale t = true) l.
Proof.
  induction l as [|t l IH]; [done|]. csimpl. rewrite IH, filter_cons.
  destruct (stale t); [by rewrite decide_True|by rewrite decide_False].
Qed.

Lemma forEachTicket_whiten online (stale : Ticket.t → bool) w :
  NoDup (Ticket.id <$> tickets w) →
  let w' :=
    Palette.forEachTicket
      (λ ticket w,
         if stale ticket
         then Board.changeTicketColor online (Ticket.id ticket) "white" w
         else w) w in
  tickets w' = whiten stale <$> tickets w
  ∧ sent w' = sent w ++ (whiten_request <$> filter (λ t, stale t = true) (tickets w))
  ∧ steps w' = steps w
  ∧ usedTicketNumbers w' = usedTicketNumbers w.
Proof.
  intros Hnd w'. subst w'. rewrite <- join_requests.
  apply forEachTicket_map; [|clear|done].
  - intros t. unfold whiten. by destruct (stale t), t.
  - intros t w Hf. unfold whiten. destruct (stale t).
    + by apply changeTicketColor_found.
    + repeat split; [|by rewrite app_nil_r].
      symmetry. by apply update_first_found_fix with (x := t).
Qed.

End CustomColourRemoval.

(** X21. Removing a custom colour from the palette takes its first
    entry out of the list and turns every ticket of that colour white on
    the board, one update request per such ticket, in board order; the
    other tickets and colours are not touched, and a colour that is not
    in the palette changes nothing.  Clearing the palette empties the
    list and turns every ticket with a hex colour white.  The board is
    recoloured whether or not the requests are answered. *)
Theorem custom_colour_removed online color p :
  NoDup (Ticket.id <$> Client.tickets (Palette.world p)) →
  (color ∈ Palette.customColors p →
   let p' := Palette.removeCustomColor online color p in
   let stale t := String.eqb (Ticket.color t) color in
   (∃ l1 l2, Palette.customColors p = l1 ++ color :: l2 ∧ (color ∉ l1)
             ∧ Palette.customColors p' = l1 ++ l2)
   ∧ Client.tickets (Palette.world p')
     = whiten stale <$> Client.tickets (Palette.world p)
   ∧ Client.sent (Palette.world p')
     = Client.sent (Palette.world p)
       ++ (whiten_request
             <$> filter (λ t, stale t = true) (Client.tickets (Palette.world p))))
  ∧ (color ∉ Palette.customColors p →
     Palette.removeCustomColor online color p = p)
  ∧ (let p' := Palette.clearAllCustomColors online p in
     let stale t := String.prefix "#" (Ticket.color t) in
     Palette.customColors p' = []
     ∧ Client.tickets (Palette.world p')
       = whiten stale <$> Client.tickets (Palette.world p)
     ∧ Client.sent (Palette.world p')
       = Client.sent (Palette.world p)
         ++ (whiten_request
               <$> filter (λ t, stale t = true)
                     (Client.tickets (Palette.world p)))).
Proof.
  intros Hnd. split; [|split].
  - intros Hin p' stale. subst p'. unfold Palette.removeCustomColor.
    destruct (js_findIndex_spec (String.eqb color) (Palette.customColors p))
      as [[_ Hnone]|(k & x & -> & Hk & Hx & Hfirst)].
    { specialize (Hnone color Hin). by rewrite String.eqb_refl in Hnone. }
    apply String.eqb_eq in Hx as <-.
    destruct (-1 <? Z.of_nat k) eqn:E; [|apply Z.ltb_ge in E; lia].
    rewrite (splice_take_at _ _ _ Hk).
    cbn [snd Palette.customColors Palette.world].
    destruct (forEachTicket_whiten online stale (Palette.world p) Hnd)
      as (Et & Es & _).
    split; [|by split].
    exists (take k (Palette.customColors p)),
           (drop (S k) (Palette.customColors p)).
    split; [by rewrite take_drop_middle|]. split; [|done].
    intros [j Hj]%list_elem_of_lookup_1.
    pose proof (lookup_lt_Some _ _ _ Hj) as Hlt. rewrite length_take in Hlt.
    rewrite lookup_take_lt in Hj by lia.
    specialize (Hfirst j color). rewrite String.eqb_refl in Hfirst.
    assert (true = false) by (apply Hfirst; [lia|done]). done.
  - intros Hnot. unfold Palette.removeCustomColor.
    destruct (js_findIndex_spec (String.eqb color) (Palette.customColors p))
      as [[-> _]|(k & x & _ & Hk & Hx & _)]; [done|].
    apply String.eqb_eq in Hx as <-. exfalso. apply Hnot.
    by eapply list_elem_of_lookup_2.
  - intros p' stale. subst p'. unfold Palette.clearAllCustomColors.
    cbn [snd Palette.customColors Palette.world].
    destruct (forEachTicket_whiten online stale (Palette.world p) Hnd)
      as (Et & Es & _).
    by split.
Qed.

Lemma custom_colour_removed_witness :
  let p' := Palette.removeCustomColor false "#aa00ff" sample_palette in
  Ticket.color <$> Client.tickets (Palette.world p') = ["white"; "orange"; "white"]
  ∧ Client.sent (Palette.world p')
    = [Client.PUT_ticket 1 (TicketBody.mk None (Some "white") None None None);
       Client.PUT_ticket 3 (TicketBody.mk None (Some "white") None None None)].
Proof.
  assert (NoDup (Ticket.id <$> Client.tickets (Palette.world sample_palette)))
    as Hnd.
  { apply (bool_decide_unpack _). vm_compute. reflexivity. }
  destruct (custom_colour_removed false "#aa00ff" sample_palette Hnd)
    as [Hrem _].
  destruct Hrem as (_ & Ht & Hs); [simpl; set_solver|].
  cbv zeta in *. rewrite Ht, Hs. split; reflexivity.
Defined.

(** ** Opening the page, and undoing a deletion *)

(** X22. Opening the page puts the client in step with a sound store:
    once the two loads are answered the client shows exactly the steps
    and the tickets of the store, in the store's order, with unique
    positive ids, every ticket on no step or on a step shown, and every
    number shown in the used-number set. *)
Theorem page_load_in_step settings db :
  store_ok db →
  let w := openPage true settings db in
  session_ok w
  ∧ Client.tickets w = Gateway.get_tickets db
  ∧ Client.steps w = Gateway.get_steps db
  ∧ used_covers_live w
  ∧ Client.db w = db.
Proof.
  intros Hs w. subst w. unfold openPage.
  assert (mirror_ok (fresh_client settings db)) as Hm0.
  { destruct Hs as (Hdb & _). split; [exact Hdb|].
    split; (split; [apply NoDup_nil_2|by intros i ?%elem_of_nil]). }
  split; [|split; [done|split; [done|split; [|done]]]].
  - split; [by apply loadTickets_ok, loadSteps_ok|].
    split; [exact Hs|]. split; [split|]; simpl.
    + unfold Gateway.get_tickets. by rewrite merge_sort_Permutation.
    + unfold Gateway.get_steps. by rewrite merge_sort_Permutation.
    + intros t s Ht Hcs. destruct Hs as (_ & _ & Hrefs).
      unfold Gateway.get_tickets in Ht. rewrite merge_sort_Permutation in Ht.
      unfold Gateway.get_steps. rewrite merge_sort_Permutation.
      by eapply Hrefs.
  - apply loadTickets_covers. by intros t ?%elem_of_nil.
Qed.

Lemma page_load_in_step_witness :
  session_ok (openPage true (Client.mkSettings true false) sample_db)
  ∧ Client.tickets (openPage true (Client.mkSettings true false) sample_db)
    = sample_tickets.
Proof.
  destruct (page_load_in_step (Client.mkSettings true false) sample_db
              sample_db_ok) as (Hok & Ht & _).
  split; [exact Hok|]. rewrite Ht. vm_compute. reflexivity.
Defined.

(** X23. Undo after deleting a step re-creates the step, it does not
    bring it back: the step shown after Undo has the name of the deleted
    one and a new id, larger than every id given before; the deleted id
    is in the list no more; and the tickets that were on the deleted
    step stay on no step, on the board and in the store. *)
Theorem undo_recreates_the_step stepId deletedStep w :
  session_ok w →
  js_find (Client.has_step_id stepId) (Client.steps w) = Some deletedStep →
  let w' := Undo.deleteThenUndo true true stepId w in
  (stepId ∉ Step.id <$> Client.steps w')
  ∧ (∃ s, s ∈ Client.steps w'
          ∧ Step.name s = Step.name deletedStep
          ∧ Gateway.steps_seq (Client.db w) < Step.id s)
  ∧ Client.tickets w' = clear_step stepId <$> Client.tickets w
  ∧ Gateway.tickets (Client.db w')
    = clear_step stepId <$> Gateway.tickets (Client.db w)
  ∧ Step.id <$> Client.steps w' ≡ₚ Step.id <$> Gateway.steps (Client.db w').
Proof.
  intros [Hm Hl] Hf w'. subst w'. unfold Undo.deleteThenUndo. rewrite Hf.
  destruct (deleteStep_online stepId false w) as (Et & Est & Edb & _).
  set (w1 := Client.deleteStep true stepId false w) in *.
  unfold Undo.undoStepDeletion. cbv zeta.
  set (body := StepBody.mk _ _).
  unfold Gateway.post_step. cbn [StepBody.name body].
  cbn [Client.db Client.send Client.steps Client.tickets Client.loadSteps
       Client.set_db Client.set_steps Client.set_hasUnsavedChanges
       Gateway.steps Gateway.tickets].
  rewrite Edb, delete_step_steps, delete_step_tickets.
  set (rows := filter (λ r, Step.id r ≠ stepId) (Gateway.steps (Client.db w))).
  set (rowid := Gateway.next_rowid _ _).
  destruct Hm as ([_ Hsi] & _ & Hci).
  assert (Gateway.steps_seq (Client.db w) < rowid) as Hfresh.
  { subst rowid.
    replace (Gateway.steps_seq (Gateway.delete_step stepId (Client.db w)).2)
      with (Gateway.steps_seq (Client.db w))
      by (unfold Gateway.delete_step; by destruct (decide _)).
    apply next_rowid_fresh.
    destruct Hl as (((_ & Hss) & _) & _).
    eapply ids_ok_sublist; [|exact Hss].
    subst rows. apply fmap_sublist, sublist_filter. }
  unfold Gateway.get_steps. cbn [Gateway.steps].
  split; [|split; [|split; [|split]]].
  - rewrite merge_sort_Permutation, fmap_app. simpl.
    intros [Hin|Hin%list_elem_of_singleton]%elem_of_app.
    + subst rows. rewrite filter_key_fmap in Hin.
      by apply list_elem_of_filter in Hin as [? _].
    + apply js_find_Some in Hf as [Hd Hid].
      assert (stepId ∈ Step.id <$> Client.steps w) as Hold.
      { apply list_elem_of_fmap. exists deletedStep. split; [|done].
        unfold Client.has_step_id in Hid. lia. }
      apply Hci in Hold. lia.
  - exists (Step.mk rowid (Step.name deletedStep)
              (default 0 (StepBody.order_index body))).
    split; [|split; [reflexivity|exact Hfresh]].
    rewrite merge_sort_Permutation. apply elem_of_app. right. by left.
  - exact Et.
  - done.
  - by rewrite merge_sort_Permutation.
Qed.

Lemma undo_recreates_the_step_witness :
  (3 ∉ Step.id <$> Client.steps (Undo.deleteThenUndo true true 3 sample_world))
  ∧ Ticket.current_step_id
      <$> Client.tickets (Undo.deleteThenUndo true true 3 sample_world)
    = [Some 1; None; None].
Proof.
  destruct (undo_recreates_the_step 3 (Step.mk 3 "Done" 2) sample_world
              sample_world_session_ok eq_refl) as (Hgone & _ & Ht & _).
  split; [exact Hgone|]. cbv zeta in Ht. rewrite Ht. reflexivity.
Defined.

(** ** Importing a configuration *)

Section ImportConfiguration.
Import Client.

Lemma foldl_deleteStep_steps (l : list Step.t) w :
  steps (foldl (λ w s, deleteStep true (Step.id s) false w) w l)
  = filter (λ s, Step.id s ∉ Step.id <$> l) (steps w).
Proof.
  revert w. induction l as [|x l IH]; intros w; cbn [foldl].
  - symmetry. apply filter_all. by intros s _ ?%elem_of_nil.
  - rewrite IH, deleteStep_steps, list_filter_filter. rewrite fmap_cons.
    apply list_filter_iff. intros s. rewrite elem_of_cons. naive_solver.
Qed.

Lemma foldl_deleteStep_ok (l : list Step.t) w :
  session_ok w →
  session_ok (foldl (λ w s, deleteStep true (Step.id s) false w) w l).
Proof.
  revert w. induction l as [|x l IH]; intros w H; cbn [foldl]; [done|].
  apply IH. by eapply (session_ok_step (Session.DeleteStep true (Step.id x) false) w).
Qed.

Lemma foldl_deleteStep_kept (l : list Step.t) w :
  let w' := foldl (λ w s, deleteStep true (Step.id s) false w) w l in
  Ticket.id <$> tickets w' = Ticket.id <$> tickets w
  ∧ seq_le (db w) (db w').
Proof.
  revert w. induction l as [|x l IH]; intros w; cbn [foldl].
  - split; [done|]. split; lia.
  - destruct (IH (deleteStep true (Step.id x) false w)) as [Ei Hle].
    destruct (deleteStep_online (Step.id x) false w) as (Et & _ & Edb & _).
    cbv zeta in Ei, Hle. cbv zeta. rewrite Ei, Et, clear_step_ids.
    split; [done|]. eapply seq_le_trans; [|exact Hle].
    rewrite Edb. apply delete_step_seq.
Qed.

Lemma deleteAllSteps_spec w :
  session_ok w →
  session_ok (Transfer.deleteAllSteps true w)
  ∧ steps (Transfer.deleteAllSteps true w) = []
  ∧ Gateway.steps (db (Transfer.deleteAllSteps true w)) = []
  ∧ unassigned (tickets (Transfer.deleteAllSteps true w))
  ∧ unassigned (Gateway.tickets (db (Transfer.deleteAllSteps true w))).
Proof.
  intros H. unfold Transfer.deleteAllSteps.
  pose proof (foldl_deleteStep_ok (steps w) w H) as Hok.
  pose proof (foldl_deleteStep_steps (steps w) w) as Est.
  set (w1 := foldl _ _ _) in *.
  assert (steps w1 = []) as E.
  { rewrite Est. apply filter_none. intros s Hs Hn. apply Hn.
    apply list_elem_of_fmap. by exists s. }
  destruct Hok as [Hm ((Hdb & Hn & Hrs) & [Hti Hsi] & Hrc)].
  assert (Gateway.steps (db w1) = []) as E'.
  { rewrite E in Hsi. simpl in Hsi. symmetry in Hsi.
    apply Permutation_nil_r in Hsi. by apply fmap_nil_inv in Hsi. }
  split; [done|]. split; [done|]. split; [done|]. split.
  - intros t Ht. destruct (Ticket.current_step_id t) as [s|] eqn:Ec; [|done].
    specialize (Hrc t s Ht Ec). rewrite E in Hrc. by apply elem_of_nil in Hrc.
  - intros t Ht. destruct (Ticket.current_step_id t) as [s|] eqn:Ec; [|done].
    specialize (Hrs t s Ht Ec). rewrite E' in Hrs. by apply elem_of_nil in Hrs.
Qed.

Lemma postStep_fields w it :
  tickets (Transfer.postStep w it) = tickets w
  ∧ steps (Transfer.postStep w it) = steps w
  ∧ Gateway.tickets (db (Transfer.postStep w it)) = Gateway.tickets (db w)
  ∧ step_fields <$> Gateway.steps (db (Transfer.postStep w it))
    = (step_fields <$> Gateway.steps (db w)) ++ option_list (imported it)
  ∧ (db_ok (db w) → db_ok (db (Transfer.postStep w it)))
  ∧ seq_le (db w) (db (Transfer.postStep w it))
  ∧ (db_ok (db w) →
     ∀ s, s ∈ Gateway.steps (db (Transfer.postStep w it)) →
          s ∈ Gateway.steps (db w)
          ∨ Gateway.steps_seq (db w) < Step.id s).
Proof.
  unfold Transfer.postStep. cbn [tickets steps db set_db send].
  set (body := StepBody.mk _ _).
  split; [done|]. split; [done|].
  split; [|split; [|split; [apply post_step_ok|split; [apply post_step_seq|]]]].
  - unfold Gateway.post_step. by destruct (StepBody.name body).
  - unfold Gateway.post_step, imported. subst body. simpl.
    destruct (Transfer.name it); simpl; [|by rewrite app_nil_r].
    by rewrite fmap_app.
  - intros [_ Hs] s. unfold Gateway.post_step.
    destruct (StepBody.name body); [|by left]. simpl.
    intros [Hin| ->%list_elem_of_singleton]%elem_of_app; [by left|right].
    simpl. by apply next_rowid_fresh.
Qed.

Lemma foldl_postStep w new_steps :
  db_ok (db w) →
  let w' := foldl Transfer.postStep w new_steps in
  tickets w' = tickets w
  ∧ steps w' = steps w
  ∧ Gateway.tickets (db w') = Gateway.tickets (db w)
  ∧ step_fields <$> Gateway.steps (db w')
    = (step_fields <$> Gateway.steps (db w)) ++ omap imported new_steps
  ∧ db_ok (db w')
  ∧ seq_le (db w) (db w')
  ∧ ∀ s, s ∈ Gateway.steps (db w') →
         s ∈ Gateway.steps (db w) ∨ Gateway.steps_seq (db w) < Step.id s.
Proof.
  revert w. induction new_steps as [|it l IH]; intros w Hdb; cbn [foldl omap].
  - rewrite app_nil_r. split; [done|]. split; [done|]. split; [done|].
    split; [done|]. split; [done|]. split; [split; lia|]. by left.
  - destruct (postStep_fields w it) as (Et & Es & Edt & Ef & Hok & Hle & Hnew).
    destruct (IH (Transfer.postStep w it) (Hok Hdb))
      as (Et' & Es' & Edt' & Ef' & Hok' & Hle' & Hnew').
    rewrite Et', Es', Edt', Ef', Et, Es, Edt, Ef.
    split; [done|]. split; [done|]. split; [done|]. split.
    { rewrite <- app_assoc. f_equal.
      destruct (imported it) eqn:E; simpl; by rewrite E. }
    split; [done|]. split; [by eapply seq_le_trans|].
    intros s Hs. destruct (Hnew' s Hs) as [Hin|Hlt].
    + by apply Hnew.
    + right. destruct Hle as [_ Hle]. lia.
Qed.

Lemma put_ticket_unassigned id i db :
  unassigned (Gateway.tickets db) →
  unassigned
    (Gateway.tickets
       (Gateway.put_ticket id (TicketBody.mk None None None None (Some i)) db).2).
Proof.
  intros Hu. unfold Gateway.put_ticket.
  destruct (js_find _ (Gateway.tickets db)) as [r|] eqn:Hf; [|done].
  cbv zeta. destruct (Gateway.ticket_update_ok _ _ db); [|done].
  cbn [snd Gateway.tickets]. intros t Ht.
  apply update_first_elem in Ht as [Ht|(x & Hx & _ & ->)]; [by apply Hu|].
  rewrite assign_ticket_step. simpl.
  apply js_find_Some in Hf as [Hr _]. by apply Hu.
Qed.

Lemma reorderTickets_spec pairs w :
  unassigned (Gateway.tickets (db w)) →
  let w' := Transfer.reorderTickets true pairs w in
  unassigned (Gateway.tickets (db w'))
  ∧ steps w' = steps w
  ∧ Gateway.steps (db w') = Gateway.steps (db w)
  ∧ Ticket.id <$> Gateway.tickets (db w')
    = Ticket.id <$> Gateway.tickets (db w).
Proof.
  unfold Transfer.reorderTickets. generalize (seq 0 (length (tickets w))).
  intros l. revert w. induction l as [|i l IH]; intros w Hu; [done|].
  cbn [foldl].
  set (w1 := match tickets w !! i with Some _ => _ | None => _ end).
  assert (unassigned (Gateway.tickets (db w1))
          ∧ steps w1 = steps w
          ∧ Gateway.steps (db w1) = Gateway.steps (db w)
          ∧ Ticket.id <$> Gateway.tickets (db w1)
            = Ticket.id <$> Gateway.tickets (db w))
    as (Hu1 & Es1 & Ed1 & Eq1).
  { subst w1. destruct (tickets w !! i) as [t|]; [|done].
    destruct (Transfer.map_get pairs _) as [idx|]; [|done].
    unfold updateTicket.
    cbn [db set_db set_tickets send steps tickets].
    split; [by apply put_ticket_unassigned|]. split; [done|].
    split; [apply put_ticket_steps|apply put_ticket_ids]. }
  destruct (IH w1 Hu1) as (Hu' & Es' & Ed' & Eq').
  split; [exact Hu'|]. split; [congruence|]. split; congruence.
Qed.

End ImportConfiguration.

Lemma replaceSteps_online new_steps w :
  Transfer.replaceSteps true new_steps w
  = (Client.loadSteps true
       (foldl Transfer.postStep (Transfer.deleteAllSteps true w) new_steps),
     false).
Proof. unfold Transfer.replaceSteps. by destruct new_steps. Qed.

(** X24. Importing a configuration that lists steps, confirmed and
    answered by the gateway, replaces the steps and keeps the tickets:
    every ticket is shown without a step afterwards, the steps shown
    are those of the file that have a name (with order 0 where the file
    gives none), each under an id the store never gave before, the
    tickets are the same ones, and the custom colours are those of the
    file when it lists some. *)
Theorem import_replaces_the_steps settings new_steps p :
  session_ok (Palette.world p) →
  Transfer.steps settings = Some new_steps →
  let w := Palette.world p in
  let p' := Transfer.importConfiguration true true settings p in
  let w' := Palette.world p' in
  unassigned (Client.tickets w')
  ∧ step_fields <$> Client.steps w' ≡ₚ omap imported new_steps
  ∧ (∀ s, s ∈ Client.steps w' →
          Gateway.steps_seq (Client.db w) < Step.id s)
  ∧ Ticket.id <$> Client.tickets w' ≡ₚ Ticket.id <$> Client.tickets w
  ∧ Palette.customColors p'
    = default (Palette.customColors p) (Transfer.customColors settings).
Proof.
  intros Hok Hs w p' w'. subst w p' w'.
  unfold Transfer.importConfiguration. rewrite Hs, replaceSteps_online.
  cbn [negb].
  destruct (deleteAllSteps_spec (Palette.world p) Hok)
    as (Hok1 & Es1 & Eds1 & Hu1 & Hud1).
  destruct (foldl_deleteStep_kept (Client.steps (Palette.world p))
              (Palette.world p)) as [Ei1 Hle1].
  fold (Transfer.deleteAllSteps true (Palette.world p)) in Ei1, Hle1.
  set (w1 := Transfer.deleteAllSteps true (Palette.world p)) in *.
  assert (db_ok (Client.db w1)) as Hdb1 by apply Hok1.
  destruct (foldl_postStep w1 new_steps Hdb1)
    as (Et2 & Es2 & Edt2 & Ef2 & Hdb2 & Hle2 & Hnew2).
  set (w2 := foldl Transfer.postStep w1 new_steps) in *.
  set (w3 := Client.loadSteps true w2).
  assert (unassigned (Gateway.tickets (Client.db w3))) as Hu3.
  { subst w3. simpl. by rewrite Edt2. }
  set (w4 := match Transfer.items settings with
             | Some pairs => Transfer.reorderTickets true pairs w3
             | None => w3
             end).
  assert (unassigned (Gateway.tickets (Client.db w4))
          ∧ Client.steps w4 = Client.steps w3
          ∧ Gateway.steps (Client.db w4) = Gateway.steps (Client.db w3)
          ∧ Ticket.id <$> Gateway.tickets (Client.db w4)
            = Ticket.id <$> Gateway.tickets (Client.db w3))
    as (Hu4 & Es4 & Eds4 & Ei4).
  { subst w4. destruct (Transfer.items settings) as [pairs|]; [|done].
    by apply reorderTickets_spec. }
  assert (Client.steps w3 = Gateway.get_steps (Client.db w2)) as Es3 by done.
  assert (Client.db w3 = Client.db w2) as Ed3 by done.
  destruct (Transfer.items settings) as [pairs|] eqn:Ei;
    cbn [Palette.world Palette.customColors Transfer.showSuccess
         Client.showError Client.tickets Client.steps Client.loadTickets
         Client.send Client.set_used Client.set_tickets Client.db];
    fold w4.
  all: (split; [|split; [|split; [|split; [|done]]]]).
  all: try (intros t Ht; unfold Gateway.get_tickets in Ht;
            rewrite merge_sort_Permutation in Ht; by apply Hu4).
  all: try (rewrite Es4, Es3; unfold Gateway.get_steps;
            rewrite merge_sort_Permutation, Ef2, Eds1; done).
  all: try (intros s Hin; rewrite Es4, Es3 in Hin;
            unfold Gateway.get_steps in Hin;
            rewrite merge_sort_Permutation in Hin;
            destruct (Hnew2 s Hin) as [Hold|Hlt];
            [rewrite Eds1 in Hold; by apply elem_of_nil in Hold
            |destruct Hle1 as [_ Hle1]; lia]).
  all: unfold Gateway.get_tickets; rewrite merge_sort_Permutation, Ei4, Ed3,
         Edt2, <- Ei1; symmetry; apply Hok1.
Qed.

Lemma import_replaces_the_steps_witness :
  let cfg :=
    Transfer.mkConfiguration
      (Some [Transfer.mkStepItem (Some "Todo") (Some 4);
             Transfer.mkStepItem None (Some 1);
             Transfer.mkStepItem (Some "Done") None])
      None (Some ["#123456"]) in
  let p' :=
    Transfer.importConfiguration true true cfg
      (Palette.mk sample_world ["#00ff00"] None) in
  unassigned (Client.tickets (Palette.world p'))
  ∧ step_fields <$> Client.steps (Palette.world p') ≡ₚ [("Todo", 4); ("Done", 0)]
  ∧ Palette.customColors p' = ["#123456"].
Proof.
  intros cfg p'.
  destruct (import_replaces_the_steps cfg _
              (Palette.mk sample_world ["#00ff00"] None)
              sample_world_session_ok eq_refl) as (Hu & Hs & _ & _ & Hc).
  split; [exact Hu|]. split; [exact Hs|exact Hc].
Defined.

(** ** Importing notes *)

Section NotesTransfer.
Import Client.

Lemma update_first_put {A} (p : A → bool) (f : A → A) (l : list A) x :
  js_find p l = Some x → f x ∈ update_first p f l.
Proof.
  induction l as [|y l IH]; simpl; [done|].
  destruct (p y).
  - intros [= ->]. by left.
  - intros H. right. by apply IH.
Qed.

Lemma update_first_as_map {A} (key : A → Z) (k : Z) (f : A → A) (l : list A) :
  NoDup (key <$> l) →
  update_first (λ x, key x =? k) f l
  = (λ x, if key x =? k then f x else x) <$> l.
Proof.
  induction l as [|y l IH]; [done|]. rewrite fmap_cons.
  intros [Hy Hl]%NoDup_cons. cbn [update_first fmap list_fmap].
  destruct (key y =? k) eqn:E.
  - f_equal. symmetry. rewrite <- (list_fmap_id l) at 2.
    apply list_fmap_ext. intros i x Hx.
    destruct (key x =? k) eqn:E'; [|done]. exfalso. apply Hy.
    apply Z.eqb_eq in E, E'. apply list_elem_of_fmap. exists x.
    split; [lia|by eapply list_elem_of_lookup_2].
  - f_equal. by apply IH.
Qed.


Lemma noteUpdates_keeps sbn n (t : Ticket.t) :
  Ticket.id (Object_assign (Transfer.noteUpdates sbn n) t) = Ticket.id t
  ∧ Ticket.ticket_number (Object_assign (Transfer.noteUpdates sbn n) t)
    = Ticket.ticket_number t
  ∧ Ticket.color (Object_assign (Transfer.noteUpdates sbn n) t) = Ticket.color t
  ∧ Ticket.order_index (Object_assign (Transfer.noteUpdates sbn n) t)
    = Ticket.order_index t.
Proof.
  unfold Object_assign, Gateway.assign_ticket, Transfer.noteUpdates. simpl.
  destruct (Transfer.notes n), (Transfer.step n) as [nm|];
    try destruct (String.eqb nm ""); try destruct (Transfer.map_get sbn nm);
    done.
Qed.

Lemma noteUpdates_twice sbn n (t : Ticket.t) :
  Object_assign (Transfer.noteUpdates sbn n)
    (Object_assign (Transfer.noteUpdates sbn n) t)
  = Object_assign (Transfer.noteUpdates sbn n) t.
Proof.
  unfold Object_assign, Gateway.assign_ticket, Transfer.noteUpdates. simpl.
  destruct (Transfer.notes n), (Transfer.step n) as [nm|];
    try destruct (String.eqb nm ""); try destruct (Transfer.map_get sbn nm);
    done.
Qed.

(** One row of an import: the ticket with the row's number takes the
    row's notes and step, whether or not the request is answered. *)
Lemma importNote_tickets online sbn w n :
  NoDup (Ticket.id <$> tickets w) →
  tickets (Transfer.importNote online sbn w n)
  = update_first (λ x, Ticket.ticket_number x =? Transfer.ticket_number n)
      (Object_assign (Transfer.noteUpdates sbn n)) (tickets w)
  ∧ steps (Transfer.importNote online sbn w n) = steps w.
Proof.
  intros Hn. unfold Transfer.importNote.
  destruct (js_find _ (tickets w)) as [t|] eqn:Hf.
  2: { split; [|done]. symmetry. by apply update_first_miss. }
  cbv zeta.
  set (U := Transfer.noteUpdates sbn n).
  set (p := λ x, Ticket.ticket_number x =? Transfer.ticket_number n) in *.
  assert (update_first p
            (λ x,
               match TicketBody.current_step_id U with
               | Some id =>
                 Ticket.set_current_step_id id
                   match TicketBody.notes U with
                   | Some s => Ticket.set_notes s x | None => x end
               | None =>
                 match TicketBody.notes U with
                 | Some s => Ticket.set_notes s x | None => x end
               end) (tickets w)
          = update_first p (Object_assign U) (tickets w)) as Ew.
  { apply update_first_ext. intros x.
    unfold Object_assign, Gateway.assign_ticket.
    assert (TicketBody.color U = None ∧ TicketBody.ticket_number U = None
            ∧ TicketBody.order_index U = None) as (-> & -> & ->) by done.
    by destruct (TicketBody.current_step_id U), (TicketBody.notes U). }
  rewrite Ew.
  assert (tickets
            (updateTicket online (Ticket.id t) U
               (set_tickets (update_first p (Object_assign U) (tickets w)) w))
          = update_first p (Object_assign U) (tickets w)
          ∧ steps
              (updateTicket online (Ticket.id t) U
                 (set_tickets (update_first p (Object_assign U) (tickets w)) w))
            = steps w) as [Eu Es].
  { unfold updateTicket. destruct online; [|done].
    cbn [tickets steps set_tickets set_db send db]. split; [|done].
    pose proof (update_first_put p (Object_assign U) _ _ Hf) as Hin.
    apply list_elem_of_lookup in Hin as [k Hk].
    assert (NoDup (Ticket.id <$> update_first p (Object_assign U) (tickets w)))
      as Hn'.
    { rewrite update_first_fmap; [done|]. intros x. apply noteUpdates_keeps. }
    pose proof (js_find_at Ticket.id _ k _ Hn' Hk) as Hfind.
    destruct (noteUpdates_keeps sbn n t) as (Eid & _). fold U in Eid.
    rewrite Eid in Hfind.
    apply (update_first_found_fix _ _ _ _ Hfind). apply noteUpdates_twice. }
  destruct (TicketBody.notes U), (TicketBody.current_step_id U); done.
Qed.



End NotesTransfer.

(** X25. Importing notes rewrites the board ticket by ticket, answered
    or not: when the tickets shown have distinct ids and numbers and the
    rows distinct numbers, each ticket with a row of its number takes
    that row's notes (when the row has some) and the step the row names
    (when a step of that name is shown); its number, colour and place
    stay, and a ticket without a row is left as it is. *)
Theorem notes_import_per_ticket online rows w :
  NoDup (Ticket.id <$> Client.tickets w) →
  NoDup (Ticket.ticket_number <$> Client.tickets w) →
  NoDup (Transfer.ticket_number <$> rows) →
  let stepByName := (λ s, (Step.name s, Step.id s)) <$> Client.steps w in
  Client.tickets (Transfer.importNotes online rows w)
  = (λ t,
       match js_find (λ n, Transfer.ticket_number n =? Ticket.ticket_number t)
               rows with
       | Some n => Client.Object_assign (Transfer.noteUpdates stepByName n) t
       | None => t
       end) <$> Client.tickets w.
Proof.
  intros Hi Hn Hr sbn. unfold Transfer.importNotes. fold sbn.
  generalize sbn. clear sbn. intros sbn.
  revert w Hi Hn. induction rows as [|n rows IH]; intros w Hi Hn; cbn [foldl].
  - simpl. by rewrite list_fmap_id.
  - rewrite fmap_cons in Hr. apply NoDup_cons in Hr as [Hfresh Hr].
    destruct (importNote_tickets online sbn w n Hi) as [Et _].
    set (w1 := Transfer.importNote online sbn w n) in *.
    rewrite (update_first_as_map Ticket.ticket_number) in Et by done.
    rewrite IH; [|done| |].
    + rewrite Et, <- list_fmap_compose. apply list_fmap_ext. intros i t _.
      cbn [compose js_find].
      destruct (Ticket.ticket_number t =? Transfer.ticket_number n) eqn:E.
      * apply Z.eqb_eq in E. rewrite E, Z.eqb_refl.
        destruct (noteUpdates_keeps sbn n t) as (_ & -> & _). rewrite E.
        destruct (js_find _ rows) as [m|] eqn:Hm; [|done].
        apply js_find_Some in Hm as [Hin Hm]. apply Z.eqb_eq in Hm.
        exfalso. apply Hfresh. apply list_elem_of_fmap. by exists m.
      * rewrite Z.eqb_sym, E. done.
    + rewrite Et, <- list_fmap_compose.
      erewrite list_fmap_ext; [exact Hi|]. intros i t _. cbn [compose].
      destruct (_ =? _); [|done]. apply noteUpdates_keeps.
    + rewrite Et, <- list_fmap_compose.
      erewrite list_fmap_ext; [exact Hn|]. intros i t _. cbn [compose].
      destruct (_ =? _); [|done]. apply noteUpdates_keeps.
Qed.

Lemma notes_import_per_ticket_witness :
  Client.tickets
    (Transfer.importNotes false
       [Transfer.mkNote 7 (Some "Intake") (Some "new");
        Transfer.mkNote 99 (Some "Done") None;
        Transfer.mkNote 12 (Some "") None]
       sample_world)
  = [Ticket.mk 1 5 "pink" "" (Some 1) 0;
     Ticket.mk 2 7 "orange" "new" (Some 1) 1;
     Ticket.mk 3 12 "yellow" "" (Some 3) 2].
Proof.
  rewrite (notes_import_per_ticket false _ sample_world).
  - reflexivity.
  - apply (bool_decide_unpack _). vm_compute. reflexivity.
  - apply (bool_decide_unpack _). vm_compute. reflexivity.
  - apply (bool_decide_unpack _). vm_compute. reflexivity.
Defined.



(** ** Importing a configuration when the gateway cannot be reached *)

Section ImportOffline.
Import Client.

Lemma foldl_deleteStep_offline (l : list Step.t) w :
  let w' := foldl (λ w s, deleteStep false (Step.id s) false w) w l in
  tickets w' = tickets w ∧ steps w' = steps w ∧ db w' = db w
  ∧ notices w' = notices w ++ replicate (length l) "Failed to delete step.".
Proof.
  revert w. induction l as [|x l IH]; intros w; cbn [foldl length replicate].
  - by rewrite app_nil_r.
  - destruct (IH (deleteStep false (Step.id x) false w)) as (Et & Es & Ed & En).
    destruct (deleteStep_offline (Step.id x) false w) as (Et1 & Es1 & Ed1).
    cbv zeta in *. rewrite Et, Es, Ed, En, Et1, Es1, Ed1.
    split; [done|]. split; [done|]. split; [done|].
    rewrite cons_middle, app_assoc. f_equal.
    unfold deleteStep. destruct (js_find _ _); done.
Qed.

Lemma reorderTickets_offline pairs w :
  let w' := Transfer.reorderTickets false pairs w in
  Ticket.id <$> tickets w' = Ticket.id <$> tickets w
  ∧ steps w' = steps w ∧ db w' = db w.
Proof.
  unfold Transfer.reorderTickets. generalize (seq 0 (length (tickets w))).
  intros l. revert w. induction l as [|i l IH]; intros w; [done|].
  cbn [foldl].
  set (w1 := match tickets w !! i with Some _ => _ | None => _ end).
  assert (Ticket.id <$> tickets w1 = Ticket.id <$> tickets w
          ∧ steps w1 = steps w ∧ db w1 = db w) as (Ei & Es & Ed).
  { subst w1. destruct (tickets w !! i) as [t|] eqn:Hi; [|done].
    destruct (Transfer.map_get pairs _) as [idx|]; [|done].
    unfold updateTicket. cbn [tickets steps db showError send set_tickets].
    split; [|done]. rewrite list_fmap_insert. apply list_insert_id.
    rewrite list_lookup_fmap, Hi. by destruct t. }
  destruct (IH w1) as (Ei' & Es' & Ed').
  cbv zeta in *. rewrite Ei', Es', Ed'. done.
Qed.

End ImportOffline.

(** X27. An import of a configuration while the gateway cannot be
    reached changes nothing in the store and leaves the steps and the
    tickets on the board, yet replaces the custom colours when the file
    lists some.  When the file lists a step to create, the action stops
    at the first request that is not caught: one notice "Failed to
    delete step." was shown per step and nothing tells that the import
    ended.  When it lists no step to create, the action runs to its end
    and its last notice is "Settings imported successfully!". *)
Theorem import_offline settings p :
  Transfer.steps settings ≠ None ∨ Transfer.items settings ≠ None →
  let w := Palette.world p in
  let p' := Transfer.importConfiguration false true settings p in
  let w' := Palette.world p' in
  Client.db w' = Client.db w
  ∧ Client.steps w' = Client.steps w
  ∧ Ticket.id <$> Client.tickets w' = Ticket.id <$> Client.tickets w
  ∧ Palette.customColors p'
    = default (Palette.customColors p) (Transfer.customColors settings)
  ∧ match Transfer.steps settings with
    | Some (_ :: _) =>
      Client.notices w'
      = Client.notices w
        ++ replicate (length (Client.steps w)) "Failed to delete step."
    | _ => last (Client.notices w') = Some "Settings imported successfully!"
    end.
Proof.
  intros Hsome w p' w'. subst w p' w'. unfold Transfer.importConfiguration.
  destruct (foldl_deleteStep_offline (Client.steps (Palette.world p))
              (Palette.world p)) as (Et1 & Es1 & Ed1 & En1).
  fold (Transfer.deleteAllSteps false (Palette.world p)) in Et1, Es1, Ed1, En1.
  destruct (Transfer.steps settings) as [[|first rest]|] eqn:Hst;
    destruct (Transfer.items settings) as [pairs|] eqn:Hit;
    try (exfalso; destruct Hsome; done);
    cbn [negb Transfer.replaceSteps Palette.world Palette.customColors
         Transfer.showSuccess Client.loadSteps Client.loadTickets
         Client.showError Client.send Client.db Client.steps Client.tickets
         Client.notices];
    try (split; [|split; [|split; [|split; [done|apply last_snoc]]]]);
    try (split; [|split; [|split; [|split; [done|]]]]); try done.
  all: try (match goal with
            | |- context [Transfer.reorderTickets false ?ps ?w1] =>
              destruct (reorderTickets_offline ps w1) as (Ei & Es & Ed);
              cbv zeta in Ei, Es, Ed; rewrite ?Ei, ?Es, ?Ed
            end;
            cbn [Client.db Client.steps Client.tickets Client.showError
                 Client.send]).
  all: try congruence.
Qed.

Lemma import_offline_witness :
  let cfg :=
    Transfer.mkConfiguration (Some []) (Some [(5, 2); (7, 0)]) (Some ["#123456"]) in
  let p' :=
    Transfer.importConfiguration false true cfg
      (Palette.mk sample_world ["#00ff00"] None) in
  Client.db (Palette.world p') = sample_db
  ∧ Palette.customColors p' = ["#123456"]
  ∧ last (Client.notices (Palette.world p'))
    = Some "Settings imported successfully!".
Proof.
  intros cfg p'.
  destruct (import_offline cfg (Palette.mk sample_world ["#00ff00"] None))
    as (Hd & _ & _ & Hc & Hn).
  - left. discriminate.
  - split; [exact Hd|]. split; [exact Hc|exact Hn].
Defined.

(** ** Saving a colour from the picker *)



(** ** The upgrade of an older table of tickets *)

#[local] Instance number_le_trans : Transitive Server.number_le.
Proof. intros a b c. unfold Server.number_le. lia. Qed.

#[local] Instance number_le_total : Total Server.number_le.
Proof. intros a b. unfold Server.number_le. lia. Qed.

Section Upgrade.

Lemma number_rows_store_order all idx rows :
  Server.number_rows all idx rows
  = store_order Ticket.id Ticket.order_index Ticket.set_order_index rows
      (mapi_from Ticket.set_order_index all idx).
Proof.
  revert idx rows. induction all as [|row all IH]; intros idx rows; [done|].
  cbn [Server.number_rows mapi_from]. rewrite IH. reflexivity.
Qed.

Lemma store_order_fmap {B} (g : Ticket.t → B) rows l :
  (∀ i x, g (Ticket.set_order_index i x) = g x) →
  g <$> store_order Ticket.id Ticket.order_index Ticket.set_order_index rows l
  = g <$> rows.
Proof.
  intros Hg. revert rows. induction l as [|t l IH]; intros rows; [done|].
  unfold store_order in *. cbn [foldl]. rewrite IH.
  apply update_first_fmap. intros x. apply Hg.
Qed.

End Upgrade.

(** X29. The upgrade of a table of tickets that has no [order_index]
    column yet: with the ids and the ticket numbers unique, as the table
    requires, the gateway afterwards serves the tickets in the order of
    their numbers, the ticket served at position i carries order i, and
    apart from that column the rows are the ones that were there.  A
    table that has the column is left as it is. *)
Theorem upgrade_orders_by_number db :
  NoDup (Ticket.id <$> Gateway.tickets db) →
  NoDup (Ticket.ticket_number <$> Gateway.tickets db) →
  let served := Gateway.get_tickets (Server.initDatabase false db) in
  StronglySorted Z.le (Ticket.ticket_number <$> served)
  ∧ (∀ (i : nat) t, served !! i = Some t → Ticket.order_index t = Z.of_nat i)
  ∧ Ticket.set_order_index 0 <$> served
    ≡ₚ Ticket.set_order_index 0 <$> Gateway.tickets db
  ∧ Server.initDatabase true db = db.
Proof.
  intros Hi Hn served. subst served.
  unfold Server.initDatabase, Gateway.get_tickets. cbn [Gateway.tickets].
  set (rows0 := Ticket.set_order_index 0 <$> Gateway.tickets db).
  set (all := merge_sort Server.number_le rows0).
  rewrite number_rows_store_order. fold (mapi Ticket.set_order_index all).
  set (l := mapi Ticket.set_order_index all).
  set (rows := store_order _ _ _ rows0 l).
  assert (Ticket.id <$> rows0 = Ticket.id <$> Gateway.tickets db) as Ei0.
  { subst rows0. rewrite <- list_fmap_compose. by apply list_fmap_ext. }
  assert (Ticket.ticket_number <$> rows0
          = Ticket.ticket_number <$> Gateway.tickets db) as En0.
  { subst rows0. rewrite <- list_fmap_compose. by apply list_fmap_ext. }
  assert (all ≡ₚ rows0) as Hall by apply merge_sort_Permutation.
  pose (g := λ x : Ticket.t, (Ticket.id x, Ticket.ticket_number x)).
  assert (g <$> rows = g <$> rows0) as Eg by by apply store_order_fmap.
  assert (g <$> l = g <$> all) as Egl.
  { subst l. unfold mapi. by apply mapi_from_key. }
  assert (∀ x, x ∈ rows ∨ x ∈ l → ∃ x0, x0 ∈ rows0 ∧ g x0 = g x) as Horig.
  { intros x [Hx|Hx].
    - assert (g x ∈ g <$> rows0) as Hgx
        by (rewrite <- Eg; by apply list_elem_of_fmap_2).
      apply list_elem_of_fmap in Hgx as (x0 & E & Hx0). by exists x0.
    - assert (g x ∈ g <$> all) as Hgx
        by (rewrite <- Egl; by apply list_elem_of_fmap_2).
      apply list_elem_of_fmap in Hgx as (x0 & E & Hx0). exists x0.
      split; [by rewrite <- Hall|done]. }
  assert (∀ (i : nat) t r,
            l !! i = Some t → r ∈ rows →
            Ticket.ticket_number r = Ticket.ticket_number t →
            Ticket.order_index r = Z.of_nat i) as Hpos.
  { intros i t r Ht Hr E.
    destruct (Horig r (or_introl Hr)) as (r0 & Hr0 & Er).
    destruct (Horig t (or_intror (list_elem_of_lookup_2 _ _ _ Ht)))
      as (t0 & Ht0 & Et).
    injection Er as Er1 Er2. injection Et as Et1 Et2.
    assert (r0 = t0) as ->.
    { apply (NoDup_key_inj Ticket.ticket_number rows0); [|done|done|lia].
      by rewrite En0. }
    rewrite <- (mapi_lookup_pos Ticket.order_index Ticket.set_order_index
                  (λ _ _, eq_refl) all i t Ht).
    eapply (store_order_agrees Ticket.id Ticket.order_index
              Ticket.set_order_index (λ _ _, eq_refl) (λ _ _, eq_refl)
              rows0 l t r).
    - by rewrite Ei0.
    - assert (Ticket.id <$> l = Ticket.id <$> all) as ->.
      { subst l. unfold mapi. by apply mapi_from_key. }
      rewrite Hall. by rewrite Ei0.
    - by eapply list_elem_of_lookup_2.
    - exact Hr.
    - lia. }
  assert (Ticket.ticket_number <$> merge_sort Gateway.ticket_le rows
          = Ticket.ticket_number <$> l) as Eserved.
  { apply (reload_in_order Ticket.ticket_number Ticket.order_index
             Gateway.ticket_le).
    - unfold Gateway.ticket_le. intros; lia.
    - unfold Gateway.ticket_le. intros; lia.
    - assert (Ticket.ticket_number <$> rows = Ticket.ticket_number <$> rows0)
        as -> by by apply store_order_fmap.
      assert (Ticket.ticket_number <$> l = Ticket.ticket_number <$> all) as ->.
      { subst l. unfold mapi. by apply mapi_from_key. }
      by rewrite Hall.
    - exact Hpos. }
  split; [|split; [|split; [|done]]].
  - rewrite Eserved.
    assert (Ticket.ticket_number <$> l = Ticket.ticket_number <$> all) as ->.
    { subst l. unfold mapi. by apply mapi_from_key. }
    apply (StronglySorted_fmap _ Server.number_le); [by intros x y|].
    subst all. apply (StronglySorted_merge_sort Server.number_le).
  - intros i t Ht.
    assert ((Ticket.ticket_number <$> l) !! i = Some (Ticket.ticket_number t))
      as Hl by (rewrite <- Eserved; by rewrite list_lookup_fmap, Ht).
    rewrite list_lookup_fmap in Hl.
    destruct (l !! i) as [t'|] eqn:Ht'; [|done]. injection Hl as Hl.
    apply (Hpos i t' t Ht'); [|done].
    rewrite <- (merge_sort_Permutation Gateway.ticket_le rows).
    by eapply list_elem_of_lookup_2.
  - rewrite merge_sort_Permutation.
    assert (Ticket.set_order_index 0 <$> rows
            = Ticket.set_order_index 0 <$> rows0) as ->
      by by apply store_order_fmap.
    subst rows0. rewrite <- list_fmap_compose.
    erewrite list_fmap_ext; [reflexivity|]. by intros i [] _.
Qed.

Lemma upgrade_orders_by_number_witness :
  let old :=
    Gateway.mkDb
      [Ticket.mk 1 12 "pink" "" None 0; Ticket.mk 2 5 "blue" "x" None 0;
       Ticket.mk 3 7 "white" "" None 0] [] 3 0 in
  StronglySorted Z.le
    (Ticket.ticket_number <$> Gateway.get_tickets (Server.initDatabase false old))
  ∧ Ticket.id <$> Gateway.get_tickets (Server.initDatabase false old) = [2; 3; 1].
Proof.
  intros old.
  destruct (upgrade_orders_by_number old) as (Hs & _).
  - apply (bool_decide_unpack _). vm_compute. reflexivity.
  - apply (bool_decide_unpack _). vm_compute. reflexivity.
  - split; [exact Hs|]. vm_compute. reflexivity.
Defined.
